(* ===== verification/_CoqProject ===== *)
-Q . S2P
Prelude.v
Program.v
GoString.v
GoUnicode.v
GoConv.v
GoErrors.v
GoJson.v
GoPath.v
TmuxQuote.v
TmuxFormat.v
GoBase64.v
TmuxArgs.v
TmuxServer.v
TmuxSessions.v
TmuxProps.v
Target.v
Helper.v
GoUtf8.v
InstanceName.v
GoOS.v
Store.v
Lease.v
PlainCodec.v
StoreProps.v
StoreWrite.v
StoreInvariant.v
StoreResolve.v
LeaseProps.v
LeaseSteps.v
Control.v
PlainControl.v
ControlProps.v
MirrorProtocol.v
MirrorCipher.v
MirrorCipherProps.v
MirrorPairing.v
MirrorClient.v
MirrorClientProps.v
MirrorReaderProps.v
MirrorDiagnostics.v
MirrorDiagnosticsProps.v
MirrorManager.v
MirrorManagerRun.v
MirrorManagerProps.v
MirrorManagerRelease.v
MirrorViewerParse.v
MirrorViewerParseProps.v
MirrorViewer.v
MirrorViewerProps.v
MirrorViewerPins.v
MirrorViewerRun.v
MirrorViewerClose.v
MirrorViewerCloseProps.v
MirrorServer.v
MirrorServerProps.v
MirrorServerClose.v
MirrorTunnel.v
MirrorTunnelProps.v
ShareService.v
ShareServiceProps.v
ShareHandlerProps.v
ShareProcess.v
ShareProcessProps.v
GoTime.v
GoShell.v
CommandLine.v
CommandLineProps.v
Application.v
Doctor.v
Commands.v
CommandTextProps.v
CommandProps.v
ArgumentsProps.v
DoctorProps.v
StartProps.v
