(* ===== verification/Prelude.v ===== *)
(** * Wrap: a verification library for the terminal sharing tool

    Wrap shares a tmux window with a browser.  A worker process finds the
    window it was started in, links it into a hidden helper session, records
    itself in a directory of instances, answers requests on a control socket,
    and mirrors the window over an encrypted web socket behind a quick tunnel.
    This library models the parts of the Go program below and proves what makes
    them correct.  Source paths are relative to [src/].

    ** Conventions

    Go strings and byte slices are [bytes], lists of bytes; [!"text"] is a
    literal, and [r <| f := v |>] updates a field of a record.  Integers are
    [Z]; where a width matters the wrap-around or the bound is written out ([MirrorCipher.next_counter], [GoConv.parse_int]).  A
    call that returns a value or an error is a [result]; an error returned
    alone is an [option error] ([GoErrors]).  Effects are modelled as programs:
    - [TmuxServer.tm]: programs that run tmux commands.  Their environment, an
      arbitrary function of the commands run so far, stands for tmux, for other
      clients and for the operating system.
    - [GoOS.os]: programs that make file system calls.  An oracle decides call
      by call which of them fail and how; failing every call from some point on
      is a crash, so what holds for every oracle holds across crashes.
    - [MirrorViewer.vm]: programs that ask tmux, a pseudo terminal and the clock;
      an arbitrary environment answers call by call.
    - [Program.prog calls answer]: programs that make the calls of a type, each
      answered at the type of its answers ([ShareService.call],
      [ShareProcess.pcall], [Application.acall]).  [Program.runs] gives the
      traces of a program under every environment: calls with their answers, and
      the result.  A theorem about them states a monitor, a function of the trace
      so far that says which calls are allowed, and [Program.wp] checks a program
      against it.  Where the answers depend on the call alone, [Program.eval]
      computes the result.  A program that runs beside others is a thread
      ([Program.thread_step]): each of its calls is a step on a state they share
      ([MirrorClient.call_step], [MirrorServerClose.kdoes]), and between two
      calls the others take theirs; [Program.thread_monitored] checks it against
      a monitor that agrees with the state.  Several programs that share a state
      are a pool ([Program.pool_step]): each has a monitor of its own, and a call
      of one keeps what is known of the others ([Program.pool_monitored]).
    Components that run concurrently are step relations ([Control.serve_step],
    [LeaseSteps.lease_step], [MirrorClient.conn_step], [MirrorManager.mstep],
    [MirrorViewerPins.vstep], [MirrorServer.server_step],
    [MirrorTunnel.tunnel_step]) and their theorems hold in every reachable
    state ([reachable], [reachable_invariant] below).

    ** Files

    Go's standard library, as far as the program uses it:
    [GoString] (strings), [GoUnicode] and [GoUtf8] (UTF-8, white space, printable
    characters; the Unicode tables are the class [UnicodeTables]), [GoConv]
    (strconv, hex, quoting), [GoErrors], [GoJson] (escaping of strings),
    [GoPath] (path/filepath), [GoBase64],
    [GoTime] (time), [GoOS] (files, locks, and the [respects] kit for facts that
    every run keeps).  [Program] is the kit of programs and traces; [GoShell] has
    what Wrap writes for a shell and a reading of a shell's words.

    internal/tmux/tmux.go: [TmuxQuote] (identifiers, quoting of commands, and a
    reading of tmux's command grammar), [TmuxFormat] (format conditions and a
    reading of them), [TmuxArgs] (argument builders, window pins),
    [TmuxServer] (the methods of [Server]), [TmuxSessions] (markers, listings,
    versions), [TmuxProps] (theorems).

    internal/target: [Target] (target.go, create.go), [Helper] (helper.go).

    internal/instance: [InstanceName] (name.go, model.go), [Store] and [Lease]
    (store.go), [PlainCodec] (a record format for examples), [StoreProps],
    [StoreWrite], [StoreInvariant], [StoreResolve], [LeaseProps] (theorems),
    [LeaseSteps] (processes that use leases at the same time: [AcquireLease],
    [LeaseHeld], closing and pruning in the steps of [Lease], with others between
    them).

    internal/control: [Control] (protocol.go, server.go, client.go; the accept
    loop with its goroutines, the mutex [opMu] and operations of many steps,
    which a handler describes as [Control.Stepped]; [ShareService.service_next]
    gives the steps of the share's handler), [PlainControl] (a format for examples), [ControlProps] (theorems).

    internal/mirror: [MirrorProtocol] (protocol.go), [MirrorCipher] (cipher.go),
    [MirrorCipherProps], [MirrorPairing] (pairing.go), [MirrorClient],
    [MirrorClientProps] and [MirrorReaderProps] (client.go), [MirrorDiagnostics] and
    [MirrorDiagnosticsProps] (diagnostics.go and its unix file),
    [MirrorManager] (the methods of manager.go as instructions),
    [MirrorManagerRun] (their interleaving), [MirrorManagerProps] and
    [MirrorManagerRelease] (theorems), [MirrorViewerParse] and
    [MirrorViewerParseProps] (what viewer.go reads from tmux), [MirrorViewer]
    (its programs), [MirrorViewerProps] (the check of the geometry),
    [MirrorViewerPins] (shared window pins), [MirrorViewerRun] (a viewer's
    run), [MirrorViewerClose] and [MirrorViewerCloseProps] (its goroutines as a
    pool; [MirrorViewerClose.alone_run] ties them to the run), [MirrorServer], [MirrorServerProps] and [MirrorServerClose] (server.go),
    [MirrorTunnel] and [MirrorTunnelProps] (tunnel.go).

    internal/share: [ShareService] (service.go: [Run] with its deferred calls, and
    the control handler), [ShareServiceProps] (what Run takes and gives back),
    [ShareHandlerProps] (the handler over the store), [ShareProcess] (process.go:
    [Start], the launch record and the readiness status), [ShareProcessProps].

    internal/doctor: [Doctor] (doctor.go), [DoctorProps].

    cmd/wrap: [CommandLine] (main.go and the worker's flags),
    [CommandLineProps], [Application] (the calls that the commands make),
    [Commands] (commands.go, and main), [CommandTextProps] (what people are
    shown), [CommandProps] (records of dead workers, and kill), [StartProps]
    (sharing a window), [ArgumentsProps] (what one process of Wrap tells another).

    ** Theorems

    - tmux (C1): guarded mutations run exactly the intended command under
      exactly the intended condition.  Beside it: window pins, markers, listings
      and command strings, the version check.
    - commands (C2, C4): whatever is answered, only what a dead worker left is
      removed, under its lease; kill reports success only when workers are over.
    - share service (C3, C5): Run gives back what it took in reverse order,
      reports what failed and keeps its record unless all of it was given back;
      the served record is the stored one, up to its name.
    - doctor (C6): the report says what the answers were.
    - command line (C7): the arguments are read as the usage text says.
    - helper (C8): a helper session that tmux announced is returned complete or
      a kill of it was issued.
    - instances (C9 to C12, C14, C15): an automatic name is found, valid and free; a
      record is written atomically under every failure; selectors stay unique
      under every sequence of operations; resolving means what it says; a lease
      file is locked by one process, which keeps the lease if the file was still
      at its path when it was locked; pruning spares what is alive or recorded.
    - processes (C13): what one process of Wrap passes to another arrives.
    - control socket (C16 to C19): what a connection can do, that a call and its
      answer agree, that the operations of concurrent connections run one after
      the other, and that the server removes no file but its own socket.
    - tunnel (C20): the process is never lost and its URL is the only one.
    - mirror connection (C23, C25 to C29): nonces never repeat; an attacker
      can only cut the channel short; the queue is bounded and no wake-up is
      lost; the peer receives what was accepted, in order; waiting senders are
      answered once; only a peer with the secret is let in; the reader acts on
      the peer's frames only and acknowledges a close once.
    - shown text (C24): a name or path that is shown has no control characters.
    - worker process (C30): Start returns a ready worker or leaves none behind,
      and says what it could not clean up.
    - diagnostics (C31): lines and files are bounded.
    - mirror manager (C32 to C34): its fields agree; nothing it opened is left
      open; a detached client's viewers send nothing.
    - start (C36): a window is shared by one worker.
    - mirror viewer (C21, C35, C37 to C39): captures are read exactly; the
      geometry is verified within its attempts; pins follow the viewers, and one
      that could not be restored is kept; a run reports what happened; its goroutines end it once and all learn how.
    - mirror server (C22, C40): closing it leaves nothing behind and can finish;
      places are bounded and kept, and only clients with the current secret stay.
    Examples beside the theorems show edges of the code, among them places
    where it does not do what it means to.

    ** Parameters

    SHA-256, HKDF, AES-GCM, randomness, URL parsing and the QR library are
    arguments, with what the code relies on as hypotheses ([MirrorCipher.GCM],
    [MirrorPairing.prints_origins]).  The JSON formats are the classes
    [Store.RecordCodec], [Control.ControlCodec] and [MirrorProtocol.FrameCodec]:
    a written value reads back, with nothing after it.  Each has a concrete
    instance that shows the laws can hold.

    ** Fuel

    Loops that are not structural take fuel: [GoConv.format_uint] one step per
    binary digit and one more, [MirrorProtocol.ChunkOutput] the length of the
    output (each round takes at least a byte), [InstanceName.ChooseName] one step
    more than there are used names (one of that many suffixes is free, C9),
    [GoOS.MkdirAll] the length of the path, [GoOS.CreateTemp] Go's own limit of
    ten thousand tries, [MirrorDiagnostics.trim_to_valid] the length of the path.
    The viewer's loops recurse on their attempts: 200 before and 200 after the
    correction of the size, 3 for a pin.  [CommandLine.parse_flags] takes one more
    than there are arguments, since each flag takes at least one.  A loop
    that waits may wait for ever: [ShareService.watch] and
    [ShareService.waitForControl] take any number of rounds and answer [None] when
    they are still waiting after it; what the theorems say of a run that returned
    holds for every number.  [MirrorClient.run] and [MirrorViewerClose.run] take any
    number of reads likewise.  [Commands.waitForStopped] has a deadline, and how
    often it looks before that is an answer of the environment.

    ** Bounds of the models

    A file call is one step, and so is a store operation, which runs under the
    store's lock.  Leases have no such lock: C14 lets others run between any two
    of their steps, and [LeaseSteps.pruned_between_open_and_lock] shows what a
    pruner can do between an opening and its lock.  A symbolic link is followed for one hop.  Deadlines and contexts appear as
    the errors they cause.  In the manager and the server a section under a lock
    is one step, and so is a call of another component; starting a viewer is one
    step; a Go map is ranged over in the order of the encoding of its keys.
    That a step is possible says nothing about when it is taken: liveness is
    stated as what can still happen, or per run.  Of the libraries it is assumed
    that a web socket that was closed reads nothing, that a read of a terminal
    fails once it is closed, and that no request comes after
    [http.Server.Shutdown] returned without an error.

    ** Not modelled

    internal/mirror/assets.go embeds files, and diagnostics_file_portable.go and
    diagnostics_file_other.go are for other systems.  The diagnostics log is opened as on
    unix.  The layout of the table that list prints and the JSON text of command
    output are calls of the environment, as are functions that tests replace and
    the build information that main's version comes from.  A model of
    encoding/json would replace the format parameters. *)

From Stdlib Require Export Strings.Byte ZArith Lia.
From stdpp Require Export base tactics list gmap sets option.
From stdpp Require Export strings.

#[global] Set Default Goal Selector "!".

(** ** Bytes and Go strings

    A Go [string] and a Go [[]byte] are both finite sequences of bytes. *)

Abbreviation bytes := (list byte).

Definition bs (s : string) : bytes := String.list_byte_of_string s.
Arguments bs s : simpl never.

Declare Scope go_scope.
Delimit Scope go_scope with go.
Notation "! s" := (bs s%string) (at level 1, s at level 0, format "! s") : go_scope.
#[global] Open Scope go_scope.

#[global] Instance byte_eq_dec : EqDecision byte := Byte.byte_eq_dec.
#[global] Program Instance byte_countable : Countable byte :=
  inj_countable Byte.to_N Byte.of_N _.
Next Obligation. intros b. apply Byte.of_to_N. Qed.

(** The numeric value of a byte, 0..255. *)
Definition bz (b : byte) : Z := Z.of_N (Byte.to_N b).

(** The byte of a number taken modulo 256. *)
Definition zb (z : Z) : byte :=
  match Byte.of_N (Z.to_N (z mod 256)) with Some b => b | None => x00 end.

(** A boolean property of all 256 bytes can be checked by evaluation. *)
Definition all_bytes : bytes :=
  omap (fun n => Byte.of_N (N.of_nat n)) (seq 0 256).

Lemma elem_of_all_bytes (b : byte) : b ∈ all_bytes.
Proof.
  apply list_elem_of_omap. exists (N.to_nat (Byte.to_N b)). split.
  - apply elem_of_seq. pose proof (Byte.to_N_bounded b). lia.
  - by rewrite N2Nat.id, Byte.of_to_N.
Qed.

Lemma byte_forall (P : byte -> bool) :
  forallb P all_bytes = true -> forall b, P b = true.
Proof.
  intros H b. rewrite forallb_forall in H. apply H.
  apply list_elem_of_In, elem_of_all_bytes.
Qed.

(** Proves a closed decidable statement about every byte by evaluation. *)
Ltac all_bytes :=
  match goal with
  | |- forall b : byte, @?P b = true =>
      apply (byte_forall P); vm_compute; reflexivity
  end.

Lemma bz_range b : (0 <= bz b < 256)%Z.
Proof. unfold bz. pose proof (Byte.to_N_bounded b). lia. Qed.

(** Adds the range of every byte in the goal and its context. *)
Ltac bz_ranges :=
  repeat match goal with
  | |- context [bz ?b] =>
      lazymatch goal with
      | _ : (0 <= bz b < 256)%Z |- _ => fail
      | _ => pose proof (bz_range b)
      end
  end.

Lemma zb_bz b : zb (bz b) = b.
Proof.
  unfold zb, bz. rewrite Z.mod_small.
  - rewrite N2Z.id, Byte.of_to_N. done.
  - pose proof (Byte.to_N_bounded b). lia.
Qed.

Lemma bz_zb z : bz (zb z) = (z mod 256)%Z.
Proof.
  unfold bz, zb. pose proof (Z.mod_pos_bound z 256).
  destruct (Byte.of_N _) eqn:E.
  - apply Byte.to_of_N in E. rewrite E. lia.
  - apply Byte.of_N_None_iff in E. lia.
Qed.

#[global] Instance bz_inj : Inj (=) (=) bz.
Proof. intros x y H. rewrite <- (zb_bz x), <- (zb_bz y). by rewrite H. Qed.

(** ** Boolean helpers *)

Notation "x ==b y" := (bool_decide (x = y)) (at level 70, no associativity) : go_scope.
Notation "x ∈b y" := (bool_decide (x ∈ y)) (at level 70, no associativity) : go_scope.

(** Length as the signed integer Go's [len] returns. *)
Definition len {A} (l : list A) : Z := Z.of_nat (length l).

Lemma len_nonneg {A} (l : list A) : (0 <= len l)%Z.
Proof. unfold len. lia. Qed.
Lemma len_app {A} (l k : list A) : len (l ++ k) = (len l + len k)%Z.
Proof. unfold len. rewrite length_app. lia. Qed.
Lemma len_cons {A} (x : A) (l : list A) : len (x :: l) = (1 + len l)%Z.
Proof. unfold len. simpl. lia. Qed.
Lemma len_nil {A} : len (@nil A) = 0%Z.
Proof. done. Qed.
Lemma len_zero_inv {A} (l : list A) : len l = 0%Z -> l = [].
Proof. destruct l; [done|]. rewrite len_cons. pose proof (len_nonneg l). lia. Qed.

(** ** Reachability

    A state machine is a step relation; an invariant is shown by induction
    on how a state is reached. *)
Section Reachable.
Context {S : Type} (init : S -> Prop) (step : S -> S -> Prop).

Inductive reachable : S -> Prop :=
| reachable_init s : init s -> reachable s
| reachable_step s t : reachable s -> step s t -> reachable t.

Lemma reachable_invariant (I : S -> Prop) :
  (forall s, init s -> I s) ->
  (forall s t, reachable s -> I s -> step s t -> I t) ->
  forall s, reachable s -> I s.
Proof. intros Hi Hs s. induction 1; eauto. Qed.

Lemma reachable_rtc w w' : reachable w -> rtc step w w' -> reachable w'.
Proof. intros Hw. induction 1 as [|x y z Hxy _ IH]; [done|]. apply IH. by eapply reachable_step. Qed.
End Reachable.

(** ** Record update

    [r <| field := v |>] replaces one field of a record whose eta-expansion is
    an instance of [Eta]; the setter is found by abstracting the projection. *)
Class Eta (R : Type) := eta : R -> R.
Class Setter {R T : Type} (proj : R -> T) := setter : (T -> T) -> R -> R.

Ltac find_setter :=
  lazymatch goal with
  | |- @Setter ?R ?T ?proj =>
      let e := eval cbv beta delta [eta] in (@eta R _) in
      let e := lazymatch e with
               | fun r => _ => e
               | ?c _ _ => eval cbv beta delta [c] in e   (* a record with parameters *)
               | ?c _ => eval cbv beta delta [c] in e
               | _ => eval cbv delta [e] in e
               end in
      lazymatch eval pattern proj in e with
      | ?f _ => exact (fun change => f (fun r => change (proj r)))
      end
  end.
#[global] Hint Extern 1 (Setter _) => find_setter : typeclass_instances.

Notation "r <| field := v |>" := (setter (proj := field) (fun _ => v) r)
  (at level 1, left associativity, format "r  <| field  :=  v |>") : go_scope.

(** ** List lemmas shared by the components *)

Lemma take_drop_app {A} (n : nat) (l : list A) : take n l ++ drop n l = l.
Proof. apply take_drop. Qed.

(** The last [n] elements of a list. *)
Definition lastn {A} (n : nat) (l : list A) : list A := drop (length l - n) l.

Lemma lastn_all {A} (n : nat) (l : list A) : length l <= n -> lastn n l = l.
Proof.
  intros H. unfold lastn. replace (length l - n) with 0 by lia. apply drop_0.
Qed.

Lemma length_lastn {A} (n : nat) (l : list A) : length (lastn n l) = n `min` length l.
Proof. unfold lastn. rewrite length_drop. lia. Qed.

Lemma lastn_app_ge {A} (n : nat) (l k : list A) :
  n <= length k -> lastn n (l ++ k) = lastn n k.
Proof.
  intros H. unfold lastn. rewrite length_app.
  replace (length l + length k - n) with (length l + (length k - n)) by lia.
  by rewrite <- drop_drop, drop_app_length.
Qed.

Lemma lastn_app_lastn {A} (n : nat) (l k : list A) :
  lastn n (lastn n l ++ k) = lastn n (l ++ k).
Proof.
  destruct (decide (n <= length k)).
  - by rewrite !lastn_app_ge.
  - unfold lastn. rewrite !length_app, length_drop, !drop_app, length_drop, drop_drop.
    f_equal; f_equal; lia.
Qed.

(** A buffer that keeps the last [n] bytes written: appending to it. *)
Lemma lastn_write {A} (n : nat) (data out : list A) :
  (if n <=? length data then drop (length data - n) data
   else (if 0 <? length (lastn n out) + length data - n
         then drop (length (lastn n out) + length data - n) (lastn n out) else lastn n out) ++ data)
  = lastn n (out ++ data).
Proof.
  destruct (Nat.leb_spec n (length data)); [by rewrite lastn_app_ge|].
  rewrite <- lastn_app_lastn. set (tail := lastn n out). unfold lastn at 1. rewrite length_app.
  destruct (Nat.ltb_spec 0 (length tail + length data - n)).
  - by rewrite drop_app_le by lia.
  - by replace (length tail + length data - n) with 0 by lia.
Qed.

(** ** Counting the elements that satisfy a test *)

Definition count {A} (p : A -> bool) (l : list A) : Z := len (List.filter p l).

Lemma count_nonneg {A} (p : A -> bool) l : (0 <= count p l)%Z.
Proof. apply len_nonneg. Qed.

Lemma count_app {A} (p : A -> bool) l k : count p (l ++ k) = (count p l + count p k)%Z.
Proof. unfold count. by rewrite List.filter_app, len_app. Qed.

Lemma count_cons {A} (p : A -> bool) x l : count p (x :: l) = ((if p x then 1 else 0) + count p l)%Z.
Proof. unfold count. cbn [List.filter]. destruct (p x); [by rewrite len_cons|done]. Qed.

Lemma count_snoc {A} (p : A -> bool) l x : count p (l ++ [x]) = (count p l + (if p x then 1 else 0))%Z.
Proof. rewrite count_app, count_cons. change (count p []) with 0%Z. lia. Qed.

Lemma count_insert {A} (p : A -> bool) l i x y : l !! i = Some x ->
  count p (<[i := y]> l) = (count p l - (if p x then 1 else 0) + (if p y then 1 else 0))%Z.
Proof.
  intros Hi. pose proof (take_drop_middle _ _ _ Hi) as E. rewrite <- E at 2.
  rewrite insert_take_drop by (by eapply lookup_lt_Some). rewrite !count_app, !count_cons. lia.
Qed.

Lemma count_pos {A} (p : A -> bool) l i x : l !! i = Some x -> p x = true -> (0 < count p l)%Z.
Proof.
  intros Hi Hp. rewrite <- (take_drop_middle _ _ _ Hi), count_app, count_cons, Hp.
  pose proof (count_nonneg p (take i l)). pose proof (count_nonneg p (drop (S i) l)). lia.
Qed.

Lemma count_zero {A} (p : A -> bool) l : Forall (fun x => p x = false) l -> count p l = 0%Z.
Proof. induction 1 as [|x l Hx _ IH]; [done|]. by rewrite count_cons, Hx, IH. Qed.

(** ** Tactics *)

(** Case analysis on the innermost [match] or [if] of the goal. *)
Ltac case_goal :=
  match goal with
  | |- context [match ?x with _ => _ end] =>
      lazymatch x with
      | context [match _ with _ => _ end] => fail
      | _ => destruct x eqn:?
      end
  end.

(** The same in a hypothesis. *)
Ltac case_hyp H :=
  match type of H with
  | context [match ?x with _ => _ end] =>
      lazymatch x with
      | context [match _ with _ => _ end] => fail
      | _ => destruct x eqn:?
      end
  end.

(** Turns boolean hypotheses of the code's guards into propositions. *)
Ltac guards :=
  repeat match goal with
  | H : bool_decide _ = true |- _ => apply bool_decide_eq_true in H
  | H : bool_decide _ = false |- _ => apply bool_decide_eq_false in H
  | H : _ && _ = true |- _ => apply andb_true_iff in H; destruct H
  | H : _ || _ = false |- _ => apply orb_false_iff in H; destruct H
  | H : negb _ = true |- _ => apply negb_true_iff in H
  | H : negb _ = false |- _ => apply negb_false_iff in H
  | H : (_ <=? _)%Z = true |- _ => apply Z.leb_le in H
  | H : (_ <=? _)%Z = false |- _ => apply Z.leb_gt in H
  | H : (_ <? _)%Z = true |- _ => apply Z.ltb_lt in H
  | H : (_ <? _)%Z = false |- _ => apply Z.ltb_ge in H
  | H : (_ =? _)%Z = true |- _ => apply Z.eqb_eq in H
  | H : (_ =? _)%Z = false |- _ => apply Z.eqb_neq in H
  end.

(** Splits a hypothesis [H] along every guard of the code and discards the
    branches that contradict its result. *)
Ltac branches H :=
  repeat (case_hyp H; simplify_eq); guards.
