(* ===== verification/Program.v ===== *)
(** * Programs that call their environment

    A program asks for calls whose answers have the call's type; an event is a
    call with its answer, and [runs] relates a program to the traces it can
    have under any environment.  [deferring] is Go's [defer]. *)

From S2P Require Import Prelude.

Section Program.
Context {C : Type} {answer : C -> Type}.

Inductive prog (A : Type) :=
| Ret (a : A)
| Do (c : C) (k : answer c -> prog A).
Arguments Ret {A}. Arguments Do {A}.

#[export] Instance prog_ret : MRet prog := @Ret.
#[export] Instance prog_bind : MBind prog :=
  fun A B f => fix bind m := match m with Ret a => f a | Do c k => Do c (fun r => bind (k r)) end.

Definition ask (c : C) : prog (answer c) := Do c Ret.

(** ** Traces *)

Definition event : Type := {c : C & answer c}.
Definition ev (c : C) (r : answer c) : event := existT c r.

Fixpoint runs {A} (m : prog A) (t : list event) (a : A) : Prop :=
  match m with
  | Ret b => t = [] /\ a = b
  | Do c k => exists r t', t = ev c r :: t' /\ runs (k r) t' a
  end.

(** The run in a given environment, which answers by what happened before. *)
Fixpoint exec {A} (h : list event -> forall c, answer c) (past : list event) (m : prog A) : list event * A :=
  match m with
  | Ret a => ([], a)
  | Do c k => let r := h past c in let '(t, a) := exec h (past ++ [ev c r]) (k r) in (ev c r :: t, a)
  end.

Lemma runs_ret {A} (a : A) t b : runs (mret a) t b <-> t = [] /\ b = a.
Proof. done. Qed.

Lemma runs_ask {A} c (f : answer c -> prog A) t a :
  runs (ask c ≫= f) t a <-> exists r t', t = ev c r :: t' /\ runs (f r) t' a.
Proof. done. Qed.

Lemma runs_bind {A B} (m : prog A) (f : A -> prog B) t b :
  runs (m ≫= f) t b <-> exists t1 t2 a, t = t1 ++ t2 /\ runs m t1 a /\ runs (f a) t2 b.
Proof.
  revert t. induction m as [a|c k IH]; intros t; cbn.
  - split; [intros H; by exists [], t, a|]. by intros (t1 & t2 & a' & -> & [-> ->] & H).
  - split.
    + intros (r & t' & -> & (t1 & t2 & a & -> & Hm & Hf)%IH). exists (ev c r :: t1), t2, a.
      split_and!; [done| |done]. by exists r, t1.
    + intros (t1 & t2 & a & -> & (r & t' & -> & Hm) & Hf). exists r, (t' ++ t2). split; [done|].
      apply IH. by exists t', t2, a.
Qed.

Lemma exec_runs {A} h (m : prog A) : forall past, runs m (fst (exec h past m)) (snd (exec h past m)).
Proof.
  induction m as [a|c k IH]; intros past; cbn; [done|].
  specialize (IH (h past c) (past ++ [ev c (h past c)])).
  destruct (exec h _ (k (h past c))) as [t a]. by exists (h past c), t.
Qed.

(** ** Environments whose answers do not change *)

Section Eval.
Variable env : forall c, answer c.

Fixpoint eval {A} (m : prog A) : A :=
  match m with
  | Ret a => a
  | Do c k => eval (k (env c))
  end.

Lemma eval_bind {A B} (m : prog A) (f : A -> prog B) : eval (m ≫= f) = eval (f (eval m)).
Proof. induction m as [a|c k IH]; [done|apply IH]. Qed.

Definition agrees (t : list event) : Prop := Forall (fun e => projT2 e = env (projT1 e)) t.

Lemma runs_eval {A} (m : prog A) : forall t a, runs m t a -> agrees t -> a = eval m.
Proof.
  induction m as [b|c k IH]; intros t a; [by intros [_ ->]|].
  intros (r & t' & -> & Hr) [Hc Ht]%Forall_cons. cbn in Hc. subst r. cbn. by eapply IH.
Qed.

Lemma exec_agrees {A} (m : prog A) : forall past, agrees (fst (exec (fun _ => env) past m)).
Proof.
  induction m as [b|c k IH]; intros past; cbn; [by apply Forall_nil_2|].
  specialize (IH (env c) (past ++ [ev c (env c)])). destruct (exec _ _ _) as [t a]. by constructor.
Qed.
End Eval.

(** ** Deferred calls

    The state of a function's results passes through the deferred function;
    [None] is a body that is still running. *)
Definition deferring {S} (body : prog (option S)) (deferred : S -> prog S) : prog (option S) :=
  r ← body;
  match r with
  | Some s => s' ← deferred s; mret (Some s')
  | None => mret None
  end.

Lemma runs_deferring {S} (body : prog (option S)) d t s' :
  runs (deferring body d) t (Some s') <->
  exists t1 t2 s, t = t1 ++ t2 /\ runs body t1 (Some s) /\ runs (d s) t2 s'.
Proof.
  unfold deferring. rewrite runs_bind. split.
  - intros (t1 & t2 & [s|] & -> & Hb & Hd); [|by destruct Hd as [_ [=]]].
    apply runs_bind in Hd as (t3 & t4 & s1 & -> & Hd & [-> [= <-]]).
    exists t1, t3, s. by rewrite app_nil_r.
  - intros (t1 & t2 & s & -> & Hb & Hd). exists t1, t2, (Some s). split_and!; [done..|].
    apply runs_bind. exists t2, [], s'. by rewrite app_nil_r.
Qed.

(** ** Monitors

    A monitor follows a run: [allowed] says which calls may be made in a state,
    [next] how an event changes it.  [wp m s Q]: from [s], under every
    environment, [m] makes only allowed calls and ends with [Q]. *)
Section Monitor.
Context {S : Type} (allowed : S -> C -> Prop) (next : S -> event -> S).

Fixpoint wp {A} (m : prog A) (s : S) (Q : A -> S -> Prop) : Prop :=
  match m with
  | Ret a => Q a s
  | Do c k => allowed s c /\ forall r, wp (k r) (next s (ev c r)) Q
  end.

Lemma wp_bind {A B} (m : prog A) (f : A -> prog B) s Q :
  wp (m ≫= f) s Q <-> wp m s (fun a s => wp (f a) s Q).
Proof.
  revert s. induction m as [a|c k IH]; intros s; [done|]. cbn.
  split; intros [Ha Hk]; (split; [done|]); intros r; by apply IH.
Qed.

Lemma wp_ask {B} c (f : answer c -> prog B) s Q :
  wp (ask c ≫= f) s Q <-> allowed s c /\ forall r, wp (f r) (next s (ev c r)) Q.
Proof. done. Qed.

Lemma wp_mono {A} (m : prog A) s (Q Q' : A -> S -> Prop) :
  (forall a s, Q a s -> Q' a s) -> wp m s Q -> wp m s Q'.
Proof.
  intros HQ. revert s. induction m as [a|c k IH]; intros s; cbn; [apply HQ|].
  intros [Ha Hk]. split; [done|]. intros r. by apply IH.
Qed.

Lemma wp_runs {A} (m : prog A) s Q t a : wp m s Q -> runs m t a ->
  Q a (foldl next s t) /\
  forall t1 c r t2, t = t1 ++ ev c r :: t2 -> allowed (foldl next s t1) c.
Proof.
  revert s t. induction m as [b|c k IH]; intros s t; cbn.
  - intros HQ [-> ->]. split; [done|]. by intros [].
  - intros [Ha Hk] (r & t' & -> & Hr). destruct (IH r _ t' (Hk r) Hr) as [HQ Hall]. split; [done|].
    intros [|e t1] c' r' t2 Heq; cbn in Heq; [by injection Heq as <-|].
    injection Heq as <- Heq. by apply (Hall t1 c' r' t2).
Qed.

(** ** Monitors that know more about the answers

    [sees s c r]: the answer [r] is possible in the monitor's state [s]. *)
Section Sees.
Variable sees : S -> forall c, answer c -> Prop.

Fixpoint twp {A} (m : prog A) (s : S) (Q : A -> S -> Prop) : Prop :=
  match m with
  | Ret a => Q a s
  | Do c k => allowed s c /\ forall r, sees s c r -> twp (k r) (next s (ev c r)) Q
  end.

Lemma twp_ask {B} c (f : answer c -> prog B) s Q :
  twp (ask c ≫= f) s Q <-> allowed s c /\ forall r, sees s c r -> twp (f r) (next s (ev c r)) Q.
Proof. done. Qed.

Lemma twp_bind {A B} (m : prog A) (f : A -> prog B) s Q :
  twp (m ≫= f) s Q <-> twp m s (fun a s => twp (f a) s Q).
Proof.
  revert s. induction m as [a|c k IH]; intros s; [done|]. cbn.
  split; intros [Ha Hk]; (split; [done|]); intros r Hr; by apply IH, Hk.
Qed.

Lemma twp_mono {A} (m : prog A) s (Q Q' : A -> S -> Prop) :
  (forall a s, Q a s -> Q' a s) -> twp m s Q -> twp m s Q'.
Proof.
  intros HQ. revert s. induction m as [a|c k IH]; intros s; cbn; [apply HQ|].
  intros [Ha Hk]. split; [done|]. intros r Hr. by apply IH, Hk.
Qed.

(** ** Threads

    A program that runs beside others on a shared state: [does c r w w'] says
    what the call [c] with the answer [r] makes of the state, [other] what the
    others may do between two calls. *)
Section Thread.
Context {W A : Type} (does : forall c, answer c -> W -> W -> Prop) (other : W -> W -> Prop).

Record thread := { th_shared : W; th_rest : prog A; th_past : list event }.

Inductive thread_step : thread -> thread -> Prop :=
| th_other x w : other (th_shared x) w ->
    thread_step x {| th_shared := w; th_rest := th_rest x; th_past := th_past x |}
| th_call x c k r w : th_rest x = Do c k -> does c r (th_shared x) w ->
    thread_step x {| th_shared := w; th_rest := k r; th_past := th_past x ++ [ev c r] |}.

(** [agree s w] ties the monitor to the shared state: the others keep it, and a
    call that is allowed sees only what [sees] says and keeps it. *)
Variable agree : S -> W -> Prop.
Hypothesis agree_other : forall s w w', agree s w -> other w w' -> agree s w'.
Hypothesis agree_call : forall s c r w w', agree s w -> allowed s c -> does c r w w' ->
  sees s c r /\ agree (next s (ev c r)) w'.

(** The trace is one the monitor allows, and the monitor agrees with the state. *)
Definition monitored (s : S) (Q : A -> S -> Prop) (x : thread) : Prop :=
  agree (foldl next s (th_past x)) (th_shared x) /\ twp (th_rest x) (foldl next s (th_past x)) Q /\
  forall t1 e t2, th_past x = t1 ++ e :: t2 ->
    allowed (foldl next s t1) (projT1 e) /\ sees (foldl next s t1) (projT1 e) (projT2 e).

Lemma thread_monitored s Q (init : thread -> Prop) : (forall x, init x -> monitored s Q x) ->
  forall x, reachable init thread_step x -> monitored s Q x.
Proof.
  intros Hinit x. revert x. apply reachable_invariant; [done|].
  intros x x' _ (Ha & Hm & Ht) Hstep. destruct Hstep as [x w Ho|x c k r w Hr Hd].
  { split_and!; [by eapply agree_other|done..]. }
  rewrite Hr in Hm. destruct Hm as [Hal Hk]. destruct (agree_call _ _ _ _ _ Ha Hal Hd) as [Hs Ha'].
  unfold monitored. cbn [th_past th_shared th_rest]. rewrite foldl_app. cbn [foldl].
  split_and!; [done|by apply Hk|]. intros t1 e t2 E. destruct t2 as [|e2 t3 _] using rev_ind.
  - apply app_inj_2 in E as [<- [= <-]]; done.
  - rewrite app_comm_cons, app_assoc in E. apply app_inj_2 in E as [E _]; [|done]. by apply (Ht t1 e t3).
Qed.

Lemma rtc_others m t w w' : rtc other w w' ->
  rtc thread_step {| th_shared := w; th_rest := m; th_past := t |} {| th_shared := w'; th_rest := m; th_past := t |}.
Proof.
  induction 1 as [w|w w1 w2 Hs _ IH]; [done|]. eapply rtc_l; [|exact IH].
  exact (th_other {| th_shared := w; th_rest := m; th_past := t |} w1 Hs).
Qed.

(** The thread can finish when each call it may make can be answered, perhaps
    after the others have done something, without leaving [fine]. *)
Lemma thread_can_finish {Q : A -> S -> Prop} (fine : S -> Prop) :
  (forall s c w, fine s -> agree s w -> allowed s c ->
     exists w1 r w2, rtc other w w1 /\ does c r w1 w2 /\ fine (next s (ev c r))) ->
  forall m s t w, fine s -> agree s w -> twp m s Q ->
  exists x' a s', rtc thread_step {| th_shared := w; th_rest := m; th_past := t |} x' /\
    th_rest x' = Ret a /\ Q a s' /\ fine s'.
Proof.
  intros Hprogress m. induction m as [a|c k IH]; intros s t w Hf Ha Hm.
  { exists {| th_shared := w; th_rest := Ret a; th_past := t |}, a, s. by split_and!. }
  destruct Hm as [Hal Hk]. destruct (Hprogress s c w Hf Ha Hal) as (w1 & r & w2 & Ho & Hd & Hf').
  assert (Ha1 : agree s w1) by (clear -Ha Ho agree_other; induction Ho; eauto).
  destruct (agree_call _ _ _ _ _ Ha1 Hal Hd) as [Hs Ha2].
  destruct (IH r (next s (ev c r)) (t ++ [ev c r]) w2 Hf' Ha2 (Hk r Hs)) as (x' & a & s' & Hx & Hr).
  exists x', a, s'. split; [|exact Hr]. etrans; [|eapply rtc_l; [|exact Hx]].
  - by apply rtc_others.
  - exact (th_call {| th_shared := w1; th_rest := Do c k; th_past := t |} c k r w2 eq_refl Hd).
Qed.
End Thread.

(** ** Pools

    Goroutines on a shared state: [calls i] says what a call of the goroutine
    [i] makes of the state, [env] what happens without them, [spawns] which
    programs may be started. *)
Section Pool.
Context {W A : Type} (calls : nat -> forall c, answer c -> W -> W -> Prop) (env : W -> W -> Prop)
  (spawns : prog A -> Prop).

Record pool := { p_shared : W; p_all : list (prog A) }.

Inductive pool_step : pool -> pool -> Prop :=
| ps_env x w : env (p_shared x) w -> pool_step x {| p_shared := w; p_all := p_all x |}
| ps_spawn x m : spawns m -> pool_step x {| p_shared := p_shared x; p_all := p_all x ++ [m] |}
| ps_call x i c k r w : p_all x !! i = Some (Do c k) -> calls i c r (p_shared x) w ->
    pool_step x {| p_shared := w; p_all := <[i := k r]> (p_all x) |}.

(** Every goroutine has a monitor; [inv n] holds of the state next to [n]
    goroutines, and [agree i] ties the monitor of the goroutine [i] to it,
    whatever the others do. *)
Variables (inv : nat -> W -> Prop) (agree : nat -> S -> W -> Prop) (Q : A -> S -> Prop).
Hypothesis env_keeps : forall n w w', inv n w -> env w w' -> inv n w' /\ forall i s, agree i s w -> agree i s w'.
Hypothesis call_keeps : forall n i s c r w w', inv n w -> (i < n)%nat -> agree i s w -> allowed s c -> calls i c r w w' ->
  sees s c r /\ inv n w' /\ agree i (next s (ev c r)) w' /\
  forall j s', j <> i -> agree j s' w -> agree j s' w'.
Hypothesis spawn_agrees : forall m n w, spawns m -> inv n w -> (0 < n)%nat ->
  inv (1 + n)%nat w /\ exists s, agree n s w /\ twp m s Q.

Definition runs_well (i : nat) (m : prog A) (w : W) : Prop := exists s, agree i s w /\ twp m s Q.
Record pooled (x : pool) : Prop := {
  po_inv : inv (length (p_all x)) (p_shared x);
  po_first : (0 < length (p_all x))%nat;
  po_all : forall i m, p_all x !! i = Some m -> runs_well i m (p_shared x)
}.

Lemma call_pooled x i c k r w s : pooled x -> p_all x !! i = Some (Do c k) -> agree i s (p_shared x) ->
  twp (Do c k) s Q -> calls i c r (p_shared x) w ->
  pooled {| p_shared := w; p_all := <[i := k r]> (p_all x) |} /\ agree i (next s (ev c r)) w /\ twp (k r) (next s (ev c r)) Q.
Proof.
  intros [Hinv Hlen Hall] Hi Ha [Hal Hk] Hc.
  pose proof (lookup_lt_Some _ _ _ Hi) as Hlt.
  destruct (call_keeps _ i s c r (p_shared x) w Hinv Hlt Ha Hal Hc) as (Hs & Hinv' & Ha' & Hj).
  split; [|split; [done|by apply Hk]]. split; cbn; [by rewrite length_insert..|].
  intros j m [(<- & <- & _)|[Hne Hm]]%list_lookup_insert_Some; [exists (next s (ev c r)); split; [done|by apply Hk]|].
  destruct (Hall j m Hm) as (s' & Hs' & Hw). exists s'. split; [by apply Hj|done].
Qed.

Lemma pool_step_keeps x x' : pooled x -> pool_step x x' -> pooled x'.
Proof.
  intros Hx Hstep. pose proof Hx as [Hinv Hlen Hall]. destruct Hstep as [x w He|x m Hm|x i c k r w Hi Hc].
  - destruct (env_keeps _ _ _ Hinv He) as [Hinv' Ha]. split; cbn; [done..|].
    intros i m (s & Hs & Hw)%Hall. exists s. split; [by apply Ha|done].
  - destruct (spawn_agrees m _ _ Hm Hinv Hlen) as [Hinv' Hnew].
    split; cbn; rewrite ?length_app, ?Nat.add_1_r; [done|lia|].
    by intros i m' [[_ Hi]|[-> <-]]%lookup_snoc_Some; [apply Hall|].
  - destruct (Hall i _ Hi) as (s & Hs & Hw). by apply (call_pooled x i c k r w s).
Qed.

Lemma pool_monitored (init : pool -> Prop) : (forall x, init x -> pooled x) ->
  forall x, reachable init pool_step x -> pooled x.
Proof. intros Hinit. apply reachable_invariant; [done|]. intros x x' _. apply pool_step_keeps. Qed.

Lemma rtc_env w w' l : rtc env w w' ->
  rtc pool_step {| p_shared := w; p_all := l |} {| p_shared := w'; p_all := l |}.
Proof.
  induction 1 as [|w w1 w2 Hs _ IH]; [done|]. eapply rtc_l; [|exact IH].
  exact (ps_env {| p_shared := w; p_all := l |} w1 Hs).
Qed.

Lemma pooled_rtc x x' : pooled x -> rtc pool_step x x' -> pooled x'.
Proof. intros Hx. induction 1 as [|x y z Hs _ IH]; [done|]. apply IH. by eapply pool_step_keeps. Qed.

(** One call of the goroutine [i], after something has happened around it. *)
Lemma pool_can_call x i c k s w1 r w2 : pooled x -> p_all x !! i = Some (Do c k) -> agree i s (p_shared x) ->
  twp (Do c k) s Q -> rtc env (p_shared x) w1 -> calls i c r w1 w2 ->
  let x' := {| p_shared := w2; p_all := <[i := k r]> (p_all x) |} in
  rtc pool_step x x' /\ pooled x' /\ agree i (next s (ev c r)) w2 /\ twp (k r) (next s (ev c r)) Q.
Proof.
  intros Hx Hi Ha Hm He Hc.
  assert (Hr1 : rtc pool_step x {| p_shared := w1; p_all := p_all x |}) by (destruct x; by apply rtc_env).
  assert (Ha1 : agree i s w1).
  { clear -He Ha Hx env_keeps. pose proof (po_inv _ Hx) as Hinv. clear Hx. induction He as [|w w1 w2 Hs _ IH]; [done|].
    destruct (env_keeps _ _ _ Hinv Hs) as [Hinv' Hkeep]. apply IH; [by apply Hkeep|done]. }
  pose proof (pooled_rtc _ _ Hx Hr1) as Hx1.
  destruct (call_pooled _ i c k r w2 s Hx1 Hi Ha1 Hm Hc) as (Hx2 & Ha2 & Hm2). split_and!; try done.
  eapply rtc_r; [exact Hr1|]. exact (ps_call {| p_shared := w1; p_all := p_all x |} i c k r w2 Hi Hc).
Qed.

(** The goroutine [i] gets to [goal], or to its end, when each call it may make
    can be answered without leaving [fine] for anything but [goal]. *)
Lemma pool_can_advance i (fine goal : S -> W -> Prop) :
  (forall n s c w, fine s w -> inv n w -> (i < n)%nat -> agree i s w -> allowed s c ->
     exists w1 r w2, rtc env w w1 /\ calls i c r w1 w2 /\
       (fine (next s (ev c r)) w2 \/ goal (next s (ev c r)) w2)) ->
  forall m s x, pooled x -> p_all x !! i = Some m -> agree i s (p_shared x) -> twp m s Q -> fine s (p_shared x) ->
  exists x' m' s', rtc pool_step x x' /\ pooled x' /\ p_all x' = <[i := m']> (p_all x) /\
    agree i s' (p_shared x') /\ twp m' s' Q /\
    (goal s' (p_shared x') \/ fine s' (p_shared x') /\ exists a, m' = Ret a).
Proof.
  intros Hgo m. induction m as [a|c k IH]; intros s x Hx Hi Ha Hm Hf.
  { exists x, (Ret a), s. split_and!; try done; [by rewrite list_insert_id|]. right. split; [done|by exists a]. }
  pose proof (lookup_lt_Some _ _ _ Hi) as Hlt.
  destruct (Hgo _ s c (p_shared x) Hf (po_inv _ Hx) Hlt Ha (proj1 Hm)) as (w1 & r & w2 & He & Hc & Hnext).
  destruct (pool_can_call x i c k s w1 r w2 Hx Hi Ha Hm He Hc) as (Hr & Hx2 & Ha2 & Hm2).
  destruct Hnext as [Hnext|Hnext].
  - destruct (IH r (next s (ev c r)) _ Hx2) as (x' & m' & s' & Hr' & Hx' & Hl & Hrest); try done.
    { cbn. by rewrite list_lookup_insert_eq. }
    exists x', m', s'. split; [by etrans|]. split; [done|]. split; [|done]. rewrite Hl. cbn. by rewrite list_insert_insert_eq.
  - exists {| p_shared := w2; p_all := <[i := k r]> (p_all x) |}, (k r), (next s (ev c r)). split_and!; try done. by left.
Qed.
End Pool.
End Sees.
End Monitor.
End Program.
Arguments prog C answer A : clear implicits.
Arguments Ret {C answer A}. Arguments Do {C answer A}.
Arguments event C answer : clear implicits.
Arguments deferring {C answer S} body deferred : simpl never.

(** The run of a return, and of a call with answer [x] and the trace [t] after it. *)
Ltac unret H := apply runs_ret in H as [-> [= ->]].
Tactic Notation "unask" hyp(H) ident(x) ident(t) := destruct H as (x & t & -> & H); cbn in H.
