(* ===== verification/GoString.v ===== *)
(** * Go strings: the functions of package [strings] the program calls

    Every function works on the bytes of its arguments, as Go does.  The
    separators and the replaced strings in the program are single bytes, so
    [split_byte], [replace_byte] and the index functions take a byte. *)

From S2P Require Import Prelude.

(** ** Prefixes and suffixes *)

Fixpoint has_prefix (p s : bytes) : bool :=
  match p, s with
  | [], _ => true
  | x :: p', y :: s' => Byte.eqb x y && has_prefix p' s'
  | _ :: _, [] => false
  end.

Definition has_suffix (p s : bytes) : bool := has_prefix (rev p) (rev s).

Definition trim_prefix (p s : bytes) : bytes :=
  if has_prefix p s then drop (length p) s else s.

Definition trim_suffix (p s : bytes) : bytes :=
  if has_suffix p s then take (length s - length p) s else s.

Fixpoint contains (sub s : bytes) : bool :=
  has_prefix sub s || match s with [] => false | _ :: s' => contains sub s' end.

(** ** Splitting, joining and replacing *)

Fixpoint split_byte (sep : byte) (s : bytes) : list bytes :=
  match s with
  | [] => [[]]
  | c :: s' =>
      if Byte.eqb c sep then [] :: split_byte sep s'
      else match split_byte sep s' with
           | [] => [[c]]
           | w :: ws => (c :: w) :: ws
           end
  end.

(** [strings.SplitN] with a positive [n]: at most [n] pieces. *)
Fixpoint splitn_byte (n : nat) (sep : byte) (s : bytes) : list bytes :=
  match n with
  | O => []
  | S O => [s]
  | S n' =>
      (fix go (s : bytes) : list bytes :=
         match s with
         | [] => [[]]
         | c :: s' =>
             if Byte.eqb c sep then [] :: splitn_byte n' sep s'
             else match go s' with
                  | [] => [[c]]
                  | w :: ws => (c :: w) :: ws
                  end
         end) s
  end.

Fixpoint join (sep : bytes) (ws : list bytes) : bytes :=
  match ws with
  | [] => []
  | [w] => w
  | w :: ws' => w ++ sep ++ join sep ws'
  end.

Definition replace_byte (old : byte) (new s : bytes) : bytes :=
  flat_map (fun c => if Byte.eqb c old then new else [c]) s.

(** [strings.IndexByte] and [strings.LastIndexByte]; [None] is Go's -1. *)
Fixpoint index_byte (c : byte) (s : bytes) : option nat :=
  match s with
  | [] => None
  | x :: s' => if Byte.eqb x c then Some 0 else S <$> index_byte c s'
  end.

Fixpoint last_index_byte (c : byte) (s : bytes) : option nat :=
  match s with
  | [] => None
  | x :: s' =>
      match last_index_byte c s' with
      | Some i => Some (S i)
      | None => if Byte.eqb x c then Some 0 else None
      end
  end.

(** [strings.IndexAny]: the first byte that is one of [chars] (all ASCII). *)
Fixpoint index_any (chars s : bytes) : option nat :=
  match s with
  | [] => None
  | x :: s' => if x ∈b chars then Some 0 else S <$> index_any chars s'
  end.

(** [strings.Cut] at a byte: before, after, found. *)
Definition cut_byte (sep : byte) (s : bytes) : bytes * bytes * bool :=
  match index_byte sep s with
  | Some i => (take i s, drop (S i) s, true)
  | None => (s, [], false)
  end.

(** [strings.Trim] with an ASCII cutset. *)
Fixpoint trim_left_set (cutset s : bytes) : bytes :=
  match s with
  | [] => []
  | x :: s' => if x ∈b cutset then trim_left_set cutset s' else s
  end.
Definition trim_set (cutset s : bytes) : bytes :=
  rev (trim_left_set cutset (rev (trim_left_set cutset s))).

(** ** Lemmas *)

Lemma byte_eqb_refl b : Byte.eqb b b = true.
Proof. by apply byte_dec_lb. Qed.
Lemma byte_eqb_true a b : Byte.eqb a b = true <-> a = b.
Proof. split; [apply byte_dec_bl | apply byte_dec_lb]. Qed.
Lemma byte_eqb_false a b : Byte.eqb a b = false <-> a <> b.
Proof.
  rewrite <- not_true_iff_false, byte_eqb_true. done.
Qed.
Lemma byte_eqb_spec a b : reflect (a = b) (Byte.eqb a b).
Proof.
  destruct (Byte.eqb a b) eqn:E; constructor.
  - by apply byte_eqb_true.
  - by apply byte_eqb_false.
Qed.

(** Case analysis on a byte comparison. *)
Ltac case_byte :=
  match goal with
  | |- context [Byte.eqb ?a ?b] => destruct (byte_eqb_spec a b); simplify_eq
  | H : context [Byte.eqb ?a ?b] |- _ => destruct (byte_eqb_spec a b); simplify_eq
  end.

Lemma has_prefix_spec p s : has_prefix p s = true <-> exists t, s = p ++ t.
Proof.
  revert s. induction p as [|x p IH]; intros s; simpl.
  - split; [by exists s | done].
  - destruct s as [|y s].
    + split; [done | intros [t [=]]].
    + rewrite andb_true_iff, byte_eqb_true, IH. split.
      * intros [-> [t ->]]. by exists t.
      * intros [t [= -> ->]]. eauto.
Qed.

Lemma has_prefix_app p s : has_prefix p (p ++ s) = true.
Proof. apply has_prefix_spec. eauto. Qed.

Lemma has_suffix_spec p s : has_suffix p s = true <-> exists t, s = t ++ p.
Proof.
  unfold has_suffix. rewrite has_prefix_spec. split; intros [t Ht].
  - exists (rev t). apply (f_equal (@rev _)) in Ht.
    by rewrite rev_app_distr, !rev_involutive in Ht.
  - exists (rev t). by rewrite Ht, rev_app_distr.
Qed.

Lemma has_suffix_app p s : has_suffix p (s ++ p) = true.
Proof. apply has_suffix_spec. eauto. Qed.

Lemma trim_prefix_app p s : trim_prefix p (p ++ s) = s.
Proof. unfold trim_prefix. by rewrite has_prefix_app, drop_app_length. Qed.

Lemma trim_suffix_app p s : trim_suffix p (s ++ p) = s.
Proof.
  unfold trim_suffix. rewrite has_suffix_app, length_app.
  replace (length s + length p - length p) with (length s) by lia.
  apply take_app_length.
Qed.

Lemma contains_spec sub s : contains sub s = true <-> exists a c, s = a ++ sub ++ c.
Proof.
  induction s as [|x s IH]; simpl.
  - rewrite orb_false_r, has_prefix_spec. split.
    + intros [t Ht]. exists [], t. done.
    + intros (a & c & Hac). symmetry in Hac. apply app_eq_nil in Hac as [-> Hac].
      by exists c.
  - rewrite orb_true_iff, has_prefix_spec, IH. split.
    + intros [[t Ht] | (a & c & ->)].
      * by exists [], t.
      * by exists (x :: a), c.
    + intros ([|y a] & c & Hac); simpl in Hac; simplify_eq; eauto 10.
Qed.

Lemma split_byte_nonempty sep s : split_byte sep s <> [].
Proof.
  destruct s as [|c s]; simpl; [done|]. case_byte; [done|]. by destruct (split_byte sep s).
Qed.

Lemma split_byte_no_sep sep s : sep ∉ s -> split_byte sep s = [s].
Proof.
  induction s as [|c s IH]; simpl; [done|]. intros H.
  case_byte; [set_solver|]. rewrite IH by set_solver. done.
Qed.

Lemma split_byte_app sep a s :
  sep ∉ a -> split_byte sep (a ++ sep :: s) = a :: split_byte sep s.
Proof.
  induction a as [|c a IH]; simpl; intros H.
  - by rewrite byte_eqb_refl.
  - case_byte; [set_solver|]. by rewrite IH by set_solver.
Qed.

(** Splitting a join at the separator gives the pieces back. *)
Lemma split_join sep ws :
  ws <> [] -> Forall (fun w => sep ∉ w) ws -> split_byte sep (join [sep] ws) = ws.
Proof.
  intros Hne Hall. induction Hall as [|w ws Hw Hall IH]; [done|].
  destruct ws as [|w' ws]; simpl.
  - by apply split_byte_no_sep.
  - rewrite split_byte_app by done. f_equal. by apply IH.
Qed.

(** Joining the pieces of a split restores the string. *)
Lemma join_split sep s : join [sep] (split_byte sep s) = s.
Proof.
  induction s as [|c s IH]; simpl; [done|].
  pose proof (split_byte_nonempty sep s). case_byte.
  - destruct (split_byte sep s) as [|w ws]; [done|]. simpl in *. by rewrite IH.
  - destruct (split_byte sep s) as [|w ws]; [done|].
    destruct ws; simpl in *; by rewrite <- IH.
Qed.

Lemma replace_byte_app old new a b :
  replace_byte old new (a ++ b) = replace_byte old new a ++ replace_byte old new b.
Proof. apply flat_map_app. Qed.

Lemma replace_byte_not_in old new s : old ∉ s -> replace_byte old new s = s.
Proof.
  induction s as [|c s IH]; simpl; [done|]. intros H.
  case_byte; [set_solver|]. simpl. by rewrite IH by set_solver.
Qed.

Lemma index_byte_spec c s i :
  (index_byte c s = Some i) <->
  exists a b, s = a ++ (c :: b) /\ (c ∉ a) /\ length a = i.
Proof.
  revert i. induction s as [|x s IH]; intros i; simpl.
  - split; [done|]. intros ([|y a] & b & [=] & _).
  - destruct (byte_eqb_spec x c) as [->|Hne].
    + split.
      * intros [= <-]. exists [], s. split_and!; [done | set_solver | done].
      * intros ([|y a] & b & [=] & Hc & <-); simplify_eq/=; [done|set_solver].
    + rewrite fmap_Some. setoid_rewrite IH. split.
      * intros (j & (a & b & -> & Ha & <-) & ->). exists (x :: a), b.
        split_and!; [done | set_solver | done].
      * intros ([|y a] & b & [=] & Hc & <-); simplify_eq/=.
        exists (length a). split; [|done]. exists a, b. split_and!; [done | set_solver | done].
Qed.

Lemma index_byte_app c a b : c ∉ a -> index_byte c (a ++ c :: b) = Some (length a).
Proof. intros H. apply index_byte_spec. eauto. Qed.

Lemma last_index_byte_None c s : last_index_byte c s = None <-> c ∉ s.
Proof.
  induction s as [|x s IH]; simpl; [set_solver|].
  destruct (last_index_byte c s) eqn:E.
  - split; [done|]. intros H. exfalso. assert (c ∉ s) as H' by set_solver.
    apply IH in H'. done.
  - case_byte; [set_solver|]. split; [|done]. intros _.
    assert (c ∉ s) by (by apply IH). set_solver.
Qed.

Lemma last_index_byte_spec c s i :
  (last_index_byte c s = Some i) <->
  exists a b, s = a ++ (c :: b) /\ (c ∉ b) /\ length a = i.
Proof.
  revert i. induction s as [|x s IH]; intros i; simpl.
  - split; [done|]. intros ([|y a] & b & [=] & _).
  - destruct (last_index_byte c s) as [j|] eqn:E.
    + split.
      * intros [= <-]. destruct (proj1 (IH j) eq_refl) as (a & b & -> & Hb & <-).
        by exists (x :: a), b.
      * intros ([|y a] & b & [=] & Hc & <-); simplify_eq/=.
        -- apply last_index_byte_None in Hc. congruence.
        -- f_equal. assert (Some j = Some (length a)) as [= ->]; [|done].
           apply IH. eauto.
    + apply last_index_byte_None in E. destruct (byte_eqb_spec x c) as [->|Hne].
      * split.
        -- intros [= <-]. by exists [], s.
        -- intros ([|y a] & b & [=] & Hc & <-); simplify_eq/=; [done|set_solver].
      * split; [done|]. intros ([|y a] & b & [=] & Hc & <-); simplify_eq/=. set_solver.
Qed.

Lemma last_index_byte_app c a b :
  c ∉ b -> last_index_byte c (a ++ c :: b) = Some (length a).
Proof. intros H. apply last_index_byte_spec. eauto. Qed.

Create Rewrite HintDb gostring.
#[export] Hint Rewrite @has_prefix_app @has_suffix_app @trim_prefix_app @trim_suffix_app
  @byte_eqb_refl @replace_byte_app : gostring.
