(* ===== verification/GoUnicode.v ===== *)
(** * UTF-8 and Unicode: packages [unicode], [unicode/utf8] and the parts of
    [strings] that look at characters

    A rune is a number.  [runes] decodes a string the way [for range] and
    [utf8.DecodeRuneInString] do: every maximal invalid byte becomes
    [rune_error] of width one.  The tables of package [unicode] beyond ASCII
    are the interface [UnicodeTables]: what the program relies on is listed
    there as laws. *)

From S2P Require Import Prelude GoString.
Open Scope Z_scope.

Definition rune_error : Z := 0xFFFD.

(** ** Decoding *)

Definition is_cont (b : byte) : bool := (0x80 <=? bz b) && (bz b <=? 0xBF).

(** The accepted range of the second byte after a lead byte. *)
Definition second_ok (b0 b1 : byte) : bool :=
  let lo := if bz b0 =? 0xE0 then 0xA0 else if bz b0 =? 0xF0 then 0x90 else 0x80 in
  let hi := if bz b0 =? 0xED then 0x9F else if bz b0 =? 0xF4 then 0x8F else 0xBF in
  (lo <=? bz b1) && (bz b1 <=? hi).

Definition lead2 (b : byte) : bool := (0xC2 <=? bz b) && (bz b <=? 0xDF).
Definition lead3 (b : byte) : bool := (0xE0 <=? bz b) && (bz b <=? 0xEF).
Definition lead4 (b : byte) : bool := (0xF0 <=? bz b) && (bz b <=? 0xF4).

Definition rune2 (b0 b1 : byte) : Z :=
  Z.lor (Z.shiftl (Z.land (bz b0) 0x1F) 6) (Z.land (bz b1) 0x3F).
Definition rune3 (b0 b1 b2 : byte) : Z :=
  Z.lor (Z.shiftl (Z.land (bz b0) 0x0F) 12)
    (Z.lor (Z.shiftl (Z.land (bz b1) 0x3F) 6) (Z.land (bz b2) 0x3F)).
Definition rune4 (b0 b1 b2 b3 : byte) : Z :=
  Z.lor (Z.shiftl (Z.land (bz b0) 0x07) 18)
    (Z.lor (Z.shiftl (Z.land (bz b1) 0x3F) 12)
       (Z.lor (Z.shiftl (Z.land (bz b2) 0x3F) 6) (Z.land (bz b3) 0x3F))).

(** The characters of a string, each with the number of bytes it took. *)
Fixpoint runes (s : bytes) : list (Z * nat) :=
  match s with
  | [] => []
  | b0 :: t0 =>
      if bz b0 <? 0x80 then (bz b0, 1%nat) :: runes t0
      else match t0 with
      | [] => (rune_error, 1%nat) :: runes t0
      | b1 :: t1 =>
          if lead2 b0 && is_cont b1 then (rune2 b0 b1, 2%nat) :: runes t1
          else match t1 with
          | [] => (rune_error, 1%nat) :: runes t0
          | b2 :: t2 =>
              if lead3 b0 && second_ok b0 b1 && is_cont b2
              then (rune3 b0 b1 b2, 3%nat) :: runes t2
              else match t2 with
              | [] => (rune_error, 1%nat) :: runes t0
              | b3 :: t3 =>
                  if lead4 b0 && second_ok b0 b1 && is_cont b2 && is_cont b3
                  then (rune4 b0 b1 b2 b3, 4%nat) :: runes t3
                  else (rune_error, 1%nat) :: runes t0
              end
          end
      end
  end.

(** [utf8.ValidString]: no character is an invalid byte. *)
Definition valid_utf8 (s : bytes) : bool :=
  forallb (fun '(r, w) => negb ((r =? rune_error) && (w =? 1)%nat)) (runes s).

(** [utf8.RuneCountInString]. *)
Definition rune_count (s : bytes) : Z := len (runes s).

(** [utf8.AppendRune]: surrogates and numbers past the maximum are encoded as
    the replacement character. *)
Definition encode_rune (r : Z) : bytes :=
  if (0 <=? r) && (r <? 0x80) then [zb r]
  else if (0 <=? r) && (r <? 0x800) then
    [zb (0xC0 + r / 64); zb (0x80 + r mod 64)]
  else if (r <? 0) || (0x10FFFF <? r) || ((0xD800 <=? r) && (r <=? 0xDFFF)) then
    [xef; xbf; xbd]
  else if r <? 0x10000 then
    [zb (0xE0 + r / 4096); zb (0x80 + r / 64 mod 64); zb (0x80 + r mod 64)]
  else
    [zb (0xF0 + r / 262144); zb (0x80 + r / 4096 mod 64);
     zb (0x80 + r / 64 mod 64); zb (0x80 + r mod 64)].

(** ** White space

    [unicode.IsSpace] is a fixed set.  [strings.TrimSpace] strips the
    encodings of its members from both ends. *)

Definition is_space (r : Z) : bool :=
  ((9 <=? r) && (r <=? 13)) || (r =? 32) || (r =? 0x85) || (r =? 0xA0) ||
  (r =? 0x1680) || ((0x2000 <=? r) && (r <=? 0x200A)) || (r =? 0x2028) ||
  (r =? 0x2029) || (r =? 0x202F) || (r =? 0x205F) || (r =? 0x3000).

Definition ascii_space (b : byte) : bool := (bz b <? 0x80) && is_space (bz b).
Definition space2 (b0 b1 : byte) : bool :=
  lead2 b0 && is_cont b1 && is_space (rune2 b0 b1).
Definition space3 (b0 b1 b2 : byte) : bool :=
  lead3 b0 && second_ok b0 b1 && is_cont b2 && is_space (rune3 b0 b1 b2).

Fixpoint trim_left_space (s : bytes) : bytes :=
  match s with
  | [] => []
  | b0 :: t0 =>
      if ascii_space b0 then trim_left_space t0
      else match t0 with
      | [] => s
      | b1 :: t1 =>
          if space2 b0 b1 then trim_left_space t1
          else match t1 with
          | [] => s
          | b2 :: t2 => if space3 b0 b1 b2 then trim_left_space t2 else s
          end
      end
  end.

(** The same from the end, on the reversed string. *)
Fixpoint trim_right_space_rev (s : bytes) : bytes :=
  match s with
  | [] => []
  | b0 :: t0 =>
      if ascii_space b0 then trim_right_space_rev t0
      else match t0 with
      | [] => s
      | b1 :: t1 =>
          if space2 b1 b0 then trim_right_space_rev t1
          else match t1 with
          | [] => s
          | b2 :: t2 => if space3 b2 b1 b0 then trim_right_space_rev t2 else s
          end
      end
  end.

Definition trim_space (s : bytes) : bytes :=
  rev (trim_right_space_rev (rev (trim_left_space s))).

(** [strings.Fields]: the maximal runs of bytes outside white space.  The
    accumulator holds the current field, reversed. *)
Definition push_field (acc : bytes) (fs : list bytes) : list bytes :=
  match acc with [] => fs | _ => rev acc :: fs end.

Fixpoint fields_acc (acc s : bytes) : list bytes :=
  match s with
  | [] => push_field acc []
  | b0 :: t0 =>
      if ascii_space b0 then push_field acc (fields_acc [] t0)
      else match t0 with
      | [] => push_field (b0 :: acc) []
      | b1 :: t1 =>
          if space2 b0 b1 then push_field acc (fields_acc [] t1)
          else match t1 with
          | [] => fields_acc (b0 :: acc) t0
          | b2 :: t2 =>
              if space3 b0 b1 b2 then push_field acc (fields_acc [] t2)
              else fields_acc (b0 :: acc) t0
          end
      end
  end.
Definition fields (s : bytes) : list bytes := fields_acc [] s.

(** ** The tables of package [unicode]

    [u_print] is [unicode.IsPrint], [u_graphic] is [unicode.IsGraphic],
    [u_lower] is [unicode.ToLower].  On ASCII they are what the package
    documents; the only printable space is U+0020; the C1 controls are not
    graphic; U+FFFD is a symbol. *)
Class UnicodeTables := {
  u_print : Z -> bool;
  u_graphic : Z -> bool;
  u_lower : Z -> Z;
  u_print_ascii : forall r, 0 <= r < 0x80 -> u_print r = (32 <=? r) && (r <=? 126);
  u_print_space : forall r, is_space r = true -> u_print r = true -> r = 32;
  u_print_replacement : u_print rune_error = true;
  u_graphic_ascii : forall r, 0 <= r < 0x80 -> u_graphic r = (32 <=? r) && (r <=? 126);
  u_graphic_c1 : forall r, 0x80 <= r < 0xA0 -> u_graphic r = false;
  u_lower_ascii : forall r, 0 <= r < 0x80 ->
    u_lower r = if (65 <=? r) && (r <=? 90) then r + 32 else r;
}.

(** A concrete instance, exact on Latin-1, for the evaluated examples. *)
#[export, refine] Instance latin1_tables : UnicodeTables := {|
  u_print r := ((32 <=? r) && (r <=? 126)) ||
               ((0xA1 <=? r) && (r <=? 0xFF) && negb (r =? 0xAD)) || (r =? rune_error);
  u_graphic r := ((32 <=? r) && (r <=? 126)) ||
               ((0xA0 <=? r) && (r <=? 0xFF) && negb (r =? 0xAD)) || (r =? rune_error);
  u_lower r := if (65 <=? r) && (r <=? 90) then r + 32
               else if (0xC0 <=? r) && (r <=? 0xDE) && negb (r =? 0xD7) then r + 32 else r;
|}.
Proof.
  all: unfold is_space, rune_error; intros; try lia.
  all: repeat case_match; lia.
Defined.

(** [strings.ToLower]: maps every character; invalid bytes become U+FFFD. *)
Definition to_lower `{UnicodeTables} (s : bytes) : bytes :=
  flat_map (fun '(r, _) => encode_rune (u_lower r)) (runes s).

(** ** Lemmas on ASCII strings *)

Definition ascii (s : bytes) : Prop := Forall (fun b => bz b < 0x80) s.

Lemma runes_ascii s : ascii s -> runes s = map (fun b => (bz b, 1%nat)) s.
Proof.
  induction 1 as [|b s Hb Hs IH]; [done|]. simpl.
  rewrite (proj2 (Z.ltb_lt _ _) Hb). by rewrite IH.
Qed.

Lemma rune_count_ascii s : ascii s -> rune_count s = len s.
Proof. intros H. unfold rune_count, len. by rewrite runes_ascii, length_map. Qed.

(** ** Induction over the characters of a string *)

Definition high (b : byte) : Prop := 0x80 <= bz b.

Lemma rune2_ge b0 b1 : lead2 b0 = true -> 0x80 <= rune2 b0 b1.
Proof.
  unfold lead2, rune2. intros H. guards.
  assert (2 <= Z.land (bz b0) 0x1F) as Hb.
  { revert b0 H H0. intros b0 H H0. pose proof (Z.land_ones (bz b0) 5 ltac:(lia)) as E.
    change (Z.ones 5) with 0x1F in E. rewrite E. change (2 ^ 5) with 32.
    assert (bz b0 mod 32 = bz b0 - 192) as ->; [|lia].
    symmetry. apply Z.mod_unique with 6; lia. }
  assert (0 <= Z.land (bz b1) 0x3F) by (apply Z.land_nonneg; lia).
  rewrite Z.shiftl_mul_pow2 by lia.
  pose proof (Z.lor_nonneg (Z.land (bz b0) 0x1F * 2 ^ 6) (Z.land (bz b1) 0x3F)).
  assert (Z.land (bz b0) 0x1F * 2 ^ 6 <= Z.lor (Z.land (bz b0) 0x1F * 2 ^ 6) (Z.land (bz b1) 0x3F)); [|lia].
  apply Z.ldiff_le; [lia|]. apply Z.bits_inj'. intros n Hn.
  rewrite Z.ldiff_spec, Z.lor_spec, Z.bits_0. by destruct (Z.testbit _ n).
Qed.

Lemma lor_ge_l a b : 0 <= a -> 0 <= b -> a <= Z.lor a b.
Proof.
  intros Ha Hb. apply Z.ldiff_le; [apply Z.lor_nonneg; lia|].
  apply Z.bits_inj'. intros n Hn. rewrite Z.ldiff_spec, Z.lor_spec, Z.bits_0.
  by destruct (Z.testbit a n).
Qed.

Lemma land_low_nonneg a k : 0 <= k -> 0 <= Z.land a k.
Proof. intros. apply Z.land_nonneg. by right. Qed.

Lemma second_ok_bounds b0 b1 :
  second_ok b0 b1 = true ->
  0x80 <= bz b1 <= 0xBF /\ (bz b0 = 0xE0 -> 0xA0 <= bz b1) /\ (bz b0 = 0xF0 -> 0x90 <= bz b1).
Proof. unfold second_ok. intros H. guards. repeat case_match; lia. Qed.

Lemma rune3_ge b0 b1 b2 : lead3 b0 = true -> second_ok b0 b1 = true -> 0x800 <= rune3 b0 b1 b2.
Proof.
  unfold lead3, rune3. intros H0 (H1 & HE0 & _)%second_ok_bounds. guards.
  pose proof (land_low_nonneg (bz b0) 0x0F ltac:(lia)).
  pose proof (land_low_nonneg (bz b1) 0x3F ltac:(lia)).
  pose proof (land_low_nonneg (bz b2) 0x3F ltac:(lia)).
  rewrite !Z.shiftl_mul_pow2 by lia.
  assert (Z.land (bz b0) 0x0F = bz b0 - 0xE0) as E0.
  { change 0x0F with (Z.ones 4). rewrite Z.land_ones by lia. change (2 ^ 4) with 16. change (2 ^ 6) with 64. change (2 ^ 3) with 8. symmetry.
    apply Z.mod_unique with 14; lia. }
  set (low := Z.lor (Z.land (bz b1) 63 * 2 ^ 6) (Z.land (bz b2) 63)).
  assert (Z.land (bz b1) 63 * 2 ^ 6 <= low) by (apply lor_ge_l; lia).
  assert (0 <= low) by lia.
  destruct (Z.eq_dec (bz b0) 0xE0) as [HE|HE].
  - specialize (HE0 HE).
    assert (Z.land (bz b1) 63 = bz b1 - 128) as E1.
    { change 63 with (Z.ones 6). rewrite Z.land_ones by lia. change (2 ^ 4) with 16. change (2 ^ 6) with 64. change (2 ^ 3) with 8. symmetry.
      apply Z.mod_unique with 2; lia. }
    rewrite Z.lor_comm. etrans; [|apply lor_ge_l; lia]. lia.
  - etrans; [|apply lor_ge_l; lia]. lia.
Qed.

Lemma rune4_ge b0 b1 b2 b3 : lead4 b0 = true -> second_ok b0 b1 = true -> 0x1000 <= rune4 b0 b1 b2 b3.
Proof.
  unfold lead4, rune4. intros H0 (H1 & _ & HF0)%second_ok_bounds. guards.
  pose proof (land_low_nonneg (bz b0) 0x07 ltac:(lia)).
  pose proof (land_low_nonneg (bz b1) 0x3F ltac:(lia)).
  pose proof (land_low_nonneg (bz b2) 0x3F ltac:(lia)).
  pose proof (land_low_nonneg (bz b3) 0x3F ltac:(lia)).
  rewrite !Z.shiftl_mul_pow2 by lia.
  set (low2 := Z.lor (Z.land (bz b2) 63 * 2 ^ 6) (Z.land (bz b3) 63)).
  assert (Z.land (bz b2) 63 * 2 ^ 6 <= low2) by (apply lor_ge_l; lia).
  set (low := Z.lor (Z.land (bz b1) 63 * 2 ^ 12) low2).
  assert (Z.land (bz b1) 63 * 2 ^ 12 <= low) by (apply lor_ge_l; lia).
  assert (0 <= low) by lia.
  assert (Z.land (bz b0) 0x07 = bz b0 - 0xF0) as E0.
  { change 0x07 with (Z.ones 3). rewrite Z.land_ones by lia. change (2 ^ 4) with 16. change (2 ^ 6) with 64. change (2 ^ 3) with 8. symmetry.
    apply Z.mod_unique with 30; lia. }
  destruct (Z.eq_dec (bz b0) 0xF0) as [HE|HE].
  - specialize (HF0 HE).
    assert (16 <= Z.land (bz b1) 63) as E1.
    { change 63 with (Z.ones 6). rewrite Z.land_ones by lia. change (2 ^ 6) with 64.
      assert (bz b1 mod 64 = bz b1 - 128) as ->; [|lia].
      symmetry. apply Z.mod_unique with 2; lia. }
    rewrite Z.lor_comm. etrans; [|apply lor_ge_l; lia]. lia.
  - etrans; [|apply lor_ge_l; lia]. lia.
Qed.

Lemma is_cont_high b : is_cont b = true -> high b.
Proof. unfold is_cont, high. intros. guards. lia. Qed.
Lemma second_ok_high b0 b1 : second_ok b0 b1 = true -> high b1.
Proof. intros H%second_ok_bounds. unfold high. lia. Qed.

(** One character: an ASCII byte, or one or more bytes with the high bit set
    that decode to a character outside ASCII. *)
Inductive one_rune : bytes -> Z -> Prop :=
| one_ascii b : bz b < 0x80 -> one_rune [b] (bz b)
| one_high s r : s <> [] -> Forall high s -> 0x80 <= r -> one_rune s r.

Lemma runes_cons s :
  s = [] \/
  exists c r s', s = c ++ s' /\ one_rune c r /\ runes s = (r, length c) :: runes s'.
Proof.
  destruct s as [|b0 t0]; [by left|right].
  assert (Herr : (bz b0 <? 0x80) = false -> runes (b0 :: t0) = (rune_error, 1%nat) :: runes t0 ->
    exists c r s', b0 :: t0 = c ++ s' /\ one_rune c r /\
      runes (b0 :: t0) = (r, length c) :: runes s').
  { intros Hb Hr. guards. exists [b0], rune_error, t0. split_and!; [done| |done].
    apply one_high; [done| |done]. by repeat constructor. }
  simpl in *. destruct (bz b0 <? 0x80) eqn:H0.
  { guards. exists [b0], (bz b0), t0. split_and!; [done| |done]. by constructor. }
  assert (high b0) as Hb0 by (guards; done).
  destruct t0 as [|b1 t1]; [by apply Herr|].
  destruct (lead2 b0 && is_cont b1) eqn:H2.
  { guards. exists [b0; b1], (rune2 b0 b1), t1. split_and!; [done| |done].
    apply one_high; [done| |by apply rune2_ge]. repeat constructor; [done|by apply is_cont_high]. }
  destruct t1 as [|b2 t2]; [by apply Herr|].
  destruct (lead3 b0 && second_ok b0 b1 && is_cont b2) eqn:H3.
  { guards. exists [b0; b1; b2], (rune3 b0 b1 b2), t2. split_and!; [done| |done].
    apply one_high; [done| |]; [|pose proof (rune3_ge b0 b1 b2 ltac:(done) ltac:(done)); lia].
    repeat constructor; [done|by eapply second_ok_high|by apply is_cont_high]. }
  destruct t2 as [|b3 t3]; [by apply Herr|].
  destruct (lead4 b0 && second_ok b0 b1 && is_cont b2 && is_cont b3) eqn:H4; [|by apply Herr].
  guards. exists [b0; b1; b2; b3], (rune4 b0 b1 b2 b3), t3. split_and!; [done| |done].
  apply one_high; [done| |]; [|pose proof (rune4_ge b0 b1 b2 b3 ltac:(done) ltac:(done)); lia].
  repeat constructor; [done|by eapply second_ok_high|by apply is_cont_high|by apply is_cont_high].
Qed.

Lemma one_rune_length c r : one_rune c r -> (0 < length c)%nat.
Proof. destruct 1 as [|[]]; simpl; [lia|done|lia]. Qed.

(** Induction over the characters of a string. *)
Lemma runes_ind (P : bytes -> Prop) :
  P [] ->
  (forall c r s, one_rune c r -> runes (c ++ s) = (r, length c) :: runes s -> P s -> P (c ++ s)) ->
  forall s, P s.
Proof.
  intros Hnil Hcons s.
  remember (length s) as n eqn:Hn. revert s Hn.
  induction n as [n IH] using lt_wf_ind. intros s ->.
  destruct (runes_cons s) as [->|(c & r & s' & -> & Hc & Hr)]; [done|].
  apply (Hcons c r); [done|done|]. apply (IH (length s')); [|done].
  rewrite length_app. pose proof (one_rune_length _ _ Hc). lia.
Qed.

(** ** Lower-casing an ASCII string works byte by byte *)

Definition lower_byte (b : byte) : byte :=
  if (65 <=? bz b) && (bz b <=? 90) then zb (bz b + 32) else b.

Lemma ascii_bool s : forallb (fun b => bz b <? 0x80) s = true -> ascii s.
Proof.
  intros H. apply Forall_forall. intros b Hb%list_elem_of_In.
  rewrite forallb_forall in H. specialize (H b Hb). guards. done.
Qed.

Lemma to_lower_ascii `{UnicodeTables} s : ascii s -> to_lower s = map lower_byte s.
Proof.
  intros Hs. unfold to_lower. rewrite runes_ascii by done.
  induction Hs as [|b s Hb Hs IH]; [done|]. simpl. rewrite IH.
  pose proof (bz_range b). rewrite u_lower_ascii by lia. unfold lower_byte.
  case_match eqn:E; unfold encode_rune.
  - guards. by rewrite (proj2 (Z.leb_le 0 (bz b + 32))), (proj2 (Z.ltb_lt (bz b + 32) 128)) by lia.
  - rewrite (proj2 (Z.leb_le 0 (bz b))), (proj2 (Z.ltb_lt (bz b) 128)) by lia.
    simpl. by rewrite zb_bz.
Qed.

(** ** Trimming leaves plain text alone *)

(** A byte that is a character by itself and not white space. *)
Definition solid (b : byte) : bool := (bz b <? 0x80) && negb (is_space (bz b)).

Lemma solid_ascii_space b : solid b = true -> ascii_space b = false /\ bz b < 0x80.
Proof. unfold solid, ascii_space. intros H. guards. split; [by rewrite H0, andb_false_r|done]. Qed.

Lemma trim_left_solid b s : solid b = true -> trim_left_space (b :: s) = b :: s.
Proof.
  intros [Hb Hl]%solid_ascii_space. cbn [trim_left_space]. rewrite Hb.
  assert (lead2 b = false /\ lead3 b = false) as [H2 H3] by (unfold lead2, lead3; lia).
  destruct s as [|c [|d s]]; [done|..]; unfold space2, space3; by rewrite H2, ?H3.
Qed.

Lemma trim_right_solid b s : solid b = true -> trim_right_space_rev (b :: s) = b :: s.
Proof.
  intros [Hb Hl]%solid_ascii_space. cbn [trim_right_space_rev]. rewrite Hb.
  assert (is_cont b = false) as Hc by (unfold is_cont; lia).
  destruct s as [|c [|d s]]; [done|..]; unfold space2, space3;
    by rewrite Hc, ?andb_false_r.
Qed.

Lemma trim_space_solid b s c :
  solid b = true -> solid c = true -> trim_space (b :: s ++ [c]) = b :: s ++ [c].
Proof.
  intros Hb Hc. unfold trim_space. rewrite trim_left_solid by done.
  assert (rev (b :: s ++ [c]) = c :: rev (b :: s)) as E.
  { change (b :: s ++ [c]) with ((b :: s) ++ [c]). by rewrite rev_app_distr. }
  rewrite E, trim_right_solid by done. rewrite <- E. by rewrite rev_involutive.
Qed.

Lemma trim_space_solid_all s : forallb solid s = true -> trim_space s = s.
Proof.
  intros Hs. destruct s as [|b s]; [done|].
  destruct (decide (s = [])) as [->|Hne].
  - simpl in Hs. guards. unfold trim_space. rewrite trim_left_solid by done. change (rev [b]) with [b].
    by rewrite trim_right_solid.
  - destruct (exists_last (l := s)) as (s' & c & ->); [done|].
    simpl in Hs. rewrite forallb_app in Hs. simpl in Hs. guards. by apply trim_space_solid.
Qed.
