(* ===== verification/GoConv.v ===== *)
(** * Number conversions and quoting: package [strconv], and hexadecimal

    Numbers are [Z]; a conversion that fails is [None], where the program
    replaces the package's error by its own. *)

From S2P Require Import Prelude GoString GoUnicode.
Open Scope Z_scope.

(** ** Decimal output: [strconv.Itoa] and [strconv.FormatUint] *)

Definition digit_byte (d : Z) : byte := zb (48 + d).

Fixpoint dec_acc (fuel : nat) (n : Z) (acc : bytes) : bytes :=
  match fuel with
  | O => acc
  | S fuel' =>
      let acc := digit_byte (n mod 10) :: acc in
      if n / 10 =? 0 then acc else dec_acc fuel' (n / 10) acc
  end.

(** Decimal digits of a natural number.  A number below [2^k] has at most [k]
    digits, so [log2 n + 1] steps reach the leading one. *)
Definition format_uint (n : Z) : bytes := dec_acc (S (Z.to_nat (Z.log2 n))) n [].

Definition itoa (n : Z) : bytes :=
  if n <? 0 then !"-" ++ format_uint (- n) else format_uint n.

(** ** Decimal input *)

Definition is_digit (b : byte) : bool := (48 <=? bz b) && (bz b <=? 57).

(** The value of a string of digits, [None] on any other byte. *)
Fixpoint digits_acc (acc : Z) (s : bytes) : option Z :=
  match s with
  | [] => Some acc
  | c :: s' => if is_digit c then digits_acc (10 * acc + (bz c - 48)) s' else None
  end.

(** [strconv.ParseUint(s, 10, bits)]: digits only, no sign. *)
Definition parse_uint (bits : Z) (s : bytes) : option Z :=
  match s with
  | [] => None
  | _ => match digits_acc 0 s with
         | Some n => if n <? 2 ^ bits then Some n else None
         | None => None
         end
  end.

(** [strconv.ParseInt(s, 10, 64)] and [strconv.Atoi] on a 64-bit platform: an
    optional sign, then digits, within the signed range. *)
Definition parse_int (s : bytes) : option Z :=
  let '(neg, rest) :=
    match s with
    | c :: s' => if Byte.eqb c "-"%byte then (true, s')
                 else if Byte.eqb c "+"%byte then (false, s') else (false, s)
    | [] => (false, [])
    end in
  match rest with
  | [] => None
  | _ => match digits_acc 0 rest with
         | Some n =>
             if neg then if n <=? 2 ^ 63 then Some (- n) else None
             else if n <? 2 ^ 63 then Some n else None
         | None => None
         end
  end.
Abbreviation atoi := parse_int.

(** ** Hexadecimal: [hex.EncodeToString] *)

Definition hex_digit (d : Z) : byte := if d <? 10 then zb (48 + d) else zb (87 + d).
Definition hex_byte (b : byte) : bytes := [hex_digit (bz b / 16); hex_digit (bz b mod 16)].
Definition hex_encode (s : bytes) : bytes := flat_map hex_byte s.

(** ** Quoting: [strconv.Quote] and [strconv.QuoteToGraphic] *)

Definition hex_pad (n : nat) (r : Z) : bytes :=
  rev (map (fun i => hex_digit (r / 16 ^ Z.of_nat i mod 16)) (seq 0 n)).

(** A character inside quotes; [printable] is the table that says which
    characters stand for themselves. *)
Definition quote_rune (printable : Z -> bool) (r : Z) : bytes :=
  if (r =? 34) || (r =? 92) then [x5c; zb r]
  else if printable r then encode_rune r
  else if r =? 7 then !"\a" else if r =? 8 then !"\b" else if r =? 12 then !"\f"
  else if r =? 10 then !"\n" else if r =? 13 then !"\r" else if r =? 9 then !"\t"
  else if r =? 11 then !"\v"
  else if (r <? 32) || (r =? 127) then !"\x" ++ hex_pad 2 r
  else if (0x10FFFF <? r) || ((0xD800 <=? r) && (r <=? 0xDFFF)) then !"\ufffd"
  else if r <? 0x10000 then !"\u" ++ hex_pad 4 r
  else !"\U" ++ hex_pad 8 r.

(** The characters of [s], each with the byte it starts at. *)
Fixpoint quote_body (printable : Z -> bool) (s : bytes) (rs : list (Z * nat)) : bytes :=
  match rs with
  | [] => []
  | (r, w) :: rs' =>
      (if (r =? rune_error) && (w =? 1)%nat
       then !"\x" ++ hex_byte (default x00 (head s))
       else quote_rune printable r) ++ quote_body printable (drop w s) rs'
  end.

Definition quote_with (printable : Z -> bool) (s : bytes) : bytes :=
  [x22] ++ quote_body printable s (runes s) ++ [x22].

Definition quote `{UnicodeTables} : bytes -> bytes := quote_with u_print.
Definition quote_to_graphic `{UnicodeTables} : bytes -> bytes := quote_with u_graphic.

(** ** Lemmas *)

Lemma bz_digit_byte d : 0 <= d < 10 -> bz (digit_byte d) = 48 + d.
Proof. intros H. unfold digit_byte. rewrite bz_zb, Z.mod_small; lia. Qed.

Lemma is_digit_digit_byte d : 0 <= d < 10 -> is_digit (digit_byte d) = true.
Proof. intros H. unfold is_digit. rewrite bz_digit_byte; lia. Qed.

Lemma digits_acc_dec fuel : forall n acc k,
  0 <= n < 10 ^ Z.of_nat fuel -> (0 < fuel)%nat ->
  exists p, 0 <= p /\ n < 10 ^ p /\
  digits_acc k (dec_acc fuel n acc) = digits_acc (k * 10 ^ p + n) acc.
Proof.
  induction fuel as [|fuel IH]; intros n acc k Hn Hf; [lia|]. simpl.
  pose proof (Z.mod_pos_bound n 10 ltac:(lia)) as Hm.
  pose proof (Z.div_mod n 10 ltac:(lia)) as Hdm.
  assert (Hstep : forall k', digits_acc k' (digit_byte (n mod 10) :: acc) =
    digits_acc (10 * k' + n mod 10) acc).
  { intros k'. cbn [digits_acc]. rewrite is_digit_digit_byte, bz_digit_byte by lia.
    f_equal. lia. }
  rewrite Nat2Z.inj_succ, Z.pow_succ_r in Hn by lia.
  destruct (Z.eqb_spec (n / 10) 0) as [H0|H0].
  - exists 1. rewrite Hstep. split_and!; [lia|lia|]. by replace (10 * k + n mod 10) with (k * 10 ^ 1 + n) by lia.
  - assert (0 <= n / 10 < 10 ^ Z.of_nat fuel) as Hd.
    { split; [apply Z.div_pos; lia|]. apply Z.div_lt_upper_bound; lia. }
    assert (0 < fuel)%nat.
    { destruct fuel; [simpl in Hd; lia | lia]. }
    destruct (IH (n / 10) (digit_byte (n mod 10) :: acc) k Hd) as (p & Hp & Hlt & ->); [done|].
    exists (p + 1). rewrite Hstep, Z.pow_add_r by lia.
    split_and!; [lia|lia|]. f_equal. lia.
Qed.

Lemma format_uint_fuel n : 0 <= n -> n < 10 ^ Z.of_nat (S (Z.to_nat (Z.log2 n))).
Proof.
  intros Hn. destruct (Z.eq_dec n 0) as [->|]; [done|].
  pose proof (Z.log2_spec n ltac:(lia)) as [_ Hlt].
  pose proof (Z.log2_nonneg n).
  rewrite Nat2Z.inj_succ, Z2Nat.id by lia.
  eapply Z.lt_le_trans; [exact Hlt|]. apply Z.pow_le_mono_l. lia.
Qed.

(** Reading back the decimal digits of a number gives the number. *)
Lemma digits_format_uint n : 0 <= n -> digits_acc 0 (format_uint n) = Some n.
Proof.
  intros Hn. unfold format_uint.
  edestruct (digits_acc_dec (S (Z.to_nat (Z.log2 n))) n [] 0) as (p & _ & _ & ->).
  - pose proof (format_uint_fuel n Hn). lia.
  - lia.
  - done.
Qed.

Lemma dec_acc_app fuel n acc :
  exists h t, dec_acc (S fuel) n acc = h :: t ++ acc /\ (forall x, In x (h :: t) -> exists d, 0 <= d < 10 /\ x = digit_byte d).
Proof.
  revert n acc. induction fuel as [|fuel IH]; intros n acc.
  - pose proof (Z.mod_pos_bound n 10 ltac:(lia)). simpl.
    exists (digit_byte (n mod 10)), []. split.
    + by case_match.
    + intros x [<-|[]]. eauto.
  - pose proof (Z.mod_pos_bound n 10 ltac:(lia)).
    change (dec_acc (S (S fuel)) n acc) with
      (let acc := digit_byte (n mod 10) :: acc in
       if n / 10 =? 0 then acc else dec_acc (S fuel) (n / 10) acc).
    cbv zeta. case_match.
    + exists (digit_byte (n mod 10)), []. split; [done|]. intros x [<-|[]]. eauto.
    + destruct (IH (n / 10) (digit_byte (n mod 10) :: acc)) as (h & t & -> & Hall).
      exists h, (t ++ [digit_byte (n mod 10)]). split.
      * by rewrite <- app_assoc.
      * intros x Hx. rewrite app_comm_cons in Hx. apply in_app_or in Hx as [Hx|[<-|[]]]; eauto.
Qed.

Lemma format_uint_cons n :
  exists h t, format_uint n = h :: t /\ Forall (fun b => is_digit b = true) (h :: t).
Proof.
  unfold format_uint. destruct (dec_acc_app (Z.to_nat (Z.log2 n)) n []) as (h & t & -> & Hall).
  rewrite app_nil_r. exists h, t. split; [done|].
  apply Forall_forall. intros x Hx%list_elem_of_In.
  destruct (Hall x Hx) as (d & Hd & ->). by apply is_digit_digit_byte.
Qed.

(** [parse_uint] inverts [format_uint] within its width. *)
Lemma parse_format_uint bits n :
  0 <= n < 2 ^ bits -> parse_uint bits (format_uint n) = Some n.
Proof.
  intros Hn. unfold parse_uint. rewrite digits_format_uint by lia.
  destruct (format_uint_cons n) as (h & t & -> & _).
  by rewrite (proj2 (Z.ltb_lt _ _)) by lia.
Qed.

Lemma digit_not_sign b : is_digit b = true -> Byte.eqb b "-"%byte = false /\ Byte.eqb b "+"%byte = false.
Proof. by destruct b. Qed.

Lemma parse_int_format n : 0 <= n < 2 ^ 63 -> parse_int (format_uint n) = Some n.
Proof.
  intros Hn. unfold parse_int.
  pose proof (digits_format_uint n ltac:(lia)) as Hd.
  destruct (format_uint_cons n) as (h & t & Hf & Hall). rewrite Hf in Hd |- *.
  apply Forall_cons in Hall as [Hh _]. destruct (digit_not_sign h Hh) as [-> ->].
  rewrite Hd. by rewrite (proj2 (Z.ltb_lt _ _)) by lia.
Qed.

(** [Atoi] inverts [Itoa] on the signed 64-bit range. *)
Lemma atoi_itoa n : - 2 ^ 63 <= n < 2 ^ 63 -> atoi (itoa n) = Some n.
Proof.
  intros Hn. unfold itoa. destruct (Z.ltb_spec n 0).
  - change (parse_int (!"-" ++ format_uint (- n))) with
      (match format_uint (- n) with
       | [] => None
       | _ => match digits_acc 0 (format_uint (- n)) with
              | Some m => if m <=? 2 ^ 63 then Some (- m) else None
              | None => None
              end
       end).
    pose proof (digits_format_uint (- n) ltac:(lia)) as Hd.
    destruct (format_uint_cons (- n)) as (h & t & Hf & _). rewrite Hf in Hd |- *.
    rewrite Hd, (proj2 (Z.leb_le _ _)) by lia. f_equal. lia.
  - apply parse_int_format. lia.
Qed.

Lemma digits_acc_nonneg s : forall acc n, 0 <= acc -> digits_acc acc s = Some n -> 0 <= n.
Proof.
  induction s as [|c s IH]; simpl; intros acc n Ha H; simplify_eq; [done|].
  case_match eqn:Hc; [|done]. unfold is_digit in Hc. guards. eapply IH; [|done]. lia.
Qed.

Lemma parse_uint_range bits s n : parse_uint bits s = Some n -> 0 <= n < 2 ^ bits.
Proof.
  unfold parse_uint. intros H. branches H.
  split; [|done]. by eapply digits_acc_nonneg; [|done].
Qed.

Lemma itoa_inj m n : - 2 ^ 63 <= m < 2 ^ 63 -> - 2 ^ 63 <= n < 2 ^ 63 -> itoa m = itoa n -> m = n.
Proof.
  intros Hm Hn H. apply (f_equal atoi) in H. rewrite !atoi_itoa in H by done. by simplify_eq.
Qed.
