(* ===== verification/GoErrors.v ===== *)
(** * Go errors

    A Go [error] is [option error] ([None] is nil) and a call that returns a
    value or an error is a [result].  An [error] keeps what the program
    observes: its text, the sentinels and system errors that [errors.Is]
    finds in it, and the exit errors and control codes that [errors.As]
    finds. *)

From S2P Require Import Prelude GoString.

(** The package-level error values the program compares with. *)
Inductive sentinel :=
| ErrNotFound | ErrAmbiguous | ErrLeaseHeld          (* instance *)
| ErrNotReady                                        (* control *)
| ErrNoServer | ErrMissingTarget                     (* tmux *)
| ErrServerGenerationChanged | ErrSessionIdentityChanged
| ErrCipherPoisoned | ErrCounterExhausted | ErrClientQueueFull   (* mirror *)
| ErrViewerClientNotAttached
| ContextCanceled | ContextDeadlineExceeded          (* context *)
| OsErrProcessDone | OsErrClosed | IoEOF.            (* os, io *)

(** System error numbers. *)
Inductive errno :=
  ENOENT | EEXIST | EWOULDBLOCK | ESRCH | EACCES | ENOTDIR | ELOOP | EIO | ENOSPC | EADDRINUSE.

#[global] Instance sentinel_eq_dec : EqDecision sentinel.
Proof. solve_decision. Defined.
#[global] Instance errno_eq_dec : EqDecision errno.
Proof. solve_decision. Defined.

#[warnings="-register-all"]
Inductive error :=
| EText (text : bytes)                     (* errors.New, or Errorf without %w *)
| ESentinel (s : sentinel)
| ESys (op path : bytes) (no : errno)      (* *fs.PathError and friends *)
| EErrno (no : errno)                      (* a bare syscall.Errno *)
| EWrap (before : bytes) (inner : error) (after : bytes)   (* Errorf with one %w *)
| EJoin (es : list error)                  (* errors.Join *)
| EControl (code message : bytes)          (* *control.Error *)
| EExit (text : bytes).                    (* *exec.ExitError *)

Inductive result (A : Type) :=
| Ok (a : A)
| Err (e : error).
Arguments Ok {A} a.
Arguments Err {A} e.

Definition sentinel_text (s : sentinel) : bytes :=
  match s with
  | ErrNotFound => !"wrap instance not found"
  | ErrAmbiguous => !"wrap instance selector is ambiguous"
  | ErrLeaseHeld => !"wrap instance lease is held"
  | ErrNotReady => !"wrap is not ready"
  | ErrNoServer => !"tmux server not running"
  | ErrMissingTarget => !"tmux target not found"
  | ErrServerGenerationChanged => !"tmux server generation changed"
  | ErrSessionIdentityChanged => !"tmux session identity changed"
  | ErrCipherPoisoned => !"mirror cipher is poisoned"
  | ErrCounterExhausted => !"mirror cipher counter exhausted"
  | ErrClientQueueFull => !"mirror client outbound queue is full"
  | ErrViewerClientNotAttached => !"tmux viewer client is not attached"
  | ContextCanceled => !"context canceled"
  | ContextDeadlineExceeded => !"context deadline exceeded"
  | OsErrProcessDone => !"os: process already finished"
  | OsErrClosed => !"file already closed"
  | IoEOF => !"EOF"
  end.

Definition errno_text (n : errno) : bytes :=
  match n with
  | ENOENT => !"no such file or directory"
  | EEXIST => !"file exists"
  | EWOULDBLOCK => !"resource temporarily unavailable"
  | ESRCH => !"no such process"
  | EACCES => !"permission denied"
  | ENOTDIR => !"not a directory"
  | ELOOP => !"too many levels of symbolic links"
  | EIO => !"input/output error"
  | ENOSPC => !"no space left on device"
  | EADDRINUSE => !"address already in use"
  end.

(** [err.Error()]. *)
Fixpoint error_text (e : error) : bytes :=
  match e with
  | EText t => t
  | ESentinel s => sentinel_text s
  | ESys op path n => op ++ !" " ++ path ++ !": " ++ errno_text n
  | EErrno n => errno_text n
  | EWrap before inner after => before ++ error_text inner ++ after
  | EJoin es => join [x0a] (map error_text es)
  | EControl _ message => message
  | EExit t => t
  end.

(** [errors.Is(err, sentinel)] and [errors.Is(err, errno)]. *)
Fixpoint errors_is (s : sentinel) (e : error) : bool :=
  match e with
  | ESentinel s' => s' ==b s
  | EWrap _ inner _ => errors_is s inner
  | EJoin es => existsb (errors_is s) es
  | _ => false
  end.

Fixpoint errors_is_sys (n : errno) (e : error) : bool :=
  match e with
  | ESys _ _ n' | EErrno n' => n' ==b n
  | EWrap _ inner _ => errors_is_sys n inner
  | EJoin es => existsb (errors_is_sys n) es
  | _ => false
  end.

(** [errors.Is(err, fs.ErrNotExist)]: only ENOENT is "does not exist". *)
Definition is_not_exist (e : error) : bool := errors_is_sys ENOENT e.

(** [errors.As(err, new( *exec.ExitError))]. *)
Fixpoint errors_as_exit (e : error) : bool :=
  match e with
  | EExit _ => true
  | EWrap _ inner _ => errors_as_exit inner
  | EJoin es => existsb errors_as_exit es
  | _ => false
  end.

(** [errors.Join]: nil arguments are dropped, and all nil gives nil. *)
Definition errors_join (es : list (option error)) : option error :=
  match omap id es with
  | [] => None
  | es' => Some (EJoin es')
  end.

(** [fmt.Errorf("before%w", err)]. *)
Definition wrapf (before : bytes) (e : error) : error := EWrap before e [].

(** The error of a result, Go's second return value. *)
Definition err_of {A} (r : result A) : option error :=
  match r with Ok _ => None | Err e => Some e end.

(** Sequencing of calls that may fail. *)
Definition rbind {A B} (r : result A) (k : A -> result B) : result B :=
  match r with Ok a => k a | Err e => Err e end.
Notation "'let?' x := r 'in' k" := (rbind r (fun x => k))
  (at level 10, x pattern, r at level 100, k at level 200) : go_scope.

(** [if cond then an error]: a guard of the code with its early return. *)
Notation "'fail_if' c 'with' e ';;' k" := (if c then Err e else k)
  (at level 10, c at level 99, e at level 99, k at level 200) : go_scope.

(** ** Lemmas *)

Lemma errors_join_None es : errors_join es = None <-> Forall (fun e => e = None) es.
Proof.
  unfold errors_join. induction es as [|[e|] es IH]; simpl.
  - done.
  - split; [done|]. by intros [? _]%Forall_cons.
  - rewrite IH, Forall_cons. naive_solver.
Qed.

Lemma errors_join_Some es e : In (Some e) es -> is_Some (errors_join es).
Proof.
  intros Hin. destruct (errors_join es) eqn:E; [done|].
  apply errors_join_None in E. rewrite Forall_forall in E.
  apply list_elem_of_In, E in Hin. done.
Qed.

Lemma rbind_Ok {A B} (r : result A) (k : A -> result B) b :
  rbind r k = Ok b <-> exists a, r = Ok a /\ k a = Ok b.
Proof. destruct r; simpl; naive_solver. Qed.

(** ** Parts of an error *)

(** The error [e] is part of [err]. *)
Inductive within (e : error) : error -> Prop :=
| within_here : within e e
| within_wrap before inner after : within e inner -> within e (EWrap before inner after)
| within_join es inner : inner ∈ es -> within e inner -> within e (EJoin es).
Definition reported (e : error) (err : option error) : Prop := exists err', err = Some err' /\ within e err'.

Lemma reported_join e err errs : err ∈ errs -> reported e err -> reported e (errors_join errs).
Proof.
  intros Hin (err' & -> & Hw).
  destruct (errors_join_Some errs err') as [j Hj]; [by apply list_elem_of_In|].
  exists j. split; [done|]. unfold errors_join in Hj.
  assert (err' ∈ omap id errs) as Hin'.
  { apply list_elem_of_omap. by exists (Some err'). }
  destruct (omap id errs) as [|x l]; [by apply not_elem_of_nil in Hin'|]. injection Hj as <-.
  by eapply within_join.
Qed.

Lemma reported_self err : reported err (Some err).
Proof. exists err. split; [done|constructor]. Qed.

Lemma reported_wrap before err after : reported err (Some (EWrap before err after)).
Proof. eexists. split; [done|]. apply within_wrap, within_here. Qed.

Lemma joined_left err a b : reported err a -> reported err (errors_join [a; b]).
Proof. apply reported_join. by left. Qed.

Lemma joined_right err a : reported err (errors_join [a; Some err]).
Proof. eapply reported_join, reported_self. right. by left. Qed.

(** For use after [eapply]: what is in one of the joined errors is in the join. *)
Lemma reported_in err errs : err ∈ errs -> forall e, reported e err -> reported e (errors_join errs).
Proof. intros Hin e. by apply reported_join. Qed.
