(* ===== verification/GoJson.v ===== *)
(** * Writing JSON, as [encoding/json] does

    The parts of [json.Marshal] the program relies on: strings with HTML
    characters escaped, integers, booleans, and structs with their fields in
    order. *)

From S2P Require Import Prelude GoString GoUnicode GoConv.
Open Scope Z_scope.

(** A byte below 0x80 inside a string. *)
Definition json_ascii (b : byte) : bytes :=
  let n := bz b in
  if (n =? 0x22) || (n =? 0x5c) then [x5c; b]
  else if n =? 8 then !"\b" else if n =? 9 then !"\t" else if n =? 10 then !"\n"
  else if n =? 12 then !"\f" else if n =? 13 then !"\r"
  else if (n <? 0x20) || (n =? 0x3c) || (n =? 0x3e) || (n =? 0x26)   (* < > & *)
  then !"\u00" ++ hex_byte b
  else [b].

(** A character: an invalid byte becomes the replacement character, and the two
    line separators of JavaScript are escaped. *)
Definition json_rune (r : Z) (c : bytes) : bytes :=
  if r <? 0x80 then flat_map json_ascii c
  else if (r =? rune_error) && (len c =? 1) then !"\ufffd"
  else if r =? 0x2028 then !"\u2028" else if r =? 0x2029 then !"\u2029"
  else c.

Fixpoint json_body (s : bytes) (rs : list (Z * nat)) : bytes :=
  match rs with
  | [] => []
  | (r, w) :: rs' => json_rune r (take w s) ++ json_body (drop w s) rs'
  end.
Definition json_string (s : bytes) : bytes := [x22] ++ json_body s (runes s) ++ [x22].

Definition json_bool (b : bool) : bytes := if b then !"true" else !"false".

(** A struct: its fields that are not left out, in order. *)
Definition json_field (name value : bytes) : option bytes :=
  Some (json_string name ++ !":" ++ value).
Definition omit_empty (name value : bytes) : option bytes :=
  if value ==b [] then None else json_field name (json_string value).
Definition json_object (fields : list (option bytes)) : bytes :=
  !"{" ++ join !"," (omap id fields) ++ !"}".

(** ** A written value has no control characters *)

Definition plain_byte (b : byte) : bool := 0x20 <=? bz b.
Definition plain (s : bytes) : Prop := forallb plain_byte s = true.

Lemma plain_app a b : plain a -> plain b -> plain (a ++ b).
Proof. unfold plain. rewrite forallb_app. by intros -> ->. Qed.
Lemma plain_nil : plain [].
Proof. done. Qed.

Lemma json_ascii_plain b : plain (json_ascii b).
Proof. unfold plain. revert b. all_bytes. Qed.

Lemma high_plain c : Forall high c -> plain c.
Proof.
  unfold plain. intros H. apply forallb_forall. intros b Hb%list_elem_of_In.
  rewrite Forall_forall in H. specialize (H b Hb). unfold high in H.
  unfold plain_byte. apply Z.leb_le. lia.
Qed.

Lemma json_rune_plain r c : one_rune c r -> plain (json_rune r c).
Proof.
  intros [b Hb|s r' Hne Hh Hr]; unfold json_rune.
  - replace (bz b <? 0x80) with true by (symmetry; by apply Z.ltb_lt).
    simpl. rewrite app_nil_r. apply json_ascii_plain.
  - replace (r' <? 0x80) with false by (symmetry; by apply Z.ltb_ge).
    repeat case_match; [done|done|done|by apply high_plain].
Qed.

Lemma json_body_plain s : plain (json_body s (runes s)).
Proof.
  induction s as [|c r s Hc Hr IH] using runes_ind; [apply plain_nil|].
  rewrite Hr. cbn [json_body]. rewrite take_app_length, drop_app_length.
  apply plain_app; [by apply json_rune_plain|done].
Qed.

Lemma json_string_plain s : plain (json_string s).
Proof. unfold json_string. repeat apply plain_app; [done|apply json_body_plain|done]. Qed.

Lemma format_uint_plain n : plain (format_uint n).
Proof.
  destruct (format_uint_cons n) as (h & t & -> & Hall). unfold plain.
  apply forallb_forall. intros b Hb%list_elem_of_In. rewrite Forall_forall in Hall.
  specialize (Hall b Hb). revert Hall. by destruct b.
Qed.

Lemma json_bool_plain b : plain (json_bool b).
Proof. by destruct b. Qed.

Lemma join_plain sep ts : plain sep -> Forall plain ts -> plain (join sep ts).
Proof.
  intros Hs. induction 1 as [|t [|t' ts] Ht _ IH]; [done|done|].
  change (plain (t ++ sep ++ join sep (t' :: ts))). by repeat apply plain_app.
Qed.

Lemma json_object_plain fields :
  Forall (fun f => match f with Some t => plain t | None => True end) fields -> plain (json_object fields).
Proof.
  intros H. unfold json_object. repeat apply plain_app; [done| |done]. apply join_plain; [done|].
  apply Forall_forall. intros t (f & Hf & E)%list_elem_of_omap.
  rewrite Forall_forall in H. specialize (H f Hf). cbn in E. by subst f.
Qed.

Lemma json_field_plain name value : plain value ->
  match json_field name value with Some t => plain t | None => True end.
Proof. intros Hv. cbn. apply plain_app; [apply json_string_plain|by apply plain_app]. Qed.
Lemma omit_empty_plain name value :
  match omit_empty name value with Some t => plain t | None => True end.
Proof. unfold omit_empty. case_bool_decide; [done|]. apply json_field_plain, json_string_plain. Qed.
