(* ===== verification/GoPath.v ===== *)
(** * Paths: package [path/filepath] on Unix *)

From S2P Require Import Prelude GoString.

Definition slash : byte := "/"%byte.

Definition is_abs (path : bytes) : bool := has_prefix !"/" path.

(** The path elements that remain after [.] and [..] are resolved; [out] holds
    the result so far, last element first. *)
Fixpoint clean_elems (rooted : bool) (out elems : list bytes) : list bytes :=
  match elems with
  | [] => rev out
  | e :: elems' =>
      if (e ==b []) || (e ==b !".") then clean_elems rooted out elems'
      else if e ==b !".." then
        match out with
        | [] => clean_elems rooted (if rooted then [] else [!".."]) elems'
        | o :: out' =>
            clean_elems rooted (if o ==b !".." then !".." :: out else out') elems'
        end
      else clean_elems rooted (e :: out) elems'
  end.

Definition path_clean (path : bytes) : bytes :=
  let rooted := is_abs path in
  let body := join !"/" (clean_elems rooted [] (split_byte slash path)) in
  if rooted then !"/" ++ body else if body ==b [] then !"." else body.

(** [filepath.Join]: empty leading elements are skipped. *)
Fixpoint path_join (elems : list bytes) : bytes :=
  match elems with
  | [] => []
  | e :: elems' => if e ==b [] then path_join elems' else path_clean (join !"/" elems)
  end.

Fixpoint strip_slashes (s : bytes) : bytes :=
  match s with
  | [] => []
  | c :: s' => if Byte.eqb c slash then strip_slashes s' else s
  end.

Definition path_base (path : bytes) : bytes :=
  if path ==b [] then !"." else
  let p := rev (strip_slashes (rev path)) in
  let last := match last_index_byte slash p with
              | Some i => drop (S i) p
              | None => p
              end in
  if last ==b [] then !"/" else last.

Definition path_dir (path : bytes) : bytes :=
  match last_index_byte slash path with
  | Some i => path_clean (take (S i) path)
  | None => path_clean []
  end.

(** ** Lemmas *)

(** An absolute path that [Clean] leaves alone. *)
Definition clean_abs (dir : bytes) : Prop := is_abs dir = true /\ path_clean dir = dir.

(** A name of one path element. *)
Definition simple_name (name : bytes) : Prop :=
  (slash ∉ name) /\ name <> [] /\ name <> !"." /\ name <> !"..".

Lemma is_abs_cons path : is_abs path = true -> exists t, path = slash :: t.
Proof. unfold is_abs. intros [t ->]%has_prefix_spec. by exists t. Qed.

Lemma clean_elems_snoc rooted out elems name :
  simple_name name ->
  clean_elems rooted out (elems ++ [name]) = clean_elems rooted out elems ++ [name].
Proof.
  intros (_ & Hne & Hd & Hdd). revert out.
  induction elems as [|e elems IH]; intros out; simpl.
  - rewrite !bool_decide_false by done. done.
  - rewrite !IH. repeat case_match; done.
Qed.

Lemma split_byte_snoc sep a name :
  sep ∉ name -> split_byte sep (a ++ sep :: name) = split_byte sep a ++ [name].
Proof.
  intros Hn. induction a as [|c a IH]; simpl.
  - rewrite byte_eqb_refl. by rewrite split_byte_no_sep.
  - rewrite IH. case_byte; [done|].
    pose proof (split_byte_nonempty sep a). by destruct (split_byte sep a).
Qed.

Lemma join_snoc sep ws w : ws <> [] -> join sep (ws ++ [w]) = join sep ws ++ sep ++ w.
Proof.
  intros Hne. induction ws as [|v ws IH]; [done|].
  destruct ws as [|u ws]; [done|].
  change (join sep ((v :: u :: ws) ++ [w])) with (v ++ sep ++ join sep ((u :: ws) ++ [w])).
  rewrite IH by done. simpl. by rewrite <- !app_assoc.
Qed.

Lemma path_join_two dir name :
  is_abs dir = true -> path_join [dir; name] =
  !"/" ++ join !"/" (clean_elems true [] (split_byte slash (dir ++ slash :: name))).
Proof.
  intros [t ->]%is_abs_cons. unfold path_join. rewrite bool_decide_false by done.
  unfold path_clean. done.
Qed.

(** What stands between a directory and the name of a file in it. *)
Definition dir_prefix (dir : bytes) : bytes := if dir ==b !"/" then !"/" else dir ++ !"/".

(** [Join] of a clean absolute directory and a plain name concatenates them. *)
Lemma path_join_simple dir name :
  clean_abs dir -> simple_name name -> path_join [dir; name] = dir_prefix dir ++ name.
Proof.
  intros [Habs Hclean] Hname.
  rewrite path_join_two by done.
  rewrite split_byte_snoc by apply Hname. rewrite clean_elems_snoc by done.
  unfold path_clean in Hclean. rewrite Habs in Hclean.
  unfold dir_prefix.
  destruct (clean_elems true [] (split_byte slash dir)) as [|e es] eqn:E.
  - rewrite bool_decide_true; [done|by rewrite <- Hclean].
  - rewrite join_snoc by done. rewrite app_assoc, Hclean.
    rewrite bool_decide_false; [by rewrite <- app_assoc|].
    intros ->. change (split_byte slash !"/") with [[]; @nil byte] in E. done.
Qed.

Lemma path_join_inj dir n1 n2 :
  clean_abs dir -> simple_name n1 -> simple_name n2 ->
  path_join [dir; n1] = path_join [dir; n2] -> n1 = n2.
Proof.
  intros Hd H1 H2. rewrite !path_join_simple by done. apply app_inv_head.
Qed.

Lemma strip_slashes_nonslash c s : c <> slash -> strip_slashes (c :: s) = c :: s.
Proof. intros H. simpl. by case_byte. Qed.

Lemma dir_prefix_snoc dir : exists t, dir_prefix dir = t ++ !"/".
Proof. unfold dir_prefix. case_bool_decide; [by exists []|eauto]. Qed.

(** The base name of a joined path is the name. *)
Lemma path_base_join dir name :
  clean_abs dir -> simple_name name -> path_base (path_join [dir; name]) = name.
Proof.
  intros Hd Hn. rewrite path_join_simple by done.
  destruct (dir_prefix_snoc dir) as [t ->]. destruct Hn as (Hs & Hne & _).
  unfold path_base. rewrite bool_decide_false; [|by intros [_ ?]%app_eq_nil].
  assert (strip_slashes (rev ((t ++ !"/") ++ name)) = rev ((t ++ !"/") ++ name)) as ->.
  { rewrite rev_app_distr. destruct (rev name) as [|c l] eqn:Er.
    - apply (f_equal (@rev _)) in Er. by rewrite rev_involutive in Er.
    - apply strip_slashes_nonslash. intros ->. apply Hs.
      apply list_elem_of_In, in_rev. rewrite Er. by left. }
  rewrite rev_involutive.
  change (!"/") with [slash]. rewrite <- app_assoc. simpl.
  rewrite last_index_byte_app by done.
  change (slash :: name) with ([slash] ++ name). rewrite app_assoc.
  replace (S (length t)) with (length (t ++ [slash])) by (rewrite length_app; simpl; lia).
  rewrite drop_app_length. by rewrite bool_decide_false.
Qed.

Lemma path_clean_join dir name :
  clean_abs dir -> simple_name name -> clean_abs (path_join [dir; name]).
Proof.
  intros Hd Hn. pose proof (path_join_simple _ _ Hd Hn) as Hj. destruct Hd as [Habs Hclean].
  destruct (is_abs_cons _ Habs) as [t Ht].
  assert (is_abs (path_join [dir; name]) = true) as Habs'.
  { rewrite Hj. unfold dir_prefix. case_match; [done|]. by rewrite Ht. }
  split; [done|].
  revert Hj. unfold dir_prefix.
  destruct Hn as (Hs & Hn). case_bool_decide as Hroot; intros ->.
  - unfold path_clean. change (is_abs (!"/" ++ name)) with true. cbv iota.
    change (!"/" ++ name) with ([] ++ slash :: name).
    rewrite split_byte_snoc by done. rewrite clean_elems_snoc by done. done.
  - unfold path_clean. replace (is_abs _) with true by (by subst).
    rewrite <- app_assoc. change (!"/" ++ name) with (slash :: name).
    rewrite split_byte_snoc by done. rewrite clean_elems_snoc by done.
    unfold path_clean in Hclean. rewrite Habs in Hclean.
    destruct (clean_elems true [] (split_byte slash dir)) as [|e es'] eqn:E; [done|].
    rewrite join_snoc by done. rewrite app_assoc, Hclean. done.
Qed.

Lemma clean_elems_empty rooted out elems : clean_elems rooted out (elems ++ [[]]) = clean_elems rooted out elems.
Proof.
  revert out. induction elems as [|e elems IH]; intros out; simpl; [done|].
  rewrite !IH. repeat case_match; done.
Qed.

Lemma path_clean_slash dir : clean_abs dir -> path_clean (dir_prefix dir) = dir.
Proof.
  intros [Habs Hclean]. unfold dir_prefix. case_bool_decide as Hroot; [by subst|].
  destruct (is_abs_cons _ Habs) as [t Ht]. rewrite <- Hclean at 2. unfold path_clean. rewrite Habs.
  replace (is_abs (dir ++ !"/")) with true by (by rewrite Ht).
  assert (Hsplit : split_byte slash (dir ++ !"/") = split_byte slash dir ++ [[]])
    by apply (split_byte_snoc slash dir []), not_elem_of_nil.
  by rewrite Hsplit, clean_elems_empty.
Qed.

(** The directory of a joined path is the directory. *)
Lemma path_dir_join dir name : clean_abs dir -> simple_name name -> path_dir (path_join [dir; name]) = dir.
Proof.
  intros Hd Hn. rewrite path_join_simple by done. destruct (dir_prefix_snoc dir) as [t Ht].
  unfold path_dir. rewrite Ht, <- app_assoc. change (!"/" ++ name) with (slash :: name).
  rewrite last_index_byte_app by apply Hn. rewrite cons_middle, app_assoc.
  rewrite take_app_length' by (rewrite length_app; simpl; lia).
  change ([slash]) with (!"/"). by rewrite <- Ht, path_clean_slash.
Qed.
