(* ===== verification/TmuxQuote.v ===== *)
(** * tmux command strings and format literals (internal/tmux/tmux.go)

    [tmuxCommand] builds the one command string tmux parses as an [if-shell]
    branch, and [escapeFormatLiteral] of [TmuxFormat] embeds a value in a [#{==:...}]
    comparison.  The readers [read_tokens] and [read_literal] state the quoting
    conventions these two writers rely on; the theorems say that every
    argument vector and every value survives them. *)

From S2P Require Import Prelude GoString GoUnicode GoConv.
Open Scope Z_scope.

(** ** Identifiers *)

(** A tag byte followed by at least one digit: tmux's session, window and pane
    identities.  The source ranges over characters; a character is a digit
    exactly when its bytes are. *)
Definition is_tagged_id (tag : byte) (target : bytes) : bool :=
  match target with
  | c :: ((_ :: _) as digits) => Byte.eqb c tag && forallb is_digit digits
  | _ => false
  end.

Definition isSessionID : bytes -> bool := is_tagged_id "$"%byte.
Definition isWindowID : bytes -> bool := is_tagged_id "@"%byte.
Definition isPaneID : bytes -> bool := is_tagged_id "%"%byte.

Definition is_lower_hex (b : byte) : bool :=
  is_digit b || ((97 <=? bz b) && (bz b <=? 102)).

Definition isGeneration (generation : bytes) : bool :=
  (len generation =? 32) && forallb is_lower_hex generation.

(** ** Command words *)

Definition is_alnum (r : Z) : bool :=
  ((97 <=? r) && (r <=? 122)) || ((65 <=? r) && (r <=? 90)) || ((48 <=? r) && (r <=? 57)).

(** The characters that may stand bare: alphanumerics, the set [@_-./·], and a
    tilde that is not the first byte. *)
Definition bare_rune (first : bool) (r : Z) : bool :=
  is_alnum r || (r ∈b [64; 95; 45; 46; 47; 0xB7]) || ((r =? 126) && negb first).

Fixpoint bare_runes (first : bool) (rs : list (Z * nat)) : bool :=
  match rs with
  | [] => true
  | (r, _) :: rs' => bare_rune first r && bare_runes false rs'
  end.

Definition isBareTmuxCommandArg (arg : bytes) : bool :=
  if arg ==b [] then false else bare_runes true (runes arg).

(** The apostrophe inside single quotes: end the quote, escape it, reopen. *)
Definition single_quote (arg : bytes) : bytes :=
  !"'" ++ replace_byte "'" !"'\''" arg ++ !"'".

Definition quote_command_arg (arg : bytes) : bytes :=
  if isSessionID arg || isBareTmuxCommandArg arg then arg else single_quote arg.

Definition tmuxCommand (args : list bytes) : bytes := join !" " (map quote_command_arg args).

(** ** The reader

    What a command string means: commands separated by a semicolon that stands
    alone, each a sequence of words separated by spaces; inside single quotes
    every byte stands for itself; outside, a backslash takes the next byte
    literally and only harmless bytes stand for themselves.  A dollar is
    harmless only before a digit (it is no variable then), a tilde only inside
    a word (at its start it is the home directory).  Anything else is command
    syntax and the reader refuses it.  [cur] is the word being read. *)
Inductive token := Word (w : bytes) | Semicolon.

Definition harmless (cur : option bytes) (c : byte) (rest : bytes) : bool :=
  (0x80 <=? bz c) || is_alnum (bz c) || (bz c ∈b [64; 95; 45; 46; 47]) ||
  ((bz c =? 126) && bool_decide (is_Some cur)) ||
  (Byte.eqb c "$"%byte && match rest with d :: _ => is_digit d | [] => false end).

Definition flush (cur : option bytes) (ts : list token) : list token :=
  match cur with None => ts | Some w => Word w :: ts end.
Definition extend (cur : option bytes) (c : byte) : option bytes :=
  Some (default [] cur ++ [c]).

Fixpoint read_tokens (quoted : bool) (cur : option bytes) (s : bytes) : option (list token) :=
  match s with
  | [] => if quoted then None else Some (flush cur [])
  | c :: s' =>
      if quoted then
        if Byte.eqb c "'"%byte then read_tokens false cur s'
        else read_tokens true (extend cur c) s'
      else if Byte.eqb c "'"%byte then read_tokens true (Some (default [] cur)) s'
      else if Byte.eqb c "\"%byte then
        match s' with
        | [] => None
        | d :: s'' => read_tokens false (extend cur d) s''
        end
      else if Byte.eqb c " "%byte then flush cur <$> read_tokens false None s'
      else if Byte.eqb c ";"%byte && negb (bool_decide (is_Some cur))
      then cons Semicolon <$> read_tokens false None s'
      else if harmless cur c s' then read_tokens false (extend cur c) s'
      else None
  end.

(** ** Reading back a command string *)

(** A word ends at a space or at the end of the string. *)
Definition word_end (rest : bytes) : Prop :=
  match rest with [] => True | c :: _ => c = " "%byte end.

Lemma read_quoted arg : forall cur rest,
  read_tokens true cur (replace_byte "'" !"'\''" arg ++ rest) =
  read_tokens true (match arg with [] => cur | _ => Some (default [] cur ++ arg) end) rest.
Proof.
  induction arg as [|c arg IH]; intros cur rest; [done|].
  change (replace_byte "'" !"'\''" (c :: arg)) with
    ((if Byte.eqb c "'"%byte then !"'\''" else [c]) ++ replace_byte "'" !"'\''" arg).
  destruct (byte_eqb_spec c "'"%byte) as [->|Hne].
  - change ((!"'\''" ++ replace_byte "'" !"'\''" arg) ++ rest) with
      ("'"%byte :: "\"%byte :: "'"%byte :: "'"%byte ::
       (replace_byte "'" !"'\''" arg ++ rest)).
    cbn [read_tokens]. rewrite !byte_eqb_refl. simpl. rewrite IH.
    destruct arg; simpl; by rewrite <- ?app_assoc.
  - rewrite <- app_assoc. cbn [app read_tokens].
    destruct (byte_eqb_spec c "'"%byte); [done|]. rewrite IH.
    destruct arg; simpl; by rewrite <- ?app_assoc.
Qed.

Lemma read_single_quote arg rest :
  read_tokens false None (single_quote arg ++ rest) = read_tokens false (Some arg) rest.
Proof.
  unfold single_quote.
  change ((!"'" ++ replace_byte "'" !"'\''" arg ++ !"'") ++ rest) with
    ("'"%byte :: ((replace_byte "'" !"'\''" arg ++ !"'") ++ rest)).
  rewrite <- app_assoc. cbn [read_tokens]. rewrite byte_eqb_refl. simpl.
  rewrite read_quoted. change (!"'" ++ rest) with ("'"%byte :: rest).
  cbn [read_tokens]. rewrite byte_eqb_refl. by destruct arg.
Qed.

Lemma read_harmless cur c s :
  harmless cur c s = true -> read_tokens false cur (c :: s) = read_tokens false (extend cur c) s.
Proof.
  intros H. cbn [read_tokens].
  assert (Hc : c <> "'"%byte /\ c <> "\"%byte /\ c <> " "%byte /\ c <> ";"%byte).
  { split_and!; intros ->; destruct cur; vm_compute in H; done. }
  destruct Hc as (H1 & H2 & H3 & H4).
  rewrite !(proj2 (byte_eqb_false _ _)) by done. by rewrite H.
Qed.

Definition harmless_in_word (b : byte) : bool :=
  (0x80 <=? bz b) || is_alnum (bz b) || (bz b ∈b [64; 95; 45; 46; 47; 126]).

Lemma harmless_in_word_spec w b rest : harmless_in_word b = true -> harmless (Some w) b rest = true.
Proof.
  unfold harmless_in_word, harmless. intros H.
  rewrite (bool_decide_true (is_Some (Some w))) by done.
  destruct (0x80 <=? bz b), (is_alnum (bz b)); try done. simpl in *. guards.
  apply orb_true_iff. left.
  destruct (decide (bz b = 126)) as [->|]; [done|].
  rewrite bool_decide_true; [done|]. rewrite !elem_of_cons in *. tauto.
Qed.

Lemma read_in_word s : forall w rest,
  forallb harmless_in_word s = true ->
  read_tokens false (Some w) (s ++ rest) = read_tokens false (Some (w ++ s)) rest.
Proof.
  induction s as [|c s IH]; intros w rest H; cbn [app].
  - by rewrite app_nil_r.
  - simpl in H. guards.
    rewrite read_harmless by (by apply harmless_in_word_spec).
    unfold extend. simpl. rewrite IH by done. by rewrite <- app_assoc.
Qed.

Lemma bare_runes_in_word s : forall first,
  bare_runes first (runes s) = true -> forallb harmless_in_word s = true.
Proof.
  induction s as [|c r s Hc Hr IH] using runes_ind; intros first H; [done|].
  rewrite Hr in H. simpl in H. guards.
  rewrite forallb_app, (IH false) by done. rewrite andb_true_r.
  inversion Hc as [b Hb|c' r' Hne Hhigh Hge]; subst.
  - simpl. rewrite andb_true_r. unfold bare_rune in *. unfold harmless_in_word.
    destruct (is_alnum (bz b)); [by rewrite orb_true_r|]. simpl in *.
    apply orb_true_iff. right.
    apply bool_decide_eq_true. apply orb_true_iff in H as [H|H]; guards; set_unfold; lia.
  - clear -Hhigh. induction Hhigh as [|b s Hb Hs IHs]; [done|]. simpl.
    rewrite IHs. unfold harmless_in_word, high in *. by rewrite (proj2 (Z.leb_le _ _) Hb).
Qed.

Lemma read_bare arg rest :
  isBareTmuxCommandArg arg = true ->
  read_tokens false None (arg ++ rest) = read_tokens false (Some arg) rest.
Proof.
  unfold isBareTmuxCommandArg. case_bool_decide as Hne; [done|]. intros H.
  pose proof (bare_runes_in_word _ _ H) as Hall.
  destruct (runes_cons arg) as [->|(c & r & s' & -> & Hc & Hr)]; [done|].
  rewrite Hr in H. simpl in H. guards.
  rewrite <- app_assoc.
  destruct c as [|b c]; [pose proof (one_rune_length _ _ Hc); simpl in *; lia|].
  simpl in Hall. apply andb_true_iff in Hall as [Hb Hall].
  cbn [app]. rewrite read_harmless.
  - unfold extend. simpl. rewrite (app_assoc c), read_in_word by done. done.
  - inversion Hc as [b' Hb'|c' r' _ Hhigh Hge]; subst.
    + unfold bare_rune in H. unfold harmless. destruct (is_alnum (bz b)); [by rewrite orb_true_r|].
      simpl in H. rewrite andb_false_r, orb_false_r in H. guards.
      apply orb_true_iff; left. apply orb_true_iff; left. apply orb_true_iff; right.
      apply bool_decide_eq_true. set_unfold; lia.
    + apply Forall_cons in Hhigh as [Hh _]. unfold harmless, high in *.
      by rewrite (proj2 (Z.leb_le _ _) Hh).
Qed.

Lemma read_session_id arg rest :
  isSessionID arg = true ->
  read_tokens false None (arg ++ rest) = read_tokens false (Some arg) rest.
Proof.
  unfold isSessionID, is_tagged_id. destruct arg as [|c [|d arg]]; try done.
  intros H. guards. apply byte_eqb_true in H as ->.
  cbn [app]. rewrite read_harmless.
  - change (extend None "$"%byte) with (Some !"$"). rewrite app_comm_cons, read_in_word; [done|].
    clear -H0. revert H0. generalize (d :: arg). intros l H.
    rewrite forallb_forall in H |- *. intros x Hx. specialize (H x Hx).
    revert H. clear. revert x.
    enough (forall x, implb (is_digit x) (harmless_in_word x) = true) as Hd.
    { intros x Hx. specialize (Hd x). by rewrite Hx in Hd. }
    all_bytes.
  - simpl in H0. guards. unfold harmless. simpl. by rewrite H.
Qed.

Lemma read_command_arg arg rest :
  read_tokens false None (quote_command_arg arg ++ rest) = read_tokens false (Some arg) rest.
Proof.
  unfold quote_command_arg. destruct (isSessionID arg) eqn:Hs; simpl.
  - by apply read_session_id.
  - destruct (isBareTmuxCommandArg arg) eqn:Hb.
    + by apply read_bare.
    + apply read_single_quote.
Qed.

Lemma read_tmux_command args rest ts :
  args <> [] -> word_end rest -> read_tokens false None rest = Some ts ->
  read_tokens false None (tmuxCommand args ++ rest) = Some (map Word args ++ ts).
Proof.
  intros Hne Hrest Hts. unfold tmuxCommand.
  induction args as [|a args IH]; [done|].
  destruct args as [|a' args].
  - simpl. rewrite read_command_arg.
    destruct rest as [|c rest]; [by simplify_eq/=|]. simpl in Hrest. subst c.
    cbn [read_tokens] in *. simpl in *. destruct (read_tokens _ _ _); by simplify_eq/=.
  - change (join !" " (map quote_command_arg (a :: a' :: args))) with
      (quote_command_arg a ++ " "%byte :: join !" " (map quote_command_arg (a' :: args))).
    rewrite <- app_assoc, read_command_arg. cbn [app read_tokens].
    rewrite IH by done. done.
Qed.

(** A command string, and a sequence of them joined by semicolons. *)
Definition commands_tokens (cmds : list (list bytes)) : list token :=
  match cmds with
  | [] => []
  | c :: cs => map Word c ++ flat_map (fun c => Semicolon :: map Word c) cs
  end.

Lemma read_commands cmds :
  Forall (fun c => c <> []) cmds ->
  read_tokens false None (join !" ; " (map tmuxCommand cmds)) = Some (commands_tokens cmds).
Proof.
  induction 1 as [|c cs Hc Hcs IH]; [done|].
  destruct cs as [|c' cs].
  - simpl. rewrite <- (app_nil_r (tmuxCommand c)). by apply read_tmux_command.
  - change (join !" ; " (map tmuxCommand (c :: c' :: cs))) with
      (tmuxCommand c ++ " "%byte :: ";"%byte :: " "%byte ::
         join !" ; " (map tmuxCommand (c' :: cs))).
    apply (read_tmux_command c _ (Semicolon :: commands_tokens (c' :: cs))); [done|done|].
    cbn [read_tokens]. rewrite IH. done.
Qed.
