(* ===== verification/TmuxFormat.v ===== *)
(** * tmux format conditions (internal/tmux/tmux.go)

    Every guarded command carries a condition in tmux's format language: a
    conjunction of comparisons [#{==:#{variable},literal}].  [render] is the
    text the program builds for a condition, [parse_cond] reads such a text
    back.  [condition_of] turns the guards the program composes by hand into
    that form. *)

From S2P Require Import Prelude GoString GoUnicode GoConv TmuxQuote.
Open Scope Z_scope.

Definition escapeFormatLiteral (value : bytes) : bytes :=
  let value := replace_byte "#" !"##" value in
  let value := replace_byte "," !"#," value in
  replace_byte "}" !"#}" value.

Definition format_special (c : byte) : bool :=
  Byte.eqb c "#"%byte || Byte.eqb c ","%byte || Byte.eqb c "}"%byte.

(** ** Conditions *)

Inductive cond :=
| CEq (variable literal : bytes)
| CAnd (a b : cond).

(** [#{==:#{variable},literal}], the literal already safe to embed. *)
Definition cond_eq (variable literal : bytes) : bytes :=
  !"#{==:#{" ++ variable ++ !"}," ++ literal ++ !"}".
Definition cond_and (a b : bytes) : bytes := !"#{&&:" ++ a ++ !"," ++ b ++ !"}".

Fixpoint render (c : cond) : bytes :=
  match c with
  | CEq v l => cond_eq v (escapeFormatLiteral l)
  | CAnd a b => cond_and (render a) (render b)
  end.

(** A condition holds of the variables of a tmux session. *)
Fixpoint cond_holds (vars : bytes -> bytes) (c : cond) : Prop :=
  match c with
  | CEq v l => vars v = l
  | CAnd a b => cond_holds vars a /\ cond_holds vars b
  end.

(** ** Reading a condition

    A literal runs to the first comma or closing brace that is not escaped. *)
Fixpoint read_literal (s : bytes) : option (bytes * bytes) :=
  match s with
  | [] => Some ([], [])
  | c :: s' =>
      if Byte.eqb c "}"%byte || Byte.eqb c ","%byte then Some ([], s)
      else if Byte.eqb c "#"%byte then
        match s' with
        | d :: s'' =>
            if format_special d
            then '(w, rest) ← read_literal s''; Some (d :: w, rest)
            else None
        | [] => None
        end
      else '(w, rest) ← read_literal s'; Some (c :: w, rest)
  end.

Definition expect (p s : bytes) : option bytes :=
  if has_prefix p s then Some (drop (length p) s) else None.
Arguments expect p s : simpl never.

Fixpoint parse_cond (fuel : nat) (s : bytes) : option (cond * bytes) :=
  match fuel with
  | O => None
  | S fuel' =>
      match expect !"#{==:#{" s with
      | Some s =>
          i ← index_byte "}" s;
          s' ← expect !"}," (drop i s);
          '(lit, s') ← read_literal s';
          s' ← expect !"}" s';
          Some (CEq (take i s) lit, s')
      | None =>
          s ← expect !"#{&&:" s;
          '(a, s) ← parse_cond fuel' s;
          s ← expect !"," s;
          '(b, s) ← parse_cond fuel' s;
          s ← expect !"}" s;
          Some (CAnd a b, s)
      end
  end.

Fixpoint cond_depth (c : cond) : nat :=
  match c with CEq _ _ => 1 | CAnd a b => S (cond_depth a `max` cond_depth b) end.

(** Variable names end at the first closing brace. *)
Fixpoint cond_wf (c : cond) : Prop :=
  match c with CEq v _ => "}"%byte ∉ v | CAnd a b => cond_wf a /\ cond_wf b end.

(** ** Lemmas *)

Definition escape_one (c : byte) : bytes :=
  if format_special c then ["#"%byte; c] else [c].

(** The three passes of [escapeFormatLiteral] escape each byte once. *)
Lemma escape_single_pass value : escapeFormatLiteral value = flat_map escape_one value.
Proof.
  unfold escapeFormatLiteral. induction value as [|c value IH]; [done|].
  change (c :: value) with ([c] ++ value). rewrite !replace_byte_app, IH.
  revert c. clear.
  enough (forall c, bool_decide (replace_byte "}" !"#}" (replace_byte "," !"#,"
    (replace_byte "#" !"##" [c])) = escape_one c) = true) as H.
  { intros c. specialize (H c). guards. rewrite H. done. }
  all_bytes.
Qed.

Lemma escape_app a b : escapeFormatLiteral (a ++ b) = escapeFormatLiteral a ++ escapeFormatLiteral b.
Proof. rewrite !escape_single_pass. apply flat_map_app. Qed.

Lemma escape_plain value : forallb (fun c => negb (format_special c)) value = true ->
  escapeFormatLiteral value = value.
Proof.
  rewrite escape_single_pass. induction value as [|c value IH]; [done|].
  simpl. intros H. guards. unfold escape_one at 1. rewrite H. simpl. by rewrite IH.
Qed.

Lemma read_literal_escape value c rest :
  Byte.eqb c "}"%byte || Byte.eqb c ","%byte = true ->
  read_literal (escapeFormatLiteral value ++ c :: rest) = Some (value, c :: rest).
Proof.
  intros Hc. rewrite escape_single_pass. induction value as [|d value IH].
  - cbn [flat_map app read_literal]. by rewrite Hc.
  - cbn [flat_map]. unfold escape_one at 1. destruct (format_special d) eqn:Hd.
    + cbn [app read_literal]. change (Byte.eqb "#" "}" || Byte.eqb "#" ",") with false.
      cbn iota. rewrite byte_eqb_refl, Hd, IH. done.
    + cbn [app read_literal]. unfold format_special in Hd.
      apply orb_false_iff in Hd as [[H1 H2]%orb_false_iff H3].
      rewrite H1, H2, H3. simpl. by rewrite IH.
Qed.

Lemma expect_app p s : expect p (p ++ s) = Some s.
Proof. unfold expect. by rewrite has_prefix_app, drop_app_length. Qed.

(** A rendered condition reads back, whatever its literals contain. *)
Lemma parse_render c : forall fuel rest,
  (cond_depth c <= fuel)%nat -> cond_wf c ->
  parse_cond fuel (render c ++ rest) = Some (c, rest).
Proof.
  induction c as [v l|a IHa b IHb]; intros [|fuel] rest Hf Hwf; simpl in Hf; try lia.
  - cbn [render parse_cond]. unfold cond_eq. rewrite <- !app_assoc.
    rewrite expect_app.
    change (!"}," ++ escapeFormatLiteral l ++ !"}" ++ rest) with
      ("}"%byte :: (","%byte :: (escapeFormatLiteral l ++ "}"%byte :: rest))).
    rewrite index_byte_app by done. simpl. rewrite drop_app_length, take_app_length.
    change ("}"%byte :: (","%byte :: (escapeFormatLiteral l ++ "}"%byte :: rest))) with
      (!"}," ++ (escapeFormatLiteral l ++ "}"%byte :: rest)).
    rewrite expect_app. simpl. rewrite read_literal_escape by done. simpl.
    done.
  - destruct Hwf as [Hwa Hwb]. cbn [render parse_cond].
    unfold cond_and. rewrite <- !app_assoc.
    assert (expect !"#{==:#{" (!"#{&&:" ++ render a ++ !"," ++ render b ++ !"}" ++ rest) = None) as ->
      by done.
    rewrite expect_app. simpl. rewrite IHa by (done || lia). simpl.
    rewrite drop_0, IHb by (done || lia). done.
Qed.

(** ** Validated values need no escaping *)

Lemma forallb_impl {A} (p q : A -> bool) l :
  (forall x, implb (p x) (q x) = true) -> forallb p l = true -> forallb q l = true.
Proof.
  intros Hpq. rewrite !forallb_forall. intros H x Hx. specialize (H x Hx).
  specialize (Hpq x). by rewrite H in Hpq.
Qed.

Lemma escape_generation g : isGeneration g = true -> escapeFormatLiteral g = g.
Proof.
  unfold isGeneration. intros H. guards. apply escape_plain.
  eapply forallb_impl; [|done]. all_bytes.
Qed.

Lemma escape_digits s : forallb is_digit s = true -> escapeFormatLiteral s = s.
Proof. intros H. apply escape_plain. eapply forallb_impl; [|done]. all_bytes. Qed.

Lemma escape_window w : isWindowID w = true -> escapeFormatLiteral w = w.
Proof.
  unfold isWindowID, is_tagged_id. destruct w as [|c [|d w]]; try done. intros H. guards.
  apply byte_eqb_true in H as ->. change ("@"%byte :: d :: w) with ([("@"%byte)] ++ (d :: w)).
  by rewrite escape_app, (escape_digits (d :: w)).
Qed.
