(* ===== verification/GoBase64.v ===== *)
(** * Base64: [base64.RawURLEncoding]

    The URL-safe alphabet without padding.  Decoding skips carriage returns
    and newlines and ignores the unused low bits of the last character, as
    the package's non-strict encoding does. *)

From S2P Require Import Prelude GoString GoErrors GoConv.
Open Scope Z_scope.

(** The character of a 6-bit value, and back. *)
Definition b64_char (n : Z) : byte :=
  if n <? 26 then zb (65 + n)
  else if n <? 52 then zb (71 + n)
  else if n <? 62 then zb (n - 4)
  else if n =? 62 then "-"%byte else "_"%byte.

Definition b64_value (c : byte) : option Z :=
  let z := bz c in
  if (65 <=? z) && (z <=? 90) then Some (z - 65)
  else if (97 <=? z) && (z <=? 122) then Some (z - 71)
  else if (48 <=? z) && (z <=? 57) then Some (z + 4)
  else if z =? 45 then Some 62
  else if z =? 95 then Some 63 else None.

Fixpoint b64_encode (s : bytes) : bytes :=
  match s with
  | [] => []
  | [a] => [b64_char (bz a / 4); b64_char (bz a mod 4 * 16)]
  | [a; b] =>
      [b64_char (bz a / 4); b64_char (bz a mod 4 * 16 + bz b / 16); b64_char (bz b mod 16 * 4)]
  | a :: b :: c :: s' =>
      b64_char (bz a / 4) :: b64_char (bz a mod 4 * 16 + bz b / 16) ::
      b64_char (bz b mod 16 * 4 + bz c / 64) :: b64_char (bz c mod 64) :: b64_encode s'
  end.

Definition b64_corrupt (offset : Z) : error :=
  EText (!"illegal base64 data at input byte " ++ itoa offset).

(** The 6-bit values of the text, newlines dropped; the offset of the first
    other byte is the error. *)
Fixpoint b64_values (off : Z) (s : bytes) : result (list Z) :=
  match s with
  | [] => Ok []
  | c :: s' =>
      match b64_value c with
      | Some v => let? vs := b64_values (off + 1) s' in Ok (v :: vs)
      | None =>
          if (bz c =? 10) || (bz c =? 13) then b64_values (off + 1) s'
          else Err (b64_corrupt off)
      end
  end.

(** Four values make three bytes; a single value left over is an error. *)
Fixpoint b64_groups (vs : list Z) : option bytes :=
  match vs with
  | [] => Some []
  | [_] => None
  | [p; q] => Some [zb (p * 4 + q / 16)]
  | [p; q; r] => Some [zb (p * 4 + q / 16); zb (q mod 16 * 16 + r / 4)]
  | p :: q :: r :: t :: vs' =>
      bs' ← b64_groups vs';
      Some (zb (p * 4 + q / 16) :: zb (q mod 16 * 16 + r / 4) :: zb (r mod 4 * 64 + t) :: bs')
  end.

Definition b64_decode (s : bytes) : result bytes :=
  let? vs := b64_values 0 s in
  match b64_groups vs with
  | Some out => Ok out
  | None => Err (b64_corrupt (len s - 1))
  end.

(** ** Lemmas *)

Lemma b64_value_char n : 0 <= n < 64 -> b64_value (b64_char n) = Some n.
Proof.
  intros Hn. assert (In n (map Z.of_nat (seq 0 64))) as Hin.
  { apply in_map_iff. exists (Z.to_nat n). split; [lia|]. apply in_seq. lia. }
  revert n Hn Hin. enough (forallb (fun n => bool_decide (b64_value (b64_char n) = Some n))
    (map Z.of_nat (seq 0 64)) = true) as H.
  { intros n _ Hin. rewrite forallb_forall in H. specialize (H n Hin). by guards. }
  vm_compute. reflexivity.
Qed.

(** The values an encoding stands for. *)
Fixpoint b64_sextets (s : bytes) : list Z :=
  match s with
  | [] => []
  | [a] => [bz a / 4; bz a mod 4 * 16]
  | [a; b] => [bz a / 4; bz a mod 4 * 16 + bz b / 16; bz b mod 16 * 4]
  | a :: b :: c :: s' =>
      (bz a / 4) :: (bz a mod 4 * 16 + bz b / 16) ::
      (bz b mod 16 * 4 + bz c / 64) :: (bz c mod 64) :: b64_sextets s'
  end.

(** Induction over groups of three bytes. *)
Lemma bytes_ind3 (P : bytes -> Prop) :
  P [] -> (forall a, P [a]) -> (forall a b, P [a; b]) ->
  (forall a b c s, P s -> P (a :: b :: c :: s)) -> forall s, P s.
Proof.
  intros H0 H1 H2 H3. fix IH 1. intros [|a [|b [|c s]]]; [done|apply H1|apply H2|].
  apply H3, IH.
Qed.

Lemma b64_sextets_range s : Forall (fun n => 0 <= n < 64) (b64_sextets s).
Proof.
  induction s as [|a|a b|a b c s IH] using bytes_ind3; simpl;
    rewrite ?Forall_cons, ?Forall_nil; split_and?; try done;
    bz_ranges; Z.to_euclidean_division_equations; lia.
Qed.

Lemma b64_encode_sextets s : b64_encode s = map b64_char (b64_sextets s).
Proof.
  induction s as [|a|a b|a b c s IH] using bytes_ind3; simpl; [done|done|done|]. by rewrite IH.
Qed.

Lemma b64_values_chars vs off :
  Forall (fun n => 0 <= n < 64) vs -> b64_values off (map b64_char vs) = Ok vs.
Proof.
  intros H. revert off. induction H as [|v vs Hv Hvs IH]; intros off; simpl; [done|].
  rewrite b64_value_char by done. by rewrite IH.
Qed.

Lemma zb_eq z b : z mod 256 = bz b -> zb z = b.
Proof. intros H. apply (inj bz). by rewrite bz_zb. Qed.

Lemma b64_groups_sextets s : b64_groups (b64_sextets s) = Some s.
Proof.
  induction s as [|a|a b|a b c s IH] using bytes_ind3; cbn [b64_sextets b64_groups]; [done|..].
  all: rewrite ?IH; cbn [mbind option_bind]; repeat f_equal; apply zb_eq;
    bz_ranges; Z.to_euclidean_division_equations; lia.
Qed.

(** Decoding inverts encoding on every byte string. *)
Lemma b64_decode_encode s : b64_decode (b64_encode s) = Ok s.
Proof.
  unfold b64_decode. rewrite b64_encode_sextets, b64_values_chars by apply b64_sextets_range.
  simpl. by rewrite b64_groups_sextets.
Qed.

Lemma b64_encode_inj s t : b64_encode s = b64_encode t -> s = t.
Proof. intros H. apply (f_equal b64_decode) in H. rewrite !b64_decode_encode in H. by simplify_eq. Qed.

(** The text of an encoding is plain: letters, digits, [-] and [_]. *)
Definition b64_plain (c : byte) : bool := bool_decide (is_Some (b64_value c)).

Lemma b64_encode_plain s : forallb b64_plain (b64_encode s) = true.
Proof.
  rewrite b64_encode_sextets. pose proof (b64_sextets_range s) as H.
  induction H as [|v vs Hv Hvs IH]; [done|]. simpl. rewrite IH, andb_true_r.
  unfold b64_plain. rewrite b64_value_char by done. by apply bool_decide_true.
Qed.

Lemma length_b64_encode s :
  len (b64_encode s) = len s / 3 * 4 + (if len s mod 3 =? 0 then 0 else len s mod 3 + 1).
Proof.
  induction s as [|a|a b|a b c s IH] using bytes_ind3; [done|done|done|].
  cbn [b64_encode]. rewrite !len_cons, IH.
  replace (1 + (1 + (1 + len s))) with (len s + 1 * 3) by lia.
  rewrite Z.div_add, Z.mod_add by lia. lia.
Qed.
