(* ===== verification/TmuxArgs.v ===== *)
(** * Guarded tmux command queues (internal/tmux/tmux.go)

    The builders of the argument vectors the program hands to tmux.  A
    mutation travels as one [if-shell -F] whose condition pins the server
    generation and whatever else identifies the object, whose first branch is
    the mutation and whose second branch prints a mismatch message. *)

From S2P Require Import Prelude GoString GoUnicode GoConv GoErrors GoPath TmuxQuote TmuxFormat.
Open Scope Z_scope.

Definition SocketSessions : bytes := !"wrap".
Definition SocketUI : bytes := !"wrap-ui".
Definition windowPinOwnerOption : bytes := !"@wrap_mirror_pin_owner".
Definition ServerGenerationOption : bytes := !"@wrap_server_generation".
Definition InstanceIDOption : bytes := !"@wrap_instance_id".
Definition BellOption : bytes := !"@wrap_bell".
Definition BellHook : bytes := !"alert-bell[99]".
Definition EntryNameOption : bytes := !"@wrap_entry_name".
Definition EntryPathOption : bytes := !"@wrap_entry_path".
Definition SessionKindOption : bytes := !"@wrap_session_kind".
Definition SessionKindEntry : bytes := !"entry".
Definition SessionKindScratch : bytes := !"scratch".
Definition SessionKindDiff : bytes := !"diff".

Definition generationMismatchMessage : bytes := !"wrap-server-generation-mismatch".
Definition sessionIdentityMismatchMessage : bytes := !"wrap-session-identity-mismatch".
Definition sessionWindowMismatchMessage : bytes := !"wrap-session-window-mismatch".
Definition windowPinMismatchMessage : bytes := !"wrap-window-pin-mismatch".

Definition tab : bytes := [x09].

(** ** Endpoints *)

Record Endpoint := { SocketName : bytes; SocketPath : bytes }.

Definition Endpoint_Args (e : Endpoint) : result (list bytes) :=
  if (SocketName e ==b []) && (SocketPath e ==b []) then Err (EText !"tmux socket is required")
  else if negb (SocketName e ==b []) && negb (SocketPath e ==b []) then
    Err (EText !"exactly one tmux socket selector is required")
  else if negb (SocketName e ==b []) then Ok [!"-L"; SocketName e]
  else if negb (is_abs (SocketPath e)) then Err (EText !"tmux socket path must be absolute")
  else Ok [!"-S"; SocketPath e].

Definition isSessionKind (kind : bytes) : bool :=
  (kind ==b SessionKindEntry) || (kind ==b SessionKindScratch) || (kind ==b SessionKindDiff).

Definition if_shell_target (id condition command reject : bytes) : list bytes :=
  [!"if-shell"; !"-F"; !"-t"; id; condition; command; reject].

Definition reject_with (message : bytes) : bytes :=
  tmuxCommand [!"display-message"; !"-p"; message].

Section Builders.
Context `{UnicodeTables}.

Definition invalid_session_id (id : bytes) : error :=
  EText (!"invalid tmux session id " ++ quote id).
Definition invalid_window_id (id : bytes) : error :=
  EText (!"invalid tmux window id " ++ quote id).
Definition invalid_generation (generation : bytes) : error :=
  EText (!"invalid tmux server generation " ++ quote generation).

Definition serverCommandIfGenerationArgs (generation command : bytes) : result (list bytes) :=
  fail_if negb (isGeneration generation) with invalid_generation generation;;
  let condition := !"#{==:#{" ++ ServerGenerationOption ++ !"}," ++ generation ++ !"}" in
  Ok [!"if-shell"; !"-F"; condition; command; reject_with generationMismatchMessage].

Definition sessionCommandIfGenerationArgs (id generation command : bytes)
    : result (list bytes) :=
  fail_if negb (isSessionID id) with invalid_session_id id;;
  serverCommandIfGenerationArgs generation command.

Definition sessionWindowCommandIfGenerationArgs (id generation windowID command : bytes)
    : result (list bytes) :=
  fail_if negb (isSessionID id) with invalid_session_id id;;
  fail_if negb (isWindowID windowID) with invalid_window_id windowID;;
  fail_if negb (isGeneration generation) with invalid_generation generation;;
  let generationCondition := !"#{==:#{" ++ ServerGenerationOption ++ !"}," ++ generation ++ !"}" in
  let windowCondition := !"#{==:#{window_id}," ++ windowID ++ !"}" in
  let condition := !"#{&&:" ++ generationCondition ++ !"," ++ windowCondition ++ !"}" in
  Ok (if_shell_target id condition command (reject_with generationMismatchMessage)).

(** ** Attaching *)

Definition attachSessionIfGenerationArgs (id generation : bytes) (ignoreSize : bool)
    : result (list bytes) :=
  let attach := !"attach-session" :: (if ignoreSize then [!"-f"; !"ignore-size"] else []) in
  sessionCommandIfGenerationArgs id generation (tmuxCommand (attach ++ [!"-t"; id])).

Definition AttachSessionIfGenerationArgs (id generation : bytes) : result (list bytes) :=
  attachSessionIfGenerationArgs id generation false.
Definition AttachSessionIgnoringSizeIfGenerationArgs (id generation : bytes)
    : result (list bytes) :=
  attachSessionIfGenerationArgs id generation true.

Definition AttachWindowIgnoringSizeIfGenerationArgs (id generation windowID : bytes)
    : result (list bytes) :=
  let attach := tmuxCommand [!"attach-session"; !"-f"; !"ignore-size"; !"-t"; id] in
  sessionWindowCommandIfGenerationArgs id generation windowID attach.

(** ** The helper session of a viewer *)

Definition NewStandaloneSessionIfWindowGenerationArgs (id generation windowID name : bytes)
    : result (list bytes) :=
  fail_if negb (isSessionID id) with invalid_session_id id;;
  fail_if negb (isGeneration generation) with invalid_generation generation;;
  fail_if negb (isWindowID windowID) with invalid_window_id windowID;;
  fail_if name ==b [] with EText !"tmux grouped session name is empty";;
  let condition := !"#{&&:#{==:#{" ++ ServerGenerationOption ++ !"}," ++ generation ++
    !"},#{==:#{window_id}," ++ windowID ++ !"}}" in
  let create := tmuxCommand
    [!"new-session"; !"-d"; !"-s"; name; !"-n"; !"__wrap_placeholder";
     !"-P"; !"-F"; !"#{session_id}" ++ tab ++ !"#{window_id}"; !"exec sleep 300"] in
  let create := create ++ !" ; " ++
    tmuxCommand [!"set-option"; !"-t"; name; !"destroy-unattached"; !"off"] in
  Ok (if_shell_target id condition create (reject_with sessionWindowMismatchMessage)).

Definition LinkWindowReplacingCurrentIfGenerationArgs
    (sourceID generation windowID targetID targetWindowID : bytes) : result (list bytes) :=
  fail_if negb (isSessionID targetID)
    with EText (!"invalid target tmux session id " ++ quote targetID);;
  fail_if negb (isWindowID targetWindowID)
    with EText (!"invalid target tmux window id " ++ quote targetWindowID);;
  let link := tmuxCommand
    [!"link-window"; !"-d"; !"-k"; !"-s"; sourceID ++ !":" ++ windowID;
     !"-t"; targetID ++ !":" ++ targetWindowID] in
  sessionWindowCommandIfGenerationArgs sourceID generation windowID link.

(** ** Pinning a window's size *)

Definition CaptureWindowSizeIfGenerationArgs (id generation : bytes) : result (list bytes) :=
  let capture :=
    tmuxCommand [!"display-message"; !"-p"; !"-t"; id;
      !"#{window_id}" ++ tab ++ !"#{window_width}" ++ tab ++ !"#{window_height}"] ++ !" ; " ++
    tmuxCommand [!"show-options"; !"-w"; !"-A"; !"-t"; id; !"window-size"] ++ !" ; " ++
    tmuxCommand [!"show-options"; !"-v"; !"-A"; !"-t"; id; !"status"] in
  sessionCommandIfGenerationArgs id generation capture.

Definition windowPinHookNames (index : Z) : list bytes :=
  let suffix := !"[" ++ format_uint index ++ !"]" in
  [!"after-set-option" ++ suffix; !"after-resize-window" ++ suffix].

Definition is_window_size_mode (mode : bytes) : bool :=
  mode ∈b [!"largest"; !"smallest"; !"manual"; !"latest"].

(** [status] is [on], [off] or a number of rows up to five. *)
Definition valid_status (status : bytes) : bool :=
  (status ==b !"on") || (status ==b !"off") ||
  match parse_uint 16 status with Some statusRows => statusRows <=? 5 | None => false end.

(** The claim of an inherited pin; a local pin claims nothing. *)
Definition pin_owner_error (inherited : bool) (owner : bytes) (hookIndex : Z) : option error :=
  if inherited then
    if negb (isGeneration owner) || (hookIndex =? 0)
    then Some (EText !"invalid inherited tmux window pin owner") else None
  else if negb (owner ==b []) || negb (hookIndex =? 0)
    then Some (EText !"local tmux window pin must not claim ownership") else None.

Definition PinWindowSizeIfGenerationArgs (id generation windowID : bytes) (columns rows : Z)
    (mode : bytes) (inherited : bool) (status owner : bytes) (hookIndex : Z)
    : result (list bytes) :=
  fail_if negb (isSessionID id) with invalid_session_id id;;
  fail_if negb (isWindowID windowID) with invalid_window_id windowID;;
  fail_if negb (isGeneration generation) with invalid_generation generation;;
  fail_if (columns =? 0) || (rows =? 0) with EText (!"invalid captured tmux window geometry " ++
    format_uint columns ++ !"x" ++ format_uint rows);;
  fail_if negb (is_window_size_mode mode)
    with EText (!"invalid captured tmux window-size mode " ++ quote mode);;
  fail_if negb (valid_status status)
    with EText (!"invalid captured tmux status value " ++ quote status);;
  match pin_owner_error inherited owner hookIndex with
  | Some err => Err err
  | None =>
  let conditions :=
    [!"#{==:#{window_id}," ++ windowID ++ !"}";
     !"#{==:#{window_width}," ++ format_uint columns ++ !"}";
     !"#{==:#{window_height}," ++ format_uint rows ++ !"}";
     !"#{==:#{window-size}," ++ escapeFormatLiteral mode ++ !"}";
     !"#{==:#{status}," ++ escapeFormatLiteral status ++ !"}"] in
  let condition := fold_left
    (fun condition next => !"#{&&:" ++ condition ++ !"," ++ next ++ !"}") conditions
    (!"#{==:#{" ++ ServerGenerationOption ++ !"}," ++ generation ++ !"}") in
  let noOp := tmuxCommand [!"display-message"; !"-p"; []] in
  let claim := tmuxCommand
    [!"set-option"; !"-w"; !"-o"; !"-t"; windowID; !"window-size"; !"manual"] in
  let resize := tmuxCommand [!"resize-window"; !"-t"; windowID;
    !"-x"; format_uint columns; !"-y"; format_uint rows] in
  let mark := tmuxCommand
    [!"set-option"; !"-w"; !"-t"; windowID; windowPinOwnerOption; owner] in
  let invalidate := tmuxCommand
    [!"set-option"; !"-w"; !"-u"; !"-t"; windowID; windowPinOwnerOption] in
  let watch := map (fun hookName =>
    let hookCommand :=
      if has_prefix !"after-set-option[" hookName
      then tmuxCommand [!"if-shell"; !"-F"; !"#{==:#{hook_argument_0},window-size}";
                        invalidate; noOp]
      else invalidate in
    tmuxCommand [!"set-hook"; !"-w"; !"-t"; windowID; hookName; hookCommand])
    (windowPinHookNames hookIndex) in
  let pin := if inherited
    then claim ++ !" ; " ++ mark ++ !" ; " ++ resize ++ !" ; " ++ join !" ; " watch
    else noOp in
  Ok (if_shell_target id condition pin (reject_with windowPinMismatchMessage))
  end.

Definition RestoreWindowSizeIfGenerationArgs (generation windowID mode : bytes)
    (inherited : bool) (owner : bytes) (hookIndex : Z) : result (list bytes) :=
  fail_if negb (isWindowID windowID) with invalid_window_id windowID;;
  fail_if negb (is_window_size_mode mode)
    with EText (!"invalid tmux window-size mode " ++ quote mode);;
  match pin_owner_error inherited owner hookIndex with
  | Some err => Err err
  | None =>
  let unwatch := map (fun hookName =>
    tmuxCommand [!"set-hook"; !"-w"; !"-u"; !"-t"; windowID; hookName])
    (windowPinHookNames hookIndex) in
  let unset := tmuxCommand [!"set-option"; !"-w"; !"-u"; !"-t"; windowID; !"window-size"] in
  let noOp := tmuxCommand [!"display-message"; !"-p"; []] in
  let ownedCondition := !"#{&&:#{==:#{window-size},manual},#{==:#{" ++
    windowPinOwnerOption ++ !"}," ++ owner ++ !"}}" in
  let unsetIfOwned := tmuxCommand
    [!"if-shell"; !"-F"; !"-t"; windowID; ownedCondition; unset; noOp] in
  let clearOwner := tmuxCommand
    [!"set-option"; !"-w"; !"-u"; !"-t"; windowID; windowPinOwnerOption] in
  let clearOwnerIfOwned := tmuxCommand
    [!"if-shell"; !"-F"; !"-t"; windowID;
     !"#{==:#{" ++ windowPinOwnerOption ++ !"}," ++ owner ++ !"}"; clearOwner; noOp] in
  let restore := if inherited
    then join !" ; " unwatch ++ !" ; " ++ unsetIfOwned ++ !" ; " ++ clearOwnerIfOwned
    else tmuxCommand [!"set-option"; !"-w"; !"-t"; windowID; !"window-size"; mode] in
  serverCommandIfGenerationArgs generation restore
  end.
End Builders.
