(* ===== verification/TmuxServer.v ===== *)
(** * The tmux server interface (internal/tmux/tmux.go)

    A method is a program that runs tmux commands and looks at their output
    ([tm]).  What tmux answers is an environment: a function of the commands
    run so far and the present one, so a theorem that holds for every
    environment holds whatever the server, other clients and the operating
    system do. *)

From S2P Require Import Prelude GoString GoUnicode GoConv GoErrors GoPath GoBase64 TmuxQuote.
From S2P Require Import TmuxFormat TmuxArgs.
Open Scope Z_scope.

(** ** Programs that run tmux *)

Inductive tm (A : Type) :=
| TRet (a : A)
| TRun (args : list bytes) (k : result bytes -> tm A).
Arguments TRet {A} a.
Arguments TRun {A} args k.

Fixpoint tbind {A B} (m : tm A) (f : A -> tm B) : tm B :=
  match m with
  | TRet a => f a
  | TRun args k => TRun args (fun r => tbind (k r) f)
  end.
Notation "'let!' x := m 'in' k" := (tbind m (fun x => k))
  (at level 10, x pattern, m at level 100, k at level 200) : go_scope.

(** The answers of tmux: from the commands already run, newest first, and the
    command being run. *)
Definition env := list (list bytes) -> list bytes -> result bytes.

Fixpoint tm_exec {A} (h : env) (past : list (list bytes)) (m : tm A) : list (list bytes) * A :=
  match m with
  | TRet a => (past, a)
  | TRun args k => tm_exec h (args :: past) (k (h past args))
  end.

(** ** The server *)

Record Server := { Socket : bytes; SrvSocketPath : bytes; ConfigFile : bytes }.

Definition NewServer (socket : bytes) : Server :=
  {| Socket := socket; SrvSocketPath := []; ConfigFile := [] |}.
Definition NewServerPath (socketPath : bytes) : Server :=
  {| Socket := []; SrvSocketPath := socketPath; ConfigFile := [] |}.

(** The arguments before the command: [-f config] and the socket selector. *)
Definition server_prefix (s : Server) : result (list bytes) :=
  let? prefix := Endpoint_Args {| SocketName := Socket s; SocketPath := SrvSocketPath s |} in
  Ok (if ConfigFile s ==b [] then prefix else !"-f" :: ConfigFile s :: prefix).

Definition Run (s : Server) (args : list bytes) : tm (result bytes) :=
  match server_prefix s with
  | Err err => TRet (Err err)
  | Ok prefix => TRun (prefix ++ args) TRet
  end.

(** With a context the runner may also answer with the context's error, which
    the environment covers. *)
Definition RunContext (s : Server) (args : list bytes) : tm (result bytes) := Run s args.

(** A command whose output is ignored. *)
Definition run_ (s : Server) (args : list bytes) : tm (option error) :=
  let! r := Run s args in TRet (err_of r).

Section Methods.
Context `{UnicodeTables}.

(** ** Running the program (runExecContext)

    What a run of tmux leaves; [exit_error] is the error of [cmd.Run]. *)
Record process := { stdout : bytes; stderr : bytes; exit_error : option error }.

Definition runExecContext (args : list bytes) (p : process) : result bytes :=
  match exit_error p with
  | Some err => Err (EWrap (!"tmux " ++ join !" " args ++ !": ") err (!": " ++ trim_space (stderr p)))
  | None => Ok (trim_suffix [x0a] (stdout p))
  end.

(** The environment in which [execRunner] runs the commands. *)
Definition execRunner (tmux : list (list bytes) -> list bytes -> process) : env :=
  fun past args => runExecContext args (tmux past args).

(** ** What a tmux error means *)

Definition isNoServerError (err : error) : bool :=
  let msg := to_lower (error_text err) in
  contains !"no server running" msg ||
  (contains !"error connecting to" msg && contains !"no such file or directory" msg).

Definition isMissingSessionError (err : error) : bool :=
  let msg := to_lower (error_text err) in
  contains !"can't find session" msg || contains !"no such session" msg ||
  contains !"no server running" msg ||
  (contains !"error connecting to" msg && contains !"no such file or directory" msg).

Definition isMissingTargetError (err : error) : bool :=
  let msg := to_lower (error_text err) in
  isMissingSessionError err || contains !"can't find window" msg ||
  contains !"no such window" msg.

Definition IsMissingTargetError (err : option error) : bool :=
  match err with
  | None => false
  | Some err => errors_is ErrMissingTarget err || isMissingTargetError err
  end.

Definition IsGenerationMismatchOutput (out : bytes) : bool :=
  trim_space out ==b generationMismatchMessage.
Definition IsWindowPinMismatchOutput (out : bytes) : bool :=
  trim_space out ==b windowPinMismatchMessage.
Definition IsWindowPinConflictError (err : option error) : bool :=
  match err with
  | None => false
  | Some err => contains !"already set: window-size" (to_lower (error_text err))
  end.

(** [fmt.Errorf("%w: %v", sentinel, err)]. *)
Definition wrap_sentinel (s : sentinel) (err : error) : error :=
  EWrap [] (ESentinel s) (!": " ++ error_text err).

(** An error that means the target is gone already is no error. *)
Definition ignore_missing (err : option error) : option error :=
  match err with
  | Some e => if isMissingSessionError e then None else err
  | None => None
  end.

(** ** Guarded commands *)

(** Run a guarded command; its mismatch message is the error [changed]. *)
Definition run_guarded (s : Server) (args : list bytes) (message : bytes) (changed : sentinel)
    : tm (option error) :=
  let! r := Run s args in
  match r with
  | Err err => TRet (Some err)
  | Ok out => TRet (if trim_space out ==b message then Some (ESentinel changed) else None)
  end.

Definition run_args_guarded (s : Server) (args : result (list bytes)) : tm (option error) :=
  match args with
  | Err err => TRet (Some err)
  | Ok args => run_guarded s args generationMismatchMessage ErrServerGenerationChanged
  end.

Definition runSessionCommandIfGeneration (s : Server) (id generation command : bytes)
    : tm (option error) :=
  run_args_guarded s (sessionCommandIfGenerationArgs id generation command).

Definition reject_identity : bytes := reject_with sessionIdentityMismatchMessage.

Definition run_identity_guarded (s : Server) (id condition command : bytes)
    : tm (option error) :=
  run_guarded s (if_shell_target id condition command reject_identity)
    sessionIdentityMismatchMessage ErrSessionIdentityChanged.

(** The same for a kill, for which an absent session is success. *)
Definition kill_identity_guarded (s : Server) (id condition : bytes) : tm (option error) :=
  let! r := Run s (if_shell_target id condition
    (tmuxCommand [!"kill-session"; !"-t"; id]) reject_identity) in
  TRet (match r with
        | Err err => if isMissingSessionError err then None else Some err
        | Ok out => if trim_space out ==b sessionIdentityMismatchMessage
                    then Some (ESentinel ErrSessionIdentityChanged) else None
        end).

(** ** Sessions by name *)

Definition HasSession (s : Server) (name : bytes) : tm (result bool) :=
  let! r := Run s [!"has-session"; !"-t"; !"=" ++ name] in
  TRet (match r with
        | Ok _ => Ok true
        | Err err => if isMissingSessionError err then Ok false else Err err
        end).

Definition with_cmd (args : list bytes) (cmd : bytes) : list bytes :=
  if cmd ==b [] then args else args ++ [cmd].

Definition NewSession (s : Server) (name dir cmd : bytes) : tm (option error) :=
  run_ s (with_cmd [!"new-session"; !"-d"; !"-s"; name; !"-c"; dir] cmd).

Definition new_session_args (name dir cmd : bytes) : list bytes :=
  with_cmd [!"new-session"; !"-d"; !"-P"; !"-F"; !"#{session_id}"; !"-s"; name; !"-c"; dir] cmd.

Definition NewSessionID (s : Server) (name dir cmd : bytes) : tm (result bytes) :=
  let! r := Run s (new_session_args name dir cmd) in
  TRet (let? id := r in
        fail_if id ==b [] with EText !"tmux new-session returned an empty session id";;
        Ok id).

Definition NewSessionIdentity (s : Server) (name dir cmd generation : bytes)
    : tm (result (bytes * bytes)) :=
  match serverCommandIfGenerationArgs generation (tmuxCommand (new_session_args name dir cmd)) with
  | Err err => TRet (Err err)
  | Ok args =>
      let! r := Run s args in
      TRet (let? out := r in
            let out := trim_space out in
            fail_if out ==b generationMismatchMessage with ESentinel ErrServerGenerationChanged;;
            fail_if negb (isSessionID out)
              with EText (!"tmux new-session returned invalid identity " ++ quote out);;
            Ok (out, generation))
  end.

Definition KillSession (s : Server) (name : bytes) : tm (option error) :=
  run_ s [!"kill-session"; !"-t"; !"=" ++ name].

Definition KillSessionID (s : Server) (id : bytes) : tm (option error) :=
  let! err := run_ s [!"kill-session"; !"-t"; id] in
  TRet (ignore_missing err).

Definition EnsureServerGeneration (s : Server) (candidate : bytes) : tm (result bytes) :=
  if negb (isGeneration candidate) then TRet (Err (invalid_generation candidate)) else
  let condition := !"#{==:#{" ++ ServerGenerationOption ++ !"},}" in
  let set := !"set-option -g " ++ ServerGenerationOption ++ !" " ++ candidate in
  let! r := Run s [!"if-shell"; !"-F"; condition; set; []] in
  match r with
  | Err err => TRet (Err err)
  | Ok _ =>
      let! r := Run s [!"show-options"; !"-gvq"; ServerGenerationOption] in
      TRet (let? generation := r in
            let generation := trim_space generation in
            fail_if negb (isGeneration generation)
              with EText (!"tmux server returned invalid generation " ++ quote generation);;
            Ok generation)
  end.

(** ** Sessions by identity *)

Definition KillSessionIDIfGeneration (s : Server) (id generation : bytes) : tm (option error) :=
  let! err := runSessionCommandIfGeneration s id generation
    (tmuxCommand [!"kill-session"; !"-t"; id]) in
  TRet (ignore_missing err).

(** The guards every identity-checked mutation starts with. *)
Definition check_identity (id generation name : bytes) : option error :=
  if negb (isSessionID id) then Some (invalid_session_id id)
  else if negb (isGeneration generation) then Some (invalid_generation generation)
  else if name ==b [] then Some (EText !"tmux session name is empty")
  else None.

(** A returned error ends the method. *)
Definition guard_error (err : option error) (k : tm (option error)) : tm (option error) :=
  match err with Some e => TRet (Some e) | None => k end.

Definition KillSessionIDIfGenerationAndName (s : Server) (id generation name : bytes)
    : tm (option error) :=
  guard_error (check_identity id generation name)
  (let condition := !"#{&&:#{==:#{" ++ ServerGenerationOption ++ !"}," ++ generation ++
     !"},#{==:#{session_name}," ++ escapeFormatLiteral name ++ !"}}" in
   kill_identity_guarded s id condition).

Definition KillSessionIDIfGenerationAndNameAndOption (s : Server)
    (id generation name option value : bytes) : tm (Datatypes.option error) :=
  guard_error (check_identity id generation name)
  (guard_error
     (if (option ==b []) || negb (has_prefix !"@" option)
      then Some (EText (!"invalid tmux ownership option " ++ quote option))
      else if value ==b [] then Some (EText !"tmux ownership value is empty") else None)
  (let condition := !"#{&&:#{==:#{" ++ ServerGenerationOption ++ !"}," ++ generation ++
     !"},#{&&:#{==:#{session_name}," ++ escapeFormatLiteral name ++
     !"},#{==:#{" ++ option ++ !"}," ++ escapeFormatLiteral value ++ !"}}}" in
   kill_identity_guarded s id condition)).

Definition check_kind (kind : bytes) : option error :=
  if isSessionKind kind then None else Some (EText (!"invalid tmux session kind " ++ quote kind)).

(** Generation, name and kind of a session. *)
Definition kind_condition (generation name kind : bytes) : bytes :=
  !"#{&&:#{==:#{" ++ ServerGenerationOption ++ !"}," ++ generation ++
  !"},#{&&:#{==:#{session_name}," ++ escapeFormatLiteral name ++
  !"},#{==:#{" ++ SessionKindOption ++ !"}," ++ kind ++ !"}}}".

Definition KillSessionIDIfGenerationAndNameAndKind (s : Server) (id generation name kind : bytes)
    : tm (option error) :=
  guard_error (check_identity id generation name)
  (guard_error (check_kind kind)
  (kill_identity_guarded s id (kind_condition generation name kind))).

(** Here both names are checked together. *)
Definition RenameSessionIDIfGenerationAndNameAndKind (s : Server)
    (id generation oldName kind newName : bytes) : tm (option error) :=
  guard_error
    (if negb (isSessionID id) then Some (invalid_session_id id)
     else if negb (isGeneration generation) then Some (invalid_generation generation)
     else if (oldName ==b []) || (newName ==b []) then Some (EText !"tmux session name is empty")
     else check_kind kind)
  (run_identity_guarded s id (kind_condition generation oldName kind)
     (tmuxCommand [!"rename-session"; !"-t"; id; newName])).

Definition SetUnmarkedSessionKindIfGenerationAndName (s : Server)
    (id generation name kind : bytes) : tm (option error) :=
  guard_error (check_identity id generation name)
  (guard_error (check_kind kind)
  (let condition := !"#{&&:#{==:#{" ++ ServerGenerationOption ++ !"}," ++ generation ++
     !"},#{&&:#{==:#{session_name}," ++ escapeFormatLiteral name ++
     !"},#{&&:#{==:#{" ++ SessionKindOption ++ !"},}" ++
     !",#{&&:#{==:#{" ++ EntryNameOption ++ !"},}" ++
     !",#{==:#{" ++ EntryPathOption ++ !"},}}}}}" in
   run_identity_guarded s id condition
     (tmuxCommand [!"set-option"; !"-t"; id; SessionKindOption; kind]))).

Definition SetSessionKindIfGenerationAndNameAndCurrentKind (s : Server)
    (id generation name expectedKind newKind : bytes) : tm (option error) :=
  guard_error (check_identity id generation name)
  (guard_error
     (if negb (expectedKind ==b []) && negb (isSessionKind expectedKind)
      then Some (EText (!"invalid expected tmux session kind " ++ quote expectedKind))
      else check_kind newKind)
  (run_identity_guarded s id (kind_condition generation name expectedKind)
     (tmuxCommand [!"set-option"; !"-t"; id; SessionKindOption; newKind]))).

Definition SetSessionOptionIfGeneration (s : Server) (id generation option value : bytes)
    : tm (Datatypes.option error) :=
  if option ==b [] then TRet (Some (EText !"tmux option name is empty")) else
  runSessionCommandIfGeneration s id generation
    (tmuxCommand [!"set-option"; !"-t"; id; option; value]).

Definition BindPaneMouseIfGeneration (s : Server) (id generation keyTable : bytes)
    : tm (option error) :=
  guard_error
    (if negb (isSessionID id) then Some (invalid_session_id id)
     else if negb (isGeneration generation) then Some (invalid_generation generation)
     else if keyTable ==b [] then Some (EText !"tmux key table is empty") else None)
  (let selectPane := !"select-pane -t = ; send-keys -M" in
   let condition := !"#{==:#{" ++ ServerGenerationOption ++ !"}," ++ generation ++ !"}" in
   run_guarded s (if_shell_target id condition
       (tmuxCommand [!"bind-key"; !"-T"; keyTable; !"MouseDown1Pane"; selectPane])
       (reject_with generationMismatchMessage))
     generationMismatchMessage ErrServerGenerationChanged).

Definition UnbindPaneMouseIfGeneration (s : Server) (generation keyTable : bytes)
    : tm (option error) :=
  if keyTable ==b [] then TRet (Some (EText !"tmux key table is empty")) else
  run_args_guarded s (serverCommandIfGenerationArgs generation
    (tmuxCommand [!"unbind-key"; !"-q"; !"-T"; keyTable; !"MouseDown1Pane"])).

Definition RenameSessionIDIfGeneration (s : Server) (id generation newName : bytes)
    : tm (option error) :=
  if newName ==b [] then TRet (Some (EText !"tmux session name is empty")) else
  runSessionCommandIfGeneration s id generation
    (tmuxCommand [!"rename-session"; !"-t"; id; newName]).

Definition SwitchClientIfGeneration (s : Server) (clientTTY id generation : bytes)
    : tm (option error) :=
  if clientTTY ==b [] then TRet (Some (EText !"tmux client tty is empty")) else
  runSessionCommandIfGeneration s id generation
    (tmuxCommand [!"switch-client"; !"-c"; clientTTY; !"-t"; id]).

Definition SelectWindowIDIfGeneration (s : Server) (id generation windowID : bytes)
    : tm (option error) :=
  if negb (isWindowID windowID) then TRet (Some (invalid_window_id windowID)) else
  runSessionCommandIfGeneration s id generation
    (tmuxCommand [!"select-window"; !"-t"; id ++ !":" ++ windowID]).

(** ** Values read from the server *)

Definition sessionValueIfGeneration (s : Server) (id generation command : bytes)
    : tm (result bytes) :=
  match sessionCommandIfGenerationArgs id generation command with
  | Err err => TRet (Err err)
  | Ok args =>
      let! r := Run s args in
      TRet (match r with
            | Err err => Err (if isMissingTargetError err
                              then wrap_sentinel ErrMissingTarget err else err)
            | Ok out => if out ==b generationMismatchMessage
                        then Err (ESentinel ErrServerGenerationChanged) else Ok out
            end)
  end.

Definition SessionCurrentPath (s : Server) (id : bytes) : tm (result bytes) :=
  let! r := Run s [!"display-message"; !"-p"; !"-t"; id; !"#{pane_current_path}"] in
  TRet (match r with
        | Err err => Err (if isMissingTargetError err
                          then wrap_sentinel ErrMissingTarget err else err)
        | Ok out => Ok out
        end).

Definition SessionCurrentPathIfGeneration (s : Server) (id generation : bytes)
    : tm (result bytes) :=
  let! r := sessionValueIfGeneration s id generation
    (tmuxCommand [!"display-message"; !"-p"; !"-t"; id; !"#{pane_current_path}"]) in
  TRet (match r with
        | Err err => Err (wrapf (!"read current path for session " ++ id ++ !": ") err)
        | Ok path => Ok path
        end).

Definition ClientSession (s : Server) (tty : bytes) : tm (result bytes) :=
  Run s [!"display-message"; !"-p"; !"-c"; tty; !"#{client_session}"].

Definition ClientSessionIdentity (s : Server) (tty : bytes) : tm (result (bytes * bytes)) :=
  let! r := Run s [!"display-message"; !"-p"; !"-c"; tty;
                   !"#{client_session}" ++ tab ++ !"#{session_id}"] in
  TRet (let? out := r in
        match splitn_byte 2 x09 out with
        | [name; id] => if (name ==b []) || (id ==b [])
            then Err (EText (!"tmux returned incomplete client session identity " ++ quote out))
            else Ok (name, id)
        | _ => Err (EText (!"tmux returned incomplete client session identity " ++ quote out))
        end).

Definition ServerPID (s : Server) : tm (result bytes) :=
  let! r := Run s [!"display-message"; !"-p"; !"#{pid}"] in
  TRet (match r with
        | Err err => Err (if isNoServerError err then wrap_sentinel ErrNoServer err else err)
        | Ok pid => let pid := trim_space pid in
                    if pid ==b [] then Err (EText !"tmux returned an empty server pid")
                    else Ok pid
        end).

Definition UnbindKey (s : Server) (key : bytes) : tm (option error) :=
  let! err := run_ s [!"unbind-key"; !"-n"; key] in
  TRet (match err with
        | Some e => if contains !"unknown key" (to_lower (error_text e)) then None else err
        | None => None
        end).

Definition ClientTTYs (s : Server) (session : bytes) : tm (result (list bytes)) :=
  let! r := Run s [!"list-clients"; !"-t"; !"=" ++ session; !"-F"; !"#{client_tty}"] in
  TRet (let? out := r in
        Ok (filter (fun line => line <> []) (map trim_space (split_byte x0a out)))).

(** ** Plain commands *)

Definition RenameSession (s : Server) (old newName : bytes) : tm (option error) :=
  run_ s [!"rename-session"; !"-t"; !"=" ++ old; newName].
Definition RenameSessionID (s : Server) (id newName : bytes) : tm (option error) :=
  run_ s [!"rename-session"; !"-t"; id; newName].
Definition SwitchClient (s : Server) (clientTTY target : bytes) : tm (option error) :=
  let target := if isSessionID target then target else !"=" ++ target in
  run_ s [!"switch-client"; !"-c"; clientTTY; !"-t"; target].
Definition SelectPane (s : Server) (target : bytes) : tm (option error) :=
  run_ s [!"select-pane"; !"-t"; target].

Definition invalid_pane_id (target : bytes) : error :=
  EText (!"invalid tmux pane id " ++ quote target).

Definition PaneHeight (s : Server) (target : bytes) : tm (result Z) :=
  if negb (isPaneID target) then TRet (Err (invalid_pane_id target)) else
  let! r := Run s [!"display-message"; !"-p"; !"-t"; target; !"#{pane_height}"] in
  TRet (let? out := r in
        let bad := Err (EText (!"unexpected tmux pane height " ++ quote out)) in
        match atoi (trim_space out) with
        | Some height => if (height <? 1) || (300 <? height) then bad else Ok height
        | None => bad
        end).

Definition ResizePaneHeight (s : Server) (target : bytes) (height : Z) : tm (option error) :=
  if negb (isPaneID target) then TRet (Some (invalid_pane_id target))
  else if (height <? 1) || (300 <? height)
  then TRet (Some (EText (!"invalid tmux pane height " ++ itoa height)))
  else run_ s [!"resize-pane"; !"-t"; target; !"-y"; itoa height].

Definition Set_ (s : Server) (option value : bytes) : tm (Datatypes.option error) :=
  run_ s [!"set-option"; !"-g"; option; value].
Definition SetW (s : Server) (option value : bytes) : tm (Datatypes.option error) :=
  run_ s [!"set-option"; !"-wg"; option; value].
Definition SetSessionOption (s : Server) (target option value : bytes)
    : tm (Datatypes.option error) :=
  run_ s [!"set-option"; !"-t"; target; option; value].
Definition SetHook (s : Server) (name cmd : bytes) : tm (option error) :=
  run_ s [!"set-hook"; !"-g"; name; cmd].
End Methods.
