(* ===== verification/TmuxSessions.v ===== *)
(** * What tmux reports (internal/tmux/tmux.go)

    The markers stored in tmux options, the listings of sessions and panes and
    the version check. *)

From S2P Require Import Prelude GoString GoUnicode GoConv GoErrors GoBase64 TmuxQuote TmuxArgs.
From S2P Require Import TmuxServer.
Open Scope Z_scope.

(** ** Entry markers *)

Definition entryNameEncodingPrefix : bytes := !"wrap.entry.v1.".

Definition EncodeEntryName (name : bytes) : bytes := entryNameEncodingPrefix ++ b64_encode name.

Definition DecodeEntryName (marker : bytes) : result bytes :=
  if negb (has_prefix entryNameEncodingPrefix marker) then Ok marker else
  match b64_decode (trim_prefix entryNameEncodingPrefix marker) with
  | Err err => Err (wrapf !"decode entry name marker: " err)
  | Ok b =>
      fail_if (len b =? 0) || negb (valid_utf8 b)
        with EText !"decode entry name marker: value is empty or invalid UTF-8";;
      Ok b
  end.

Definition EncodeEntryPath (path : bytes) : bytes := b64_encode path.

Definition DecodeEntryPath (token : bytes) : result bytes :=
  match b64_decode token with
  | Err err => Err (wrapf !"decode entry path marker: " err)
  | Ok b => Ok b
  end.

(** ** The session listing *)

Record SessionInfo := {
  ID : bytes; Generation : bytes; Name : bytes; Activity : Z; Attached : bool; Bell : bool;
  EntryName : bytes; EntryPathToken : bytes; Kind : bytes; Created : Z
}.

Section Listings.
Context `{UnicodeTables}.

(** The error of [strconv.ParseInt]: not a number, or out of range. *)
Definition parse_int_error (s : bytes) : error :=
  let digits := match s with
                | c :: s' => if Byte.eqb c "-"%byte || Byte.eqb c "+"%byte then s' else s
                | [] => []
                end in
  EText (!"strconv.ParseInt: parsing " ++ quote s ++ !": " ++
    (if negb (digits ==b []) && forallb is_digit digits
     then !"value out of range" else !"invalid syntax")).

Definition sessions_format : bytes :=
  !"#{session_name}" ++ tab ++ !"#{session_activity}" ++ tab ++ !"#{session_attached}" ++ tab ++
  !"#{window_bell_flag}" ++ tab ++ !"#{" ++ BellOption ++ !"}" ++ tab ++
  !"#{" ++ EntryNameOption ++ !"}" ++ tab ++ !"#{" ++ EntryPathOption ++ !"}" ++ tab ++
  !"#{session_id}" ++ tab ++ !"#{" ++ ServerGenerationOption ++ !"}" ++ tab ++
  !"#{session_created}" ++ tab ++ !"#{" ++ SessionKindOption ++ !"}".

(** Field [i] of a line, empty when the line is shorter. *)
Definition field (f : list bytes) (i : nat) : bytes := default [] (f !! i).

(** One line of the listing; a line of fewer than five fields is skipped. *)
Definition parse_session (line : bytes) : result (option SessionInfo) :=
  let f := split_byte x09 line in
  if len f <? 5 then Ok None else
  match parse_int (field f 1) with
  | None => Err (wrapf (!"parse activity for tmux session " ++ quote (field f 0) ++ !": ")
                   (parse_int_error (field f 1)))
  | Some act =>
      let bell := negb (field f 3 ==b !"0") || (field f 4 ==b !"1") in
      match (if 6 <=? len f then DecodeEntryName (field f 5) else Ok []) with
      | Err err => Err (wrapf (!"decode entry name for tmux session " ++ quote (field f 0) ++ !": ") err)
      | Ok entryName =>
          match (if 10 <=? len f then parse_int (field f 9) else Some 0) with
          | None => Err (wrapf (!"parse creation time for tmux session " ++
                           quote (field f 0) ++ !": ") (parse_int_error (field f 9)))
          | Some created =>
              Ok (Some {| ID := field f 7; Generation := field f 8; Name := field f 0;
                          Activity := act; Attached := negb (field f 2 ==b !"0"); Bell := bell;
                          EntryName := entryName; EntryPathToken := field f 6;
                          Kind := field f 10; Created := created |})
          end
      end
  end.

Fixpoint parse_sessions (lines : list bytes) : result (list SessionInfo) :=
  match lines with
  | [] => Ok []
  | line :: lines' =>
      let? info := parse_session line in
      let? infos := parse_sessions lines' in
      Ok (match info with Some i => i :: infos | None => infos end)
  end.

Definition Sessions (s : Server) : tm (result (list SessionInfo)) :=
  let! r := Run s [!"list-sessions"; !"-F"; sessions_format] in
  TRet (match r with
        | Err err => Err (if isNoServerError err then wrap_sentinel ErrNoServer err else err)
        | Ok out => parse_sessions (split_byte x0a out)
        end).

(** ** The pane listing *)

Record PaneInfo := { PaneID : bytes; TTY : bytes; Command : bytes; Role : bytes }.

Definition parse_pane (line : bytes) : option PaneInfo :=
  match splitn_byte 4 x09 line with
  | id :: tty :: command :: rest =>
      Some {| PaneID := id; TTY := tty; Command := command;
              Role := match rest with [role] => role | _ => [] end |}
  | _ => None
  end.

Definition panes_format : bytes :=
  !"#{pane_id}" ++ tab ++ !"#{pane_tty}" ++ tab ++ !"#{pane_start_command}" ++ tab ++
  !"#{@wrap_role}".

Definition Panes (s : Server) (window : bytes) : tm (result (list PaneInfo)) :=
  let! r := Run s [!"list-panes"; !"-t"; window; !"-F"; panes_format] in
  TRet (match r with
        | Err err => Err (if isMissingTargetError err
                          then wrap_sentinel ErrMissingTarget err else err)
        | Ok out => Ok (omap parse_pane (split_byte x0a out))
        end).
End Listings.

(** ** The version check *)

(** [%d] of [fmt.Sscanf]: white space but no newline, an optional sign, then
    at least one digit; the digits are read greedily. *)
Fixpoint span_digits (s : bytes) : bytes * bytes :=
  match s with
  | [] => ([], [])
  | c :: s' => if is_digit c then let '(d, rest) := span_digits s' in (c :: d, rest) else ([], s)
  end.

(** Spaces before a number; a newline there is an error. *)
Fixpoint skip_space (s : bytes) : option bytes :=
  match s with
  | [] => Some []
  | c :: s' =>
      if bz c =? 10 then None
      else if ascii_space c then skip_space s'
      else
      match s' with
      | [] => Some s
      | d :: s'' =>
          if space2 c d then skip_space s''
          else match s'' with
               | [] => Some s
               | e :: s3 => if space3 c d e then skip_space s3 else Some s
               end
      end
  end.

Definition scan_int (s : bytes) : option (Z * bytes) :=
  s ← skip_space s;
  let '(sign, rest) :=
    match s with
    | c :: s' => if Byte.eqb c "-"%byte || Byte.eqb c "+"%byte then ([c], s') else ([], s)
    | [] => ([], s)
    end in
  let '(digits, rest) := span_digits rest in
  n ← parse_int (sign ++ digits);
  Some (n, rest).

Definition ParseVersion (output : bytes) : result (bytes * Z * Z) :=
  let version := trim_prefix !"tmux " (trim_space output) in
  let version := trim_prefix !"next-" version in
  let scanned :=
    '(major, s) ← scan_int version;
    match s with
    | c :: s => if Byte.eqb c "."%byte then '(minor, _) ← scan_int s; Some (major, minor) else None
    | [] => None
    end in
  match scanned with
  | Some (major, minor) => Ok (version, major, minor)
  | None => Err (EText !"tmux version could not be parsed")
  end.

Definition version_ok (major minor : Z) : bool := (3 <? major) || ((major =? 3) && (2 <=? minor)).

Definition too_old (version : bytes) : error :=
  EText (!"tmux " ++ version ++ !" is too old " ++ [xe2; x80; x94] ++ !" wrap needs 3.2 or newer").

Definition CheckVersion : tm (option error) :=
  TRun [!"-V"] (fun r => TRet (
    match r with
    | Err _ => Some (EText (!"tmux not found " ++ [xe2; x80; x94] ++
        !" install it (brew install tmux, apt install tmux) and retry"))
    | Ok out =>
        match ParseVersion out with
        | Err _ => None
        | Ok (ver, maj, min) => if version_ok maj min then None else Some (too_old ver)
        end
    end)).

Definition CheckVersionOutput (output : bytes) : result bytes :=
  match ParseVersion output with
  | Err _ => Ok (trim_prefix !"tmux " (trim_space output))
  | Ok (version, major, minor) => if version_ok major minor then Ok version else Err (too_old version)
  end.

Example version_new : CheckVersionOutput !"tmux next-3.4a" = Ok !"3.4a".
Proof. reflexivity. Qed.
Example version_old : CheckVersionOutput !"tmux 3.1" = Err (too_old !"3.1").
Proof. reflexivity. Qed.
Example version_unknown : CheckVersionOutput !"tmux master" = Ok !"master".
Proof. reflexivity. Qed.

(** ** Round trips *)

(** A string that can stand in a field of the listing. *)
Definition field_ok (s : bytes) : bool := negb (x09 ∈b s) && negb (x0a ∈b s).

Lemma field_ok_spec s : field_ok s = true <-> (x09 ∉ s) /\ (x0a ∉ s).
Proof. unfold field_ok. rewrite andb_true_iff, !negb_true_iff, !bool_decide_eq_false. done. Qed.

Lemma field_ok_app a b : field_ok a = true -> field_ok b = true -> field_ok (a ++ b) = true.
Proof. rewrite !field_ok_spec. set_solver. Qed.

Lemma field_ok_plain (p : byte -> bool) s :
  p x09 = false -> p x0a = false -> forallb p s = true -> field_ok s = true.
Proof.
  intros H9 Ha H. rewrite field_ok_spec. rewrite forallb_forall in H.
  split; intros Hin%list_elem_of_In%H; congruence.
Qed.

Lemma field_ok_b64 s : field_ok (b64_encode s) = true.
Proof. apply (field_ok_plain b64_plain); [reflexivity|reflexivity|apply b64_encode_plain]. Qed.

Lemma field_ok_format_uint n : field_ok (format_uint n) = true.
Proof.
  apply (field_ok_plain is_digit); [reflexivity|reflexivity|].
  destruct (format_uint_cons n) as (h & t & -> & Hall).
  apply forallb_forall. intros x Hx%list_elem_of_In. rewrite Forall_forall in Hall. auto.
Qed.

Lemma field_ok_itoa n : field_ok (itoa n) = true.
Proof.
  unfold itoa. case_match; [|apply field_ok_format_uint].
  apply field_ok_app; [reflexivity|apply field_ok_format_uint].
Qed.

(** The marker of an entry, empty for a session that has none. *)
Definition entry_marker (name : bytes) : bytes := if name ==b [] then [] else EncodeEntryName name.

Lemma decode_entry_marker name : valid_utf8 name = true -> DecodeEntryName (entry_marker name) = Ok name.
Proof.
  intros Hv. unfold entry_marker. case_bool_decide as Hn; [by subst|].
  unfold DecodeEntryName, EncodeEntryName. rewrite has_prefix_app, trim_prefix_app, b64_decode_encode.
  rewrite Hv. cbn [negb]. rewrite orb_false_r.
  destruct (Z.eqb_spec (len name) 0) as [H0|]; [|done]. by apply len_zero_inv in H0.
Qed.

Lemma field_ok_entry_marker name : field_ok (entry_marker name) = true.
Proof.
  unfold entry_marker. case_bool_decide; [done|].
  apply field_ok_app; [reflexivity|apply field_ok_b64].
Qed.

(** The markers stored in tmux options are lossless.  Decoding the marker
    of an entry name gives the name when it is nonempty valid UTF-8 and an
    error otherwise; decoding the token of a path gives the path, whatever
    bytes it has; and neither text contains the tab or newline that the
    listing uses as separators, so both can travel in it. *)
Theorem markers_roundtrip (name path : bytes) :
  DecodeEntryName (EncodeEntryName name) =
    (if negb (name ==b []) && valid_utf8 name then Ok name
     else Err (EText !"decode entry name marker: value is empty or invalid UTF-8")) /\
  DecodeEntryPath (EncodeEntryPath path) = Ok path /\
  field_ok (EncodeEntryName name) = true /\ field_ok (EncodeEntryPath path) = true.
Proof.
  split_and!.
  - unfold DecodeEntryName, EncodeEntryName.
    rewrite has_prefix_app, trim_prefix_app, b64_decode_encode. cbn [negb].
    destruct name as [|c name]; [done|].
    rewrite len_cons, bool_decide_false by done. pose proof (len_nonneg name).
    rewrite (proj2 (Z.eqb_neq _ _)) by lia. cbn [negb andb orb]. by destruct (valid_utf8 _).
  - unfold DecodeEntryPath, EncodeEntryPath. by rewrite b64_decode_encode.
  - apply field_ok_app; [reflexivity|apply field_ok_b64].
  - apply field_ok_b64.
Qed.

(** ** The listing reads back *)

Definition int64 (n : Z) : bool := (- 2 ^ 63 <=? n) && (n <? 2 ^ 63).

Definition session_ok (i : SessionInfo) : bool :=
  field_ok (ID i) && field_ok (Generation i) && field_ok (Name i) && field_ok (EntryPathToken i) &&
  field_ok (Kind i) && int64 (Activity i) && int64 (Created i) && valid_utf8 (EntryName i).

Definition flag (b : bool) : bytes := if b then !"1" else !"0".

(** The fields tmux prints for a session under [sessions_format]; a bell is
    reported by the window flag or by the option. *)
Definition session_fields (by_option : bool) (i : SessionInfo) : list bytes :=
  [Name i; itoa (Activity i); flag (Attached i); flag (Bell i && negb by_option);
   (if Bell i && by_option then !"1" else []); entry_marker (EntryName i); EntryPathToken i;
   ID i; Generation i; itoa (Created i); Kind i].
Definition session_line (by_option : bool) (i : SessionInfo) : bytes :=
  join tab (session_fields by_option i).

Lemma int64_spec n : int64 n = true -> - 2 ^ 63 <= n < 2 ^ 63.
Proof. unfold int64. intros H. guards. lia. Qed.

Lemma field_ok_flag b : field_ok (flag b) = true.
Proof. by destruct b. Qed.

Lemma session_fields_ok by_option i :
  session_ok i = true -> Forall (fun f => field_ok f = true) (session_fields by_option i).
Proof.
  unfold session_ok, session_fields. intros H. guards.
  repeat constructor; try done; try apply field_ok_itoa; try apply field_ok_flag;
    try apply field_ok_entry_marker. by case_match.
Qed.

Lemma parse_session_line `{UnicodeTables} by_option i :
  session_ok i = true -> parse_session (session_line by_option i) = Ok (Some i).
Proof.
  intros Hok. pose proof (session_fields_ok by_option i Hok) as Hf.
  unfold parse_session, session_line.
  rewrite split_join; [|done|].
  - unfold session_ok in Hok. guards. unfold session_fields, field. cbn.
    rewrite !atoi_itoa by (by apply int64_spec). rewrite decode_entry_marker by done.
        destruct i as [? ? ? ? [] [] ? ? ? ?], by_option; done.
  - eapply Forall_impl; [exact Hf|]. intros f [? ?]%field_ok_spec. done.
Qed.

Lemma join_forall_notin (c sep : byte) ws :
  c <> sep -> Forall (fun w => c ∉ w) ws -> c ∉ join [sep] ws.
Proof.
  intros Hc. induction 1 as [|w ws Hw Hws IH]; [set_solver|].
  destruct ws; simpl; set_solver.
Qed.

Lemma session_line_newline by_option i :
  session_ok i = true -> x0a ∉ session_line by_option i.
Proof.
  intros Hok%(session_fields_ok by_option). apply join_forall_notin; [done|].
  eapply Forall_impl; [exact Hok|]. intros f [? ?]%field_ok_spec. done.
Qed.

Lemma parse_sessions_lines `{UnicodeTables} by_option infos :
  forallb session_ok infos = true ->
  parse_sessions (map (session_line by_option) infos) = Ok infos.
Proof.
  induction infos as [|i infos IH]; simpl; [done|]. intros H0. guards.
  rewrite parse_session_line, IH by done. done.
Qed.

(** [Sessions] reads tmux's listing back.  When tmux prints any sessions
    whose names, identities and kinds are free of tabs and newlines, with
    64-bit times, in the format the program asks for, the program gets exactly
    those sessions, in order; it asks once. *)
Theorem sessions_listing_roundtrip `{UnicodeTables} (s : Server) (prefix : list bytes)
    (infos : list SessionInfo) (by_option : bool) (past : list (list bytes))
    (Hs : server_prefix s = Ok prefix) (Hok : forallb session_ok infos = true) :
  tm_exec (fun _ _ => Ok (join [x0a] (map (session_line by_option) infos))) past (Sessions s) =
  ((prefix ++ [!"list-sessions"; !"-F"; sessions_format]) :: past, Ok infos).
Proof.
  unfold Sessions, Run. rewrite Hs. cbn [tbind tm_exec]. f_equal.
  destruct infos as [|i infos]; [done|].
  rewrite split_join; [by apply parse_sessions_lines|done|].
  rewrite Forall_map. apply Forall_forall. intros j Hj%list_elem_of_In.
  rewrite forallb_forall in Hok. by apply session_line_newline, Hok.
Qed.

Lemma sessions_listing_roundtrip_witness :
  let i := {| ID := !"$1"; Generation := !"00112233445566778899aabbccddeeff"; Name := !"api";
              Activity := 1700000000; Attached := true; Bell := true; EntryName := !"api.main";
              EntryPathToken := b64_encode !"/src"; Kind := !"entry"; Created := 1600000000 |} in
  forallb session_ok [i] = true /\
  snd (tm_exec (fun _ _ => Ok (session_line true i)) [] (Sessions (NewServer SocketSessions))) = Ok [i].
Proof.
  intros i. assert (Hi : forallb session_ok [i] = true) by (vm_compute; reflexivity).
  split; [exact Hi|].
  rewrite (sessions_listing_roundtrip (NewServer SocketSessions) [!"-L"; !"wrap"] [i] true []
             eq_refl Hi). reflexivity.
Defined.
