(* ===== verification/TmuxProps.v ===== *)
(** * Guarded mutations of tmux (internal/tmux/tmux.go): the theorems

    Every mutation the program makes under a guard is one tmux command whose
    condition, branch and rejection read back as exactly what the method
    means, whatever the names in it contain. *)

From S2P Require Import Prelude GoString GoUnicode GoConv GoErrors GoPath GoBase64 TmuxQuote.
From S2P Require Import TmuxFormat TmuxArgs TmuxServer TmuxSessions.
Open Scope Z_scope.

(** [args] is one [if-shell] that runs the commands [cmds] when [c] holds of
    the target and prints [message] otherwise. *)
Definition guarded (target : option bytes) (c : cond) (cmds : list (list bytes))
    (message : bytes) (args : list bytes) : Prop :=
  exists condition branch reject,
    args = [!"if-shell"; !"-F"] ++ match target with Some id => [!"-t"; id] | None => [] end ++
           [condition; branch; reject] /\
    parse_cond (cond_depth c) condition = Some (c, []) /\
    read_tokens false None branch = Some (commands_tokens cmds) /\
    read_tokens false None reject = Some (commands_tokens [[!"display-message"; !"-p"; message]]).

Lemma read_command c args :
  read_tokens false None (tmuxCommand (c :: args)) = Some (commands_tokens [c :: args]).
Proof. apply (read_commands [c :: args]). by repeat constructor. Qed.

Lemma parse_render_all c : cond_wf c -> parse_cond (cond_depth c) (render c) = Some (c, []).
Proof. intros H. rewrite <- (app_nil_r (render c)). by apply parse_render. Qed.

Lemma guarded_intro target c cmds message condition branch :
  condition = render c -> cond_wf c ->
  read_tokens false None branch = Some (commands_tokens cmds) ->
  guarded target c cmds message
    ([!"if-shell"; !"-F"] ++ match target with Some id => [!"-t"; id] | None => [] end ++
     [condition; branch; reject_with message]).
Proof.
  intros -> Hwf Hb. eexists _, _, _. split_and!; [done|by apply parse_render_all|done|].
  apply read_command.
Qed.

(** ** The conditions the program writes *)

(** Variable names the program fixes contain no brace. *)
Lemma generation_wf l : cond_wf (CEq ServerGenerationOption l).
Proof. apply (bool_decide_unpack _). vm_compute. exact I. Qed.

Definition generation_cond (g : bytes) : cond := CEq ServerGenerationOption g.
Definition name_cond (g n : bytes) : cond := CAnd (generation_cond g) (CEq !"session_name" n).
Definition name_and_cond (g n : bytes) (c : cond) : cond :=
  CAnd (generation_cond g) (CAnd (CEq !"session_name" n) c).
Definition window_cond (g w : bytes) : cond := CAnd (generation_cond g) (CEq !"window_id" w).
Definition unmarked_cond : cond :=
  CAnd (CEq SessionKindOption []) (CAnd (CEq EntryNameOption []) (CEq EntryPathOption [])).

Ltac closed_wf := repeat split; apply (bool_decide_unpack _); vm_compute; exact I.

(** A condition text is a rendering: the texts agree byte by byte once the
    appends associate to the right. *)
Ltac condition_text :=
  unfold name_cond, name_and_cond, window_cond, generation_cond, unmarked_cond, kind_condition;
  cbn [render]; unfold cond_and, cond_eq; repeat match goal with Hg : isGeneration ?g = true |- _ => rewrite ?(escape_generation g Hg); clear Hg end;
  rewrite <- ?app_assoc; reflexivity.

Lemma escape_kind kind : isSessionKind kind = true -> escapeFormatLiteral kind = kind.
Proof.
  unfold isSessionKind. intros H. rewrite !orb_true_iff in H.
  destruct H as [[H|H]|H]; guards; by subst.
Qed.

Lemma kind_condition_render g n k :
  isGeneration g = true -> (k = [] \/ isSessionKind k = true) ->
  kind_condition g n k = render (name_and_cond g n (CEq SessionKindOption k)).
Proof.
  intros Hg Hk. unfold name_and_cond, generation_cond. cbn [render].
  rewrite (escape_generation g) by done.
  assert (escapeFormatLiteral k = k) as -> by (destruct Hk as [->|]; [done|by apply escape_kind]).
  unfold kind_condition, cond_and, cond_eq. rewrite <- ?app_assoc. reflexivity.
Qed.

(** ** The mutations *)

Inductive mutation :=
| MKill (id generation : bytes)
| MKillName (id generation name : bytes)
| MKillOption (id generation name option value : bytes)
| MKillKind (id generation name kind : bytes)
| MRenameKind (id generation oldName kind newName : bytes)
| MSetUnmarkedKind (id generation name kind : bytes)
| MSetKind (id generation name expectedKind newKind : bytes)
| MSetOption (id generation option value : bytes)
| MBindMouse (id generation keyTable : bytes)
| MUnbindMouse (generation keyTable : bytes)
| MRename (id generation newName : bytes)
| MSwitchClient (clientTTY id generation : bytes)
| MSelectWindow (id generation windowID : bytes).

(** What the mutation does to the server when its guard holds. *)
Definition mut_command (m : mutation) : list bytes :=
  match m with
  | MKill id _ | MKillName id _ _ | MKillOption id _ _ _ _ | MKillKind id _ _ _ =>
      [!"kill-session"; !"-t"; id]
  | MRenameKind id _ _ _ newName | MRename id _ newName => [!"rename-session"; !"-t"; id; newName]
  | MSetUnmarkedKind id _ _ kind | MSetKind id _ _ _ kind =>
      [!"set-option"; !"-t"; id; SessionKindOption; kind]
  | MSetOption id _ option value => [!"set-option"; !"-t"; id; option; value]
  | MBindMouse _ _ keyTable => [!"bind-key"; !"-T"; keyTable; !"MouseDown1Pane";
                                 !"select-pane -t = ; send-keys -M"]
  | MUnbindMouse _ keyTable => [!"unbind-key"; !"-q"; !"-T"; keyTable; !"MouseDown1Pane"]
  | MSwitchClient tty id _ => [!"switch-client"; !"-c"; tty; !"-t"; id]
  | MSelectWindow id _ w => [!"select-window"; !"-t"; id ++ !":" ++ w]
  end.

(** The guard: always the server generation, and the identity where the
    method takes one. *)
Definition mut_cond (m : mutation) : cond :=
  match m with
  | MKillName _ g n => name_cond g n
  | MKillOption _ g n option value => name_and_cond g n (CEq option value)
  | MKillKind _ g n k | MRenameKind _ g n k _ | MSetKind _ g n k _ =>
      name_and_cond g n (CEq SessionKindOption k)
  | MSetUnmarkedKind _ g n _ => name_and_cond g n unmarked_cond
  | MKill _ g | MSetOption _ g _ _ | MBindMouse _ g _ | MUnbindMouse g _ | MRename _ g _
  | MSwitchClient _ _ g | MSelectWindow _ g _ => generation_cond g
  end.

Definition mut_target (m : mutation) : option bytes :=
  match m with
  | MKillName id _ _ | MKillOption id _ _ _ _ | MKillKind id _ _ _ | MRenameKind id _ _ _ _
  | MSetUnmarkedKind id _ _ _ | MSetKind id _ _ _ _ | MBindMouse id _ _ => Some id
  | _ => None
  end.

(** Whether the guard names the session as well as the server. *)
Definition mut_named (m : mutation) : bool :=
  match m with
  | MKillName _ _ _ | MKillOption _ _ _ _ _ | MKillKind _ _ _ _ | MRenameKind _ _ _ _ _
  | MSetUnmarkedKind _ _ _ _ | MSetKind _ _ _ _ _ => true
  | _ => false
  end.
Definition mut_message (m : mutation) : bytes :=
  if mut_named m then sessionIdentityMismatchMessage else generationMismatchMessage.
Definition mut_changed (m : mutation) : sentinel :=
  if mut_named m then ErrSessionIdentityChanged else ErrServerGenerationChanged.
Definition mut_kill (m : mutation) : bool :=
  match m with
  | MKill _ _ | MKillName _ _ _ | MKillOption _ _ _ _ _ | MKillKind _ _ _ _ => true
  | _ => false
  end.

Definition nonempty (s : bytes) : bool := negb (s ==b []).

(** The arguments the methods accept. *)
Definition mut_valid (m : mutation) : bool :=
  match m with
  | MKill id g => isSessionID id && isGeneration g
  | MKillName id g n => isSessionID id && isGeneration g && nonempty n
  | MKillOption id g n option value =>
      isSessionID id && isGeneration g && nonempty n && nonempty option &&
      has_prefix !"@" option && nonempty value
  | MKillKind id g n k | MSetUnmarkedKind id g n k =>
      isSessionID id && isGeneration g && nonempty n && isSessionKind k
  | MRenameKind id g n k n' =>
      isSessionID id && isGeneration g && nonempty n && nonempty n' && isSessionKind k
  | MSetKind id g n k k' =>
      isSessionID id && isGeneration g && nonempty n &&
      ((k ==b []) || isSessionKind k) && isSessionKind k'
  | MSetOption id g option _ => nonempty option && isSessionID id && isGeneration g
  | MBindMouse id g table => isSessionID id && isGeneration g && nonempty table
  | MUnbindMouse g table => nonempty table && isGeneration g
  | MRename id g n => nonempty n && isSessionID id && isGeneration g
  | MSwitchClient tty id g => nonempty tty && isSessionID id && isGeneration g
  | MSelectWindow id g w => isWindowID w && isSessionID id && isGeneration g
  end.

(** An option's name ends at its first brace in a format. *)
Definition mut_wf (m : mutation) : Prop :=
  match m with MKillOption _ _ _ option _ => "}"%byte ∉ option | _ => True end.

Section Mutations.
Context `{UnicodeTables}.

Definition perform (s : Server) (m : mutation) : tm (option error) :=
  match m with
  | MKill id g => KillSessionIDIfGeneration s id g
  | MKillName id g n => KillSessionIDIfGenerationAndName s id g n
  | MKillOption id g n o v => KillSessionIDIfGenerationAndNameAndOption s id g n o v
  | MKillKind id g n k => KillSessionIDIfGenerationAndNameAndKind s id g n k
  | MRenameKind id g n k n' => RenameSessionIDIfGenerationAndNameAndKind s id g n k n'
  | MSetUnmarkedKind id g n k => SetUnmarkedSessionKindIfGenerationAndName s id g n k
  | MSetKind id g n k k' => SetSessionKindIfGenerationAndNameAndCurrentKind s id g n k k'
  | MSetOption id g o v => SetSessionOptionIfGeneration s id g o v
  | MBindMouse id g t => BindPaneMouseIfGeneration s id g t
  | MUnbindMouse g t => UnbindPaneMouseIfGeneration s g t
  | MRename id g n => RenameSessionIDIfGeneration s id g n
  | MSwitchClient tty id g => SwitchClientIfGeneration s tty id g
  | MSelectWindow id g w => SelectWindowIDIfGeneration s id g w
  end.

(** What the method reports for tmux's answer. *)
Definition mut_outcome (m : mutation) (r : result bytes) : option error :=
  match r with
  | Err err => if mut_kill m && isMissingSessionError err then None else Some err
  | Ok out => if trim_space out ==b mut_message m then Some (ESentinel (mut_changed m)) else None
  end.
End Mutations.

(** ** How a method runs *)

Section Runs.
Context `{UnicodeTables}.
Variable (s : Server).

(** The program runs exactly one command, of which [P] holds, when its
    arguments are valid and the server is well specified; otherwise it runs
    nothing and [refuse]s. *)
Definition issues (m : tm (option error)) (valid : bool) (P : list bytes -> Prop)
    (outcome : result bytes -> option error) (refuse : error -> option error) : Prop :=
  forall h past,
    match server_prefix s, valid with
    | Ok prefix, true => exists args, P args /\
        tm_exec h past m = ((prefix ++ args) :: past, outcome (h past (prefix ++ args)))
    | _, _ => exists e, tm_exec h past m = (past, refuse e)
    end.

Lemma issues_fail e P o refuse : issues (TRet (refuse e)) false P o refuse.
Proof. intros h past. case_match; by exists e. Qed.

Definition outcome_of (message : bytes) (changed : sentinel) (r : result bytes) : option error :=
  match r with
  | Err err => Some err
  | Ok out => if trim_space out ==b message then Some (ESentinel changed) else None
  end.

Lemma issues_run_guarded (P : list bytes -> Prop) args message changed :
  P args -> issues (run_guarded s args message changed) true P (outcome_of message changed) Some.
Proof.
  intros HP h past. unfold run_guarded, Run. destruct (server_prefix s) as [prefix|e].
  - exists args. split; [done|]. simpl. by destruct (h _ _).
  - by exists e.
Qed.

(** The program's own error texts do not look like tmux's. *)
Ltac not_missing :=
  unfold isMissingSessionError; cbn [error_text sentinel_text];
  rewrite to_lower_ascii by (apply ascii_bool; reflexivity); vm_compute; reflexivity.

Lemma endpoint_error_not_missing e :
  server_prefix s = Err e -> isMissingSessionError e = false.
Proof.
  unfold server_prefix, Endpoint_Args. simpl. intros He.
  repeat (case_match; simpl in He; simplify_eq); not_missing.
Qed.

Lemma changed_not_missing c :
  c = ErrServerGenerationChanged \/ c = ErrSessionIdentityChanged ->
  isMissingSessionError (ESentinel c) = false.
Proof. intros [-> | ->]; not_missing. Qed.

(** A kill treats an absent session as success. *)
Definition kill_outcome (message : bytes) (changed : sentinel) (r : result bytes) : option error :=
  match r with
  | Err err => if isMissingSessionError err then None else Some err
  | Ok out => if trim_space out ==b message then Some (ESentinel changed) else None
  end.

Lemma issues_ignore_missing (P : list bytes -> Prop) args message changed :
  changed = ErrServerGenerationChanged \/ changed = ErrSessionIdentityChanged -> P args ->
  issues (let! err := run_guarded s args message changed in TRet (ignore_missing err)) true P
    (kill_outcome message changed) (fun e => ignore_missing (Some e)).
Proof.
  intros Hc HP h past. unfold run_guarded, Run.
  destruct (server_prefix s) as [prefix|e] eqn:Hp.
  - exists args. split; [done|]. simpl. destruct (h _ _) as [out|err]; simpl; [|done].
    case_bool_decide; [|done]. simpl. by rewrite changed_not_missing.
  - by exists e.
Qed.

Lemma issues_kill (P : list bytes -> Prop) id condition :
  P (if_shell_target id condition (tmuxCommand [!"kill-session"; !"-t"; id]) reject_identity) ->
  issues (kill_identity_guarded s id condition) true P
    (kill_outcome sessionIdentityMismatchMessage ErrSessionIdentityChanged) Some.
Proof.
  intros HP h past. unfold kill_identity_guarded, Run.
  destruct (server_prefix s) as [prefix|e] eqn:Hp.
  - eexists. split; [exact HP|]. simpl. by destruct (h _ _).
  - exists e. simpl. by rewrite endpoint_error_not_missing.
Qed.
End Runs.

(** Case analysis on the validity checks of a method. *)
Ltac case_checks :=
  repeat match goal with
  | |- context [isSessionID ?x] => destruct (isSessionID x) eqn:?; cbn [negb andb orb]
  | |- context [isGeneration ?x] => destruct (isGeneration x) eqn:?; cbn [negb andb orb]
  | |- context [isWindowID ?x] => destruct (isWindowID x) eqn:?; cbn [negb andb orb]
  | |- context [isSessionKind ?x] => destruct (isSessionKind x) eqn:?; cbn [negb andb orb]
  | |- context [has_prefix !"@" ?x] => destruct (has_prefix !"@" x) eqn:?; cbn [negb andb orb]
  | |- context [?x ==b []] => destruct (x ==b []) eqn:?; cbn [negb andb orb]
  end.

Section MutationProofs.
Context `{UnicodeTables}.

(** How a method reports arguments it refuses.  A plain kill passes its own
    refusal through the same test as tmux's errors. *)
Definition mut_refuse (m : mutation) (e : error) : option error :=
  match m with MKill _ _ => ignore_missing (Some e) | _ => Some e end.

Lemma guarded_server g cmd args c message :
  isGeneration g = true -> message = generationMismatchMessage ->
  args = [!"if-shell"; !"-F"; !"#{==:#{" ++ ServerGenerationOption ++ !"}," ++ g ++ !"}";
          tmuxCommand (c :: cmd); reject_with generationMismatchMessage] ->
  guarded None (generation_cond g) [c :: cmd] message args.
Proof.
  intros Hg -> ->. apply (guarded_intro None); [condition_text|closed_wf|apply read_command].
Qed.

Lemma perform_issues s m : mut_wf m ->
  issues s (perform s m) (mut_valid m)
    (guarded (mut_target m) (mut_cond m) [mut_command m] (mut_message m)) (mut_outcome m)
    (mut_refuse m).
Proof.
  intros Hwf. destruct m; cbn [perform mut_valid mut_outcome mut_target mut_cond mut_command
    mut_message mut_changed mut_kill mut_named andb].
  all: unfold KillSessionIDIfGeneration, KillSessionIDIfGenerationAndName,
    KillSessionIDIfGenerationAndNameAndOption, KillSessionIDIfGenerationAndNameAndKind,
    RenameSessionIDIfGenerationAndNameAndKind, SetUnmarkedSessionKindIfGenerationAndName,
    SetSessionKindIfGenerationAndNameAndCurrentKind, SetSessionOptionIfGeneration,
    BindPaneMouseIfGeneration, UnbindPaneMouseIfGeneration, RenameSessionIDIfGeneration,
    SwitchClientIfGeneration, SelectWindowIDIfGeneration, runSessionCommandIfGeneration,
    sessionCommandIfGenerationArgs, serverCommandIfGenerationArgs, check_identity, check_kind,
    nonempty.
  all: case_checks; cbn [guard_error run_args_guarded].
  all: try (apply (issues_fail s _ _ _ Some)).
  all: try (apply (issues_fail s _ _ _ (fun e => ignore_missing (Some e)))).
  all: try (apply issues_ignore_missing; [by left|by apply (guarded_server generation)]).
  all: try (apply issues_run_guarded; by apply (guarded_server generation)).
  all: try apply issues_kill; try apply issues_run_guarded.
  all: guards; simplify_eq.
  all: apply (guarded_intro (Some id)); [|try closed_wf|apply read_command].
  all: lazymatch goal with
       | |- kind_condition _ _ [] = _ => apply kind_condition_render; [done|by left]
       | |- kind_condition _ _ _ = _ => apply kind_condition_render; [done|by right]
       | |- cond_wf _ => split; [closed_wf|split; [closed_wf|exact Hwf]]
       | _ => condition_text
       end.
Qed.
End MutationProofs.

(** C1: every guarded mutation the program makes runs at most one tmux
    command.  When its arguments are valid the command is an [if-shell] whose
    condition reads back as exactly the conjunction that identifies the object
    (always the server generation, and the session's name and owner where the
    method takes them), whose branch reads back as exactly the intended
    command, and whose other branch prints the mismatch message; the reported
    error is the one that the answer means.  Names may hold any bytes.
    Invalid arguments run nothing. *)
Theorem guarded_mutation_exact `{UnicodeTables} (s : Server) (m : mutation)
    (h : env) (past : list (list bytes)) (Hwf : mut_wf m) :
  match server_prefix s, mut_valid m with
  | Ok prefix, true =>
      exists args, guarded (mut_target m) (mut_cond m) [mut_command m] (mut_message m) args /\
        tm_exec h past (perform s m) =
          ((prefix ++ args) :: past, mut_outcome m (h past (prefix ++ args)))
  | _, _ => exists e, tm_exec h past (perform s m) = (past, mut_refuse m e)
  end.
Proof. exact (perform_issues s m Hwf h past). Qed.

(** A hostile name: it closes the comparison and adds a condition. *)
Lemma guarded_mutation_exact_witness :
  let m := MKillOption !"$3" !"00112233445566778899aabbccddeeff" !"x},#{==:a,a" !"@wrap_owner" !"'; kill-server" in
  mut_valid m = true /\
  exists args,
    guarded (mut_target m) (mut_cond m) [mut_command m] (mut_message m) args /\
    tm_exec (fun _ _ => Ok []) [] (perform (NewServer SocketSessions) m) =
      ([[!"-L"; !"wrap"] ++ args], None).
Proof.
  intros m. split; [reflexivity|].
  assert (Hwf : mut_wf m) by (apply (bool_decide_unpack _); vm_compute; exact I).
  exact (guarded_mutation_exact (NewServer SocketSessions) m (fun _ _ => Ok []) [] Hwf).
Defined.

(** A plain kill reports success for an identifier it refuses when the
    identifier contains tmux's own wording: the refusal quotes it. *)
Example kill_refusal_taken_for_missing :
  tm_exec (fun _ _ => Ok []) []
    (KillSessionIDIfGeneration (NewServer SocketSessions) !"no such session" []) = ([], None).
Proof. vm_compute. reflexivity. Qed.

(** Whatever fails, the runner's error quotes the arguments.  A kill guarded by
    the name "no server running" reports success although tmux could not even
    be started; under another name the failure is reported. *)
Definition cannot_start : list (list bytes) -> list bytes -> process := fun _ _ =>
  {| stdout := []; stderr := []; exit_error := Some (EText !"fork/exec /usr/bin/tmux: resource temporarily unavailable") |}.
Definition demo_kill (name : bytes) : option error :=
  (tm_exec (execRunner cannot_start) [] (KillSessionIDIfGenerationAndName (NewServer SocketSessions) !"$1"
    !"0123456789abcdef0123456789abcdef" name)).2.

Example failed_kill_taken_for_missing :
  demo_kill !"no server running" = None /\ match demo_kill !"work" with Some (EWrap _ (EText _) _) => True | _ => False end.
Proof. by vm_compute. Qed.

(** A session that tmux does not find is gone, and one newline is cut from what
    tmux prints. *)
Example runner_answers :
  (tm_exec (execRunner (fun _ _ => {| stdout := []; stderr := !"can't find session: a" ++ [x0a];
     exit_error := Some (EExit !"exit status 1") |})) [] (HasSession (NewServer SocketSessions) !"a")).2 = Ok false /\
  runExecContext [!"-V"] {| stdout := !"a" ++ [x0a; x0a]; stderr := !"warning"; exit_error := None |} = Ok (!"a" ++ [x0a]).
Proof. by vm_compute. Qed.

(** ** Pinning a window's size *)

Definition pin_cond (g w : bytes) (columns rows : Z) (mode status : bytes) : cond :=
  CAnd (CAnd (CAnd (CAnd (CAnd (generation_cond g) (CEq !"window_id" w))
    (CEq !"window_width" (format_uint columns))) (CEq !"window_height" (format_uint rows)))
    (CEq !"window-size" mode)) (CEq !"status" status).

Definition invalidate_owner (w : bytes) : list bytes :=
  [!"set-option"; !"-w"; !"-u"; !"-t"; w; windowPinOwnerOption].
Definition no_op : list bytes := [!"display-message"; !"-p"; []].

(** The commands that pin: claim the unset option, mark the owner, restore the
    captured size, and watch for changes.  A host change of the size drops
    the mark. *)
Definition pin_commands (w : bytes) (columns rows : Z) (owner : bytes) (hookIndex : Z)
    : list (list bytes) :=
  let suffix := !"[" ++ format_uint hookIndex ++ !"]" in
  [[!"set-option"; !"-w"; !"-o"; !"-t"; w; !"window-size"; !"manual"];
   [!"set-option"; !"-w"; !"-t"; w; windowPinOwnerOption; owner];
   [!"resize-window"; !"-t"; w; !"-x"; format_uint columns; !"-y"; format_uint rows];
   [!"set-hook"; !"-w"; !"-t"; w; !"after-set-option" ++ suffix;
    tmuxCommand [!"if-shell"; !"-F"; render (CEq !"hook_argument_0" !"window-size");
                 tmuxCommand (invalidate_owner w); tmuxCommand no_op]];
   [!"set-hook"; !"-w"; !"-t"; w; !"after-resize-window" ++ suffix;
    tmuxCommand (invalidate_owner w)]].

(** The commands that restore an inherited size: stop watching, then unset the
    size and the mark, each only while the mark is still ours. *)
Definition restore_commands (w owner : bytes) (hookIndex : Z) : list (list bytes) :=
  let suffix := !"[" ++ format_uint hookIndex ++ !"]" in
  let owned := CEq windowPinOwnerOption owner in
  [[!"set-hook"; !"-w"; !"-u"; !"-t"; w; !"after-set-option" ++ suffix];
   [!"set-hook"; !"-w"; !"-u"; !"-t"; w; !"after-resize-window" ++ suffix];
   [!"if-shell"; !"-F"; !"-t"; w; render (CAnd (CEq !"window-size" !"manual") owned);
    tmuxCommand [!"set-option"; !"-w"; !"-u"; !"-t"; w; !"window-size"]; tmuxCommand no_op];
   [!"if-shell"; !"-F"; !"-t"; w; render owned; tmuxCommand (invalidate_owner w);
    tmuxCommand no_op]].

Definition pin_owner_ok (inherited : bool) (owner : bytes) (hookIndex : Z) : bool :=
  if inherited then isGeneration owner && negb (hookIndex =? 0)
  else (owner ==b []) && (hookIndex =? 0).

Definition pin_valid (id g w : bytes) (columns rows : Z) (mode : bytes) (inherited : bool)
    (status owner : bytes) (hookIndex : Z) : bool :=
  isSessionID id && isWindowID w && isGeneration g && negb ((columns =? 0) || (rows =? 0)) &&
  is_window_size_mode mode && valid_status status && pin_owner_ok inherited owner hookIndex.

Section Pins.
Context `{UnicodeTables}.

Lemma pin_owner_error_spec inherited owner hookIndex :
  pin_owner_error inherited owner hookIndex = None <-> pin_owner_ok inherited owner hookIndex = true.
Proof.
  unfold pin_owner_error, pin_owner_ok.
  destruct inherited, (isGeneration owner), (hookIndex =? 0), (owner ==b []); done.
Qed.

Lemma escape_format_uint n : escapeFormatLiteral (format_uint n) = format_uint n.
Proof.
  apply escape_digits. destruct (format_uint_cons n) as (h & t & -> & Hall).
  apply forallb_forall. intros x Hx%list_elem_of_In. rewrite Forall_forall in Hall. auto.
Qed.

Lemma read_command_list branch cmds :
  Forall (fun c => c <> []) cmds -> branch = join !" ; " (map tmuxCommand cmds) ->
  read_tokens false None branch = Some (commands_tokens cmds).
Proof. intros Hne ->. by apply read_commands. Qed.

Lemma pin_args_exact id g w columns rows mode inherited status owner hookIndex :
  if pin_valid id g w columns rows mode inherited status owner hookIndex
  then exists args,
    PinWindowSizeIfGenerationArgs id g w columns rows mode inherited status owner hookIndex = Ok args /\
    guarded (Some id) (pin_cond g w columns rows mode status)
      (if inherited then pin_commands w columns rows owner hookIndex else [no_op])
      windowPinMismatchMessage args
  else exists e,
    PinWindowSizeIfGenerationArgs id g w columns rows mode inherited status owner hookIndex = Err e.
Proof.
  unfold pin_valid, PinWindowSizeIfGenerationArgs.
  destruct (isSessionID id) eqn:?, (isWindowID w) eqn:Hw, (isGeneration g) eqn:Hg,
    ((columns =? 0) || (rows =? 0)) eqn:?, (is_window_size_mode mode) eqn:?,
    (valid_status status) eqn:?; cbn [negb andb]; try by eexists.
  destruct (pin_owner_error inherited owner hookIndex) as [e|] eqn:Ho.
  - destruct (pin_owner_ok inherited owner hookIndex) eqn:Hok; [|by eexists].
    apply pin_owner_error_spec in Hok. congruence.
  - apply pin_owner_error_spec in Ho. rewrite Ho. eexists. split; [done|].
    apply (guarded_intro (Some id)).
    + unfold pin_cond, generation_cond. cbn [fold_left render].
      rewrite (escape_generation g), (escape_window w), !escape_format_uint by done.
      unfold cond_and, cond_eq. rewrite <- ?app_assoc. reflexivity.
    + repeat split; closed_wf.
    + destruct inherited; [|apply read_command].
      apply read_command_list; [by repeat constructor|].
      unfold pin_commands. cbn [map windowPinHookNames join].
      rewrite <- ?app_assoc. reflexivity.
Qed.

Lemma restore_args_exact g w mode inherited owner hookIndex :
  if isWindowID w && is_window_size_mode mode && pin_owner_ok inherited owner hookIndex &&
     isGeneration g
  then exists args,
    RestoreWindowSizeIfGenerationArgs g w mode inherited owner hookIndex = Ok args /\
    guarded None (generation_cond g)
      (if inherited then restore_commands w owner hookIndex
       else [[!"set-option"; !"-w"; !"-t"; w; !"window-size"; mode]])
      generationMismatchMessage args
  else exists e, RestoreWindowSizeIfGenerationArgs g w mode inherited owner hookIndex = Err e.
Proof.
  unfold RestoreWindowSizeIfGenerationArgs.
  destruct (isWindowID w) eqn:Hw, (is_window_size_mode mode) eqn:?; cbn [negb andb];
    try by eexists.
  destruct (pin_owner_error inherited owner hookIndex) as [e|] eqn:Ho.
  - destruct (pin_owner_ok inherited owner hookIndex) eqn:Hok; [|by eexists].
    apply pin_owner_error_spec in Hok. congruence.
  - apply pin_owner_error_spec in Ho. rewrite Ho. unfold serverCommandIfGenerationArgs.
    destruct (isGeneration g) eqn:Hg; cbn [negb andb]; [|by eexists].
    eexists. split; [done|]. apply (guarded_intro None).
    + unfold generation_cond. cbn [render]. by rewrite (escape_generation g).
    + closed_wf.
    + destruct inherited; [|apply read_command].
      apply read_command_list; [by repeat constructor|].
      unfold restore_commands. cbn [map windowPinHookNames join render].
      cbn [pin_owner_ok] in Ho. apply andb_true_iff in Ho as [Ho _].
      rewrite (escape_generation owner) by done. unfold cond_and, cond_eq.
      rewrite <- ?app_assoc. reflexivity.
Qed.
End Pins.

(** A window pin is exact and reversible text.  Pinning yields one
    [if-shell] whose condition reads back as the conjunction of the captured
    identity, geometry, mode and status, and whose branch is the claim, the
    mark, the resize and the two watching hooks; restoring yields one
    generation-guarded command that removes those hooks and undoes the claim
    and the mark, each under a condition that reads back as our ownership.
    Arguments the checks refuse give an error and no command. *)
Theorem window_pin_exact `{UnicodeTables} (id g w : bytes) (columns rows : Z) (mode : bytes)
    (inherited : bool) (status owner : bytes) (hookIndex : Z) :
  (if pin_valid id g w columns rows mode inherited status owner hookIndex
   then exists args,
     PinWindowSizeIfGenerationArgs id g w columns rows mode inherited status owner hookIndex = Ok args /\
     guarded (Some id) (pin_cond g w columns rows mode status)
       (if inherited then pin_commands w columns rows owner hookIndex else [no_op])
       windowPinMismatchMessage args
   else exists e,
     PinWindowSizeIfGenerationArgs id g w columns rows mode inherited status owner hookIndex = Err e) /\
  (if isWindowID w && is_window_size_mode mode && pin_owner_ok inherited owner hookIndex &&
      isGeneration g
   then exists args,
     RestoreWindowSizeIfGenerationArgs g w mode inherited owner hookIndex = Ok args /\
     guarded None (generation_cond g)
       (if inherited then restore_commands w owner hookIndex
        else [[!"set-option"; !"-w"; !"-t"; w; !"window-size"; mode]])
       generationMismatchMessage args
   else exists e, RestoreWindowSizeIfGenerationArgs g w mode inherited owner hookIndex = Err e).
Proof. split; [apply pin_args_exact|apply restore_args_exact]. Qed.

(** ** Command strings *)

(** A command string means the words it was built from.  Read with tmux's
    quoting rules, any sequence of commands joined by semicolons yields
    exactly the given words: no byte of a name, path or option value becomes
    command syntax, splits a word or ends a command. *)
Theorem tmux_command_roundtrip (cmds : list (bytes * list bytes)) :
  read_tokens false None (join !" ; " (map (fun '(name, args) => tmuxCommand (name :: args)) cmds)) =
  Some (commands_tokens (map (fun '(name, args) => name :: args) cmds)).
Proof.
  rewrite <- (read_commands (map (fun '(name, args) => name :: args) cmds)).
  - rewrite map_map. do 2 f_equal. apply map_ext. by intros [name args].
  - rewrite Forall_map. apply Forall_forall. by intros [name args] _.
Qed.

(** ** The version check *)

Lemma parse_int_digits_stop n rest :
  0 <= n < 2 ^ 63 -> (match rest with [] => true | c :: _ => negb (is_digit c) end) = true ->
  scan_int (format_uint n ++ rest) = Some (n, rest).
Proof.
  intros Hn Hrest. unfold scan_int.
  pose proof (parse_int_format n Hn) as Hp.
  destruct (format_uint_cons n) as (h & t & Hf & Hall). rewrite Hf in Hp |- *.
  assert (Hspan : forall l, Forall (fun b => is_digit b = true) l ->
            span_digits (l ++ rest) = (l, rest)).
  { induction 1 as [|c l Hc Hl IH]; simpl.
    - destruct rest as [|c rest]; [done|]. simpl. guards. by rewrite Hrest.
    - by rewrite Hc, IH. }
  assert (Hh : is_digit h = true) by by inversion Hall.
  assert (Hskip : skip_space (h :: t ++ rest) = Some (h :: t ++ rest)).
  { assert (solid h = true /\ (bz h =? 10) = false) as [Hs H10].
    { split; revert Hh.
      - unfold is_digit, solid, is_space. intros Hd. guards. apply andb_true_iff. split; lia.
      - unfold is_digit. intros Hd. guards. lia. }
    destruct (solid_ascii_space h Hs) as [Has Hlt].
    assert (lead2 h = false /\ lead3 h = false) as [H2 H3] by (unfold lead2, lead3; lia).
    cbn [skip_space]. rewrite H10, Has.
    destruct (t ++ rest) as [|c [|d l]]; [done|..]; unfold space2, space3; by rewrite H2, ?H3. }
  change ((h :: t) ++ rest) with (h :: t ++ rest). rewrite Hskip. cbn [mbind option_bind].
  destruct (digit_not_sign h Hh) as [E1 E2]. rewrite E1, E2. cbn [orb].
  change (h :: t ++ rest) with ((h :: t) ++ rest). rewrite (Hspan (h :: t) Hall).
  cbn [app]. by rewrite Hp.
Qed.

Definition is_lower_letter (b : byte) : bool := (97 <=? bz b) && (bz b <=? 122).

Definition release (major minor : Z) (suffix : bytes) : bytes :=
  format_uint major ++ !"." ++ format_uint minor ++ suffix.

Lemma release_solid major minor suffix :
  forallb is_lower_letter suffix = true -> forallb solid (release major minor suffix) = true.
Proof.
  intros Hs. unfold release. rewrite !forallb_app.
  assert (Hd : forall n, forallb solid (format_uint n) = true).
  { intros n. destruct (format_uint_cons n) as (h & t & -> & Hall).
    rewrite Forall_forall in Hall. apply forallb_forall. intros x Hx%list_elem_of_In%Hall.
    revert Hx. unfold is_digit, solid, is_space. intros Hx. guards. apply andb_true_iff. split; lia. }
  rewrite !Hd. cbn [andb]. change (forallb solid !".") with true. cbn [andb].
  apply forallb_forall. intros x Hx. rewrite forallb_forall in Hs. specialize (Hs x Hx).
  unfold is_lower_letter, solid, is_space in *. guards. apply andb_true_iff. split; lia.
Qed.

Lemma release_head major minor suffix :
  exists h t, release major minor suffix = h :: t /\ is_digit h = true.
Proof.
  unfold release. destruct (format_uint_cons major) as (h & t & -> & Hall).
  exists h, (t ++ !"." ++ format_uint minor ++ suffix). split; [done|]. by inversion Hall.
Qed.

Lemma has_prefix_head_ne p s c d p' s' :
  p = c :: p' -> s = d :: s' -> c <> d -> has_prefix p s = false.
Proof. intros -> -> Hne. simpl. by rewrite (proj2 (byte_eqb_false _ _)) by done. Qed.

Lemma parse_release (next : bool) major minor suffix :
  0 <= major < 2 ^ 63 -> 0 <= minor < 2 ^ 63 -> forallb is_lower_letter suffix = true ->
  ParseVersion (!"tmux " ++ (if next then !"next-" else []) ++ release major minor suffix) =
  Ok (release major minor suffix, major, minor).
Proof.
  intros Hmaj Hmin Hs. unfold ParseVersion.
  pose proof (release_solid major minor suffix Hs) as Hsol.
  destruct (release_head major minor suffix) as (h & t & Hr & Hh).
  assert (trim_space (!"tmux " ++ (if next then !"next-" else []) ++ release major minor suffix) =
    !"tmux " ++ (if next then !"next-" else []) ++ release major minor suffix) as ->.
  { destruct (exists_last (l := release major minor suffix)) as (r & c & Hrc); [by rewrite Hr|].
    rewrite Hrc in Hsol |- *. rewrite forallb_app in Hsol. simpl in Hsol. guards.
    set (mid := (if next then !"next-" else []) ++ r).
    replace (!"tmux " ++ (if next then !"next-" else []) ++ r ++ [c]) with
      ("t"%byte :: (!"mux " ++ mid) ++ [c]) by (unfold mid; rewrite <- !app_assoc; reflexivity).
    by apply trim_space_solid. }
  rewrite trim_prefix_app.
  assert (trim_prefix !"next-" ((if next then !"next-" else []) ++ release major minor suffix) =
    release major minor suffix) as ->.
  { destruct next; [apply trim_prefix_app|]. simpl. unfold trim_prefix.
    rewrite (has_prefix_head_ne _ _ "n"%byte h !"ext-" t); [done|reflexivity|done|].
    intros <-. done. }
  unfold release at 1. rewrite parse_int_digits_stop by done. cbn [mbind option_bind].
  change (!"." ++ format_uint minor ++ suffix) with ("."%byte :: format_uint minor ++ suffix).
  cbn iota; change (Byte.eqb "." ".") with true; cbn iota; rewrite parse_int_digits_stop; [done|done|].
  destruct suffix as [|c suffix]; [done|]. simpl in Hs. guards.
  unfold is_lower_letter, is_digit in *. guards. apply negb_true_iff, andb_false_iff. right. lia.
Qed.

(** The version gate accepts exactly 3.2 and newer.  For every release
    [M.m] with an optional letter suffix and an optional [next-] marker, the
    check passes when (M, m) is at least (3, 2) and fails with the "too old"
    error otherwise, and the diagnostic variant agrees. *)
Theorem version_gate_exact (next : bool) (major minor : Z) (suffix : bytes)
    (past : list (list bytes))
    (Hmaj : 0 <= major < 2 ^ 63) (Hmin : 0 <= minor < 2 ^ 63)
    (Hs : forallb is_lower_letter suffix = true) :
  let printed := !"tmux " ++ (if next then !"next-" else []) ++ release major minor suffix in
  let new_enough := bool_decide (3 < major \/ (major = 3 /\ 2 <= minor)) in
  tm_exec (fun _ _ => Ok printed) past CheckVersion =
    ([!"-V"] :: past, if new_enough then None else Some (too_old (release major minor suffix))) /\
  CheckVersionOutput printed =
    (if new_enough then Ok (release major minor suffix)
     else Err (too_old (release major minor suffix))).
Proof.
  cbv zeta. unfold CheckVersion, CheckVersionOutput. cbn [tm_exec].
  rewrite (parse_release next major minor suffix) by done.
  assert (version_ok major minor = bool_decide (3 < major \/ (major = 3 /\ 2 <= minor))) as ->; [|done].
  unfold version_ok. case_bool_decide; lia.
Qed.

Lemma version_gate_exact_witness :
  CheckVersionOutput !"tmux next-3.10b" = Ok !"3.10b" /\ CheckVersionOutput !"tmux 2.9" = Err (too_old !"2.9").
Proof.
  split.
  - refine (proj2 (version_gate_exact true 3 10 !"b" [] _ _ _)); [lia|lia|reflexivity].
  - refine (proj2 (version_gate_exact false 2 9 [] [] _ _ _)); [lia|lia|reflexivity].
Defined.
