(* ===== verification/Target.v ===== *)
(** * The tmux window a share is bound to (internal/target/target.go, create.go)

    The target is found through the TMUX environment variable and one tmux
    query whose answer is a sequence of length-prefixed fields.  The SHA-256
    function, the random source and [os.Stat] are parameters. *)

From S2P Require Import Prelude GoString GoUnicode GoConv GoErrors GoPath TmuxQuote TmuxArgs.
From S2P Require Import TmuxServer.
Open Scope Z_scope.

Record Target := {
  SocketPath : bytes; Generation : bytes; SessionID : bytes; WindowID : bytes;
  SessionName : bytes; WindowName : bytes; Directory : bytes
}.

(** What identifies the window: the key is its SHA-256 in hexadecimal. *)
Definition key_text (t : Target) : bytes :=
  SocketPath t ++ [x00] ++ Generation t ++ [x00] ++ WindowID t.
Definition Target_Key (sha256 : bytes -> bytes) (t : Target) : bytes :=
  hex_encode (sha256 (key_text t)).

(** ** The TMUX variable: socket path, server pid, client id *)

Definition parseTMUX (value : bytes) : result bytes :=
  fail_if value ==b [] with EText !"not inside tmux";;
  let malformed := Err (EText !"malformed TMUX environment") in
  match last_index_byte "," value with
  | None => malformed
  | Some last =>
      if (last =? 0)%nat || (last =? length value - 1)%nat then malformed else
      match last_index_byte "," (take last value) with
      | None => malformed
      | Some previous =>
          if (previous =? 0)%nat || (previous =? last - 1)%nat then malformed else
          let socketPath := take previous value in
          fail_if negb (is_abs socketPath) with EText !"TMUX socket path must be absolute";;
          match atoi (take (last - S previous) (drop (S previous) value)) with
          | None => Err (EText !"malformed TMUX server pid")
          | Some pid =>
              fail_if pid <=? 0 with EText !"malformed TMUX server pid";;
              match atoi (drop (S last) value) with
              | None => Err (EText !"malformed TMUX client id")
              | Some client =>
                  fail_if client <? 0 with EText !"malformed TMUX client id";;
                  Ok (path_clean socketPath)
              end
          end
      end
  end.

(** ** Length-prefixed fields *)

Fixpoint parseLengthPrefixedFields (input : bytes) (count : nat) : result (list bytes) :=
  match count with
  | O => fail_if negb (input ==b []) with EText !"trailing data";; Ok []
  | S count' =>
      match index_byte ":" input with
      | None | Some O => Err (EText !"missing length prefix")
      | Some colon =>
          match atoi (take colon input) with
          | None => Err (EText !"invalid length prefix")
          | Some n =>
              fail_if n <? 0 with EText !"invalid length prefix";;
              let rest := drop (S colon) input in
              fail_if len rest <? n with EText !"field shorter than length prefix";;
              let? fields := parseLengthPrefixedFields (drop (Z.to_nat n) rest) count' in
              Ok (take (Z.to_nat n) rest :: fields)
          end
      end
  end.

Section Resolve.
Context `{UnicodeTables}.

Definition parseTarget (socketPath generation output : bytes) : result Target :=
  match parseLengthPrefixedFields output 6 with
  | Ok [sid; wid; sname; wname; dir; gen] =>
      fail_if negb (has_prefix !"$" sid) || (len sid =? 1)
        with EText (!"invalid tmux session id " ++ quote sid);;
      fail_if negb (has_prefix !"@" wid) || (len wid =? 1)
        with EText (!"invalid tmux window id " ++ quote wid);;
      fail_if sname ==b [] with EText !"tmux session name is empty";;
      fail_if negb (is_abs dir)
        with EText (!"tmux pane directory is not absolute: " ++ quote dir);;
      fail_if negb (gen ==b generation)
        with EText !"tmux server generation changed during target resolution";;
      Ok {| SocketPath := socketPath; Generation := generation; SessionID := sid; WindowID := wid;
            SessionName := sname; WindowName := wname; Directory := path_clean dir |}
  | Ok _ => Err (EText [])  (* six fields were asked for *)
  | Err err => Err (wrapf !"tmux target fields: " err)
  end.

(** [randomGeneration]: sixteen random bytes in hexadecimal. *)
Definition randomGeneration (random : result bytes) : result bytes :=
  match random with
  | Ok value => Ok (hex_encode value)
  | Err err => Err (wrapf !"generate tmux server identity: " err)
  end.

Definition formatField (name : bytes) : bytes :=
  !"#{n:" ++ name ++ !"}:#{" ++ name ++ !"}".
Definition target_format : bytes :=
  join [] (map formatField [!"session_id"; !"window_id"; !"session_name"; !"window_name";
                            !"pane_current_path"; ServerGenerationOption]).

Definition ResolveCurrent (getenv : bytes -> bytes) (random : result bytes) : tm (result Target) :=
  match parseTMUX (getenv !"TMUX") with
  | Err err => TRet (Err err)
  | Ok socketPath =>
      let server := NewServerPath socketPath in
      match randomGeneration random with
      | Err err => TRet (Err err)
      | Ok candidate =>
          let! r := EnsureServerGeneration server candidate in
          match r with
          | Err err => TRet (Err (wrapf !"establish tmux server identity: " err))
          | Ok generation =>
              let! r := Run server [!"display-message"; !"-p"; target_format] in
              TRet (match r with
                    | Err err => Err (wrapf !"resolve current tmux window: " err)
                    | Ok out => parseTarget socketPath generation out
                    end)
          end
      end
  end.

(** What [os.Stat] tells the program about a file. *)
Record FileInfo := { IsRegular : bool; Perm : Z }.

Definition ResolveDefaultShell (getenv : bytes -> bytes) (stat : bytes -> result FileInfo)
    : tm (result bytes) :=
  match parseTMUX (getenv !"TMUX") with
  | Err err => TRet (Err err)
  | Ok socketPath =>
      let! r := Run (NewServerPath socketPath) [!"show-options"; !"-gv"; !"default-shell"] in
      TRet (match r with
            | Err err => Err (wrapf !"read tmux default-shell: " err)
            | Ok shell =>
                let shell := trim_space shell in
                fail_if negb (is_abs shell)
                  with EText !"tmux default-shell must be an absolute path";;
                match stat shell with
                | Err err => Err (wrapf !"inspect tmux default-shell: " err)
                | Ok info =>
                    fail_if negb (IsRegular info) || (Z.land (Perm info) 0x49 (* 0o111 *) =? 0)
                      with EText !"tmux default-shell is not executable";;
                    Ok (path_clean shell)
                end
            end)
  end.

Definition ResolveDefaultCommand (getenv : bytes -> bytes) : tm (result bytes) :=
  match parseTMUX (getenv !"TMUX") with
  | Err err => TRet (Err err)
  | Ok socketPath =>
      let! r := Run (NewServerPath socketPath) [!"show-options"; !"-gv"; !"default-command"] in
      TRet (match r with
            | Err err => Err (wrapf !"read tmux default-command: " err)
            | Ok command => Ok command
            end)
  end.

(** With the program's own runner; without one the same command runs with
    the terminal attached. *)
Definition CreateDefaultSession (dir bootstrapCommand : bytes) : tm (option error) :=
  if negb (is_abs dir) then TRet (Some (EText !"tmux session directory must be absolute"))
  else if (bootstrapCommand ==b []) || bool_decide (is_Some (index_any [x0d; x0a] bootstrapCommand))
  then TRet (Some (EText !"tmux bootstrap command must be one nonempty line"))
  else TRun [!"new-session"; !"-c"; path_clean dir; bootstrapCommand]
         (fun r => TRet (match r with
                         | Ok _ => None
                         | Err err => Some (wrapf !"create default tmux session: " err)
                         end)).
End Resolve.

(** ** Lemmas *)

(** A field with its length in front, as tmux's [#{n:...}:#{...}] prints it. *)
Definition encode_field (f : bytes) : bytes := itoa (len f) ++ !":" ++ f.
Definition encode_fields (fs : list bytes) : bytes := flat_map encode_field fs.

Lemma itoa_no_colon n : 0 <= n -> ":"%byte ∉ itoa n.
Proof.
  intros Hn. unfold itoa. rewrite (proj2 (Z.ltb_ge n 0)) by lia.
  destruct (format_uint_cons n) as (h & t & -> & Hall). rewrite Forall_forall in Hall.
  intros Hin%Hall. done.
Qed.

Lemma itoa_nonempty n : 0 <= n -> exists k, length (itoa n) = S k.
Proof.
  intros Hn. unfold itoa. rewrite (proj2 (Z.ltb_ge n 0)) by lia.
  destruct (format_uint_cons n) as (h & t & -> & _). by eexists.
Qed.

Lemma parse_one_field f rest count :
  len f < 2 ^ 63 ->
  parseLengthPrefixedFields (encode_field f ++ rest) (S count) =
  let? fields := parseLengthPrefixedFields rest count in Ok (f :: fields).
Proof.
  intros Hf. pose proof (len_nonneg f) as Hpos. cbn [parseLengthPrefixedFields].
  assert (encode_field f ++ rest = itoa (len f) ++ ":"%byte :: (f ++ rest)) as ->
    by (unfold encode_field; by rewrite <- !app_assoc).
  rewrite index_byte_app by by apply itoa_no_colon.
  destruct (itoa_nonempty (len f) Hpos) as [k Hk].
  destruct (length (itoa (len f))) as [|k'] eqn:Hl; [done|]. rewrite <- Hl.
  rewrite take_app_length, atoi_itoa by lia.
  rewrite (proj2 (Z.ltb_ge (len f) 0)) by lia.
  rewrite cons_middle, app_assoc. replace (S (length (itoa (len f)))) with
    (length (itoa (len f) ++ [":"%byte])) by (rewrite length_app; simpl; lia).
  rewrite drop_app_length.
  rewrite (proj2 (Z.ltb_ge _ (len f))) by (rewrite len_app; pose proof (len_nonneg rest); lia).
  unfold len. by rewrite Nat2Z.id, drop_app_length, take_app_length.
Qed.

Lemma parse_encode_fields fs rest :
  Forall (fun f => len f < 2 ^ 63) fs ->
  parseLengthPrefixedFields (encode_fields fs ++ rest) (length fs) =
  if rest ==b [] then Ok fs else Err (EText !"trailing data").
Proof.
  induction 1 as [|f fs Hf Hfs IH].
  - simpl. by destruct (rest ==b []).
  - change (encode_fields (f :: fs)) with (encode_field f ++ encode_fields fs). cbn [length].
    rewrite <- app_assoc, parse_one_field by done.
    rewrite IH. by destruct (rest ==b []).
Qed.

(** The target query is lossless.  Whatever six values tmux prints in the
    length-prefixed format (names with colons, tabs, newlines or digits
    included), parsing yields exactly the identities, names and directory
    printed, provided the identities and names are well formed and the
    generation is still the one established; text after the last field is
    refused. *)
Theorem target_query_roundtrip `{UnicodeTables} (socketPath generation sid wid sname wname dir : bytes)
    (rest : bytes)
    (Hlen : Forall (fun f => len f < 2 ^ 63) [sid; wid; sname; wname; dir; generation])
    (Hsid : has_prefix !"$" sid = true /\ len sid <> 1)
    (Hwid : has_prefix !"@" wid = true /\ len wid <> 1)
    (Hname : sname <> []) (Hdir : is_abs dir = true) :
  parseTarget socketPath generation
    (encode_fields [sid; wid; sname; wname; dir; generation] ++ rest) =
  if rest ==b [] then
    Ok {| SocketPath := socketPath; Generation := generation; SessionID := sid; WindowID := wid;
          SessionName := sname; WindowName := wname; Directory := path_clean dir |}
  else Err (wrapf !"tmux target fields: " (EText !"trailing data")).
Proof.
  unfold parseTarget. change 6%nat with (length [sid; wid; sname; wname; dir; generation]).
  rewrite parse_encode_fields by done. destruct (rest ==b []); [|done].
  destruct Hsid as [-> Hs], Hwid as [-> Hw].
  rewrite (proj2 (Z.eqb_neq _ _) Hs), (proj2 (Z.eqb_neq _ _) Hw). cbn [negb orb].
  rewrite bool_decide_false, Hdir, bool_decide_true by done. done.
Qed.

Lemma target_query_roundtrip_witness :
  parseTarget !"/s" !"g" (encode_fields [!"$0"; !"@1"; !"4:a"; []; !"/a//b"; !"g"] ++ []) =
  Ok {| SocketPath := !"/s"; Generation := !"g"; SessionID := !"$0"; WindowID := !"@1";
        SessionName := !"4:a"; WindowName := []; Directory := !"/a/b" |}.
Proof.
  rewrite (target_query_roundtrip !"/s" !"g" !"$0" !"@1" !"4:a" [] !"/a//b" []).
  - reflexivity.
  - repeat (apply Forall_cons; split; [reflexivity|]). apply Forall_nil. exact I.
  - by split.
  - by split.
  - done.
  - reflexivity.
Defined.
