(* ===== verification/Helper.v ===== *)
(** * The helper session that holds the shared window (internal/target/helper.go)

    A share links the captured window into a hidden session of its own, marks
    it with the instance's identity and configures it.  Every path that fails
    after the session exists closes it again. *)

From S2P Require Import Prelude GoString GoUnicode GoConv GoErrors TmuxQuote TmuxFormat.
From S2P Require Import TmuxArgs TmuxServer TmuxProps Target.
Open Scope Z_scope.

(** [^[A-Za-z0-9][A-Za-z0-9_-]{5,63}$]. *)
Definition is_id_byte (b : byte) : bool := is_alnum (bz b) || (bz b =? 95) || (bz b =? 45).
Definition instanceIDPattern (id : bytes) : bool :=
  match id with
  | c :: rest => is_alnum (bz c) && forallb is_id_byte rest && (5 <=? len rest) && (len rest <=? 63)
  | [] => false
  end.

Record Helper := {
  HelperSessionID : bytes; HelperName : bytes; HelperInstanceID : bytes; HelperTarget : Target
}.

Section HelperOps.
Context `{UnicodeTables}.

Definition helperName (instanceID : bytes) : bytes :=
  let namePart := to_lower instanceID in
  !"__wrap_" ++ (if 12 <? len namePart then take 12 namePart else namePart).

Definition helperKeyTable (instanceID : bytes) : bytes := !"__wrap_keys_" ++ to_lower instanceID.

Definition helper_server (h : Helper) : Server := NewServerPath (SocketPath (HelperTarget h)).

(** The identity query of a helper: five fields joined by tabs. *)
Definition helper_format : bytes :=
  join tab [!"#{" ++ ServerGenerationOption ++ !"}"; !"#{session_id}"; !"#{session_name}";
            !"#{" ++ InstanceIDOption ++ !"}"; !"#{window_id}"].
Definition source_format : bytes :=
  join tab [!"#{" ++ ServerGenerationOption ++ !"}"; !"#{session_id}"; !"#{window_id}"].

Definition Helper_Validate (h : Helper) : tm (option error) :=
  let t := HelperTarget h in
  let server := helper_server h in
  let! r := RunContext server [!"display-message"; !"-p"; !"-t"; HelperSessionID h; helper_format] in
  match r with
  | Err err => TRet (Some (wrapf !"validate Wrap helper: " err))
  | Ok out =>
      let want := join tab [Generation t; HelperSessionID h; HelperName h; HelperInstanceID h;
                            WindowID t] in
      if negb (trim_space out ==b want) then TRet (Some (EText !"wrap helper identity changed")) else
      let sourceTarget := SessionID t ++ !":" ++ WindowID t in
      let! r := RunContext server [!"display-message"; !"-p"; !"-t"; sourceTarget; source_format] in
      match r with
      | Err err => TRet (Some (wrapf !"validate source tmux window: " err))
      | Ok source =>
          let wantSource := join tab [Generation t; SessionID t; WindowID t] in
          TRet (if negb (trim_space source ==b wantSource)
                then Some (EText !"source tmux window identity changed") else None)
      end
  end.

(** The errors that mean the session is no longer ours. *)
Definition identity_changed (err : option error) : bool :=
  match err with
  | Some e => errors_is ErrSessionIdentityChanged e || errors_is ErrServerGenerationChanged e
  | None => false
  end.

Definition Helper_Close (h : Helper) : tm (option error) :=
  let server := helper_server h in
  let! err := KillSessionIDIfGenerationAndNameAndOption server (HelperSessionID h)
    (Generation (HelperTarget h)) (HelperName h) InstanceIDOption (HelperInstanceID h) in
  if identity_changed err then TRet None else
  match err with
  | Some e => TRet (Some e)
  | None =>
      let! unbindErr := UnbindPaneMouseIfGeneration server (Generation (HelperTarget h))
        (helperKeyTable (HelperInstanceID h)) in
      TRet (if match unbindErr with
               | Some e => errors_is ErrServerGenerationChanged e
               | None => false
               end || IsMissingTargetError unbindErr
            then None else unbindErr)
  end.

Definition closeUnmarked (h : Helper) : tm (option error) :=
  let! err := KillSessionIDIfGenerationAndName (helper_server h) (HelperSessionID h)
    (Generation (HelperTarget h)) (HelperName h) in
  TRet (if identity_changed err then None else err).

(** [errors.Join(err, close())]: the failure with that of the cleanup. *)
Definition fail_closing (err : error) (close : tm (option error)) : tm (result Helper) :=
  let! cerr := close in
  TRet (Err (default err (errors_join [Some err; cerr]))).

Definition helper_settings (instanceID : bytes) : list (bytes * bytes) :=
  [(!"prefix", !"None"); (!"prefix2", !"None"); (!"status", !"off"); (!"mouse", !"on");
   (!"key-table", helperKeyTable instanceID)].

(** The loop over the settings, then the mouse binding. *)
Fixpoint configure (h : Helper) (settings : list (bytes * bytes)) : tm (result Helper) :=
  let server := helper_server h in
  let sid := HelperSessionID h in
  let generation := Generation (HelperTarget h) in
  match settings with
  | (option, value) :: settings' =>
      let! err := SetSessionOptionIfGeneration server sid generation option value in
      match err with
      | Some e => fail_closing (wrapf (!"configure Wrap helper " ++ option ++ !": ") e) (Helper_Close h)
      | None => configure h settings'
      end
  | [] =>
      let! err := BindPaneMouseIfGeneration server sid generation
        (helperKeyTable (HelperInstanceID h)) in
      match err with
      | Some e => fail_closing (wrapf !"configure Wrap helper pane clicks: " e) (Helper_Close h)
      | None => TRet (Ok h)
      end
  end.

(** Link the window, mark the session, configure it. *)
Definition furnish (h : Helper) (placeholderWindowID : bytes) : tm (result Helper) :=
  let server := helper_server h in
  let t := HelperTarget h in
  match LinkWindowReplacingCurrentIfGenerationArgs (SessionID t) (Generation t) (WindowID t)
          (HelperSessionID h) placeholderWindowID with
  | Err err => fail_closing err (closeUnmarked h)
  | Ok linkArgs =>
      let! r := Run server linkArgs in
      match r with
      | Err err => fail_closing (wrapf !"link captured tmux window: " err) (closeUnmarked h)
      | Ok linkOutput =>
          if IsGenerationMismatchOutput linkOutput
          then fail_closing (EText !"tmux target changed before helper linking") (closeUnmarked h)
          else
          let! err := SetSessionOptionIfGeneration server (HelperSessionID h) (Generation t)
            InstanceIDOption (HelperInstanceID h) in
          match err with
          | Some e => fail_closing (wrapf !"mark Wrap helper session: " e) (closeUnmarked h)
          | None => configure h (helper_settings (HelperInstanceID h))
          end
      end
  end.

Definition CreateHelper (target : Target) (instanceID : bytes) : tm (result Helper) :=
  if negb (instanceIDPattern instanceID)
  then TRet (Err (EText (!"invalid Wrap instance ID " ++ quote instanceID)))
  else if (SocketPath target ==b []) || (Generation target ==b []) ||
          (SessionID target ==b []) || (WindowID target ==b [])
  then TRet (Err (EText !"complete tmux target identity is required")) else
  let name := helperName instanceID in
  let server := NewServerPath (SocketPath target) in
  match NewStandaloneSessionIfWindowGenerationArgs (SessionID target) (Generation target)
          (WindowID target) name with
  | Err err => TRet (Err err)
  | Ok args =>
      let! r := Run server args in
      match r with
      | Err err => TRet (Err (wrapf !"create Wrap helper session: " err))
      | Ok out =>
          match split_byte x09 (trim_space out) with
          | [sessionID; placeholderWindowID] =>
              if sessionID ==b !"wrap-session-window-mismatch"
              then TRet (Err (EText !"tmux target changed before helper creation"))
              else furnish {| HelperSessionID := sessionID; HelperName := name;
                              HelperInstanceID := instanceID; HelperTarget := target |}
                     placeholderWindowID
          | _ => TRet (Err (EText !"tmux target changed before helper creation"))
          end
      end
  end.

Definition CleanupHelper (target : Target) (instanceID : bytes) : tm (option error) :=
  if negb (instanceIDPattern instanceID)
  then TRet (Some (EText (!"invalid Wrap instance ID " ++ quote instanceID))) else
  let name := helperName instanceID in
  let! r := Run (NewServerPath (SocketPath target))
    [!"display-message"; !"-p"; !"-t"; name; helper_format] in
  match r with
  | Err err =>
      TRet (if IsMissingTargetError (Some err) then None
            else Some (wrapf !"inspect stale Wrap helper: " err))
  | Ok output =>
      match split_byte x09 (trim_space output) with
      | [generation; sid; sname; owner; wid] =>
          if negb (generation ==b Generation target) || negb (sname ==b name) ||
             negb (owner ==b instanceID) || negb (wid ==b WindowID target)
          then TRet None
          else Helper_Close {| HelperSessionID := sid; HelperName := name;
                               HelperInstanceID := instanceID; HelperTarget := target |}
      | _ => TRet None
      end
  end.
End HelperOps.

(** ** The script of a creation *)

(** One guarded command: target, condition, commands, mismatch message. *)
Record step := {
  step_target : option bytes; step_cond : cond; step_cmds : list (list bytes); step_message : bytes
}.

Definition runs (prefix : list bytes) (command : list bytes) (st : step) : Prop :=
  exists args, command = prefix ++ args /\
    guarded (step_target st) (step_cond st) (step_cmds st) (step_message st) args.

Definition mutation_step (m : mutation) : step :=
  {| step_target := mut_target m; step_cond := mut_cond m; step_cmds := [mut_command m];
     step_message := mut_message m |}.

Section Script.
Context `{UnicodeTables}.
Variables (t : Target) (instanceID : bytes).
Let g := Generation t.

Definition create_step : step :=
  {| step_target := Some (SessionID t); step_cond := window_cond g (WindowID t);
     step_cmds :=
       [[!"new-session"; !"-d"; !"-s"; helperName instanceID; !"-n"; !"__wrap_placeholder";
         !"-P"; !"-F"; !"#{session_id}" ++ tab ++ !"#{window_id}"; !"exec sleep 300"];
        [!"set-option"; !"-t"; helperName instanceID; !"destroy-unattached"; !"off"]];
     step_message := sessionWindowMismatchMessage |}.

Definition link_step (sid wid : bytes) : step :=
  {| step_target := Some (SessionID t); step_cond := window_cond g (WindowID t);
     step_cmds := [[!"link-window"; !"-d"; !"-k"; !"-s"; SessionID t ++ !":" ++ WindowID t;
                    !"-t"; sid ++ !":" ++ wid]];
     step_message := generationMismatchMessage |}.

Definition option_step (sid : bytes) (setting : bytes * bytes) : step :=
  mutation_step (MSetOption sid g (fst setting) (snd setting)).
Definition bind_step (sid : bytes) : step :=
  mutation_step (MBindMouse sid g (helperKeyTable instanceID)).

(** Create, link, mark, five settings, the mouse binding. *)
Definition helper_script (sid wid : bytes) : list step :=
  [create_step; link_step sid wid; option_step sid (InstanceIDOption, instanceID)] ++
  map (option_step sid) (helper_settings instanceID) ++ [bind_step sid].

(** The kills that close the helper [sid]: by generation and name before the
    session is marked, by the owner as well afterwards. *)
Definition kill_unmarked (sid : bytes) : step :=
  mutation_step (MKillName sid g (helperName instanceID)).
Definition kill_marked (sid : bytes) : step :=
  mutation_step (MKillOption sid g (helperName instanceID) InstanceIDOption instanceID).
Definition kills (prefix : list bytes) (sid : bytes) (log : list (list bytes)) : Prop :=
  exists command, In command log /\
    (runs prefix command (kill_unmarked sid) \/ runs prefix command (kill_marked sid)).
End Script.

Lemma tm_exec_bind {A B} h past (m : tm A) (f : A -> tm B) :
  tm_exec h past (tbind m f) = let '(log, a) := tm_exec h past m in tm_exec h log (f a).
Proof. revert past. induction m as [a|args k IH]; intros past; simpl; [done|]. apply IH. Qed.

Lemma helper_name_nonempty `{UnicodeTables} id : nonempty (helperName id) = true.
Proof. done. Qed.
Lemma helper_table_nonempty `{UnicodeTables} id : nonempty (helperKeyTable id) = true.
Proof. done. Qed.

Section Creation.
Context `{UnicodeTables}.
Variables (t : Target) (instanceID : bytes) (prefix : list bytes).
Hypothesis Hprefix : server_prefix (NewServerPath (SocketPath t)) = Ok prefix.
Hypothesis Hg : isGeneration (Generation t) = true.
Hypothesis Hid : nonempty instanceID = true.

Definition the_helper (sid : bytes) : Helper :=
  {| HelperSessionID := sid; HelperName := helperName instanceID;
     HelperInstanceID := instanceID; HelperTarget := t |}.

(** A valid mutation of the target's server runs its step. *)
Lemma perform_runs m h past :
  mut_wf m -> mut_valid m = true ->
  exists command, runs prefix command (mutation_step m) /\
    tm_exec h past (perform (NewServerPath (SocketPath t)) m) =
    (command :: past, mut_outcome m (h past command)).
Proof.
  intros Hwf Hv. pose proof (perform_issues (NewServerPath (SocketPath t)) m Hwf h past) as Hi.
  rewrite Hprefix, Hv in Hi. destruct Hi as (args & HP & He). eexists. split; [by exists args|done].
Qed.

Lemma instance_option_wf sid n v : mut_wf (MKillOption sid (Generation t) n InstanceIDOption v).
Proof. closed_wf. Qed.

(** Closing the helper issues its kill, whatever comes of it. *)
Lemma close_unmarked_kills sid h past : isSessionID sid = true ->
  exists command r, runs prefix command (kill_unmarked t instanceID sid) /\
    tm_exec h past (closeUnmarked (the_helper sid)) = (command :: past, r).
Proof.
  intros Hs. destruct (perform_runs (MKillName sid (Generation t) (helperName instanceID)) h past I)
    as (command & Hr & He); [by cbn [mut_valid]; rewrite Hs, Hg|].
  exists command. eexists. split; [done|]. unfold closeUnmarked. rewrite tm_exec_bind.
  unfold helper_server. cbn [HelperTarget the_helper HelperSessionID HelperName].
  cbn [perform] in He. by rewrite He.
Qed.

Lemma close_kills sid h past : isSessionID sid = true ->
  exists command later r, runs prefix command (kill_marked t instanceID sid) /\
    tm_exec h past (Helper_Close (the_helper sid)) = (later ++ command :: past, r).
Proof.
  intros Hs. destruct (perform_runs (MKillOption sid (Generation t) (helperName instanceID)
    InstanceIDOption instanceID) h past (instance_option_wf _ _ _)) as (command & Hr & He).
  { cbn [mut_valid]. by rewrite Hs, Hg, Hid. }
  exists command. unfold Helper_Close. rewrite tm_exec_bind. unfold helper_server.
  cbn [HelperTarget the_helper HelperSessionID HelperName HelperInstanceID].
  cbn [perform] in He. rewrite He.
  destruct (identity_changed _); [by exists [], None|].
  destruct (mut_outcome _ _) as [e|]; [by exists [], (Some e)|].
  rewrite tm_exec_bind.
  destruct (perform_runs (MUnbindMouse (Generation t) (helperKeyTable instanceID)) h
    (command :: past) I) as (command' & _ & He'); [by cbn [mut_valid]; rewrite Hg|].
  cbn [perform] in He'. rewrite He'. exists [command']. eexists. split; done.
Qed.

(** A failing path that closes the helper leaves its kill in the log. *)
Lemma fail_closing_kills sid h past e (close : tm (option error)) log (r : result Helper) :
  (exists command later cr, (runs prefix command (kill_unmarked t instanceID sid) \/
                             runs prefix command (kill_marked t instanceID sid)) /\
     tm_exec h past close = (later ++ command :: past, cr)) ->
  tm_exec h past (fail_closing e close) = (log, r) ->
  kills t instanceID prefix sid log /\ exists err, r = Err err.
Proof.
  intros (command & later & cr & Hk & He) Hf. unfold fail_closing in Hf.
  rewrite tm_exec_bind, He in Hf. simpl in Hf. simplify_eq. split; [|by eexists].
  exists command. split; [|done]. apply in_or_app. right. by left.
Qed.

(** A part of the creation either runs its script in full or fails with a
    kill in the log. *)
Definition completes (sid : bytes) (m : tm (result Helper)) (script : list step) : Prop :=
  forall h past log r, tm_exec h past m = (log, r) ->
    (r = Ok (the_helper sid) /\
     exists new, log = new ++ past /\ Forall2 (runs prefix) (rev new) script) \/
    (kills t instanceID prefix sid log /\ exists e, r = Err e).

Lemma completes_cons sid (m : tm (option error)) k mut st script e close :
  m = perform (NewServerPath (SocketPath t)) mut -> mut_wf mut -> mut_valid mut = true ->
  st = mutation_step mut ->
  (forall h past, exists command later cr,
     (runs prefix command (kill_unmarked t instanceID sid) \/
      runs prefix command (kill_marked t instanceID sid)) /\
     tm_exec h past close = (later ++ command :: past, cr)) ->
  completes sid k script ->
  completes sid (let! err := m in
                 match err with Some x => fail_closing (e x) close | None => k end) (st :: script).
Proof.
  intros -> Hwf Hv -> Hclose Hk h past log r. rewrite tm_exec_bind.
  destruct (perform_runs mut h past Hwf Hv) as (command & Hr & ->).
  destruct (mut_outcome _ _) as [x|]; intros He.
  - right. by eapply fail_closing_kills.
  - apply Hk in He as [(-> & new & -> & Hall)|He]; [|by right]. left. split; [done|].
    exists (new ++ [command]). split; [by rewrite <- app_assoc|].
    rewrite rev_app_distr. simpl. by constructor.
Qed.

Lemma close_kills' sid h past : isSessionID sid = true ->
  exists command later cr, (runs prefix command (kill_unmarked t instanceID sid) \/
                            runs prefix command (kill_marked t instanceID sid)) /\
    tm_exec h past (Helper_Close (the_helper sid)) = (later ++ command :: past, cr).
Proof.
  intros Hs. destruct (close_kills sid h past Hs) as (command & later & cr & Hr & He).
  exists command, later, cr. split; [by right|done].
Qed.

Lemma close_unmarked_kills' sid h past : isSessionID sid = true ->
  exists command later cr, (runs prefix command (kill_unmarked t instanceID sid) \/
                            runs prefix command (kill_marked t instanceID sid)) /\
    tm_exec h past (closeUnmarked (the_helper sid)) = (later ++ command :: past, cr).
Proof.
  intros Hs. destruct (close_unmarked_kills sid h past Hs) as (command & cr & Hr & He).
  exists command, [], cr. split; [by left|done].
Qed.

Lemma completes_done sid : completes sid (TRet (Ok (the_helper sid))) [].
Proof. intros h past log r [= <- <-]. left. split; [done|]. by exists []. Qed.

Lemma configure_completes sid settings : isSessionID sid = true ->
  forallb (fun s => nonempty (fst s)) settings = true ->
  completes sid (configure (the_helper sid) settings)
    (map (option_step t sid) settings ++ [bind_step t instanceID sid]).
Proof.
  intros Hs. induction settings as [|[option value] settings IH]; simpl; intros Hn.
  - eapply (completes_cons sid _ _ (MBindMouse sid (Generation t) (helperKeyTable instanceID)));
      [done|done| |done| |apply completes_done].
    + cbn [mut_valid]. by rewrite Hs, Hg.
    + intros h past. by apply close_kills'.
  - apply andb_true_iff in Hn as [Hn1 Hn].
    eapply (completes_cons sid _ _ (MSetOption sid (Generation t) option value));
      [done|done| |done| |by apply IH].
    + cbn [mut_valid]. by rewrite Hs, Hg, Hn1.
    + intros h past. by apply close_kills'.
Qed.

Lemma link_runs sid wid h past :
  isSessionID sid = true -> isWindowID wid = true -> isSessionID (SessionID t) = true ->
  isWindowID (WindowID t) = true ->
  exists args, LinkWindowReplacingCurrentIfGenerationArgs (SessionID t) (Generation t) (WindowID t)
      sid wid = Ok args /\
    runs prefix (prefix ++ args) (link_step t sid wid) /\
    tm_exec h past (Run (NewServerPath (SocketPath t)) args) =
      ((prefix ++ args) :: past, h past (prefix ++ args)).
Proof.
  intros Hs Hw Hts Htw. unfold LinkWindowReplacingCurrentIfGenerationArgs,
    sessionWindowCommandIfGenerationArgs. rewrite Hs, Hw, Hts, Htw, Hg. cbn [negb].
  eexists. split; [done|]. split.
  - eexists. split; [done|]. apply (guarded_intro (Some (SessionID t))).
    + unfold link_step, window_cond, generation_cond. cbn [step_cond render].
      rewrite (escape_generation _ Hg), (escape_window _ Htw). reflexivity.
    + split; closed_wf.
    + apply read_command.
  - unfold Run. by rewrite Hprefix.
Qed.

Lemma furnish_completes sid wid :
  isSessionID sid = true -> isSessionID (SessionID t) = true -> isWindowID (WindowID t) = true ->
  completes sid (furnish (the_helper sid) wid)
    (link_step t sid wid :: option_step t sid (InstanceIDOption, instanceID) ::
     map (option_step t sid) (helper_settings instanceID) ++ [bind_step t instanceID sid]).
Proof.
  intros Hs Hts Htw h past log r He. unfold furnish in He. cbn [the_helper HelperTarget
    HelperSessionID HelperInstanceID] in He. fold (the_helper sid) in He.
  destruct (isWindowID wid) eqn:Hw.
  - destruct (link_runs sid wid h past Hs Hw Hts Htw) as (args & Hl & Hr & Hx).
    rewrite Hl, tm_exec_bind in He. unfold helper_server in He. cbn [the_helper HelperTarget] in He.
    rewrite Hx in He.
    destruct (h past _) as [out|e]; [|right; eapply fail_closing_kills; [|done]; by apply close_unmarked_kills'].
    destruct (IsGenerationMismatchOutput out);
      [right; eapply fail_closing_kills; [|done]; by apply close_unmarked_kills'|].
    assert (completes sid (let! err := SetSessionOptionIfGeneration (NewServerPath (SocketPath t)) sid
        (Generation t) InstanceIDOption instanceID in
      match err with
      | Some x => fail_closing (wrapf !"mark Wrap helper session: " x) (closeUnmarked (the_helper sid))
      | None => configure (the_helper sid) (helper_settings instanceID)
      end) (option_step t sid (InstanceIDOption, instanceID) ::
       map (option_step t sid) (helper_settings instanceID) ++ [bind_step t instanceID sid])) as Hc.
    { eapply (completes_cons sid _ _ (MSetOption sid (Generation t) InstanceIDOption instanceID));
        [done|done| |done| |by apply configure_completes].
      - cbn [mut_valid]. by rewrite Hs, Hg.
      - intros h' past'. by apply close_unmarked_kills'. }
    apply Hc in He as [(-> & new & -> & Hall)|He]; [|by right]. left. split; [done|].
    exists (new ++ [prefix ++ args]). split; [by rewrite <- app_assoc|].
    rewrite rev_app_distr. simpl. by constructor.
  - right. unfold LinkWindowReplacingCurrentIfGenerationArgs in He. rewrite Hs, Hw in He.
    cbn [negb] in He. eapply fail_closing_kills; [|done]. by apply close_unmarked_kills'.
Qed.
End Creation.

Lemma standalone_runs `{UnicodeTables} t instanceID prefix args :
  NewStandaloneSessionIfWindowGenerationArgs (SessionID t) (Generation t) (WindowID t)
    (helperName instanceID) = Ok args ->
  isSessionID (SessionID t) = true /\ isWindowID (WindowID t) = true /\
  isGeneration (Generation t) = true /\ runs prefix (prefix ++ args) (create_step t instanceID).
Proof.
  unfold NewStandaloneSessionIfWindowGenerationArgs.
  destruct (isSessionID _) eqn:Hs; [|done]. destruct (isGeneration _) eqn:Hg; [|done].
  destruct (isWindowID _) eqn:Hw; [|done]. cbn [negb]. rewrite bool_decide_false by done.
  intros [= <-]. split_and!; [done..|]. eexists. split; [done|].
  apply (guarded_intro (Some (SessionID t))).
  - unfold create_step, window_cond, generation_cond. cbn [step_cond render].
    rewrite (escape_generation _ Hg), (escape_window _ Hw). unfold cond_and, cond_eq.
    rewrite <- ?app_assoc. reflexivity.
  - split; closed_wf.
  - apply read_command_list; [by repeat constructor|reflexivity].
Qed.

Lemma instance_id_nonempty id : instanceIDPattern id = true -> nonempty id = true.
Proof. by destruct id. Qed.

(** C8: a helper session that tmux announced is not abandoned.  When tmux
    answers the creation without an error and with a session identifier and a
    window, either the creation succeeds, and then it ran exactly its script
    (create under the window's identity, link the window, mark the owner, five
    settings, the mouse binding) in that order, or it fails and has issued a
    kill of exactly that session, guarded by the server generation and the
    session's name, whatever tmux answers to the rest.  When tmux answers the
    creation with an error or announces nothing, the creation fails and has run
    nothing else: a session that tmux made although it answered with an error is
    not killed here. *)
Theorem helper_created_or_killed `{UnicodeTables} (t : Target) (instanceID : bytes) (h : env)
    (prefix args : list bytes) (log : list (list bytes)) (r : result Helper)
    (Hprefix : server_prefix (NewServerPath (SocketPath t)) = Ok prefix)
    (Hid : instanceIDPattern instanceID = true)
    (Hargs : NewStandaloneSessionIfWindowGenerationArgs (SessionID t) (Generation t) (WindowID t)
               (helperName instanceID) = Ok args)
    (Hrun : tm_exec h [] (CreateHelper t instanceID) = (log, r)) :
  (forall out sid wid, h [] (prefix ++ args) = Ok out ->
     split_byte x09 (trim_space out) = [sid; wid] -> isSessionID sid = true ->
     (r = Ok (the_helper t instanceID sid) /\
      Forall2 (runs prefix) (rev log) (helper_script t instanceID sid wid)) \/
     ((exists e, r = Err e) /\ kills t instanceID prefix sid log)) /\
  (match h [] (prefix ++ args) with
   | Ok out => length (split_byte x09 (trim_space out)) <> 2%nat
   | Err _ => True
   end -> (exists e, r = Err e) /\ log = [prefix ++ args]).
Proof.
  destruct (standalone_runs t instanceID prefix args Hargs) as (Hts & Htw & Hg & Hcreate).
  unfold CreateHelper in Hrun. rewrite Hid, Hargs in Hrun. cbn [negb] in Hrun.
  match type of Hrun with context [if ?c then TRet _ else _] => destruct c eqn:Hc end.
  { exfalso. rewrite !orb_true_iff in Hc.
    destruct Hc as [[[Hc|Hc]|Hc]|Hc]; guards; rewrite Hc in *; try done. }
  rewrite tm_exec_bind in Hrun. unfold Run in Hrun. rewrite Hprefix in Hrun.
  cbn [tm_exec] in Hrun. split.
  2: { intros Hno. destruct (h [] (prefix ++ args)) as [out|e]; [|injection Hrun as <- <-; by split; [eexists|]].
       destruct (split_byte x09 (trim_space out)) as [|sid [|wid [|]]]; cbn [length] in Hno; try lia;
         injection Hrun as <- <-; (split; [by eexists|done]). }
  intros out sid wid Hout Hann Hsid. rewrite Hout, Hann in Hrun.
  rewrite bool_decide_false in Hrun by (by intros ->).
  eapply (furnish_completes t instanceID prefix) in Hrun as [(-> & new & -> & Hall)|[? ?]];
    try done; try by apply instance_id_nonempty.
  - left. split; [done|]. rewrite rev_app_distr. simpl. by constructor.
  - by right.
Qed.

(** tmux refuses the second setting: the helper is killed. *)
Lemma helper_created_or_killed_witness :
  let t := {| SocketPath := !"/tmp/tmux-0/default"; Generation := !"00112233445566778899aabbccddeeff";
              SessionID := !"$0"; WindowID := !"@1"; SessionName := !"w"; WindowName := !"w";
              Directory := !"/src" |} in
  let h : env := fun past _ =>
    match length past with
    | 0%nat => Ok (!"$7" ++ tab ++ !"@9")
    | 4%nat => Err (EText !"lost server")
    | _ => Ok []
    end in
  exists log e, tm_exec h [] (CreateHelper t !"abc123") = (log, Err e) /\
    kills t !"abc123" [!"-S"; !"/tmp/tmux-0/default"] !"$7" log.
Proof.
  intros t h.
  destruct (tm_exec h [] (CreateHelper t !"abc123")) as [log r] eqn:He.
  destruct (NewStandaloneSessionIfWindowGenerationArgs (SessionID t) (Generation t) (WindowID t)
              (helperName !"abc123")) as [args|e] eqn:Ha.
  2:{ exfalso. revert Ha. vm_compute. intros Ha. discriminate Ha. }
  destruct (proj1 (helper_created_or_killed t !"abc123" h [!"-S"; !"/tmp/tmux-0/default"] args
    log r eq_refl eq_refl Ha He) (!"$7" ++ tab ++ !"@9") !"$7" !"@9" eq_refl eq_refl eq_refl)
    as [[Hr _]|[[e Hr] Hk]].
  - exfalso. revert He. rewrite Hr. vm_compute. intros He. discriminate He.
  - exists log, e. by subst r.
Defined.
