(* ===== verification/GoUtf8.v ===== *)
(** * UTF-8 round trips and white space at the level of characters *)

From S2P Require Import Prelude GoString GoUnicode.
Open Scope Z_scope.

(** The numbers UTF-8 can carry. *)
Definition scalar (r : Z) : Prop := 0 <= r <= 0x10FFFF /\ ~ (0xD800 <= r <= 0xDFFF).

(** ** Bit operations as arithmetic *)

Lemma land_low a k : 0 <= a -> 0 <= k -> Z.land a (2 ^ k - 1) = a mod 2 ^ k.
Proof. intros Ha Hk. rewrite <- Z.land_ones by done. by rewrite Z.ones_equiv. Qed.

Lemma lor_shift a b k : 0 <= a -> 0 <= b < 2 ^ k -> 0 <= k -> Z.lor (Z.shiftl a k) b = a * 2 ^ k + b.
Proof.
  intros Ha Hb Hk. rewrite <- Z.shiftl_mul_pow2 by done. symmetry.
  rewrite Z.add_nocarry_lxor.
  - symmetry. rewrite <- Z.lxor_lor; [done|].
    apply Z.bits_inj'. intros n Hn. rewrite Z.land_spec, Z.bits_0.
    destruct (Z.ltb_spec n k).
    + by rewrite Z.shiftl_spec_low.
    + replace b with (b mod 2 ^ k) by (by apply Z.mod_small).
      by rewrite Z.mod_pow2_bits_high, andb_false_r.
  - apply Z.bits_inj'. intros n Hn. rewrite Z.land_spec, Z.bits_0.
    destruct (Z.ltb_spec n k).
    + by rewrite Z.shiftl_spec_low.
    + replace b with (b mod 2 ^ k) by (by apply Z.mod_small).
      by rewrite Z.mod_pow2_bits_high, andb_false_r.
Qed.

Lemma bz_zb_small z : 0 <= z < 256 -> bz (zb z) = z.
Proof. intros H. rewrite bz_zb. by apply Z.mod_small. Qed.

Lemma rune2_arith b0 b1 : rune2 b0 b1 = (bz b0 mod 32) * 64 + bz b1 mod 64.
Proof.
  pose proof (bz_range b0). pose proof (bz_range b1). unfold rune2.
  change 0x1F with (2 ^ 5 - 1). change 0x3F with (2 ^ 6 - 1). rewrite !land_low by lia.
  apply (lor_shift _ _ 6); [| |lia]; apply Z.mod_pos_bound || (apply Z.mod_pos_bound; lia); lia.
Qed.

Lemma rune3_arith b0 b1 b2 :
  rune3 b0 b1 b2 = (bz b0 mod 16) * 4096 + (bz b1 mod 64) * 64 + bz b2 mod 64.
Proof.
  pose proof (bz_range b0). pose proof (bz_range b1). pose proof (bz_range b2). unfold rune3.
  change 0x0F with (2 ^ 4 - 1). change 0x3F with (2 ^ 6 - 1). rewrite !land_low by lia.
  pose proof (Z.mod_pos_bound (bz b0) (2 ^ 4) ltac:(lia)).
  pose proof (Z.mod_pos_bound (bz b1) (2 ^ 6) ltac:(lia)).
  pose proof (Z.mod_pos_bound (bz b2) (2 ^ 6) ltac:(lia)).
  rewrite (lor_shift (bz b1 mod 2 ^ 6)) by lia. rewrite (lor_shift _ _ 12) by lia.
  change (2 ^ 4) with 16 in *. change (2 ^ 6) with 64 in *. change (2 ^ 12) with 4096. lia.
Qed.

Lemma rune4_arith b0 b1 b2 b3 :
  rune4 b0 b1 b2 b3 =
  (bz b0 mod 8) * 262144 + (bz b1 mod 64) * 4096 + (bz b2 mod 64) * 64 + bz b3 mod 64.
Proof.
  pose proof (bz_range b0). pose proof (bz_range b1). pose proof (bz_range b2).
  pose proof (bz_range b3). unfold rune4.
  change 0x07 with (2 ^ 3 - 1). change 0x3F with (2 ^ 6 - 1). rewrite !land_low by lia.
  pose proof (Z.mod_pos_bound (bz b0) (2 ^ 3) ltac:(lia)).
  pose proof (Z.mod_pos_bound (bz b1) (2 ^ 6) ltac:(lia)).
  pose proof (Z.mod_pos_bound (bz b2) (2 ^ 6) ltac:(lia)).
  pose proof (Z.mod_pos_bound (bz b3) (2 ^ 6) ltac:(lia)).
  rewrite (lor_shift (bz b2 mod 2 ^ 6)) by lia. rewrite (lor_shift (bz b1 mod 2 ^ 6) _ 12) by lia.
  rewrite (lor_shift _ _ 18) by lia.
  change (2 ^ 3) with 8 in *. change (2 ^ 6) with 64 in *. change (2 ^ 12) with 4096 in *.
  change (2 ^ 18) with 262144. lia.
Qed.

(** ** The four shapes of an encoded character *)

Inductive encoded : Z -> bytes -> Prop :=
| enc1 b : bz b < 0x80 -> encoded (bz b) [b]
| enc2 b0 b1 : lead2 b0 = true -> is_cont b1 = true -> encoded (rune2 b0 b1) [b0; b1]
| enc3 b0 b1 b2 : lead3 b0 = true -> second_ok b0 b1 = true -> is_cont b2 = true ->
    encoded (rune3 b0 b1 b2) [b0; b1; b2]
| enc4 b0 b1 b2 b3 : lead4 b0 = true -> second_ok b0 b1 = true -> is_cont b2 = true ->
    is_cont b3 = true -> encoded (rune4 b0 b1 b2 b3) [b0; b1; b2; b3].

Lemma encoded_runes r c s : encoded r c -> runes (c ++ s) = (r, length c) :: runes s.
Proof.
  destruct 1 as [b Hb|b0 b1 H0 H1|b0 b1 b2 H0 H1 H2|b0 b1 b2 b3 H0 H1 H2 H3]; simpl.
  - by rewrite (proj2 (Z.ltb_lt _ _) Hb).
  - rewrite H0, H1. unfold lead2 in H0. guards. by rewrite (proj2 (Z.ltb_ge (bz b0) 128)) by lia.
  - rewrite H0, H1, H2. unfold lead3 in H0. guards.
    assert (lead2 b0 = false) as -> by (unfold lead2; lia).
    by rewrite (proj2 (Z.ltb_ge (bz b0) 128)) by lia.
  - rewrite H0, H1, H2, H3. unfold lead4 in H0. guards.
    assert (lead2 b0 = false) as -> by (unfold lead2; lia).
    assert (lead3 b0 = false) as -> by (unfold lead3; lia).
    by rewrite (proj2 (Z.ltb_ge (bz b0) 128)) by lia.
Qed.

Ltac bytes_of_zb := rewrite ?bz_zb_small by (Z.to_euclidean_division_equations; lia).

Lemma encode_encoded r : scalar r -> encoded r (encode_rune r).
Proof.
  intros [Hr Hs]. unfold encode_rune.
  destruct (Z.ltb_spec r 0x80).
  { rewrite (proj2 (Z.leb_le 0 r)) by lia. cbn [andb].
    rewrite <- (bz_zb_small r) at 1 by lia. constructor. rewrite bz_zb_small; lia. }
  rewrite andb_false_r. destruct (Z.ltb_spec r 0x800).
  { rewrite (proj2 (Z.leb_le 0 r)) by lia. cbn [andb].
    assert (rune2 (zb (0xC0 + r / 64)) (zb (0x80 + r mod 64)) = r) as E.
    { rewrite rune2_arith. bytes_of_zb. Z.to_euclidean_division_equations; lia. }
    rewrite <- E at 1. constructor; unfold lead2, is_cont; bytes_of_zb;
      apply andb_true_iff; split; apply Z.leb_le; Z.to_euclidean_division_equations; lia. }
  rewrite andb_false_r.
  rewrite (proj2 (Z.ltb_ge r 0)), (proj2 (Z.ltb_ge 0x10FFFF r)) by lia.
  assert ((0xD800 <=? r) && (r <=? 0xDFFF) = false) as -> by lia. cbn [orb].
  destruct (Z.ltb_spec r 0x10000).
  - assert (rune3 (zb (0xE0 + r / 4096)) (zb (0x80 + r / 64 mod 64)) (zb (0x80 + r mod 64)) = r) as E.
    { rewrite rune3_arith. bytes_of_zb. Z.to_euclidean_division_equations; lia. }
    rewrite <- E at 1. constructor; unfold lead3, second_ok, is_cont; bytes_of_zb;
      repeat case_match; try lia; Z.to_euclidean_division_equations; lia.
  - assert (rune4 (zb (0xF0 + r / 262144)) (zb (0x80 + r / 4096 mod 64)) (zb (0x80 + r / 64 mod 64))
      (zb (0x80 + r mod 64)) = r) as E.
    { rewrite rune4_arith. bytes_of_zb. Z.to_euclidean_division_equations; lia. }
    rewrite <- E at 1. constructor; unfold lead4, second_ok, is_cont; bytes_of_zb;
      repeat case_match; try lia; Z.to_euclidean_division_equations; lia.
Qed.

Lemma encoded_scalar r c : encoded r c -> scalar r.
Proof.
  unfold scalar.
  destruct 1 as [b Hb|b0 b1 H0 H1|b0 b1 b2 H0 H1 H2|b0 b1 b2 b3 H0 H1 H2 H3].
  - pose proof (bz_range b). lia.
  - rewrite rune2_arith. unfold lead2, is_cont in *. guards. Z.to_euclidean_division_equations; lia.
  - rewrite rune3_arith. unfold lead3, second_ok, is_cont in *. guards.
    destruct (Z.eqb_spec (bz b0) 0xE0), (Z.eqb_spec (bz b0) 0xF0), (Z.eqb_spec (bz b0) 0xED),
      (Z.eqb_spec (bz b0) 0xF4); try lia; Z.to_euclidean_division_equations; lia.
  - rewrite rune4_arith. unfold lead4, second_ok, is_cont in *. guards.
    destruct (Z.eqb_spec (bz b0) 0xE0), (Z.eqb_spec (bz b0) 0xF0), (Z.eqb_spec (bz b0) 0xED),
      (Z.eqb_spec (bz b0) 0xF4); try lia; Z.to_euclidean_division_equations; lia.
Qed.

(** A character has one encoding. *)
Lemma encode_unique r c : encoded r c -> c = encode_rune r.
Proof.
  intros Hc. pose proof (encoded_scalar _ _ Hc) as [Hr Hs]. unfold encode_rune.
  assert (Hzb : forall z b, z = bz b -> zb z = b) by (intros z b ->; apply zb_bz).
  destruct Hc as [b Hb|b0 b1 H0 H1|b0 b1 b2 H0 H1 H2|b0 b1 b2 b3 H0 H1 H2 H3].
  - rewrite (proj2 (Z.leb_le 0 _)), (proj2 (Z.ltb_lt _ _)) by lia. by rewrite zb_bz.
  - rewrite rune2_arith in *. unfold lead2, is_cont in *. guards.
    rewrite !(proj2 (Z.leb_le 0 _)), (proj2 (Z.ltb_ge _ 0x80)), (proj2 (Z.ltb_lt _ 0x800)) by
      (Z.to_euclidean_division_equations; lia). cbn [andb].
    repeat f_equal; symmetry; apply Hzb; Z.to_euclidean_division_equations; lia.
  - pose proof (rune3_ge b0 b1 b2 H0 H1) as Hge. rewrite rune3_arith in *. unfold lead3, is_cont in *.
    apply second_ok_bounds in H1. guards.
    rewrite (proj2 (Z.ltb_ge _ 0x80)), (proj2 (Z.ltb_ge _ 0x800)), !andb_false_r by lia.
    match goal with |- context [if ?c then [xef; xbf; xbd] else _] => assert (c = false) as -> by lia end.
    rewrite (proj2 (Z.ltb_lt _ 0x10000)) by (Z.to_euclidean_division_equations; lia).
    repeat f_equal; symmetry; apply Hzb; Z.to_euclidean_division_equations; lia.
  - assert (Hge : 0x10000 <= rune4 b0 b1 b2 b3).
    { rewrite rune4_arith. unfold lead4, second_ok, is_cont in *. guards.
      destruct (Z.eqb_spec (bz b0) 0xE0), (Z.eqb_spec (bz b0) 0xF0), (Z.eqb_spec (bz b0) 0xED),
        (Z.eqb_spec (bz b0) 0xF4); try lia; Z.to_euclidean_division_equations; lia. }
    rewrite rune4_arith in *. unfold lead4, is_cont in *. apply second_ok_bounds in H1. guards.
    rewrite (proj2 (Z.ltb_ge _ 0x80)), (proj2 (Z.ltb_ge _ 0x800)), !andb_false_r by lia.
    match goal with |- context [if ?c then [xef; xbf; xbd] else _] => assert (c = false) as -> by lia end.
    rewrite (proj2 (Z.ltb_ge _ 0x10000)) by lia.
    repeat f_equal; symmetry; apply Hzb; Z.to_euclidean_division_equations; lia.
Qed.

(** One step of decoding: an encoded character or an invalid byte. *)
Lemma runes_step s :
  s = [] \/
  (exists c r s', s = c ++ s' /\ encoded r c /\ runes s = (r, length c) :: runes s') \/
  (exists b s', s = b :: s' /\ runes s = (rune_error, 1%nat) :: runes s').
Proof.
  destruct s as [|b0 t0]; [by left|right].
  destruct (bz b0 <? 0x80) eqn:H0.
  { left. exists [b0], (bz b0), t0. split_and!; [done|constructor; guards; done|].
    simpl. by rewrite H0. }
  assert (Herr : runes (b0 :: t0) = (rune_error, 1%nat) :: runes t0 ->
    (exists c r s', b0 :: t0 = c ++ s' /\ encoded r c /\ runes (b0 :: t0) = (r, length c) :: runes s') \/
    (exists b s', b0 :: t0 = b :: s' /\ runes (b0 :: t0) = (rune_error, 1%nat) :: runes s'))
    by (intros E; right; by exists b0, t0).
  simpl in *. rewrite H0 in *.
  destruct t0 as [|b1 t1]; [by apply Herr|].
  destruct (lead2 b0 && is_cont b1) eqn:H2.
  { guards. left. exists [b0; b1], (rune2 b0 b1), t1. split_and!; [done|by constructor|done]. }
  destruct t1 as [|b2 t2]; [by apply Herr|].
  destruct (lead3 b0 && second_ok b0 b1 && is_cont b2) eqn:H3.
  { guards. left. exists [b0; b1; b2], (rune3 b0 b1 b2), t2. split_and!; [done|by constructor|done]. }
  destruct t2 as [|b3 t3]; [by apply Herr|].
  destruct (lead4 b0 && second_ok b0 b1 && is_cont b2 && is_cont b3) eqn:H4; [|by apply Herr].
  guards. left. exists [b0; b1; b2; b3], (rune4 b0 b1 b2 b3), t3.
  split_and!; [done|by constructor|done].
Qed.

Lemma encoded_nonempty r c : encoded r c -> (0 < length c)%nat.
Proof. destruct 1; simpl; lia. Qed.

(** Every decoded character is one UTF-8 can carry. *)
Lemma runes_scalar s : Forall (fun rw => scalar (fst rw)) (runes s).
Proof.
  remember (length s) as n eqn:Hn. revert s Hn.
  induction n as [n IH] using lt_wf_ind. intros s ->.
  destruct (runes_step s) as [->|[(c & r & s' & -> & Hc & ->)|(b & s' & -> & ->)]].
  - done.
  - constructor; [by eapply encoded_scalar|]. eapply IH; [|done].
    rewrite length_app. pose proof (encoded_nonempty _ _ Hc). lia.
  - constructor; [unfold scalar, rune_error; simpl; lia|]. eapply IH; [|done]. simpl. lia.
Qed.

(** The string of a sequence of characters. *)
Definition encode_runes (rs : list Z) : bytes := flat_map encode_rune rs.

Lemma runes_encode_runes rs :
  Forall scalar rs -> runes (encode_runes rs) = map (fun r => (r, length (encode_rune r))) rs.
Proof.
  induction 1 as [|r rs Hr Hrs IH]; [done|].
  change (encode_runes (r :: rs)) with (encode_rune r ++ encode_runes rs).
  rewrite (encoded_runes r) by by apply encode_encoded. simpl. by rewrite IH.
Qed.

Lemma rune_count_encode_runes rs : Forall scalar rs -> rune_count (encode_runes rs) = len rs.
Proof. intros H. unfold rune_count, len. by rewrite runes_encode_runes, length_map. Qed.

Lemma valid_encode_runes rs : Forall scalar rs -> valid_utf8 (encode_runes rs) = true.
Proof.
  intros H. unfold valid_utf8. rewrite runes_encode_runes by done. apply forallb_forall.
  intros [r w] Hin. apply in_map_iff in Hin as (r' & [= -> <-] & Hin).
  destruct (Z.eqb_spec r rune_error) as [->|]; [|done]. done.
Qed.

Lemma encode_runes_app a b : encode_runes (a ++ b) = encode_runes a ++ encode_runes b.
Proof. apply flat_map_app. Qed.

(** ** White space at the level of characters *)

Lemma trim_left_encoded_space r c s : encoded r c -> is_space r = true -> trim_left_space (c ++ s) = trim_left_space s.
Proof.
  destruct 1 as [b Hb|b0 b1 H0 H1|b0 b1 b2 H0 H1 H2|b0 b1 b2 b3 H0 H1 H2 H3]; intros Hsp.
  - cbn [app trim_left_space]. unfold ascii_space. by rewrite (proj2 (Z.ltb_lt _ _) Hb), Hsp.
  - assert (ascii_space b0 = false) as Ha
      by (unfold ascii_space, lead2 in *; guards; by rewrite (proj2 (Z.ltb_ge _ _)) by lia).
    cbn [app trim_left_space]. rewrite Ha. unfold space2. by rewrite H0, H1, Hsp.
  - assert (ascii_space b0 = false) as Ha
      by (unfold ascii_space, lead3 in *; guards; by rewrite (proj2 (Z.ltb_ge _ _)) by lia).
    assert (lead2 b0 = false) as H2' by (unfold lead2, lead3 in *; guards; lia).
    cbn [app trim_left_space]. rewrite Ha. unfold space2, space3. by rewrite H2', H0, H1, H2, Hsp.
  - exfalso. pose proof (rune4_ge b0 b1 b2 b3 H0 H1). unfold is_space in Hsp.
    assert (0x10000 <= rune4 b0 b1 b2 b3).
    { rewrite rune4_arith. unfold lead4, second_ok, is_cont in *. guards.
      destruct (Z.eqb_spec (bz b0) 0xE0), (Z.eqb_spec (bz b0) 0xF0), (Z.eqb_spec (bz b0) 0xED),
        (Z.eqb_spec (bz b0) 0xF4); try lia; Z.to_euclidean_division_equations; lia. }
    lia.
Qed.

Lemma trim_left_encoded_stop r c s : encoded r c -> is_space r = false -> trim_left_space (c ++ s) = c ++ s.
Proof.
  destruct 1 as [b Hb|b0 b1 H0 H1|b0 b1 b2 H0 H1 H2|b0 b1 b2 b3 H0 H1 H2 H3]; intros Hsp.
  - apply trim_left_solid. unfold solid. by rewrite (proj2 (Z.ltb_lt _ _) Hb), Hsp.
  - assert (ascii_space b0 = false) as Ha
      by (unfold ascii_space, lead2 in *; guards; by rewrite (proj2 (Z.ltb_ge _ _)) by lia).
    assert (lead3 b0 = false) as H3 by (unfold lead2, lead3 in *; guards; lia).
    cbn [app trim_left_space]. rewrite Ha. unfold space2, space3. rewrite H0, H1, Hsp, H3.
    cbn [andb]. by destruct s.
  - assert (ascii_space b0 = false) as Ha
      by (unfold ascii_space, lead3 in *; guards; by rewrite (proj2 (Z.ltb_ge _ _)) by lia).
    assert (lead2 b0 = false) as H2' by (unfold lead2, lead3 in *; guards; lia).
    cbn [app trim_left_space]. rewrite Ha. unfold space2, space3. by rewrite H2', H0, H1, H2, Hsp.
  - assert (ascii_space b0 = false) as Ha
      by (unfold ascii_space, lead4 in *; guards; by rewrite (proj2 (Z.ltb_ge _ _)) by lia).
    assert (lead2 b0 = false /\ lead3 b0 = false) as [H2' H3'] by (unfold lead2, lead3, lead4 in *; guards; lia).
    cbn [app trim_left_space]. rewrite Ha. unfold space2, space3. by rewrite H2', H3'.
Qed.

Lemma trim_right_encoded_stop r c s : encoded r c -> is_space r = false ->
  trim_right_space_rev (rev c ++ s) = rev c ++ s.
Proof.
  assert (Hcont : forall b, is_cont b = true -> ascii_space b = false /\ lead2 b = false /\ lead3 b = false).
  { intros b Hb. unfold is_cont, ascii_space, lead2, lead3 in *. guards.
    rewrite (proj2 (Z.ltb_ge (bz b) 128)) by lia. split_and!; [done|lia|lia]. }
  destruct 1 as [b Hb|b0 b1 H0 H1|b0 b1 b2 H0 H1 H2|b0 b1 b2 b3 H0 H1 H2 H3]; intros Hsp.
  - apply trim_right_solid. unfold solid. by rewrite (proj2 (Z.ltb_lt _ _) Hb), Hsp.
  - destruct (Hcont b1 H1) as (Ha & _ & _). cbn [rev app trim_right_space_rev]. rewrite Ha.
    unfold space2, space3. rewrite H0, H1, Hsp. cbn [andb]. destruct s as [|x s]; [done|].
    assert (second_ok x b0 = false) as ->; [|by rewrite andb_false_r].
    unfold second_ok, lead2 in *. guards. apply andb_false_iff. right. apply Z.leb_gt.
    repeat case_match; lia.
  - destruct (Hcont b2 H2) as (Ha & _ & _).
    assert (is_cont b1 = true) as Hb1
      by (apply second_ok_bounds in H1; unfold is_cont; apply andb_true_iff; lia).
    destruct (Hcont b1 Hb1) as (_ & Hl & _). cbn [rev app trim_right_space_rev]. rewrite Ha.
    unfold space2, space3. by rewrite Hl, H0, H1, H2, Hsp.
  - destruct (Hcont b3 H3) as (Ha & _ & _). destruct (Hcont b2 H2) as (_ & Hl & _).
    assert (is_cont b1 = true) as Hb1
      by (apply second_ok_bounds in H1; unfold is_cont; apply andb_true_iff; lia).
    destruct (Hcont b1 Hb1) as (_ & _ & Hl'). cbn [rev app trim_right_space_rev]. rewrite Ha.
    unfold space2, space3. by rewrite Hl, Hl'.
Qed.

Lemma trim_right_encoded_space r c s : encoded r c -> is_space r = true ->
  trim_right_space_rev (rev c ++ s) = trim_right_space_rev s.
Proof.
  assert (Hcont : forall b, is_cont b = true -> ascii_space b = false /\ lead2 b = false).
  { intros b Hb. unfold is_cont, ascii_space, lead2 in *. guards.
    rewrite (proj2 (Z.ltb_ge (bz b) 128)) by lia. split; [done|lia]. }
  intros Hc Hsp. pose proof (trim_left_encoded_space r c [] Hc Hsp) as Hl.
  destruct Hc as [b Hb|b0 b1 H0 H1|b0 b1 b2 H0 H1 H2|b0 b1 b2 b3 H0 H1 H2 H3].
  - cbn [rev app trim_right_space_rev]. unfold ascii_space. by rewrite (proj2 (Z.ltb_lt _ _) Hb), Hsp.
  - destruct (Hcont b1 H1) as (Ha & _). cbn [rev app trim_right_space_rev]. rewrite Ha.
    unfold space2. by rewrite H0, H1, Hsp.
  - destruct (Hcont b2 H2) as (Ha & _).
    assert (is_cont b1 = true) as Hb1
      by (apply second_ok_bounds in H1; unfold is_cont; apply andb_true_iff; lia).
    destruct (Hcont b1 Hb1) as (_ & Hl2). cbn [rev app trim_right_space_rev]. rewrite Ha.
    unfold space2, space3. by rewrite Hl2, H0, H1, H2, Hsp.
  - exfalso. revert Hl. cbn [app trim_left_space].
    assert (ascii_space b0 = false) as ->
      by (unfold ascii_space, lead4 in *; guards; by rewrite (proj2 (Z.ltb_ge _ _)) by lia).
    assert (lead2 b0 = false /\ lead3 b0 = false) as [H2' H3'] by (unfold lead2, lead3, lead4 in *; guards; lia).
    unfold space2, space3. by rewrite H2', H3'.
Qed.

(** [TrimSpace] on characters. *)
Fixpoint drop_space (rs : list Z) : list Z :=
  match rs with [] => [] | r :: rs' => if is_space r then drop_space rs' else rs end.
Definition trim_runes (rs : list Z) : list Z := rev (drop_space (rev (drop_space rs))).

Lemma trim_left_runes rs : Forall scalar rs -> trim_left_space (encode_runes rs) = encode_runes (drop_space rs).
Proof.
  induction 1 as [|r rs Hr Hrs IH]; [done|].
  change (encode_runes (r :: rs)) with (encode_rune r ++ encode_runes rs). simpl.
  apply encode_encoded in Hr. destruct (is_space r) eqn:E.
  - by rewrite (trim_left_encoded_space r).
  - by rewrite (trim_left_encoded_stop r).
Qed.

Lemma drop_space_forall (P : Z -> Prop) rs : Forall P rs -> Forall P (drop_space rs).
Proof. induction 1; simpl; [done|]. case_match; [done|]. by constructor. Qed.

Lemma trim_right_runes rs : Forall scalar rs ->
  trim_right_space_rev (rev (encode_runes rs)) = rev (encode_runes (rev (drop_space (rev rs)))).
Proof.
  induction rs as [|r rs IH] using rev_ind; [done|]. intros [Hrs Hr]%Forall_app.
  apply Forall_cons in Hr as [Hr _]. apply encode_encoded in Hr.
  rewrite encode_runes_app. cbn [encode_runes flat_map]. rewrite app_nil_r, !rev_app_distr.
  simpl. destruct (is_space r) eqn:E.
  - rewrite (trim_right_encoded_space r) by done. by apply IH.
  - rewrite (trim_right_encoded_stop r) by done.
    cbn [rev]. rewrite rev_involutive, encode_runes_app. cbn [encode_runes flat_map].
    by rewrite app_nil_r, rev_app_distr.
Qed.

Lemma trim_space_runes rs : Forall scalar rs -> trim_space (encode_runes rs) = encode_runes (trim_runes rs).
Proof.
  intros H. unfold trim_space. rewrite trim_left_runes, trim_right_runes.
  - by rewrite rev_involutive.
  - by apply drop_space_forall.
  - done.
Qed.

Lemma drop_space_head rs : match drop_space rs with [] => True | r :: _ => is_space r = false end.
Proof. induction rs as [|r rs IH]; simpl; [done|]. by destruct (is_space r) eqn:E. Qed.

Lemma drop_space_suffix rs : exists p, rs = p ++ drop_space rs.
Proof.
  induction rs as [|r rs [p IH]]; simpl; [by exists []|].
  case_match; [|by exists []]. exists (r :: p). simpl. by rewrite <- IH.
Qed.

(** Trimming is idempotent and keeps a contiguous part. *)
Lemma trim_runes_idem rs : trim_runes (trim_runes rs) = trim_runes rs.
Proof.
  unfold trim_runes. set (a := drop_space rs).
  pose proof (drop_space_head rs) as Hh. fold a in Hh.
  destruct (drop_space_suffix (rev a)) as [p Hp]. set (b := drop_space (rev a)) in *.
  pose proof (drop_space_head (rev a)) as Hb. fold b in Hb.
  assert (drop_space (rev b) = rev b) as ->.
  { destruct (rev b) as [|x l] eqn:E; [done|].
    assert (a = x :: l ++ rev p) as Ha.
    { apply (f_equal (@rev _)) in Hp. rewrite rev_involutive, rev_app_distr, E in Hp. done. }
    rewrite Ha in Hh. simpl. by rewrite Hh. }
  rewrite rev_involutive. destruct b as [|x l]; [done|]. simpl. by rewrite Hb.
Qed.

Lemma trim_runes_forall (P : Z -> Prop) rs : Forall P rs -> Forall P (trim_runes rs).
Proof.
  intros H. unfold trim_runes. apply Forall_rev, drop_space_forall, Forall_rev, drop_space_forall, H.
Qed.

Lemma drop_space_length rs : (length (drop_space rs) <= length rs)%nat.
Proof. induction rs; simpl; [done|]. case_match; simpl; lia. Qed.

Lemma trim_runes_length rs : (length (trim_runes rs) <= length rs)%nat.
Proof.
  unfold trim_runes. rewrite length_rev.
  pose proof (drop_space_length (rev (drop_space rs))). pose proof (drop_space_length rs).
  rewrite length_rev in *. lia.
Qed.
