(* ===== verification/InstanceName.v ===== *)
(** * Instance names (internal/instance/name.go)

    A name is shown in terminals, used as a selector and stored in records:
    it is printable, at most 64 characters long and without path separators.
    A share without a requested name takes one derived from its directory. *)

From S2P Require Import Prelude GoString GoUnicode GoUtf8 GoConv GoErrors GoPath Target Helper.
Open Scope Z_scope.

Definition RecordVersion : Z := 1.

(** [model.go] has the same pattern as the helper. *)
Definition idPattern : bytes -> bool := instanceIDPattern.

(** ** Records (internal/instance/model.go) *)

Record Record_ := {
  Version : Z; ID : bytes; Name : bytes; PID : Z; ControlSocket : bytes;
  StartedAt : Z;             (* nanoseconds; 0 is Go's zero time *)
  RecDirectory : bytes; RecTarget : Target
}.

Section Names.
Context `{UnicodeTables}.

(** [%q] of a character that is not printable or is a separator. *)
Definition quote_char (r : Z) : bytes := !"'" ++ quote_rune u_print r ++ !"'".

Definition unsafe_char (r : Z) : bool := (r =? 47) || (r =? 92) || negb (u_print r).

Definition ValidateName (value : bytes) : option error :=
  if (value ==b []) || negb (trim_space value ==b value)
  then Some (EText !"name must not be empty or have outer whitespace")
  else if negb (valid_utf8 value) then Some (EText !"name must be valid UTF-8")
  else if 64 <? rune_count value then Some (EText !"name must be 64 characters or fewer")
  else match find (fun '(r, _) => unsafe_char r) (runes value) with
       | Some (r, _) => Some (EText (!"name contains unsafe character " ++ quote_char r))
       | None => None
       end.

(** [Record.Validate]. *)
Definition Record_Validate (r : Record_) : option error :=
  if negb (Version r =? RecordVersion)
  then Some (EText (!"unsupported instance record version " ++ itoa (Version r)))
  else if negb (idPattern (ID r)) then Some (EText (!"invalid instance ID " ++ quote (ID r)))
  else match ValidateName (Name r) with
  | Some err => Some (wrapf !"invalid instance name: " err)
  | None =>
      if PID r <=? 0 then Some (EText !"instance PID must be positive")
      else if negb (is_abs (ControlSocket r))
      then Some (EText !"instance control socket must be absolute")
      else if StartedAt r =? 0 then Some (EText !"instance start time is required")
      else if negb (is_abs (RecDirectory r))
      then Some (EText !"instance directory must be absolute")
      else let t := RecTarget r in
           if negb (is_abs (SocketPath t)) || (Generation t ==b []) ||
              (SessionID t ==b []) || (WindowID t ==b [])
           then Some (EText !"complete tmux target identity is required") else None
  end.

(** The loop of [derivedName]: unsafe characters become underscores, and it
    stops once 48 characters are written. *)
Fixpoint derive_loop (out : bytes) (rs : list (Z * nat)) : bytes :=
  match rs with
  | [] => out
  | (r, _) :: rs' =>
      let out := out ++ encode_rune (if unsafe_char r then 95 else r) in
      if rune_count out =? 48 then out else derive_loop out rs'
  end.

Definition derivedName (t : Target) : bytes :=
  let value := path_base (path_clean (Directory t)) in
  let value := if (value ==b !".") || (value ==b !"/") || (value ==b []) then WindowName t else value in
  let value := trim_space (derive_loop [] (runes value)) in
  if value ==b [] then !"wrap" else value.

Definition used_names (records : list Record_) : list bytes := !"all" :: map Name records.

Definition candidate_name (base : bytes) (suffix : nat) : bytes :=
  base ++ !"-" ++ itoa (Z.of_nat suffix).

(** The search for a free suffix.  One of the first [|used| + 1] suffixes is
    free, so that many steps suffice; the fuel never runs out. *)
Fixpoint choose_suffix (fuel suffix : nat) (base : bytes) (used : list bytes) : option bytes :=
  match fuel with
  | O => None
  | S fuel' =>
      let candidate := candidate_name base suffix in
      if candidate ∈b used then choose_suffix fuel' (S suffix) base used else Some candidate
  end.

Definition ChooseName (requested : bytes) (t : Target) (records : list Record_)
    : option (result bytes) :=
  let used := used_names records in
  if negb (requested ==b []) then
    Some (match ValidateName requested with
          | Some err => Err err
          | None =>
              if requested ==b !"all"
              then Err (EText (!"name " ++ [x22] ++ !"all" ++ [x22] ++ !" is reserved for wrap kill all"))
              else if requested ∈b used
              then Err (EText (!"wrap name " ++ quote requested ++ !" is already in use"))
              else Ok requested
          end)
  else
    let base := derivedName t in
    if negb (base ∈b used) then Some (Ok base)
    else Ok <$> choose_suffix (S (length used)) 2 base used.
End Names.

(** ** What a valid name is *)

Section NameProofs.
Context `{UnicodeTables}.

(** A name the checks accept, as a sequence of characters. *)
Definition good_runes (rs : list Z) : Prop :=
  Forall scalar rs /\ Forall (fun r => unsafe_char r = false) rs /\ trim_runes rs = rs.

Lemma encode_runes_inj_nil rs : Forall scalar rs -> encode_runes rs = [] -> rs = [].
Proof.
  destruct 1 as [|r rs Hr Hrs]; [done|]. intros E.
  change (encode_rune r ++ encode_runes rs = []) in E. apply app_eq_nil in E as [E _].
  apply encode_encoded in Hr. rewrite E in Hr. inversion Hr.
Qed.

Lemma find_none_forallb {A} (p : A -> bool) l : forallb (fun x => negb (p x)) l = true -> find p l = None.
Proof. induction l as [|x l IH]; simpl; [done|]. intros H1. guards. by rewrite H0, IH. Qed.

Lemma validate_good rs :
  good_runes rs -> rs <> [] -> len rs <= 64 -> ValidateName (encode_runes rs) = None.
Proof.
  intros (Hs & Hu & Ht) Hne Hlen. unfold ValidateName.
  rewrite trim_space_runes, Ht by done.
  rewrite bool_decide_false by (by intros E%encode_runes_inj_nil).
  rewrite bool_decide_true by done. cbn [orb negb].
  rewrite valid_encode_runes, rune_count_encode_runes by done. cbn [negb].
  rewrite (proj2 (Z.ltb_ge _ _)) by lia.
  rewrite find_none_forallb; [done|]. rewrite runes_encode_runes by done.
  apply forallb_forall. intros [r w] (r' & [= -> <-] & Hin)%in_map_iff.
  rewrite Forall_forall in Hu. apply negb_true_iff, Hu, list_elem_of_In, Hin.
Qed.

Definition safe_rune (r : Z) : Z := if unsafe_char r then 95 else r.

Lemma unsafe_underscore : unsafe_char 95 = false.
Proof. unfold unsafe_char. by rewrite u_print_ascii by lia. Qed.

Lemma safe_rune_ok r : scalar r -> scalar (safe_rune r) /\ unsafe_char (safe_rune r) = false.
Proof.
  unfold safe_rune. destruct (unsafe_char r) eqn:E; [|done]. intros _.
  split; [unfold scalar; lia|apply unsafe_underscore].
Qed.

Lemma derive_loop_runes rs : forall done_,
  Forall (fun rw => scalar (fst rw)) rs -> Forall scalar done_ -> len done_ < 48 ->
  Forall (fun r => unsafe_char r = false) done_ ->
  exists out, derive_loop (encode_runes done_) rs = encode_runes out /\ Forall scalar out /\
    Forall (fun r => unsafe_char r = false) out /\ len out <= 48.
Proof.
  induction rs as [|[r w] rs IH]; intros out Hrs Hout Hlen Hu; simpl.
  - exists out. split_and!; [done..|lia].
  - apply Forall_cons in Hrs as [Hr Hrs]. simpl in Hr. destruct (safe_rune_ok r Hr) as [Hsc Hsu].
    fold (safe_rune r).
    assert (encode_runes out ++ encode_rune (safe_rune r) = encode_runes (out ++ [safe_rune r])) as ->
      by (rewrite encode_runes_app; simpl; by rewrite app_nil_r).
    assert (Forall scalar (out ++ [safe_rune r])) by (apply Forall_app; auto).
    assert (Forall (fun r => unsafe_char r = false) (out ++ [safe_rune r])) by (apply Forall_app; auto).
    rewrite rune_count_encode_runes by done. rewrite len_app, len_cons, len_nil.
    destruct (Z.eqb_spec (len out + (1 + 0)) 48).
    + eexists. split_and!; [done..|]. rewrite len_app, len_cons, len_nil. lia.
    + apply IH; [done..| |done]. rewrite len_app, len_cons, len_nil. lia.
Qed.

Definition wrap_runes : list Z := [119; 114; 97; 112].

Lemma printable_ascii r : 32 < r <= 126 -> r <> 47 -> r <> 92 -> unsafe_char r = false.
Proof.
  intros Hr H1 H2. unfold unsafe_char. rewrite u_print_ascii by lia.
  rewrite (proj2 (Z.eqb_neq _ _) H1), (proj2 (Z.eqb_neq _ _) H2).
  rewrite (proj2 (Z.leb_le 32 r)), (proj2 (Z.leb_le r 126)) by lia. done.
Qed.

Lemma good_wrap : good_runes wrap_runes.
Proof.
  split_and!; [|repeat constructor; apply printable_ascii; lia|reflexivity].
  repeat constructor; unfold scalar; lia.
Qed.

(** The derived name is a good sequence of at most 48 characters. *)
Lemma derivedName_runes t : exists rs,
  derivedName t = encode_runes rs /\ good_runes rs /\ rs <> [] /\ len rs <= 48.
Proof.
  unfold derivedName.
  generalize (if (path_base (path_clean (Directory t)) ==b !".") ||
    (path_base (path_clean (Directory t)) ==b !"/") || (path_base (path_clean (Directory t)) ==b [])
    then WindowName t else path_base (path_clean (Directory t))). intros value.
  destruct (derive_loop_runes (runes value) []) as (out & E & Hs & Hu & Hlen).
  - apply runes_scalar.
  - done.
  - done.
  - done.
  - change (encode_runes []) with (@nil byte) in E. rewrite E, trim_space_runes by done.
    case_bool_decide as Hnil.
    + exists wrap_runes. split_and!; [reflexivity|apply good_wrap|done|done].
    + exists (trim_runes out). split_and!; [done| | |].
      * split_and!; [by apply trim_runes_forall|by apply trim_runes_forall|apply trim_runes_idem].
      * intros Ht. by rewrite Ht in Hnil.
      * pose proof (trim_runes_length out). unfold len in *. lia.
Qed.

Lemma trim_runes_solid r m x :
  is_space r = false -> is_space x = false -> trim_runes (r :: m ++ [x]) = r :: m ++ [x].
Proof.
  intros Hr Hx. unfold trim_runes. cbn [drop_space]. rewrite Hr.
  rewrite app_comm_cons, rev_app_distr. cbn [rev app drop_space]. rewrite Hx.
  cbn [rev]. by rewrite rev_app_distr, rev_involutive.
Qed.

(** Appending a dash and digits keeps a name good. *)
Lemma good_suffix rs tail :
  good_runes rs -> rs <> [] -> Forall (fun r => 33 <= r <= 126 /\ r <> 47 /\ r <> 92) tail ->
  good_runes (rs ++ tail).
Proof.
  intros (Hs & Hu & Ht) Hne Htail. split_and!.
  - apply Forall_app. split; [done|]. eapply Forall_impl; [exact Htail|].
    unfold scalar. simpl. intros; lia.
  - apply Forall_app. split; [done|]. eapply Forall_impl; [exact Htail|]. simpl. intros r Hr.
    apply printable_ascii; lia.
  - assert (Hns : forall r, 33 <= r <= 126 -> is_space r = false) by (unfold is_space; lia).
    destruct rs as [|r rs]; [done|].
    assert (Hr : is_space r = false).
    { destruct (is_space r) eqn:E; [|done]. exfalso. unfold trim_runes in Ht. simpl in Ht. rewrite E in Ht.
      pose proof (drop_space_length rs).
      pose proof (drop_space_length (rev (drop_space rs))).
      apply (f_equal length) in Ht. rewrite !length_rev in *. simpl in Ht. lia. }
    destruct tail as [|x tail _] using rev_ind; [rewrite app_nil_r; exact Ht|].
    apply Forall_app in Htail as [_ Hx]. apply Forall_cons in Hx as [Hx _].
    change ((r :: rs) ++ tail ++ [x]) with (r :: rs ++ tail ++ [x]). rewrite app_assoc.
    apply trim_runes_solid; [done|apply Hns; lia].
Qed.
End NameProofs.

Lemma length_dec_acc fuel : forall n acc p,
  0 <= n < 10 ^ p -> 1 <= p -> len (dec_acc fuel n acc) <= len acc + p.
Proof.
  induction fuel as [|fuel IH]; intros n acc p Hn Hp; cbn [dec_acc]; [lia|].
  destruct (Z.eqb_spec (n / 10) 0); [rewrite len_cons; lia|].
  assert (2 <= p).
  { destruct (Z.eq_dec p 1) as [->|]; [|lia]. exfalso. rewrite Z.div_small in *; lia. }
  specialize (IH (n / 10) (digit_byte (n mod 10) :: acc) (p - 1)).
  rewrite len_cons in IH. assert (10 ^ p = 10 * 10 ^ (p - 1)) as Hpow.
  { rewrite <- Z.pow_succ_r by lia. f_equal. lia. }
  assert (0 <= n / 10 < 10 ^ (p - 1)).
  { split; [apply Z.div_pos; lia|]. apply Z.div_lt_upper_bound; lia. }
  specialize (IH ltac:(lia) ltac:(lia)). lia.
Qed.

Lemma len_format_uint n p : 0 <= n < 10 ^ p -> 1 <= p -> len (format_uint n) <= p.
Proof. intros Hn Hp. unfold format_uint. pose proof (length_dec_acc (S (Z.to_nat (Z.log2 n))) n [] p Hn Hp). rewrite len_nil in *. lia. Qed.

Lemma encode_runes_ascii s : ascii s -> encode_runes (map bz s) = s.
Proof.
  induction 1 as [|b s Hb Hs IH]; [done|]. cbn [map].
  change (encode_rune (bz b) ++ encode_runes (map bz s) = [b] ++ s). rewrite IH. f_equal.
  pose proof (bz_range b). unfold encode_rune.
  rewrite (proj2 (Z.leb_le 0 _)), (proj2 (Z.ltb_lt _ _)) by lia. cbn [andb]. by rewrite zb_bz.
Qed.

Section Choose.
Context `{UnicodeTables}.

Lemma candidate_runes rs k :
  Z.of_nat k < 10 ^ 9 -> exists tail, candidate_name (encode_runes rs) k = encode_runes (rs ++ tail) /\
    Forall (fun r => 33 <= r <= 126 /\ r <> 47 /\ r <> 92) tail /\ len tail <= 10.
Proof.
  intros Hk. set (n := Z.of_nat k).
  assert (itoa n = format_uint n) as Hi by (unfold itoa; by rewrite (proj2 (Z.ltb_ge n 0)) by lia).
  destruct (format_uint_cons n) as (h & t & Hf & Hall).
  assert (Ha : ascii (!"-" ++ itoa n)).
  { apply Forall_app. split; [by repeat constructor|]. rewrite Hi, Hf.
    eapply Forall_impl; [exact Hall|]. unfold is_digit. intros b Hb. guards. lia. }
  exists (map bz (!"-" ++ itoa n)). split_and!.
  - rewrite encode_runes_app, (encode_runes_ascii _ Ha). unfold candidate_name. done.
  - rewrite map_app, Hi, Hf. apply Forall_app. split; [repeat constructor; vm_compute; congruence|].
    rewrite Forall_map. eapply Forall_impl; [exact Hall|]. simpl. unfold is_digit. intros b Hb.
    guards. lia.
  - unfold len. rewrite length_map. fold (len (!"-" ++ itoa n)). rewrite len_app, Hi.
    pose proof (len_format_uint n 9 ltac:(lia) ltac:(lia)). change (len !"-") with 1. lia.
Qed.

Lemma choose_suffix_Some fuel : forall suffix base used name,
  choose_suffix fuel suffix base used = Some name ->
  exists k, (suffix <= k < suffix + fuel)%nat /\ name = candidate_name base k /\ (name ∉ used).
Proof.
  induction fuel as [|fuel IH]; intros suffix base used name Hc; [done|]. simpl in Hc.
  case_bool_decide as Hin.
  - apply IH in Hc as (k & Hk & -> & Hn). exists k. split_and!; [lia|lia|done|done].
  - simplify_eq. exists suffix. split_and!; [lia|lia|done|done].
Qed.

Lemma choose_suffix_None fuel : forall suffix base used,
  choose_suffix fuel suffix base used = None ->
  forall i, (i < fuel)%nat -> candidate_name base (suffix + i) ∈ used.
Proof.
  induction fuel as [|fuel IH]; intros suffix base used Hc i Hi; [lia|]. simpl in Hc.
  case_bool_decide as Hin; [|done]. destruct i as [|i]; [by rewrite Nat.add_0_r|].
  replace (suffix + S i)%nat with (S suffix + i)%nat by lia. apply IH; [done|lia].
Qed.

(** Among more candidates than used names one is free. *)
Lemma choose_suffix_total base used :
  len used < 10 ^ 9 -> is_Some (choose_suffix (S (length used)) 2 base used).
Proof.
  intros Hlen. unfold len in Hlen. destruct (choose_suffix _ _ _ _) eqn:E; [done|]. exfalso.
  pose proof (choose_suffix_None _ _ _ _ E) as Hall.
  assert (NoDup (map (fun i => candidate_name base (2 + i)) (seq 0 (S (length used))))) as Hnd.
  { apply NoDup_fmap_2_strong; [|apply NoDup_seq].
    intros i j Hi Hj Heq. apply elem_of_seq in Hi, Hj. unfold candidate_name in Heq.
    apply app_inv_head in Heq. apply (app_inv_head !"-") in Heq. apply itoa_inj in Heq; lia. }
  apply NoDup_ListNoDup in Hnd. eapply NoDup_incl_length in Hnd as Hle.
  - rewrite length_map, length_seq in Hle. exact (Nat.nle_succ_diag_l _ Hle).
  - intros x (i & <- & Hi)%in_map_iff. apply in_seq in Hi.
    apply list_elem_of_In, Hall. lia.
Qed.
Lemma unused_free records name : name ∉ used_names records ->
  name <> !"all" /\ Forall (fun r => Name r <> name) records.
Proof.
  unfold used_names. intros Hn. split; [set_solver|]. apply Forall_forall. intros r Hr <-.
  apply Hn. right. by apply list_elem_of_fmap_2.
Qed.

(** Without a request a name is found, and it is valid and free. *)
Lemma derived_name_chosen (t : Target) (records : list Record_) : len records < 10 ^ 9 - 5 ->
  exists name, ChooseName [] t records = Some (Ok name) /\ ValidateName name = None /\
    name <> !"all" /\ Forall (fun r => Name r <> name) records.
Proof.
  intros Hrecords. destruct (derivedName_runes t) as (rs & Hd & Hg & Hne & Hlen).
  pose proof (unused_free records) as Hfree.
  unfold ChooseName. rewrite bool_decide_true by done. cbn [negb].
  assert (Hul : len (used_names records) = 1 + len records)
    by (unfold used_names, len; simpl; rewrite length_map; lia).
  case_bool_decide as Hin; cbn [negb].
  - destruct (choose_suffix_total (derivedName t) (used_names records)) as [name Hc]; [lia|].
    rewrite Hc. exists name. split; [done|].
    apply choose_suffix_Some in Hc as (k & Hk & Hname & Hn). split; [|by apply Hfree]. unfold len in Hul, Hrecords.
    rewrite Hname, Hd. destruct (candidate_runes rs k) as (tail & -> & Htail & Htl); [lia|].
    apply validate_good; [by apply good_suffix|by destruct rs|rewrite len_app; lia].
  - exists (derivedName t). split; [done|]. split; [|by apply Hfree].
    rewrite Hd. apply validate_good; [done|done|lia].
Qed.

(** A name that is chosen is valid and free, and a requested one is the request. *)
Lemma chosen_name_ok requested t records name : len records < 10 ^ 9 - 5 ->
  ChooseName requested t records = Some (Ok name) ->
  ValidateName name = None /\ name <> !"all" /\ Forall (fun r => Name r <> name) records /\
  (requested <> [] -> name = requested).
Proof.
  intros Hlen Hc. destruct (decide (requested = [])) as [->|Hr].
  { destruct (derived_name_chosen t records Hlen) as (name' & Hc' & Hv & Hn & Hf).
    rewrite Hc' in Hc. injection Hc as <-. by split_and!. }
  unfold ChooseName in Hc. rewrite (bool_decide_false _ Hr) in Hc. cbn [negb] in Hc.
  destruct (ValidateName requested) eqn:Hv; [done|]. destruct (requested ==b !"all"); [done|].
  case_bool_decide as Hu; [done|]. injection Hc as <-. destruct (unused_free records requested Hu). by split_and!.
Qed.

(** A request is granted or refused. *)
Lemma requested_name_chosen (requested : bytes) (t : Target) (records : list Record_) : requested <> [] ->
  if (ValidateName requested ==b None) && negb (requested ==b !"all") &&
     forallb (fun r => negb (Name r ==b requested)) records
  then ChooseName requested t records = Some (Ok requested)
  else exists err, ChooseName requested t records = Some (Err err).
Proof.
  intros Hr. unfold ChooseName. rewrite (bool_decide_false _ Hr). cbn [negb].
  destruct (ValidateName requested) as [err|]; [by eexists|]. rewrite (bool_decide_true (None = None)) by done. cbn [andb].
  destruct (decide (requested = !"all")) as [->|Hall]; [rewrite bool_decide_true by done; by eexists|].
  rewrite (bool_decide_false _ Hall). cbn [negb andb].
  destruct (forallb _ records) eqn:Hf; case_bool_decide as Hu; try done; [exfalso|by eexists|exfalso].
  - unfold used_names in Hu. apply elem_of_cons in Hu as [?|Hu]; [done|].
    apply list_elem_of_fmap in Hu as (r & -> & Hin). rewrite forallb_forall in Hf.
    specialize (Hf r (proj1 (list_elem_of_In _ _) Hin)). by rewrite bool_decide_true in Hf by done.
  - apply not_true_iff_false in Hf. apply Hf, forallb_forall. intros r Hin%list_elem_of_In.
    rewrite bool_decide_false; [done|]. intros <-. apply Hu. unfold used_names. right.
    apply list_elem_of_fmap. by exists r.
Qed.
End Choose.

(** C9: an automatic name is found, valid and free.  With no requested name
    and fewer than 10^9 - 5 records, [ChooseName] terminates with a name that
    [ValidateName] accepts, that no record has and that is not the reserved
    [all], for every target directory and window name (any bytes).  A requested
    name is returned exactly when it is valid, not reserved and not the name of
    a record, and refused otherwise. *)
Theorem chosen_name_valid_free `{UnicodeTables} (t : Target) (records : list Record_)
    (Hrecords : len records < 10 ^ 9 - 5) :
  (exists name, ChooseName [] t records = Some (Ok name) /\ ValidateName name = None /\
    name <> !"all" /\ Forall (fun r => Name r <> name) records) /\
  (forall requested, requested <> [] ->
     if (ValidateName requested ==b None) && negb (requested ==b !"all") &&
        forallb (fun r => negb (Name r ==b requested)) records
     then ChooseName requested t records = Some (Ok requested)
     else exists err, ChooseName requested t records = Some (Err err)).
Proof. split; [by apply derived_name_chosen|]. intros requested. apply requested_name_chosen. Qed.

Lemma chosen_name_valid_free_witness :
  let t := {| SocketPath := !"/s"; Generation := !"g"; SessionID := !"$0"; WindowID := !"@1";
              SessionName := !"s"; WindowName := !"w"; Directory := !"/srv/all" |} in
  ChooseName [] t [] = Some (Ok !"all-2") /\ ValidateName !"all-2" = None /\ !"all-2" <> !"all".
Proof.
  intros t. destruct (proj1 (chosen_name_valid_free t [] ltac:(reflexivity))) as (name & Hc & Hv & Hne & _).
  assert (Hn : ChooseName [] t [] = Some (Ok !"all-2")) by (vm_compute; reflexivity).
  rewrite Hn in Hc. injection Hc as <-. split; [exact Hn|]. split; [exact Hv|exact Hne].
Defined.

(** A derived name may equal the identifier of a running instance: the search
    looks at names only, and the store then refuses the record. *)
Example derived_name_may_be_an_id :
  let t := {| SocketPath := !"/s"; Generation := !"g"; SessionID := !"$0"; WindowID := !"@1";
              SessionName := !"s"; WindowName := !"w"; Directory := !"/srv/abc123" |} in
  let other := {| Version := 1; ID := !"abc123"; Name := !"demo"; PID := 7;
                  ControlSocket := !"/run/abc123.sock"; StartedAt := 1; RecDirectory := !"/";
                  RecTarget := t |} in
  ChooseName [] t [other] = Some (Ok (ID other)).
Proof. vm_compute. reflexivity. Qed.
