(* ===== verification/GoOS.v ===== *)
(** * Files: the calls of packages [os] and [syscall] the program makes

    The file system is a map from clean absolute paths to inodes; advisory
    locks are held per inode.  Any call may fail: an oracle decides, call by
    call, and a failing call changes nothing, except that a failing write may
    have written any part of its data.  Failing every call from some point on
    is a crash at that point, so what holds for every oracle holds across
    crashes.  A symbolic link is followed for one hop. *)

From stdpp Require Import sorting.
From S2P Require Import Prelude GoString GoConv GoErrors GoPath.
Open Scope Z_scope.

Inductive kind := KRegular | KDirectory | KSymlink (target : bytes) | KSocket | KDevice.

Record node := { n_kind : kind; n_ino : Z; n_perm : Z; n_mtime : Z; n_data : bytes }.

Record world := {
  files : gmap bytes node;
  next_ino : Z;
  now : Z;                (* a clock that advances with every change *)
  locked : gset Z;        (* inodes some open file holds a lock on *)
  calls : nat             (* calls made so far, the oracle's argument *)
}.

(** The oracle: which calls fail and how, how much of a failing write is
    written, and the random numbers in temporary names. *)
Record oracle := {
  fault : nat -> bytes -> bytes -> option errno;   (* call number, operation, path *)
  torn : nat -> nat;
  rand32 : nat -> Z
}.

(** "Does not exist" and "would block" are answers the file system gives, not
    faults. *)
Definition honest (o : oracle) : Prop :=
  forall i op p, fault o i op p <> Some ENOENT /\ fault o i op p <> Some EWOULDBLOCK.

(** ** Programs over files *)

Definition os (A : Type) : Type := world -> result A * world.

Definition os_ret {A} (a : A) : os A := fun w => (Ok a, w).
Definition os_fail {A} (e : error) : os A := fun w => (Err e, w).
Definition os_bind {A B} (m : os A) (f : A -> os B) : os B :=
  fun w => match m w with (Ok a, w) => f a w | (Err e, w) => (Err e, w) end.
(** The outcome of a call as a value, for code that inspects its error. *)
Definition os_try {A} (m : os A) : os (result A) := fun w => let '(r, w) := m w in (Ok r, w).

Notation "'let*' x := m 'in' k" := (os_bind m (fun x => k))
  (at level 10, x pattern, m at level 100, k at level 200) : go_scope.
Notation "m ';*' k" := (os_bind m (fun _ => k)) (at level 100, k at level 200, right associativity) : go_scope.
(** [_ = call()]: the result is ignored. *)
Notation "'ignore' m ';*' k" := (os_bind (os_try m) (fun _ => k))
  (at level 10, m at level 99, k at level 200) : go_scope.

(** Wrapping the error of a call. *)
Definition os_wrap {A} (before : bytes) (m : os A) : os A :=
  fun w => match m w with (Err e, w) => (Err (wrapf before e), w) | r => r end.

Definition set_files (w : world) (f : gmap bytes node) : world :=
  {| files := f; next_ino := next_ino w; now := now w + 1; locked := locked w; calls := calls w |}.
Definition set_locked (w : world) (l : gset Z) : world :=
  {| files := files w; next_ino := next_ino w; now := now w; locked := l; calls := calls w |}.
Definition count_call (w : world) : world :=
  {| files := files w; next_ino := next_ino w; now := now w; locked := locked w; calls := S (calls w) |}.

(** What [os.Lstat], [os.Stat] and [File.Stat] tell the program. *)
Record Info := { i_kind : kind; i_ino : Z; i_perm : Z; i_mtime : Z; i_size : Z }.
Definition info_of (n : node) : Info :=
  {| i_kind := n_kind n; i_ino := n_ino n; i_perm := n_perm n; i_mtime := n_mtime n; i_size := len (n_data n) |}.

Definition is_regular (i : Info) : bool := match i_kind i with KRegular => true | _ => false end.
Definition is_dir (i : Info) : bool := match i_kind i with KDirectory => true | _ => false end.
Definition is_symlink (i : Info) : bool := match i_kind i with KSymlink _ => true | _ => false end.
Definition is_socket (i : Info) : bool := match i_kind i with KSocket => true | _ => false end.

(** An open file. *)
Record file := { f_path : bytes; f_info : Info }.

Section Calls.
Variable o : oracle.

(** One system call: it may fail, else it does [act]. *)
Definition call {A} (op path : bytes) (act : os A) : os A :=
  fun w =>
    let w' := count_call w in
    match fault o (calls w) op path with
    | Some e => (Err (ESys op path e), w')
    | None => act w'
    end.

Definition Lstat (path : bytes) : os Info :=
  call !"lstat" path (fun w =>
    match files w !! path with
    | Some n => (Ok (info_of n), w)
    | None => (Err (ESys !"lstat" path ENOENT), w)
    end).

(** The node a path leads to, following one link. *)
Definition follow (w : world) (path : bytes) : option (bytes * node) :=
  match files w !! path with
  | Some n =>
      match n_kind n with
      | KSymlink target =>
          match files w !! target with
          | Some m => match n_kind m with KSymlink _ => None | _ => Some (target, m) end
          | None => None
          end
      | _ => Some (path, n)
      end
  | None => None
  end.

Definition Stat (path : bytes) : os Info :=
  call !"stat" path (fun w =>
    match follow w path with
    | Some (_, n) => (Ok (info_of n), w)
    | None => (Err (ESys !"stat" path ENOENT), w)
    end).

Definition new_node (w : world) (k : kind) (perm : Z) : node :=
  {| n_kind := k; n_ino := next_ino w; n_perm := perm; n_mtime := now w; n_data := [] |}.
Definition add_node (w : world) (path : bytes) (k : kind) (perm : Z) : world :=
  {| files := <[path := new_node w k perm]> (files w); next_ino := next_ino w + 1;
     now := now w + 1; locked := locked w; calls := calls w |}.

(** [os.MkdirAll]: the missing directories on the way, outermost first. *)
Fixpoint mkdir_all (fuel : nat) (path : bytes) (perm : Z) (w : world) : result () * world :=
  match fuel with
  | O => (Ok (), w)
  | S fuel' =>
      match follow w path with
      | Some (_, n) => match n_kind n with
                       | KDirectory => (Ok (), w)
                       | _ => (Err (ESys !"mkdir" path ENOTDIR), w)
                       end
      | None =>
          match files w !! path with
          | Some _ => (Err (ESys !"mkdir" path EEXIST), w)   (* a dangling link *)
          | None =>
              match (if path_dir path ==b path then (Ok (), w)
                     else mkdir_all fuel' (path_dir path) perm w) with
              | (Ok _, w) =>
                  match files w !! path with
                  | None => (Ok (), add_node w path KDirectory perm)
                  | Some n => match n_kind n with
                              | KDirectory => (Ok (), w)
                              | _ => (Err (ESys !"mkdir" path EEXIST), w)
                              end
                  end
              | r => r
              end
          end
      end
  end.
Definition MkdirAll (path : bytes) (perm : Z) : os () :=
  call !"mkdir" path (mkdir_all (S (length path)) path perm).

Definition Chmod (path : bytes) (perm : Z) : os () :=
  call !"chmod" path (fun w =>
    match follow w path with
    | Some (p, n) =>
        (Ok (), set_files w (<[p := {| n_kind := n_kind n; n_ino := n_ino n; n_perm := perm;
                                       n_mtime := n_mtime n; n_data := n_data n |}]> (files w)))
    | None => (Err (ESys !"chmod" path ENOENT), w)
    end).

(** [os.OpenFile] without a truncating flag; with [create] a missing file is
    made, with [nofollow] a link is refused. *)
Definition OpenFile (path : bytes) (create nofollow : bool) (perm : Z) : os file :=
  call !"open" path (fun w =>
    match files w !! path with
    | None => if create then
                let w' := add_node w path KRegular perm in
                (Ok {| f_path := path; f_info := info_of (new_node w KRegular perm) |}, w')
              else (Err (ESys !"open" path ENOENT), w)
    | Some n =>
        match n_kind n with
        | KSymlink _ =>
            if nofollow then (Err (ESys !"open" path ELOOP), w)
            else match follow w path with
                 | Some (p, m) => (Ok {| f_path := p; f_info := info_of m |}, w)
                 | None => (Err (ESys !"open" path ENOENT), w)
                 end
        | _ => (Ok {| f_path := path; f_info := info_of n |}, w)
        end
    end).

(** [File.Stat], [File.Sync] and [File.Close] of an open file. *)
Definition FStat (f : file) : os Info := call !"fstat" (f_path f) (os_ret (f_info f)).
Definition FSync (f : file) : os () := call !"sync" (f_path f) (os_ret ()).
Definition FClose (f : file) : os () := call !"close" (f_path f) (os_ret ()).

(** [Flock(LOCK_EX | LOCK_NB)]: at once or not at all. *)
Definition FlockNB (f : file) : os () :=
  call !"flock" (f_path f) (fun w =>
    if i_ino (f_info f) ∈b locked w then (Err (ESys !"flock" (f_path f) EWOULDBLOCK), w)
    else (Ok (), set_locked w ({[ i_ino (f_info f) ]} ∪ locked w))).
(** [Flock(LOCK_EX)] waits; the model starts when the lock is free. *)
Definition Flock (f : file) : os () := call !"flock" (f_path f) (os_ret ()).
Definition FUnlock (f : file) : os () :=
  call !"flock" (f_path f) (fun w => (Ok (), set_locked w (locked w ∖ {[ i_ino (f_info f) ]}))).

(** Closing releases the lock even when the unlock call failed. *)
Definition FCloseLocked (f : file) : os () :=
  call !"close" (f_path f) (fun w => (Ok (), set_locked w (locked w ∖ {[ i_ino (f_info f) ]}))).

Definition ReadFile (path : bytes) : os bytes :=
  call !"read" path (fun w =>
    match follow w path with
    | Some (_, n) => match n_kind n with
                     | KRegular => (Ok (n_data n), w)
                     | _ => (Err (ESys !"read" path EACCES), w)
                     end
    | None => (Err (ESys !"open" path ENOENT), w)
    end).

Definition Remove (path : bytes) : os () :=
  call !"remove" path (fun w =>
    match files w !! path with
    | Some _ => (Ok (), set_files w (delete path (files w)))
    | None => (Err (ESys !"remove" path ENOENT), w)
    end).

(** [os.Rename] replaces the destination in one step. *)
Definition Rename (old new : bytes) : os () :=
  call !"rename" old (fun w =>
    match files w !! old with
    | Some n => (Ok (), set_files w (<[new := n]> (delete old (files w))))
    | None => (Err (ESys !"rename" old ENOENT), w)
    end).

(** [os.CreateTemp(dir, prefix + "*" + suffix)]: a fresh name, tried up to
    ten thousand times. *)
Fixpoint create_temp (tries : nat) (dir prefix suffix : bytes) (w : world) : result file * world :=
  match tries with
  | O => (Err (ESys !"createtemp" dir EEXIST), w)
  | S tries' =>
      let path := path_join [dir; prefix ++ format_uint (rand32 o (calls w)) ++ suffix] in
      let w := count_call w in
      match fault o (calls w) !"open" path with
      | Some EEXIST => create_temp tries' dir prefix suffix w
      | Some e => (Err (ESys !"open" path e), w)
      | None =>
          match files w !! path with
          | Some _ => create_temp tries' dir prefix suffix w
          | None => (Ok {| f_path := path; f_info := info_of (new_node w KRegular 0x180) |},
                     add_node w path KRegular 0x180 (* 0o600 *))
          end
      end
  end.
Definition CreateTemp (dir prefix suffix : bytes) : os file :=
  create_temp (Z.to_nat 10000) dir prefix suffix.

Definition append_data (n : node) (data : bytes) (t : Z) : node :=
  {| n_kind := n_kind n; n_ino := n_ino n; n_perm := n_perm n; n_mtime := t;
     n_data := n_data n ++ data |}.
(** [File.Write]: a failing write may have written part of the data. *)
Definition FWrite (f : file) (data : bytes) : os () :=
  fun w =>
    let w' := count_call w in
    let put d := match files w' !! f_path f with
                 | Some n => set_files w' (<[f_path f := append_data n d (now w')]> (files w'))
                 | None => w'
                 end in
    match fault o (calls w) !"write" (f_path f) with
    | Some e => (Err (ESys !"write" (f_path f) e), put (take (torn o (calls w)) data))
    | None => (Ok (), put data)
    end.
Definition FChmod (f : file) (perm : Z) : os () := Chmod (f_path f) perm.

(** The entries of a directory: the names one level below it. *)
Definition child_name (dir path : bytes) : option bytes :=
  if has_prefix (dir_prefix dir) path then
    let name := drop (length (dir_prefix dir)) path in
    if (name ==b []) || (slash ∈b name) then None else Some name
  else None.

(** Byte-wise order of names. *)
Fixpoint bytes_leb (a b : bytes) : bool :=
  match a, b with
  | [], _ => true
  | _ :: _, [] => false
  | x :: a', y :: b' => (bz x <? bz y) || ((bz x =? bz y) && bytes_leb a' b')
  end.
Definition bytes_le (a b : bytes) : Prop := bytes_leb a b = true.
#[export] Instance bytes_le_dec : RelDecision bytes_le.
Proof. intros a b. unfold bytes_le. apply _. Defined.

Definition children (w : world) (dir : bytes) : list bytes :=
  merge_sort bytes_le (omap (child_name dir) (map fst (map_to_list (files w)))).

Definition ReadDir (dir : bytes) : os (list bytes) :=
  call !"open" dir (fun w =>
    match follow w dir with
    | Some (d, n) => match n_kind n with
                     | KDirectory => (Ok (children w d), w)
                     | _ => (Err (ESys !"readdirent" dir ENOTDIR), w)
                     end
    | None => (Err (ESys !"open" dir ENOENT), w)
    end).
End Calls.

(** ** Reasoning about programs over files

    Most facts about a program say that every run relates its first world to
    its last: no file changes, nothing is removed, a lock stays held.  Such a
    relation is a preorder that a failed call respects, and a program respects
    it when its calls do. *)

Class CallPreorder (R : world -> world -> Prop) := {
  cp_refl : forall w, R w w;
  cp_trans : forall w1 w2 w3, R w1 w2 -> R w2 w3 -> R w1 w3;
  cp_count : forall w, R w (count_call w)
}.

Definition respects (R : world -> world -> Prop) {A} (m : os A) : Prop := forall w, R w (snd (m w)).

Lemma call_cases (o : oracle) {A} op path (act : os A) w :
  (exists e, call o op path act w = (Err (ESys op path e), count_call w)) \/
  (fault o (calls w) op path = None /\ call o op path act w = act (count_call w)).
Proof. unfold call. destruct (fault _ _ _ _); [left; by eexists|by right]. Qed.

Lemma call_none (o : oracle) {A} op path (act : os A) w :
  fault o (calls w) op path = None -> call o op path act w = act (count_call w).
Proof. unfold call. by intros ->. Qed.

Section Respects.
Context (R : world -> world -> Prop) `{CallPreorder R} (o : oracle).

Lemma respects_ret {A} (a : A) : respects R (os_ret a).
Proof. intros w. apply cp_refl. Qed.
Lemma respects_fail {A} e : respects R (os_fail (A := A) e).
Proof. intros w. apply cp_refl. Qed.
Lemma respects_pure {A} (f : world -> result A) : respects R (fun w => (f w, w)).
Proof. intros w. apply cp_refl. Qed.
Lemma respects_bind {A B} (m : os A) (f : A -> os B) :
  respects R m -> (forall a, respects R (f a)) -> respects R (os_bind m f).
Proof.
  intros Hm Hf w. unfold os_bind. specialize (Hm w). destruct (m w) as [[a|e] w1]; [|done].
  eapply cp_trans; [exact Hm|apply Hf].
Qed.
Lemma respects_try {A} (m : os A) : respects R m -> respects R (os_try m).
Proof. intros Hm w. unfold os_try. specialize (Hm w). by destruct (m w). Qed.
Lemma respects_wrap {A} b (m : os A) : respects R m -> respects R (os_wrap b m).
Proof. intros Hm w. unfold os_wrap. specialize (Hm w). by destruct (m w) as [[]]. Qed.
Lemma respects_call {A} op path (act : os A) : respects R act -> respects R (call o op path act).
Proof.
  intros Ha w. destruct (call_cases o op path act w) as [[e ->]|[_ ->]]; [apply cp_count|].
  eapply cp_trans; [apply cp_count|apply Ha].
Qed.

(** Calls that only look respect every such relation. *)
Lemma respects_lstat path : respects R (Lstat o path).
Proof. apply respects_call. intros w. destruct (files w !! path); apply cp_refl. Qed.
Lemma respects_read path : respects R (ReadFile o path).
Proof. apply respects_call. intros w. repeat case_match; apply cp_refl. Qed.
Lemma respects_open_existing path nofollow perm : respects R (OpenFile o path false nofollow perm).
Proof. apply respects_call. intros w. repeat case_match; apply cp_refl. Qed.
Lemma respects_readdir path : respects R (ReadDir o path).
Proof. apply respects_call. intros w. repeat case_match; apply cp_refl. Qed.
Lemma respects_fstat f : respects R (FStat o f).
Proof. apply respects_call, respects_ret. Qed.
Lemma respects_fsync f : respects R (FSync o f).
Proof. apply respects_call, respects_ret. Qed.
Lemma respects_fclose f : respects R (FClose o f).
Proof. apply respects_call, respects_ret. Qed.
Lemma respects_flock f : respects R (Flock o f).
Proof. apply respects_call, respects_ret. Qed.
End Respects.

(** Opens the structure of a program; [solve_call] deals with the calls that
    change something. *)
Ltac respects_with solve_call :=
  repeat first
    [ progress intros
    | solve_call
    | apply respects_bind | apply respects_try | apply respects_wrap | apply respects_ret
    | apply respects_fail | apply respects_pure | apply respects_lstat | apply respects_read
    | apply respects_open_existing | apply respects_readdir | apply respects_fstat
    | apply respects_fsync | apply respects_fclose | apply respects_flock
    | case_goal ].

(** No file changes. *)
Definition same_files (w w' : world) : Prop := files w' = files w.
#[export] Instance same_files_preorder : CallPreorder same_files.
Proof. split; unfold same_files; [done|congruence|done]. Qed.
Abbreviation silent := (respects same_files).

Section SilentLocks.
Variables (o : oracle) (f : file).
Lemma silent_flock_nb : silent (FlockNB o f).
Proof. apply respects_call; [apply _|]. intros w. by case_match. Qed.
Lemma silent_funlock : silent (FUnlock o f).
Proof. apply respects_call; [apply _|]. by intros w. Qed.
Lemma silent_fclose_locked : silent (FCloseLocked o f).
Proof. apply respects_call; [apply _|]. by intros w. Qed.
End SilentLocks.

Ltac silent :=
  respects_with ltac:(idtac; first [ apply silent_flock_nb | apply silent_funlock | apply silent_fclose_locked
                            | typeclasses eauto ]).

(** Two nodes with the same identity and contents. *)
Definition same_contents (n n' : node) : Prop :=
  n_kind n' = n_kind n /\ n_ino n' = n_ino n /\ n_data n' = n_data n.
Lemma same_contents_refl n : same_contents n n.
Proof. done. Qed.
Lemma same_contents_trans n1 n2 n3 : same_contents n1 n2 -> same_contents n2 n3 -> same_contents n1 n3.
Proof. intros (?&?&?) (?&?&?). split_and!; congruence. Qed.

(** The files of [w] are all in [w'], unchanged but for permissions; what is
    new are directories and files at paths in [X]. *)
Definition grows (X : bytes -> Prop) (w w' : world) : Prop :=
  (forall p n, files w !! p = Some n -> exists n', files w' !! p = Some n' /\ same_contents n n') /\
  (forall p n', files w' !! p = Some n' ->
     (exists n, files w !! p = Some n /\ same_contents n n') \/ n_kind n' = KDirectory \/ X p).

Lemma grows_files X w w' : files w' = files w -> grows X w w'.
Proof. intros E. split; rewrite E; [|left]; eauto using same_contents_refl. Qed.

#[export] Instance grows_preorder X : CallPreorder (grows X).
Proof.
  split.
  - intros w. by apply grows_files.
  - intros w1 w2 w3 [A1 B1] [A2 B2]. split.
    + intros p n Hn. destruct (A1 p n Hn) as (n' & Hn' & Hc).
      destruct (A2 p n' Hn') as (n'' & Hn'' & Hc'). eauto using same_contents_trans.
    + intros p n'' Hn''. destruct (B2 p n'' Hn'') as [(n' & Hn' & Hc')|[Hd|Hx]]; [|auto|auto].
      destruct (B1 p n' Hn') as [(n & Hn & Hc)|[Hd|Hx]]; [|right; left|auto].
      * left. eauto using same_contents_trans.
      * destruct Hc' as (E & _). congruence.
  - intros w. by apply grows_files.
Qed.
Abbreviation only_grows X := (respects (grows X)).

Section Grows.
Variable (o : oracle) (X : bytes -> Prop).

Lemma grows_add w path k perm :
  files w !! path = None -> k = KDirectory \/ X path -> grows X w (add_node w path k perm).
Proof.
  intros Hn Hk. split.
  - intros p n Hp. exists n. split; [|apply same_contents_refl].
    simpl. rewrite lookup_insert_ne; [done|]. intros ->. congruence.
  - intros p n. simpl. intros [[<- <-]|[? Hp]]%lookup_insert_Some.
    + right. by destruct Hk as [->|?]; [left|right].
    + left. exists n. split; [done|apply same_contents_refl].
Qed.

Lemma grows_mkdir_all fuel : forall path perm w, grows X w (snd (mkdir_all fuel path perm w)).
Proof.
  induction fuel as [|fuel IH]; intros path perm w; simpl; [apply cp_refl|].
  destruct (follow w path) as [[p n]|]; [destruct (n_kind n); apply cp_refl|].
  destruct (files w !! path) eqn:Hn; [apply cp_refl|].
  assert (Hstep : forall w1, grows X w w1 ->
    grows X w (snd (match files w1 !! path with
                    | None => (Ok (), add_node w1 path KDirectory perm)
                    | Some n => match n_kind n with
                                | KDirectory => (Ok (), w1)
                                | _ => (Err (ESys !"mkdir" path EEXIST), w1)
                                end
                    end))).
  { intros w1 Hg. destruct (files w1 !! path) as [n1|] eqn:H1; [by destruct (n_kind n1)|].
    eapply cp_trans; [done|]. apply grows_add; [done|by left]. }
  case_bool_decide as Hd; [by apply Hstep, cp_refl|].
  pose proof (IH (path_dir path) perm w) as Hg.
  destruct (mkdir_all fuel (path_dir path) perm w) as [[u|e] w1]; [|done]. by apply Hstep.
Qed.

Lemma only_grows_mkdir_all path perm : only_grows X (MkdirAll o path perm).
Proof. apply respects_call; [apply _|]. intros w. apply grows_mkdir_all. Qed.

Lemma only_grows_chmod path perm : only_grows X (Chmod o path perm).
Proof.
  apply respects_call; [apply _|]. intros w. destruct (follow w path) as [[p n]|] eqn:Hf; [|apply cp_refl].
  assert (files w !! p = Some n) as Hp.
  { unfold follow in Hf. repeat case_match; by simplify_eq. }
  split; simpl.
  - intros q m Hq. destruct (decide (q = p)) as [->|].
    + rewrite lookup_insert_eq. eexists. split; [done|]. by simplify_eq.
    + rewrite lookup_insert_ne by done. exists m. split; [done|apply same_contents_refl].
  - intros q m [[<- <-]|[? Hq]]%lookup_insert_Some; left.
    + exists n. split; [done|]. done.
    + exists m. split; [done|apply same_contents_refl].
Qed.

Lemma only_grows_open path create nofollow perm :
  X path -> only_grows X (OpenFile o path create nofollow perm).
Proof.
  intros Hx. apply respects_call; [apply _|]. intros w. destruct (files w !! path) as [n|] eqn:Hn.
  - repeat case_match; apply cp_refl.
  - destruct create; [|apply cp_refl]. by apply grows_add; [|right].
Qed.
End Grows.

Ltac grows :=
  respects_with ltac:(idtac; first [ apply only_grows_mkdir_all | apply only_grows_chmod | typeclasses eauto ]).
