(* ===== verification/Store.v ===== *)
(** * The instance store (internal/instance/store.go)

    One JSON file per running instance under [StateRoot/instances], a lock
    file that serialises the operations, and one lease file per instance under
    [RuntimeRoot] that its worker keeps locked.  An operation of the store
    runs while it holds the lock, so the operations are programs over files
    that run one after the other. *)

From stdpp Require Import sorting.
From S2P Require Import Prelude GoString GoUnicode GoConv GoErrors GoPath GoOS Target Helper.
From S2P Require Import InstanceName.
Open Scope Z_scope.

Record Store := { StateRoot : bytes; RuntimeRoot : bytes }.

(** ** The record format

    [decode_first] reads the first JSON value as a record, unknown fields
    refused, and [decode_next] tries to read another value from what is left.
    What the store needs of the format: a written record reads back, with
    nothing after it. *)
Definition storable (r : Record_) : Prop :=
  Forall (fun s => valid_utf8 s = true)
    [ID r; Name r; ControlSocket r; RecDirectory r; SocketPath (RecTarget r);
     Generation (RecTarget r); SessionID (RecTarget r); WindowID (RecTarget r);
     SessionName (RecTarget r); WindowName (RecTarget r); Directory (RecTarget r)] /\
  Version r = RecordVersion /\ - 2 ^ 63 <= PID r < 2 ^ 63 /\
  0 <= StartedAt r < 315537897600 * 10 ^ 9.

Class RecordCodec := {
  encode_record : Record_ -> result bytes;
  decode_first : bytes -> result (Record_ * bytes);
  decode_next : bytes -> result ();
  decode_encode : forall r, storable r -> exists data rest,
    encode_record r = Ok data /\ decode_first data = Ok (r, rest) /\
    decode_next rest = Err (ESentinel IoEOF)
}.

Section StoreOps.
Context `{UnicodeTables} `{RecordCodec} (sha256 : bytes -> bytes) (o : oracle).

Definition Key (r : Record_) : bytes := Target_Key sha256 (RecTarget r).

Definition invalid_instance_id (id : bytes) : error := EText (!"invalid instance ID " ++ quote id).

Definition InstancesDir (s : Store) : bytes := path_join [StateRoot s; !"instances"].
Definition DiagnosticsDir (s : Store) : bytes := path_join [StateRoot s; !"diagnostics"].
Definition record_path (s : Store) (id : bytes) : bytes := path_join [InstancesDir s; id ++ !".json"].
Definition lease_path (s : Store) (id : bytes) : bytes := path_join [RuntimeRoot s; id ++ !".lease"].

Definition ForRecord (s : Store) (r : Record_) : result Store :=
  let path := path_clean (ControlSocket r) in
  fail_if negb (is_abs path) || negb (path ==b ControlSocket r) ||
          negb (path_base path ==b (ID r ++ !".sock"))
    with EText !"instance control socket is outside its recorded runtime path";;
  let runtimeRoot := path_dir path in
  fail_if runtimeRoot ==b !"/" with EText !"instance runtime root is too broad";;
  Ok {| StateRoot := StateRoot s; RuntimeRoot := runtimeRoot |}.

(** ** Directories and the lock *)

Definition mkdirPrivate (path : bytes) : os () :=
  os_wrap (!"create private directory " ++ path ++ !": ") (MkdirAll o path 0x1C0 (* 0o700 *));*
  let* info := Lstat o path in
  if negb (is_dir info) || is_symlink info
  then os_fail (EText (!"private path " ++ path ++ !" is not a regular directory"))
  else os_wrap (!"protect private directory " ++ path ++ !": ") (Chmod o path 0x1C0).

Definition lock (s : Store) : os file :=
  if StateRoot s ==b [] then os_fail (EText !"instance state root is required") else
  mkdirPrivate (StateRoot s);*
  mkdirPrivate (InstancesDir s);*
  (if negb (RuntimeRoot s ==b []) then mkdirPrivate (RuntimeRoot s) else os_ret ());*
  let* lock := os_wrap !"open instance lock: "
    (OpenFile o (path_join [InstancesDir s; !".lock"]) true false 0x180 (* 0o600 *)) in
  let* r := os_try (Flock o lock) in
  match r with
  | Ok _ => os_ret lock
  | Err err => ignore FClose o lock;* os_fail (wrapf !"lock instances: " err)
  end.

(** The deferred release, whatever the body returned. *)
Definition locked_by (s : Store) {A} (body : os A) : os A :=
  let* l := lock s in
  let* r := os_try body in
  ignore Flock o l;*
  ignore FClose o l;*
  fun w => (r, w).

(** ** Reading *)

Definition parse_record (data : bytes) : result Record_ :=
  match decode_first data with
  | Err err => Err (wrapf !"decode instance record: " err)
  | Ok (record, rest) =>
      match decode_next rest with
      | Ok _ => Err (EText !"instance record contains trailing JSON")
      | Err err =>
          fail_if negb (errors_is IoEOF err) with err;;
          match Record_Validate record with Some err => Err err | None => Ok record end
      end
  end.
Definition readRecord (path : bytes) : os Record_ :=
  let* data := ReadFile o path in fun w => (parse_record data, w).

Record RecordError := { re_path : bytes; re_err : error }.

Definition is_record_name (name : bytes) : bool :=
  negb (has_prefix !"." name) && has_suffix !".json" name.

(** One entry of the directory: a record or a problem. *)
Definition read_entry (s : Store) (name : bytes) : os Record_ :=
  let path := path_join [InstancesDir s; name] in
  let* info := Lstat o path in
  if negb (is_regular info) || is_symlink info
  then os_fail (EText !"instance record is not a regular file") else
  let* record := readRecord path in
  if negb (trim_suffix !".json" name ==b ID record)
  then os_fail (EText !"record ID does not match filename") else os_ret record.

Fixpoint read_entries (s : Store) (names : list bytes) : os (list Record_ * list RecordError) :=
  match names with
  | [] => os_ret ([], [])
  | name :: names' =>
      if negb (is_record_name name) then read_entries s names' else
      let* r := os_try (read_entry s name) in
      let* rest := read_entries s names' in
      match r with
      | Ok record => os_ret (record :: fst rest, snd rest)
      | Err err =>
          os_ret (fst rest, {| re_path := path_join [InstancesDir s; name]; re_err := err |} :: snd rest)
      end
  end.

(** Records are listed by name, then by identifier. *)
Definition record_le (a b : Record_) : Prop :=
  if Name a ==b Name b then bytes_le (ID a) (ID b) else bytes_le (Name a) (Name b).
#[export] Instance record_le_dec : RelDecision record_le.
Proof. intros a b. unfold record_le. case_match; apply _. Defined.

Definition readAllUnlocked (s : Store) : os (list Record_ * list RecordError) :=
  let* entries := os_wrap !"list instance records: " (ReadDir o (InstancesDir s)) in
  let* all := read_entries s entries in
  os_ret (merge_sort record_le (fst all), snd all).

Definition ReadAll (s : Store) : os (list Record_ * list RecordError) :=
  locked_by s (readAllUnlocked s).

Definition Inspect (s : Store) : os (list Record_ * list RecordError) :=
  if StateRoot s ==b [] then os_fail (EText !"instance state root is required") else
  let* r := os_try (Lstat o (InstancesDir s)) in
  match r with
  | Err err => if is_not_exist err then os_ret ([], [])
               else os_fail (wrapf !"inspect instance directory: " err)
  | Ok info =>
      if negb (is_dir info) || is_symlink info
      then os_fail (EText !"instance path is not a regular directory") else readAllUnlocked s
  end.

(** The choice among the records read: one exact match on name or
    identifier, else one identifier with that prefix. *)
Definition ambiguous (selector : bytes) (n : nat) : error :=
  EWrap [] (ESentinel ErrAmbiguous)
    (!": " ++ quote selector ++ !" matches " ++ itoa (Z.of_nat n) ++ !" instances").
Definition resolve_in (records : list Record_) (selector : bytes) : result Record_ :=
  match filter (fun r => Name r = selector \/ ID r = selector) records with
  | [record] => Ok record
  | _ :: _ :: _ as exact => Err (ambiguous selector (length exact))
  | [] =>
      match filter (fun r => has_prefix selector (ID r) = true) records with
      | [] => Err (EWrap [] (ESentinel ErrNotFound) (!": " ++ quote selector))
      | [record] => Ok record
      | matches => Err (ambiguous selector (length matches))
      end
  end.

Definition Resolve (s : Store) (selector : bytes) : os Record_ :=
  let* all := ReadAll s in
  fun w => (resolve_in (fst all) selector, w).

(** ** Writing *)

Definition check_destination (path : bytes) (replace : bool) : os () :=
  let* r := os_try (Lstat o path) in
  match r with
  | Ok info =>
      if negb replace then os_fail (EText (!"instance record path already exists: " ++ path))
      else if negb (is_regular info) || is_symlink info
      then os_fail (EText !"instance record is not a regular file") else os_ret ()
  | Err err => if is_not_exist err then os_ret ()
               else os_fail (wrapf !"inspect instance record destination: " err)
  end.

(** Protect, fill, sync and close the temporary file, then rename it over
    the destination and sync the directory. *)
Definition close_after {A} (temp : file) (m : os A) : os A :=
  let* r := os_try m in
  match r with
  | Ok a => os_ret a
  | Err err => ignore FClose o temp;* os_fail err
  end.

Definition install (dir path : bytes) (temp : file) (record : Record_) : os () :=
  close_after temp (FChmod o temp 0x180);*
  close_after temp (os_wrap !"encode instance record: "
    (match encode_record record with
     | Ok data => FWrite o temp data
     | Err err => os_fail err
     end));*
  close_after temp (os_wrap !"sync instance record: " (FSync o temp));*
  os_wrap !"close instance record: " (FClose o temp);*
  os_wrap !"install instance record: " (Rename o (f_path temp) path);*
  let* directory := os_wrap !"open instance directory: " (OpenFile o dir false false 0) in
  let* r := os_try (FSync o directory) in
  ignore FClose o directory;*
  match r with
  | Ok _ => os_ret ()
  | Err err => os_fail (wrapf !"sync instance directory: " err)
  end.

Definition writeAtomic (s : Store) (record : Record_) (replace : bool) : os () :=
  let dir := InstancesDir s in
  let path := record_path s (ID record) in
  check_destination path replace;*
  let* temp := os_wrap !"create temporary instance record: "
    (CreateTemp o dir (!"." ++ ID record ++ !".") !".tmp") in
  let* r := os_try (install dir path temp record) in
  match r with
  | Ok _ => os_ret ()
  | Err err => ignore Remove o (f_path temp);* os_fail err
  end.

(** The first record that stands in the way of a new one. *)
Definition create_conflict (record existing : Record_) : option error :=
  if ID existing ==b ID record
  then Some (EText (!"instance ID " ++ quote (ID record) ++ !" already exists"))
  else if Name existing ==b Name record
  then Some (EText (!"instance name " ++ quote (Name record) ++ !" already exists"))
  else if ID existing ==b Name record
  then Some (EText (!"instance selector " ++ quote (Name record) ++
                    !" collides with an existing name or ID"))
  else if Name existing ==b ID record
  then Some (EText (!"instance selector " ++ quote (ID record) ++
                    !" collides with an existing name or ID"))
  else if Key existing ==b Key record
  then Some (EText (!"tmux target already belongs to Wrap " ++ quote (Name existing)))
  else None.

Fixpoint first_conflict (check : Record_ -> option error) (records : list Record_) : option error :=
  match records with
  | [] => None
  | r :: records' => match check r with Some e => Some e | None => first_conflict check records' end
  end.

Definition Create (s : Store) (record : Record_) : os () :=
  match Record_Validate record with
  | Some err => os_fail err
  | None =>
      locked_by s (
        let* all := readAllUnlocked s in
        match first_conflict (create_conflict record) (fst all) with
        | Some err => os_fail err
        | None => writeAtomic s record false
        end)
  end.

Definition rename_conflict (id name : bytes) (record : Record_) : option error :=
  if (Name record ==b name) && negb (ID record ==b id)
  then Some (EText (!"instance name " ++ quote name ++ !" already exists"))
  else if (ID record ==b name) && negb (ID record ==b id)
  then Some (EText (!"instance selector " ++ quote name ++ !" collides with an existing ID"))
  else None.

Definition with_name (r : Record_) (name : bytes) : Record_ :=
  {| Version := Version r; ID := ID r; Name := name; PID := PID r;
     ControlSocket := ControlSocket r; StartedAt := StartedAt r;
     RecDirectory := RecDirectory r; RecTarget := RecTarget r |}.

Definition RenameIfPID (s : Store) (id : bytes) (pid : Z) (name : bytes) : os bool :=
  if negb (idPattern id) || (pid <=? 0)
  then os_fail (EText !"valid instance ID and PID are required") else
  match ValidateName name with
  | Some err => os_fail err
  | None =>
      locked_by s (
        let* all := readAllUnlocked s in
        match first_conflict (rename_conflict id name) (fst all) with
        | Some err => os_fail err
        | None =>
            (* the loop keeps the last record with this ID and PID *)
            match last (filter (fun r => ID r = id /\ PID r = pid) (fst all)) with
            | None => os_ret false
            | Some current => writeAtomic s (with_name current name) true;* os_ret true
            end
        end)
  end.

(** [os.Remove] where an absent file is fine. *)
Definition remove_record (path : bytes) : os () :=
  let* r := os_try (Remove o path) in
  match r with
  | Err err => if is_not_exist err then os_ret () else os_fail (wrapf !"remove instance record: " err)
  | Ok _ => os_ret ()
  end.

Definition RemoveInstance (s : Store) (id : bytes) : os () :=
  if negb (idPattern id) then os_fail (invalid_instance_id id)
  else locked_by s (remove_record (record_path s id)).

Definition RemoveIfPID (s : Store) (id : bytes) (pid : Z) : os bool :=
  if negb (idPattern id) then os_fail (invalid_instance_id id)
  else if pid <=? 0 then os_fail (EText !"instance PID must be positive")
  else locked_by s (
    let path := record_path s id in
    let* r := os_try (Lstat o path) in
    match r with
    | Err err => if is_not_exist err then os_ret false
                 else os_fail (wrapf !"inspect instance record: " err)
    | Ok info =>
        if negb (is_regular info) || is_symlink info
        then os_fail (EText !"instance record is not a regular file") else
        let* record := readRecord path in
        if negb (ID record ==b id) || negb (PID record =? pid) then os_ret false
        else remove_record path;* os_ret true
    end).
End StoreOps.
