(* ===== verification/Lease.v ===== *)
(** * Leases and the pruning of completed artifacts (internal/instance/store.go)

    A worker holds the advisory lock of its lease file for as long as it
    lives; whether the lock is held is how others tell a live worker from a
    dead one.  Pruning deletes the artifacts of instances that are neither
    recorded nor leased, the oldest first. *)

From stdpp Require Import sorting.
From S2P Require Import Prelude GoString GoUnicode GoConv GoErrors GoPath GoOS Target Helper.
From S2P Require Import InstanceName Store.
Open Scope Z_scope.

Section LeaseOps.
Context `{UnicodeTables} `{RecordCodec} (sha256 : bytes -> bytes) (o : oracle).

(** A held lease: its open file. *)
Record Lease := { lease_file : file }.

Definition not_regular_lease : error := EText !"instance lease is not a regular file".

(** Nothing but a regular file may stand at the lease's path. *)
Definition check_lease_path (path : bytes) : os () :=
  let* r := os_try (Lstat o path) in
  match r with
  | Ok info => if negb (is_regular info) || is_symlink info
               then os_fail not_regular_lease else os_ret ()
  | Err err => if is_not_exist err then os_ret ()
               else os_fail (wrapf !"inspect instance lease: " err)
  end.

(** Lock the open file, or close it. *)
Definition lock_lease (f : file) : os Lease :=
  let* r := os_try (FStat o f) in
  match r with
  | Err err => ignore FClose o f;* os_fail (wrapf !"inspect open instance lease: " err)
  | Ok info =>
      if negb (is_regular info) then ignore FClose o f;* os_fail not_regular_lease else
      let* r := os_try (FlockNB o f) in
      match r with
      | Err err =>
          ignore FClose o f;*
          if errors_is_sys EWOULDBLOCK err then os_fail (ESentinel ErrLeaseHeld)
          else os_fail (wrapf !"lock instance lease: " err)
      | Ok _ => os_ret {| lease_file := f |}
      end
  end.

(** What [AcquireLease] does before it opens the file, and the opening: others
    may run between these, and between the opening and the lock. *)
Definition prepare_lease (s : Store) (id : bytes) : os () :=
  if negb (idPattern id) then os_fail (invalid_instance_id id)
  else if RuntimeRoot s ==b [] then os_fail (EText !"instance runtime root is required") else
  mkdirPrivate o (RuntimeRoot s);* check_lease_path (lease_path s id).
Definition open_lease (s : Store) (id : bytes) : os file :=
  os_wrap !"open instance lease: " (OpenFile o (lease_path s id) true true 0x180).

Definition AcquireLease (s : Store) (id : bytes) : os Lease :=
  prepare_lease s id;*
  let* f := open_lease s id in
  lock_lease f.

(** Whether there is a lease file to probe, and its opening. *)
Definition look_lease (s : Store) (id : bytes) : os bool :=
  if negb (idPattern id) then os_fail (invalid_instance_id id) else
  let* r := os_try (Lstat o (lease_path s id)) in
  match r with
  | Err err => if is_not_exist err then os_ret false
               else os_fail (wrapf !"inspect instance lease: " err)
  | Ok info => if negb (is_regular info) || is_symlink info then os_fail not_regular_lease else os_ret true
  end.
Definition open_probe (s : Store) (id : bytes) : os file :=
  os_wrap !"open instance lease: " (OpenFile o (lease_path s id) false true 0).

Definition LeaseHeld (s : Store) (id : bytes) : os bool :=
  let* there := look_lease s id in
  if negb there then os_ret false else
  let* f := open_probe s id in
  let* r := os_try (FlockNB o f) in
  match r with
  | Err err =>
      ignore FClose o f;*
      if errors_is_sys EWOULDBLOCK err then os_ret true
      else os_fail (wrapf !"probe instance lease: " err)
  | Ok _ =>
      let* r := os_try (FUnlock o f) in
      ignore FCloseLocked o f;*
      match r with Ok _ => os_ret false | Err err => os_fail err end
  end.

(** Unlock and close, both always.  [None] is a nil or closed lease. *)
Definition Lease_Close (l : option Lease) : os () :=
  match l with
  | None => os_ret ()
  | Some l =>
      let* unlockErr := os_try (FUnlock o (lease_file l)) in
      let* closeErr := os_try (FCloseLocked o (lease_file l)) in
      match errors_join [err_of unlockErr; err_of closeErr] with
      | Some err => os_fail err
      | None => os_ret ()
      end
  end.

(** ** Pruning *)

Definition diagnosticArtifactID (name : bytes) : bytes :=
  if has_suffix !".jsonl.1" name then trim_suffix !".jsonl.1" name
  else if has_suffix !".jsonl" name then trim_suffix !".jsonl" name
  else [].
Definition leaseArtifactID (name : bytes) : bytes :=
  if negb (has_suffix !".lease" name) then [] else trim_suffix !".lease" name.

Definition removeRegularArtifact (path : bytes) : os () :=
  let* r := os_try (Lstat o path) in
  match r with
  | Err err => if is_not_exist err then os_ret () else os_fail err
  | Ok info => if negb (is_regular info) || is_symlink info
               then os_fail (EText !"completed artifact is not a regular file")
               else Remove o path
  end.

(** The lease is removed only while the path is still the locked file; this is
    looked up, and then it is removed. *)
Definition look_own_lease (l : Lease) (path : bytes) : os bool :=
  let* openInfo := os_try (FStat o (lease_file l)) in
  let* pathInfo := os_try (Lstat o path) in
  match openInfo, pathInfo with
  | Err err, _ => os_fail err
  | Ok _, Err err => if is_not_exist err then os_ret false else os_fail err
  | Ok openInfo, Ok pathInfo =>
      if negb (i_ino openInfo =? i_ino pathInfo)
      then os_fail (EText !"completed instance lease identity changed") else os_ret true
  end.
Definition remove_own_lease (l : Lease) (path : bytes) : os () :=
  let* mine := look_own_lease l path in
  if mine then Remove o path else os_ret ().

Definition pruneCompletedArtifact (s : Store) (id : bytes) : os () :=
  let* r := os_try (AcquireLease s id) in
  match r with
  | Err err => if errors_is ErrLeaseHeld err then os_ret ()
               else os_fail (wrapf (!"lock completed instance " ++ id ++ !": ") err)
  | Ok l =>
      let* r1 := os_try (removeRegularArtifact (path_join [DiagnosticsDir s; id ++ !".jsonl"])) in
      let* r2 := os_try (removeRegularArtifact (path_join [DiagnosticsDir s; id ++ !".jsonl.1"])) in
      let* r3 := os_try (remove_own_lease l (lease_path s id)) in
      let* r4 := os_try (Lease_Close (Some l)) in
      match errors_join [err_of r1; err_of r2; err_of r3; err_of r4] with
      | Some err => os_fail err
      | None => os_ret ()
      end
  end.

(** The newest modification time per instance among a directory's files. *)
Fixpoint collect_entries (dir : bytes) (idForName : bytes -> bytes) (names : list bytes)
    (candidates : gmap bytes Z) : os (gmap bytes Z) :=
  match names with
  | [] => os_ret candidates
  | name :: names' =>
      let id := idForName name in
      if negb (idPattern id) then collect_entries dir idForName names' candidates else
      let* info := Lstat o (path_join [dir; name]) in
      collect_entries dir idForName names'
        (match candidates !! id with
         | Some current => if current <? i_mtime info then <[id := i_mtime info]> candidates
                           else candidates
         | None => <[id := i_mtime info]> candidates
         end)
  end.
Definition collect (dir : bytes) (idForName : bytes -> bytes) (candidates : gmap bytes Z)
    : os (gmap bytes Z) :=
  let* r := os_try (ReadDir o dir) in
  match r with
  | Err err => if is_not_exist err then os_ret candidates else os_fail err
  | Ok entries => collect_entries dir idForName entries candidates
  end.

(** Newest first; equal times by identifier, descending. *)
Definition newer (a b : bytes * Z) : Prop :=
  if snd a =? snd b then bytes_le (fst b) (fst a) else snd b < snd a.
#[export] Instance newer_dec : RelDecision newer.
Proof. intros a b. unfold newer. case_match; apply _. Defined.

Definition protected_ids (records : list Record_) (problems : list RecordError) : list bytes :=
  map ID records ++
  filter (fun id => idPattern id = true)
    (map (fun p => trim_suffix !".json" (path_base (re_path p))) problems).

Definition prune_order (candidates : gmap bytes Z) (protected : list bytes) : list (bytes * Z) :=
  merge_sort newer (filter (fun a => fst a ∉ protected) (map_to_list candidates)).

(** Every artifact is tried; the errors are joined. *)
Fixpoint prune_each (s : Store) (items : list (bytes * Z)) (pruneErr : option error)
    : os (option error) :=
  match items with
  | [] => os_ret pruneErr
  | item :: items' =>
      let* r := os_try (pruneCompletedArtifact s (fst item)) in
      prune_each s items'
        (match r with Ok _ => pruneErr | Err err => errors_join [pruneErr; Some err] end)
  end.

Definition prune_locked (s : Store) (retain : Z) : os () :=
  let* all := readAllUnlocked o s in
  let protected := protected_ids (fst all) (snd all) in
  let* candidates := os_wrap !"inspect completed diagnostics: "
    (collect (DiagnosticsDir s) diagnosticArtifactID ∅) in
  let* candidates := os_wrap !"inspect completed leases: "
    (collect (RuntimeRoot s) leaseArtifactID candidates) in
  let artifacts := prune_order candidates protected in
  let* err := prune_each s (drop (Z.to_nat retain) artifacts) None in
  match err with Some err => os_fail err | None => os_ret () end.

Definition PruneCompletedArtifacts (s : Store) (retain : Z) : os () :=
  if retain <? 0 then os_fail (EText !"completed artifact retention must not be negative")
  else locked_by o s (prune_locked s retain).
End LeaseOps.
