(* ===== verification/PlainCodec.v ===== *)
(** * A concrete record format

    The store's theorems hold for every format with the laws of
    [RecordCodec].  This one shows that the laws can hold and lets the
    examples evaluate: each field is written with a mark before every byte and
    a different mark at its end. *)

From S2P Require Import Prelude GoString GoUnicode GoConv GoErrors GoPath GoOS Target.
From S2P Require Import InstanceName Store.
Open Scope Z_scope.

Definition put_field (f : bytes) : bytes := flat_map (fun b => ["+"%byte; b]) f ++ ["."%byte].

Fixpoint get_field (s : bytes) : option (bytes * bytes) :=
  match s with
  | [] => None
  | m :: s' =>
      if Byte.eqb m "."%byte then Some ([], s')
      else match s' with
           | [] => None
           | b :: s'' => '(f, rest) ← get_field s''; Some (b :: f, rest)
           end
  end.

Lemma get_put_field f rest : get_field (put_field f ++ rest) = Some (f, rest).
Proof.
  unfold put_field. rewrite <- app_assoc. induction f as [|b f IH]; [done|].
  cbn [flat_map app get_field]. change (Byte.eqb "+" ".") with false. cbv iota. cbn [app] in IH. by rewrite IH.
Qed.

Fixpoint get_fields (n : nat) (s : bytes) : option (list bytes * bytes) :=
  match n with
  | O => Some ([], s)
  | S n' => '(f, s) ← get_field s; '(fs, s) ← get_fields n' s; Some (f :: fs, s)
  end.

Lemma get_put_fields fs rest :
  get_fields (length fs) (flat_map put_field fs ++ rest) = Some (fs, rest).
Proof.
  induction fs as [|f fs IH]; [done|]. cbn [length get_fields flat_map].
  rewrite <- app_assoc, get_put_field. cbn [mbind option_bind]. by rewrite IH.
Qed.

Definition plain_fields (r : Record_) : list bytes :=
  let t := RecTarget r in
  [itoa (Version r); ID r; Name r; itoa (PID r); ControlSocket r; format_uint (StartedAt r);
   RecDirectory r; SocketPath t; Generation t; SessionID t; WindowID t; SessionName t;
   WindowName t; Directory t].

Definition plain_record (fs : list bytes) : option Record_ :=
  match fs with
  | [v; id; name; pid; socket; started; dir; tsocket; tgen; tsid; twid; tsname; twname; tdir] =>
      version ← parse_int v; p ← parse_int pid; at_ ← digits_acc 0 started;
      Some {| Version := version; ID := id; Name := name; PID := p; ControlSocket := socket;
              StartedAt := at_; RecDirectory := dir;
              RecTarget := {| SocketPath := tsocket; Target.Generation := tgen; SessionID := tsid;
                WindowID := twid; SessionName := tsname; WindowName := twname; Directory := tdir |} |}
  | _ => None
  end.

Lemma plain_record_fields r : storable r -> plain_record (plain_fields r) = Some r.
Proof.
  intros (_ & Hv & Hp & Hs). unfold plain_record, plain_fields.
  rewrite Hv, !atoi_itoa, digits_format_uint by (unfold RecordVersion; lia).
  destruct r as [? ? ? ? ? ? ? []]. simpl in *. by subst.
Qed.

#[export, refine] Instance plain_codec : RecordCodec := {|
  encode_record r := Ok (flat_map put_field (plain_fields r));
  decode_first data :=
    match '(fs, rest) ← get_fields 14 data; r ← plain_record fs; Some (r, rest) with
    | Some x => Ok x
    | None => Err (EText !"unexpected end of input")
    end;
  decode_next rest := if rest ==b [] then Err (ESentinel IoEOF) else Ok ()
|}.
Proof.
  intros r Hr. exists (flat_map put_field (plain_fields r)), []. split; [done|]. split; [|done].
  change 14%nat with (length (plain_fields r)).
  rewrite <- (app_nil_r (flat_map _ _)), get_put_fields. cbn [mbind option_bind].
  by rewrite plain_record_fields.
Defined.

(** ** Example data *)

Definition demo_store : Store := {| StateRoot := !"/s"; RuntimeRoot := !"/r" |}.
Definition demo_target (window : bytes) : Target :=
  {| SocketPath := !"/tmp/tmux-0/default"; Target.Generation := !"g1"; SessionID := !"$0";
     WindowID := window; SessionName := !"main"; WindowName := !"w"; Directory := !"/src" |}.
Definition demo_record (id name window : bytes) : Record_ :=
  {| Version := 1; ID := id; Name := name; PID := 42; ControlSocket := !"/r/" ++ id ++ !".sock";
     StartedAt := 1; RecDirectory := !"/src"; RecTarget := demo_target window |}.

Definition no_faults : oracle :=
  {| fault := fun _ _ _ => None; torn := fun _ => 0%nat; rand32 := fun n => Z.of_nat n |}.
(** The calls of operation [op] fail. *)
Definition failing (op : bytes) (e : errno) : oracle :=
  {| fault := fun _ op' _ => if op' ==b op then Some e else None; torn := fun _ => 3%nat;
     rand32 := fun n => Z.of_nat n |}.
Definition empty_world : world :=
  {| files := ∅; next_ino := 1; now := 1; locked := ∅; calls := 0 |}.

Lemma demo_root : clean_abs (StateRoot demo_store).
Proof. split; vm_compute; reflexivity. Defined.
