(* ===== verification/StoreProps.v ===== *)
(** * The instance store: what its operations do to the records

    [stored] says which records the directory holds.  Reading returns exactly
    those; writing replaces one record or none; the rest of the file proves
    the store's invariant over every sequence of its operations. *)

From stdpp Require Import sorting.
From S2P Require Import Prelude GoString GoUnicode GoConv GoErrors GoPath GoOS Target Helper.
From S2P Require Import InstanceName Store.
Open Scope Z_scope.

Section LockGrows.
Context `{UnicodeTables} (o : oracle) (s : Store).

Definition lock_file_path : bytes := path_join [InstancesDir s; !".lock"].

Lemma only_grows_mkdirPrivate X path : only_grows X (mkdirPrivate o path).
Proof. unfold mkdirPrivate. grows. Qed.

Lemma only_grows_lock X : X lock_file_path -> only_grows X (lock o s).
Proof.
  intros Hx. unfold lock. case_goal; [apply respects_fail; apply _|].
  apply respects_bind; [apply _|apply only_grows_mkdirPrivate|intros _].
  apply respects_bind; [apply _|apply only_grows_mkdirPrivate|intros _].
  apply respects_bind; [apply _|case_goal; [apply only_grows_mkdirPrivate|apply respects_ret; apply _]|intros _].
  apply respects_bind; [apply _|apply respects_wrap; by apply only_grows_open|intros f].
  grows.
Qed.

Definition directory_at (w : world) (path : bytes) : Prop :=
  exists n, files w !! path = Some n /\ n_kind n = KDirectory.

Lemma grows_directory X w w' path : grows X w w' -> directory_at w path -> directory_at w' path.
Proof.
  intros [Hg _] (n & Hn & Hk). destruct (Hg path n Hn) as (n' & Hn' & Hk' & _).
  exists n'. split; congruence.
Qed.

Lemma lstat_ok path w info w1 :
  Lstat o path w = (Ok info, w1) ->
  files w1 = files w /\ exists n, files w !! path = Some n /\ info = info_of n.
Proof.
  unfold Lstat. destruct (call_cases o !"lstat" path (fun w =>
    match files w !! path with
    | Some n => (Ok (info_of n), w)
    | None => (Err (ESys !"lstat" path ENOENT), w)
    end) w) as [[e ->]|[_ ->]]; [done|]. simpl.
  destruct (files w !! path) as [n|] eqn:Hn; [|done]. intros [= <- <-]. split; [done|]. by exists n.
Qed.

Lemma mkdirPrivate_dir path w u w1 :
  mkdirPrivate o path w = (Ok u, w1) -> directory_at w1 path.
Proof.
  unfold mkdirPrivate, os_bind. destruct (os_wrap _ _ w) as [[u1|e] w2]; [|done].
  destruct (Lstat o path w2) as [[info|e] w3] eqn:Hl; [|done].
  apply lstat_ok in Hl as (Hf & n & Hn & ->).
  destruct (negb (is_dir (info_of n)) || is_symlink (info_of n)) eqn:Hd; [done|]. intros Hc.
  assert (only_grows (fun _ => False) (os_wrap (!"protect private directory " ++ path ++ !": ")
    (Chmod o path 0x1C0))) as Hg by grows.
  specialize (Hg w3). rewrite Hc in Hg. eapply grows_directory; [done|].
  exists n. rewrite Hf. split; [done|]. unfold is_dir, info_of in Hd. simpl in Hd.
  by destruct (n_kind n).
Qed.

Lemma lock_dir w l w1 : lock o s w = (Ok l, w1) -> directory_at w1 (InstancesDir s).
Proof.
  unfold lock. case_goal; [done|]. unfold os_bind at 1 2.
  destruct (mkdirPrivate o (StateRoot s) w) as [[u1|e] w2]; [|done].
  destruct (mkdirPrivate o (InstancesDir s) w2) as [[u2|e] w3] eqn:Hm; [|done].
  apply mkdirPrivate_dir in Hm. intros Hl.
  match type of Hl with ?m w3 = _ => assert (only_grows (fun p => p = lock_file_path) m) as Hg end.
  { apply respects_bind; [apply _|case_goal; [apply only_grows_mkdirPrivate|apply respects_ret; apply _]|intros _].
    apply respects_bind; [apply _|apply respects_wrap; by apply only_grows_open|intros f]. grows. }
  specialize (Hg w3). rewrite Hl in Hg. by eapply grows_directory.
Qed.

(** Running under the lock: the body runs where the lock left off, with the
    directory in place, its result is the program's, and the release changes
    no file. *)
Lemma locked_by_lock {A} (body : os A) w :
  (exists e, locked_by o s body w = (Err e, snd (lock o s w))) \/
  (exists w', let w1 := snd (lock o s w) in directory_at w1 (InstancesDir s) /\
     locked_by o s body w = (fst (body w1), w') /\ files w' = files (snd (body w1))).
Proof.
  unfold locked_by, os_bind.
  destruct (lock o s w) as [[l|e] w1] eqn:Hlock; [|left; by exists e]. right.
  apply lock_dir in Hlock. unfold os_try. destruct (body w1) as [r w2] eqn:Hb.
  pose proof (respects_flock same_files o l w2) as H3. destruct (Flock o l w2) as [rf w3].
  pose proof (respects_fclose same_files o l w3) as H4. destruct (FClose o l w3) as [rc w4].
  exists w4. cbn [snd] in *. rewrite Hb. split_and!; [done|done|].
  unfold same_files in *. simpl in *. congruence.
Qed.

Lemma locked_by_cases {A} X (body : os A) w : X lock_file_path ->
  (exists e w', locked_by o s body w = (Err e, w') /\ grows X w w') \/
  (exists w1 w', grows X w w1 /\ directory_at w1 (InstancesDir s) /\
     locked_by o s body w = (fst (body w1), w') /\ files w' = files (snd (body w1))).
Proof.
  intros Hx. pose proof (only_grows_lock X Hx w) as Hl.
  destruct (locked_by_lock body w) as [[e He]|(w' & Hd & He & Hf)].
  - left. by exists e, (snd (lock o s w)).
  - right. by exists (snd (lock o s w)), w'.
Qed.
End LockGrows.

(** ** Reading *)

(** The oracle does not fail the two calls that read a record, and no failing
    call claims that a file is missing.  A record whose reading fails is
    reported as a problem and otherwise ignored. *)
Definition reads_ok (o : oracle) : Prop :=
  (forall n p, fault o n !"lstat" p = None /\ fault o n !"read" p = None) /\
  (forall n op p, fault o n op p <> Some ENOENT).

Lemma id_byte_not c : is_id_byte c = true -> c <> slash /\ c <> "."%byte.
Proof. intros H. split; intros ->; vm_compute in H; discriminate. Qed.

Lemma idPattern_cons id : idPattern id = true ->
  exists c rest, id = c :: rest /\ is_id_byte c = true /\ Forall (fun b => is_id_byte b = true) id.
Proof.
  unfold idPattern, instanceIDPattern. destruct id as [|c rest]; [done|]. intros Hid. guards.
  assert (is_id_byte c = true) as Hc by (unfold is_id_byte; by rewrite H).
  exists c, rest. split_and!; [done|done|]. constructor; [done|].
  apply Forall_forall. intros b Hb%list_elem_of_In.
  match goal with F : forallb is_id_byte rest = true |- _ => rewrite forallb_forall in F; auto end.
Qed.

Lemma json_name_simple id : idPattern id = true -> simple_name (id ++ !".json").
Proof.
  intros (c & rest & -> & Hc & Hall)%idPattern_cons.
  assert (slash ∉ c :: rest) as Hs.
  { intros Hin. rewrite Forall_forall in Hall. apply Hall in Hin. by apply id_byte_not in Hin as [? _]. }
  split_and!; [|done|..].
  - intros [Hin|Hin]%elem_of_app; [done|]. revert Hin. apply (bool_decide_unpack _). vm_compute. exact I.
  - intros E. apply (f_equal length) in E. rewrite length_app in E. simpl in E. lia.
  - intros E. apply (f_equal length) in E. rewrite length_app in E. simpl in E. lia.
Qed.

Section Reading.
Context `{UnicodeTables} `{RecordCodec} (o : oracle) (s : Store).
Hypothesis Hroot : clean_abs (StateRoot s).

Lemma instances_clean : clean_abs (InstancesDir s).
Proof.
  apply path_clean_join; [done|]. split_and!; [|done..]. apply (bool_decide_unpack _). vm_compute. exact I.
Qed.

(** A record the directory holds. *)
Definition stored (w : world) (r : Record_) : Prop :=
  exists n, files w !! record_path s (ID r) = Some n /\ n_kind n = KRegular /\
    parse_record (n_data n) = Ok r.

Lemma parse_record_valid data r : parse_record data = Ok r -> Record_Validate r = None.
Proof. unfold parse_record. intros Hp. repeat (case_hyp Hp; simplify_eq/=); done. Qed.

Lemma valid_id r : Record_Validate r = None -> idPattern (ID r) = true.
Proof. unfold Record_Validate. intros Hv. repeat (case_hyp Hv; simplify_eq/=); guards; done. Qed.

Lemma stored_id w r : stored w r -> idPattern (ID r) = true.
Proof. intros (n & _ & _ & Hp). by apply valid_id, (parse_record_valid (n_data n)). Qed.

Lemma stored_unique w r1 r2 : stored w r1 -> stored w r2 -> ID r1 = ID r2 -> r1 = r2.
Proof. intros (n1 & H1 & _ & P1) (n2 & H2 & _ & P2) E. rewrite E in H1. assert (n1 = n2) as -> by congruence. congruence. Qed.

Lemma stored_grows X w w' r :
  grows X w w' -> ~ X (record_path s (ID r)) -> stored w' r <-> stored w r.
Proof.
  intros [A B] Hx. split; intros (n & Hn & Hk & Hp).
  - destruct (B _ _ Hn) as [(n0 & Hn0 & E1 & _ & E3)|[Hd|?]]; [|congruence|done].
    exists n0. split_and!; congruence.
  - destruct (A _ _ Hn) as (n' & Hn' & E1 & _ & E3). exists n'. split_and!; congruence.
Qed.

Lemma record_path_eq id : idPattern id = true ->
  record_path s id = dir_prefix (InstancesDir s) ++ id ++ !".json".
Proof.
  intros Hid. unfold record_path. apply path_join_simple; [apply instances_clean|by apply json_name_simple].
Qed.

Lemma record_path_inj id1 id2 : idPattern id1 = true -> idPattern id2 = true ->
  record_path s id1 = record_path s id2 -> id1 = id2.
Proof.
  intros H1 H2. rewrite !record_path_eq by done. intros E%app_inv_head. by apply app_inv_tail in E.
Qed.

Lemma dot_name_simple name : is_record_name name = true -> (slash ∉ name) -> simple_name name.
Proof.
  unfold is_record_name. intros Hn Hs. guards. split_and!; [done|by intros ->|by intros ->|by intros ->].
Qed.

Lemma children_spec w dir name :
  name ∈ children w dir <-> (slash ∉ name) /\ name <> [] /\ is_Some (files w !! (dir_prefix dir ++ name)).
Proof.
  unfold children. rewrite merge_sort_Permutation, list_elem_of_omap. split.
  - intros (p & Hp & Hc). apply list_elem_of_fmap in Hp as ([p' n] & -> & Hin%elem_of_map_to_list).
    simpl in Hc. unfold child_name in Hc. destruct (has_prefix (dir_prefix dir) p') eqn:Hpre; [|done].
    apply has_prefix_spec in Hpre as [t ->]. rewrite drop_app_length in Hc.
    destruct (t ==b []) eqn:E1, (slash ∈b t) eqn:E2; simpl in Hc; simplify_eq. guards.
    split_and!; [done|done|by eexists].
  - intros (Hs & Hne & n & Hn). exists (dir_prefix dir ++ name). split.
    + apply list_elem_of_fmap. exists (dir_prefix dir ++ name, n). split; [done|by apply elem_of_map_to_list].
    + unfold child_name. rewrite has_prefix_app, drop_app_length.
      by rewrite !bool_decide_false by done.
Qed.

Hypothesis Hreads : reads_ok o.

Definition entry_holds (w : world) (name : bytes) (r : Record_) : Prop :=
  exists n, files w !! path_join [InstancesDir s; name] = Some n /\ n_kind n = KRegular /\
    parse_record (n_data n) = Ok r /\ trim_suffix !".json" name = ID r.

Lemma read_entry_spec name w :
  exists res w', read_entry o s name w = (res, w') /\ files w' = files w /\
    (forall r, res = Ok r <-> entry_holds w name r).
Proof.
  set (path := path_join [InstancesDir s; name]).
  unfold read_entry, readRecord, os_bind, Lstat, ReadFile, entry_holds. fold path.
  rewrite call_none by apply (proj1 Hreads). simpl.
  destruct (files w !! path) as [n|] eqn:Hn.
  2:{ eexists _, _. split; [done|]. split; [done|]. intros r. split; [done|]. by intros (n & [=] & _). }
  destruct (negb (is_regular (info_of n)) || is_symlink (info_of n)) eqn:Hreg.
  { eexists _, _. split; [done|]. split; [done|]. intros r. split; [done|].
    intros (m & [= ->] & Hk & _). unfold is_regular, is_symlink, info_of in Hreg. simpl in Hreg.
    by rewrite Hk in Hreg. }
  assert (n_kind n = KRegular) as Hk.
  { unfold is_regular, is_symlink, info_of in Hreg. simpl in Hreg. by destruct (n_kind n). }
  rewrite call_none by apply (proj1 Hreads). simpl. unfold follow. simpl. rewrite Hn, Hk. simpl. rewrite Hk.
  destruct (parse_record (n_data n)) as [r0|e] eqn:Hp.
  - destruct (trim_suffix !".json" name ==b ID r0) eqn:Hid; guards; cbn [negb];
      eexists _, _; (split; [done|]); (split; [done|]); intros r; split.
    + intros [= <-]. by exists n.
    + intros (m & [= <-] & _ & Hp2 & _). congruence.
    + done.
    + intros (m & [= <-] & _ & Hp2 & Hi). congruence.
  - eexists _, _. split; [done|]. split; [done|]. intros r. split; [done|].
    intros (m & [= <-] & _ & Hp' & _). congruence.
Qed.

Lemma read_entries_spec names : forall w,
  exists recs probs w', read_entries o s names w = (Ok (recs, probs), w') /\ files w' = files w /\
    (forall r, r ∈ recs <-> exists name, name ∈ names /\ is_record_name name = true /\ entry_holds w name r).
Proof.
  induction names as [|name names IH]; intros w; simpl.
  - exists [], [], w. split; [done|]. split; [done|]. intros r. split; [by intros ?%not_elem_of_nil|].
    by intros (nm & ?%not_elem_of_nil & _).
  - destruct (is_record_name name) eqn:Hname; simpl.
    + unfold os_bind at 1, os_try. destruct (read_entry_spec name w) as (res & w1 & -> & Hf1 & Hres).
      unfold os_bind. destruct (IH w1) as (recs & probs & w2 & -> & Hf2 & Hrecs).
      assert (Hin : forall r, (exists nm, nm ∈ name :: names /\ is_record_name nm = true /\ entry_holds w nm r)
        <-> res = Ok r \/ r ∈ recs).
      { intros r. rewrite Hres, Hrecs. unfold entry_holds. rewrite Hf1. split.
        - intros (nm & [->|Hnm]%elem_of_cons & Hr & He); [by left|]. right. by exists nm.
        - intros [He|(nm & Hnm & Hr & He)]; [exists name|exists nm]; (split; [set_solver|]); done. }
      destruct res as [r0|e]; eexists _, _, w2; (split; [done|]); (split; [congruence|]);
        intros r; rewrite Hin; simpl; [|naive_solver].
      rewrite elem_of_cons. naive_solver.
    + destruct (IH w) as (recs & probs & w2 & -> & Hf2 & Hrecs). exists recs, probs, w2.
      split; [done|]. split; [done|]. intros r. rewrite Hrecs. split.
      * intros (nm & Hnm & ?). exists nm. split; [set_solver|done].
      * intros (nm & [->|Hnm]%elem_of_cons & Hr & He); [congruence|]. by exists nm.
Qed.

Lemma entry_stored w name r :
  is_record_name name = true -> (slash ∉ name) -> entry_holds w name r -> stored w r.
Proof.
  intros Hr Hs (n & Hn & Hk & Hp & Hid). exists n.
  enough (record_path s (ID r) = path_join [InstancesDir s; name]) as -> by done.
  unfold record_path. do 2 f_equal. rewrite <- Hid.
  unfold is_record_name in Hr. apply andb_true_iff in Hr as [_ Hsuf].
  apply has_suffix_spec in Hsuf as [t ->]. by rewrite trim_suffix_app.
Qed.

Lemma stored_entry w r :
  stored w r -> exists name, name ∈ children w (InstancesDir s) /\ is_record_name name = true /\
    entry_holds w name r.
Proof.
  intros Hst. pose proof (stored_id w r Hst) as Hid. destruct Hst as (n & Hn & Hk & Hp).
  exists (ID r ++ !".json"). pose proof (json_name_simple _ Hid) as (Hsl & Hne & _).
  split_and!.
  - apply children_spec. split_and!; [done|done|]. exists n.
    by rewrite <- record_path_eq.
  - unfold is_record_name. rewrite has_suffix_app, andb_true_r. apply negb_true_iff.
    apply idPattern_cons in Hid as (c & rest & -> & Hc & _).
    apply id_byte_not in Hc as [_ Hc]. simpl. apply andb_false_iff. left.
    apply byte_eqb_false. congruence.
  - exists n. split_and!; [done|done|done|]. apply trim_suffix_app.
Qed.

(** Reading the directory returns exactly the stored records, or fails, and
    changes no file. *)
Lemma readAll_spec w :
  directory_at w (InstancesDir s) ->
  exists w', files w' = files w /\
    ((exists e, readAllUnlocked o s w = (Err e, w')) \/
     exists recs probs, readAllUnlocked o s w = (Ok (recs, probs), w') /\
       forall r, r ∈ recs <-> stored w r).
Proof.
  intros (d & Hd & Hdk). unfold readAllUnlocked, os_bind, os_wrap, ReadDir.
  destruct (call_cases o !"open" (InstancesDir s) (fun w =>
    match follow w (InstancesDir s) with
    | Some (d, n) => match n_kind n with
                     | KDirectory => (Ok (children w d), w)
                     | _ => (Err (ESys !"readdirent" (InstancesDir s) ENOTDIR), w)
                     end
    | None => (Err (ESys !"open" (InstancesDir s) ENOENT), w)
    end) w) as [[e ->]|[_ ->]]; [eexists; split; [|left; by eexists]; done|].
  unfold follow. simpl. rewrite Hd, Hdk. simpl. rewrite Hdk.
  destruct (read_entries_spec (children w (InstancesDir s)) (count_call w))
    as (recs & probs & w2 & Hre & Hf & Hin).
  change (children (count_call w) (InstancesDir s)) with (children w (InstancesDir s)). rewrite Hre.
  exists w2. split; [by rewrite Hf|]. right. eexists _, _. split; [done|]. intros r. simpl.
  rewrite merge_sort_Permutation, Hin. split.
  - intros (name & Hc & Hr & He). apply children_spec in Hc as (Hs & _ & _). by eapply entry_stored.
  - intros Hst. exact (stored_entry w r Hst).
Qed.
End Reading.
