(* ===== verification/StoreWrite.v ===== *)
(** * The instance store: writing a record is atomic

    A record is written to a hidden temporary file and renamed into place.
    For every pattern of failing calls, crashes included, the record's path
    holds either what it held before or the complete new record, and no other
    record changes. *)

From stdpp Require Import sorting.
From S2P Require Import Prelude GoString GoUnicode GoConv GoErrors GoPath GoOS Target Helper.
From S2P Require Import InstanceName Store PlainCodec StoreProps.
Open Scope Z_scope.

(** Only the file at [t] may differ. *)
Definition keeps (t : bytes) (w w' : world) : Prop := forall p, p <> t -> files w' !! p = files w !! p.
Definition holds (w : world) (t d : bytes) : Prop :=
  exists n, files w !! t = Some n /\ n_kind n = KRegular /\ n_data n = d.

Lemma keeps_refl t w : keeps t w w.
Proof. done. Qed.
Lemma keeps_files t w w' : files w' = files w -> keeps t w w'.
Proof. intros E p _. by rewrite E. Qed.
Lemma keeps_trans t w1 w2 w3 : keeps t w1 w2 -> keeps t w2 w3 -> keeps t w1 w3.
Proof. intros A B p Hp. rewrite B by done. by apply A. Qed.
Lemma keeps_insert t w n : keeps t w (set_files w (<[t := n]> (files w))).
Proof. intros p Hp. simpl. by rewrite lookup_insert_ne. Qed.
Lemma holds_files w w' t d : files w' = files w -> holds w t d -> holds w' t d.
Proof. intros E (n & Hn & ?). exists n. by rewrite E. Qed.

Lemma remove_keeps o t w : keeps t w (snd (Remove o t w)).
Proof.
  unfold Remove.
  match goal with |- context [call o ?op t ?act] =>
    destruct (call_cases o op t act w) as [[e ->]|[_ ->]] end; [by apply keeps_files|].
  destruct (files _ !! t); [|by apply keeps_files].
  intros p Hp. simpl. by rewrite lookup_delete_ne.
Qed.

Section Steps.
Variables (o : oracle) (f : file).
Let t := f_path f.

(** A step on the temporary file leaves every other file alone and the
    temporary one a regular file. *)
Definition temp_step {A} (m : os A) (after : bytes -> bytes -> Prop) : Prop :=
  forall w d, holds w t d ->
    keeps t w (snd (m w)) /\ (exists d', holds (snd (m w)) t d') /\
    (forall a, fst (m w) = Ok a -> exists d', after d d' /\ holds (snd (m w)) t d').

Lemma temp_step_pure {A} op (a : A) : temp_step (call o op t (os_ret a)) eq.
Proof.
  intros w d Hd. destruct (call_cases o op t (os_ret a) w) as [[e ->]|[_ ->]]; simpl;
    (split; [by apply keeps_files|]); (split; [exists d; by eapply holds_files|]); [done|].
  intros _ _. exists d. split; [done|]. by eapply holds_files.
Qed.

Lemma temp_step_chmod perm : temp_step (FChmod o f perm) eq.
Proof.
  intros w d Hd. unfold FChmod, Chmod. fold t.
  match goal with |- context [call o ?op t ?act] =>
    destruct (call_cases o op t act w) as [[e ->]|[_ ->]] end; simpl.
  - split; [by apply keeps_files|]. split; [exists d; by eapply holds_files|done].
  - destruct Hd as (n & Hn & Hk & Hdata). unfold follow. simpl. rewrite Hn, Hk. simpl.
    split; [apply (keeps_insert t (count_call w))|].
    assert (holds (set_files (count_call w) (<[t := {| n_kind := n_kind n; n_ino := n_ino n;
      n_perm := perm; n_mtime := n_mtime n; n_data := n_data n |}]> (files w))) t d) as Hh.
    { eexists. simpl. rewrite lookup_insert_eq. split; [done|]. by split. }
    split; [by exists d|]. intros _ _. by exists d.
Qed.

Lemma temp_step_write data : temp_step (FWrite o f data) (fun d d' => d' = d ++ data).
Proof.
  intros w d (n & Hn & Hk & Hdata). unfold FWrite. fold t. simpl. rewrite Hn.
  assert (forall x, holds (set_files (count_call w)
    (<[t := append_data n x (now w)]> (files w))) t (d ++ x)) as Hput.
  { intros x. eexists. simpl. rewrite lookup_insert_eq. split; [done|]. simpl. by rewrite Hdata. }
  destruct (fault o (calls w) _ t); simpl;
    (split; [apply (keeps_insert t (count_call w))|]); (split; [eexists; apply Hput|]).
  - done.
  - intros _ _. eexists. split; [done|]. apply Hput.
Qed.

Lemma temp_step_wrap {A} b (m : os A) after : temp_step m after -> temp_step (os_wrap b m) after.
Proof.
  intros Hm w d Hd. destruct (Hm w d Hd) as (H1 & H2 & H3). unfold os_wrap.
  destruct (m w) as [[a|e] w']; simpl in *; split_and!; eauto. done.
Qed.

Lemma temp_step_fail {A} e after : temp_step (A := A) (os_fail e) after.
Proof. intros w d Hd. simpl. split; [done|]. split; [by exists d|done]. Qed.

(** [close_after]: a failure closes the file and is passed on. *)
Lemma temp_step_close_after {A} (m : os A) after :
  temp_step m after -> temp_step (close_after o f m) after.
Proof.
  intros Hm w d Hd. destruct (Hm w d Hd) as (H1 & (d' & H2) & H3).
  unfold close_after, os_bind, os_try. destruct (m w) as [[a|e] w'] eqn:E; simpl in *.
  - split; [done|]. split; [by exists d'|]. intros _ _. by apply (H3 a).
  - destruct (temp_step_pure !"close" () w' d' H2) as (H4 & H5 & _).
    unfold FClose. fold t. destruct (call o _ t _ w') as [r w'']; simpl in *.
    split; [by eapply keeps_trans|]. by split.
Qed.

End Steps.

Section Install.
Context `{UnicodeTables} `{RecordCodec} (o : oracle) (dir path : bytes) (f : file) (record : Record_).
Let t := f_path f.
Hypothesis Hne : t <> path.

(** The complete new record stands at the path. *)
Definition installed (w : world) : Prop :=
  exists data, encode_record record = Ok data /\ holds w path data.

(** After the installation: everything but the temporary file and the path
    is as before, the path is old or new, and a success is new and leaves
    no temporary file. *)
Definition outcome (w : world) (r : result ()) (w' : world) : Prop :=
  (forall p, p <> t -> p <> path -> files w' !! p = files w !! p) /\
  (files w' !! path = files w !! path \/ installed w') /\
  (r = Ok () -> installed w' /\ files w' !! t = None).

Lemma outcome_step {A} (m : os A) after k w d :
  temp_step f m after -> holds w t d ->
  (forall a w1 d', keeps t w w1 -> after d d' -> holds w1 t d' -> outcome w1 (fst (k a w1)) (snd (k a w1))) ->
  outcome w (fst (os_bind m k w)) (snd (os_bind m k w)).
Proof.
  intros Hm Hd Hk. destruct (Hm w d Hd) as (H1 & _ & H3). unfold os_bind.
  destruct (m w) as [[a|e] w1]; simpl in *.
  - destruct (H3 a eq_refl) as (d' & Ha & Hd').
    destruct (Hk a w1 d' H1 Ha Hd') as (K1 & K2 & K3). split_and!; [| |done].
    + intros p Hp Hp'. rewrite K1 by done. by apply H1.
    + destruct K2 as [K2|K2]; [left|by right]. rewrite K2. by apply H1.
  - split_and!; [|left|done]; [|by apply H1]. intros p Hp _. by apply H1.
Qed.

Lemma same_outcome w r w1 w2 :
  installed w1 -> files w1 !! t = None -> (forall p, p <> t -> p <> path -> files w1 !! p = files w !! p) ->
  files w2 = files w1 -> outcome w r w2.
Proof.
  intros (data & He & n & Hn & Hk) Ht Hp Hf. unfold outcome, installed, holds. rewrite Hf.
  split_and!; [done|right; by exists data; split; [|exists n]|].
  intros _. split; [by exists data; split; [|exists n]|done].
Qed.

Definition encoded_after (d d' : bytes) : Prop :=
  exists data, encode_record record = Ok data /\ d' = d ++ data.

Lemma temp_step_encode :
  temp_step f (match encode_record record with
               | Ok data => FWrite o f data
               | Err err => os_fail err
               end) encoded_after.
Proof.
  unfold encoded_after. destruct (encode_record record) as [data|e] eqn:He; [|apply temp_step_fail].
  intros w d Hd. destruct (temp_step_write o f data w d Hd) as (H1 & H2 & H3).
  split_and!; [done|done|]. intros a Ha. destruct (H3 a Ha) as (d' & -> & ?).
  eexists. split; [|done]. by exists data.
Qed.

(** The last steps: rename, then sync the directory. *)
Lemma rename_outcome w data :
  encode_record record = Ok data -> holds w t data ->
  let tail := os_bind (os_wrap !"install instance record: " (Rename o t path)) (fun _ =>
    let* directory := os_wrap !"open instance directory: " (OpenFile o dir false false 0) in
    let* r := os_try (FSync o directory) in
    ignore FClose o directory;*
    match r with
    | Ok _ => os_ret ()
    | Err err => os_fail (wrapf !"sync instance directory: " err)
    end) in
  outcome w (fst (tail w)) (snd (tail w)).
Proof.
  intros He (n & Hn & Hk & Hdata) tail.
  assert (Hlate : forall w1, files w1 = <[path := n]> (delete t (files w)) ->
    forall r w2, files w2 = files w1 -> outcome w r w2).
  { intros w1 Hf r w2 Hf2. apply (same_outcome w r w1 w2); [| | |done].
    - exists data. split; [done|]. exists n. rewrite Hf, lookup_insert_eq. done.
    - rewrite Hf, lookup_insert_ne by done. apply lookup_delete_eq.
    - intros p Hp Hp'. rewrite Hf, lookup_insert_ne by done. by apply lookup_delete_ne. }
  destruct (tail w) as [r w'] eqn:Ht. simpl. revert Ht. unfold tail. clear tail.
  set (after := os_bind (os_wrap !"open instance directory: " _) _). unfold os_bind, os_wrap, Rename.
  assert (silent after) as Hfiles  by (unfold after; silent).
  match goal with |- context [call o ?op t ?act] =>
    destruct (call_cases o op t act w) as [[e ->]|[_ ->]] end; simpl.
  { intros [= <- <-]. split_and!; [done|by left|done]. }
  rewrite Hn. intros Ha. pose proof (Hfiles (set_files (count_call w)
    (<[path := n]> (delete t (files w))))) as Hf. simpl in Ha. rewrite Ha in Hf.
  by eapply Hlate; [|exact Hf].
Qed.

Lemma install_outcome w :
  holds w t [] -> outcome w (fst (install o dir path f record w)) (snd (install o dir path f record w)).
Proof.
  intros Hd. unfold install.
  eapply outcome_step; [by apply temp_step_close_after, temp_step_chmod|done|].
  intros _ w1 d1 _ <- H1.
  eapply outcome_step; [by apply temp_step_close_after, temp_step_wrap, temp_step_encode|done|].
  intros _ w2 d2 _ (data & He & ->) H2.
  eapply outcome_step; [by apply temp_step_close_after, temp_step_wrap, temp_step_pure|done|].
  intros _ w3 d3 _ <- H3.
  eapply outcome_step; [by apply temp_step_wrap, temp_step_pure|done|].
  intros _ w4 d4 _ <- H4.
  by apply (rename_outcome w4 data).
Qed.
End Install.

(** ** The temporary file *)

(** A temporary name starts with a dot, so no reader takes it for a record. *)
Definition hidden (dir p : bytes) : Prop := exists name, p = dir_prefix dir ++ !"." ++ name.

Lemma temp_name_simple prefix suffix n :
  (slash ∉ prefix) -> (slash ∉ suffix) -> (4 <= length suffix)%nat ->
  simple_name (prefix ++ format_uint n ++ suffix).
Proof.
  intros Hp Hs Hl. split_and!.
  - intros [Hin|[Hin|Hin]%elem_of_app]%elem_of_app; [done| |done].
    destruct (format_uint_cons n) as (h & t & Hf & Hall). rewrite Hf in Hin.
    rewrite Forall_forall in Hall. apply Hall in Hin. done.
  - intros E%(f_equal length). rewrite !length_app in E. simpl in E. lia.
  - intros E%(f_equal length). rewrite !length_app in E. change (length !".") with 1%nat in E. lia.
  - intros E%(f_equal length). rewrite !length_app in E. change (length !"..") with 2%nat in E. lia.
Qed.

Lemma create_temp_cases o dir prefix suffix : forall tries w,
  (exists e w', create_temp o tries dir prefix suffix w = (Err e, w') /\ files w' = files w) \/
  (exists n f w', create_temp o tries dir prefix suffix w = (Ok f, w') /\
     f_path f = path_join [dir; prefix ++ format_uint n ++ suffix] /\
     files w !! f_path f = None /\ keeps (f_path f) w w' /\ holds w' (f_path f) []).
Proof.
  induction tries as [|tries IH]; intros w; [left; by eexists _, w|].
  cbn [create_temp]. set (n := rand32 o (calls w)). set (path := path_join _).
  assert (Hretry : (exists e w', create_temp o tries dir prefix suffix (count_call w) = (Err e, w') /\
      files w' = files w) \/
    (exists n f w', create_temp o tries dir prefix suffix (count_call w) = (Ok f, w') /\
     f_path f = path_join [dir; prefix ++ format_uint n ++ suffix] /\
     files w !! f_path f = None /\ keeps (f_path f) w w' /\ holds w' (f_path f) []))
    by apply (IH (count_call w)).
  destruct (fault o _ _ path) as [[]|]; try exact Hretry; try (left; by eexists _, (count_call w)).
  change (files (count_call w)) with (files w).
  destruct (files w !! path) as [m|] eqn:Hm; [exact Hretry|].
  right. exists n. eexists. eexists. split; [done|]. simpl. split_and!; [done|done| |].
  - intros p Hp. simpl. by rewrite lookup_insert_ne.
  - eexists. simpl. rewrite lookup_insert_eq. split; [done|]. by split.
Qed.

Section Atomic.
Context `{UnicodeTables} `{RecordCodec} (o : oracle) (s : Store).
Hypothesis Hroot : clean_abs (StateRoot s).

(** What [writeAtomic] may do to the files. *)
Definition written (record : Record_) (w : world) (r : result ()) (w' : world) : Prop :=
  let path := record_path s (ID record) in
  (forall p, p <> path -> files w' !! p = files w !! p \/ hidden (InstancesDir s) p) /\
  (files w' !! path = files w !! path \/ installed path record w') /\
  (r = Ok () -> installed path record w' /\ forall p, p <> path -> files w' !! p = files w !! p).

Lemma no_slash_id id : idPattern id = true -> slash ∉ id.
Proof.
  intros (c & rest & -> & _ & Hall)%idPattern_cons Hin. rewrite Forall_forall in Hall.
  apply Hall, id_byte_not in Hin. by destruct Hin.
Qed.

Lemma temp_hidden id n : idPattern id = true ->
  let t := path_join [InstancesDir s; (!"." ++ id ++ !".") ++ format_uint n ++ !".tmp"] in
  hidden (InstancesDir s) t /\ t <> record_path s id.
Proof.
  intros Hid t.
  assert (Hs : simple_name ((!"." ++ id ++ !".") ++ format_uint n ++ !".tmp")).
  { apply temp_name_simple; [|apply (bool_decide_unpack _); vm_compute; exact I|vm_compute; lia].
    intros [Hin|[Hin|Hin]%elem_of_app]%elem_of_app.
    - revert Hin. apply (bool_decide_unpack _). vm_compute. exact I.
    - by apply (no_slash_id id Hid).
    - revert Hin. apply (bool_decide_unpack _). vm_compute. exact I. }
  assert (t = dir_prefix (InstancesDir s) ++ (!"." ++ id ++ !".") ++ format_uint n ++ !".tmp") as Ht
    by (apply path_join_simple; [by apply instances_clean|done]).
  split.
  - exists (id ++ !"." ++ format_uint n ++ !".tmp"). rewrite Ht. by rewrite <- !app_assoc.
  - rewrite Ht, record_path_eq by done. intros E%app_inv_head.
    apply idPattern_cons in Hid as (c & rest & -> & Hc & _). apply id_byte_not in Hc as [_ Hc].
    simpl in E. by injection E as <-.
Qed.

Lemma written_same record w r w' : files w' = files w -> (exists e, r = Err e) -> written record w r w'.
Proof.
  intros Hf [e ->]. unfold written. rewrite Hf. split_and!; [by left|by left|done].
Qed.

Lemma writeAtomic_written record replace w :
  idPattern (ID record) = true ->
  written record w (fst (writeAtomic o s record replace w)) (snd (writeAtomic o s record replace w)).
Proof.
  intros Hid. destruct (writeAtomic o s record replace w) as [r w'] eqn:Hw. simpl. revert Hw.
  unfold writeAtomic. set (path := record_path s (ID record)).
  assert (silent (check_destination o path replace)) as Hck by (unfold check_destination; silent).
  unfold os_bind at 1. specialize (Hck w).
  destruct (check_destination o path replace w) as [[u|e] w1]; simpl in Hck;
    [|intros [= <- <-]; apply written_same; eauto].
  unfold os_bind at 1, os_wrap, CreateTemp.
  destruct (create_temp_cases o (InstancesDir s) (!"." ++ ID record ++ !".") !".tmp" (Z.to_nat 10000) w1)
    as [(e & w2 & -> & Hf)|(n & f & w2 & -> & Hp & Hnone & Hkeep & Hholds)].
  { intros [= <- <-]. apply written_same; [congruence|eauto]. }
  destruct (temp_hidden (ID record) n Hid) as [Hhid Hne]. rewrite <- Hp in Hhid, Hne. fold path in Hne.
  pose proof (install_outcome o (InstancesDir s) path f record Hne w2 Hholds) as (O1 & O2 & O3).
  unfold os_bind at 1, os_try. destruct (install o (InstancesDir s) path f record w2) as [[[]|e] w3].
  - intros [= <- <-]. simpl in *. destruct (O3 eq_refl) as [O4 O5].
    assert (Hsame : forall p, p <> path -> files w3 !! p = files w !! p).
    { intros p Hpp. destruct (decide (p = f_path f)) as [->|Hpt]; [rewrite O5, <- Hck; done|].
      rewrite O1 by done. rewrite Hkeep by done. by rewrite Hck. }
    split_and!; [by left; apply Hsame|by right|done].
  - unfold os_bind, os_try. pose proof (remove_keeps o (f_path f) w3) as Hk.
    destruct (Remove o (f_path f) w3) as [rr w4]. intros [= <- <-]. simpl in Hk, O2.
    split_and!; [| |done].
    + intros p Hpp. destruct (decide (p = f_path f)) as [->|Hpt]; [by right|left].
      rewrite Hk, O1, Hkeep by done. by rewrite Hck.
    + fold path. assert (files w4 !! path = files w3 !! path) as Hk4 by (apply Hk; congruence).
      destruct O2 as [O2|(data & He & m & Hm & ?)]; [left|right].
      * rewrite Hk4, O2, Hkeep by congruence. by rewrite Hck.
      * exists data. split; [done|]. exists m. by rewrite Hk4.
Qed.
End Atomic.

(** C10: writing a record is atomic under every failure.  Whatever system
    calls fail and however much of a failing write reaches the disk, after
    [writeAtomic] the record's path holds what it held before or the complete
    encoding of the new record; no other file changes except a temporary one
    whose name no reader takes for a record; and success means the new record
    is in place and nothing else changed. *)
Theorem write_atomic_old_or_new `{UnicodeTables} `{RecordCodec} (o : oracle) (s : Store)
    (record : Record_) (replace : bool) (w w' : world) (r : result ())
    (Hroot : clean_abs (StateRoot s)) (Hid : idPattern (ID record) = true)
    (Hw : writeAtomic o s record replace w = (r, w')) :
  written s record w r w'.
Proof. pose proof (writeAtomic_written o s Hroot record replace w Hid) as Hwr. by rewrite Hw in Hwr. Qed.

(** A torn write: the record keeps its old name. *)
Lemma write_atomic_old_or_new_witness :
  let old := demo_record !"abc123" !"old" !"@1" in
  let new := with_name old !"new" in
  let w := snd (Create id no_faults demo_store old empty_world) in
  let '(r, w') := writeAtomic (failing !"write" ENOSPC) demo_store new true w in
  r = Err (wrapf !"encode instance record: " (ESys !"write"
        !"/s/instances/.abc123.25.tmp" ENOSPC)) /\
  written demo_store new w r w'.
Proof.
  intros old new w.
  destruct (writeAtomic (failing !"write" ENOSPC) demo_store new true w) as [r w'] eqn:Hw.
  split.
  - apply (f_equal fst) in Hw. simpl in Hw. rewrite <- Hw. vm_compute. reflexivity.
  - exact (write_atomic_old_or_new (failing !"write" ENOSPC) demo_store new true w w' r demo_root eq_refl Hw).
Defined.
