(* ===== verification/StoreInvariant.v ===== *)
(** * The instance store: its invariant

    No two stored records share an identifier, a name or a tmux window, and no
    record's name is another's identifier, so a selector always means at most
    one instance.  Every operation keeps this, whatever calls fail, as long as
    the calls that read records do not. *)

From stdpp Require Import sorting.
From S2P Require Import Prelude GoString GoUnicode GoUtf8 GoConv GoErrors GoPath GoOS Target.
From S2P Require Import Helper InstanceName Store PlainCodec StoreProps StoreWrite.
Open Scope Z_scope.

Section Invariant.
Context `{UnicodeTables} `{RecordCodec} (sha256 : bytes -> bytes) (s : Store).
Hypothesis Hroot : clean_abs (StateRoot s).

Abbreviation Key := (Key sha256).
Abbreviation stored := (stored s).

(** Two records that may live side by side. *)
Definition compatible (r1 r2 : Record_) : Prop :=
  Name r1 <> Name r2 /\ ID r1 <> Name r2 /\ ID r2 <> Name r1 /\ Key r1 <> Key r2.
Definition consistent (w : world) : Prop :=
  (forall r, stored w r -> storable r) /\
  (forall r1 r2, stored w r1 -> stored w r2 -> ID r1 <> ID r2 -> compatible r1 r2).

Lemma compatible_sym r1 r2 : compatible r1 r2 -> compatible r2 r1.
Proof. intros (A & B & C & D). split_and!; congruence. Qed.

Definition lock_only (p : bytes) : Prop := p = lock_file_path s.

Lemma lock_path_eq : lock_file_path s = dir_prefix (InstancesDir s) ++ !".lock".
Proof.
  unfold lock_file_path. apply path_join_simple; [by apply instances_clean|].
  split_and!; [|done..]. apply (bool_decide_unpack _). vm_compute. exact I.
Qed.

Lemma record_not_hidden id : idPattern id = true -> ~ hidden (InstancesDir s) (record_path s id).
Proof.
  intros Hid [name Hn]. rewrite record_path_eq in Hn by done. apply app_inv_head in Hn.
  apply idPattern_cons in Hid as (c & rest & -> & Hc & _). apply id_byte_not in Hc as [_ Hc].
  simpl in Hn. by injection Hn as ->.
Qed.

Lemma record_not_lock id : idPattern id = true -> ~ lock_only (record_path s id).
Proof.
  intros Hid Hl. apply (record_not_hidden id Hid). exists !"lock". unfold lock_only in Hl.
  rewrite Hl, lock_path_eq. done.
Qed.

Lemma stored_same w w' : grows lock_only w w' -> forall r, stored w' r <-> stored w r.
Proof.
  intros Hg r. split; intros Hr.
  - apply (stored_grows s lock_only w w'); [done| |done]. apply record_not_lock. by eapply stored_id.
  - apply (stored_grows s lock_only w w'); [done| |done]. apply record_not_lock. by eapply stored_id.
Qed.

Lemma stored_files w w' : files w' = files w -> forall r, stored w' r <-> stored w r.
Proof. intros Hf. apply stored_same. by apply grows_files. Qed.

Lemma consistent_iff w w' : (forall r, stored w' r <-> stored w r) -> consistent w -> consistent w'.
Proof.
  intros Hs [A B]. split.
  - intros r Hr. apply A. by apply Hs.
  - intros r1 r2 H1 H2. apply B; by apply Hs.
Qed.

(** ** Installing a record *)

Lemma installed_stored record w :
  storable record -> Record_Validate record = None ->
  installed (record_path s (ID record)) record w -> stored w record.
Proof.
  intros Hst Hv (data & He & n & Hn & Hk & Hd). exists n. split_and!; [done|done|].
  destruct (decode_encode record Hst) as (data' & rest & He' & Hf & Hnext).
  rewrite He in He'. injection He' as <-. unfold parse_record. rewrite Hd, Hf, Hnext.
  cbn [errors_is]. rewrite bool_decide_true by done. cbn [negb]. by rewrite Hv.
Qed.

Lemma written_stored record w r w' :
  storable record -> Record_Validate record = None -> written s record w r w' ->
  (forall r0, stored w' r0 -> stored w r0 \/ r0 = record) /\
  (forall r0, stored w r0 -> ID r0 <> ID record -> stored w' r0) /\
  (r = Ok () -> stored w' record).
Proof.
  intros Hst Hv (W1 & W2 & W3). pose proof (valid_id record Hv) as Hid.
  assert (Hother : forall r0, idPattern (ID r0) = true -> ID r0 <> ID record ->
    files w' !! record_path s (ID r0) = files w !! record_path s (ID r0)).
  { intros r0 Hid0 Hne. destruct (W1 (record_path s (ID r0))) as [->|Hh]; [|done|].
    - intros E. apply record_path_inj in E; try done.
    - exfalso. by apply (record_not_hidden (ID r0)). }
  split_and!.
  - intros r0 Hr0. pose proof (stored_id s w' r0 Hr0) as Hid0.
    destruct (decide (ID r0 = ID record)) as [E|Hne].
    + destruct W2 as [W2|Hi].
      * left. destruct Hr0 as (n & Hn & ?). exists n. rewrite E in Hn |- *. by rewrite W2 in Hn.
      * right. eapply (stored_unique s w'); [done|by apply installed_stored|done].
    + left. destruct Hr0 as (n & Hn & ?). exists n. by rewrite Hother in Hn.
  - intros r0 Hr0 Hne. pose proof (stored_id s w r0 Hr0) as Hid0.
    destruct Hr0 as (n & Hn & ?). exists n. by rewrite Hother.
  - intros ->. apply installed_stored; [done|done|]. by apply W3.
Qed.

Lemma consistent_put record w w' :
  storable record -> consistent w ->
  (forall r0, stored w' r0 -> stored w r0 \/ r0 = record) ->
  (forall r0, stored w r0 -> ID r0 <> ID record -> compatible r0 record) ->
  consistent w'.
Proof.
  intros Hst [A B] Hsub Hc. split.
  - intros r0 [Hr| ->]%Hsub; [by apply A|done].
  - intros r1 r2 [H1| ->]%Hsub [H2| ->]%Hsub Hne; [by apply B|by apply Hc| |done].
    apply compatible_sym, Hc; [done|congruence].
Qed.

Lemma first_conflict_None check records :
  first_conflict check records = None <-> forall r, r ∈ records -> check r = None.
Proof.
  induction records as [|r records IH]; simpl.
  - split; [|done]. intros _ r Hr. by apply not_elem_of_nil in Hr.
  - destruct (check r) eqn:E.
    + split; [done|]. intros Hall. rewrite Hall in E by set_solver. done.
    + rewrite IH. split; intros Hall r0; [|intros Hr; apply Hall; set_solver].
      intros [->|Hr]%elem_of_cons; [done|by apply Hall].
Qed.

Lemma create_conflict_None record r :
  create_conflict sha256 record r = None -> ID r <> ID record /\ compatible r record.
Proof.
  unfold create_conflict, compatible. intros Hc. repeat (case_hyp Hc; simplify_eq). guards.
  split_and!; congruence.
Qed.

Lemma rename_conflict_None id name r :
  rename_conflict id name r = None -> ID r <> id -> Name r <> name /\ ID r <> name.
Proof.
  unfold rename_conflict. intros Hc Hne. rewrite (bool_decide_false (ID r = id)) in Hc by done.
  cbn [negb] in Hc. rewrite !andb_true_r in Hc. repeat (case_hyp Hc; simplify_eq). guards. done.
Qed.

Section WithOracle.
Variable o : oracle.
Hypothesis Hreads : reads_ok o.

(** A body under the lock: if it keeps a property of the stored records,
    so does the whole operation, and its result is the body's. *)
Lemma locked_by_post {A} (body : os A) (P : world -> result A -> world -> Prop) w :
  (forall w1, (forall r, stored w1 r <-> stored w r) -> directory_at w1 (InstancesDir s) ->
     P w (fst (body w1)) (snd (body w1))) ->
  (forall r w2 w3, files w3 = files w2 -> P w r w2 -> P w r w3) ->
  (forall e w', (forall r, stored w' r <-> stored w r) -> P w (Err e) w') ->
  P w (fst (locked_by o s body w)) (snd (locked_by o s body w)).
Proof.
  intros Hbody Hext Herr.
  destruct (locked_by_cases o s lock_only body w eq_refl) as
    [(e & w' & -> & Hg)|(w1 & w' & Hg & Hd & -> & Hf)]; simpl.
  - apply Herr. by apply stored_same.
  - eapply Hext; [done|]. apply Hbody; [by apply stored_same|done].
Qed.

Definition create_post (record : Record_) (w : world) (r : result ()) (w' : world) : Prop :=
  consistent w' /\ (forall r0, stored w r0 -> stored w' r0) /\
  (forall r0, stored w' r0 -> stored w r0 \/ r0 = record) /\
  (r = Ok () -> stored w' record /\ forall r0, stored w r0 -> ID r0 <> ID record /\ compatible r0 record).

Lemma create_spec record w :
  storable record -> consistent w ->
  create_post record w (fst (Create sha256 o s record w)) (snd (Create sha256 o s record w)).
Proof.
  intros Hst Hc.
  assert (Hsame : forall e w', (forall r, stored w' r <-> stored w r) -> create_post record w (Err e) w').
  { intros e w' Hw. split_and!; [by eapply consistent_iff|naive_solver..]. }
  unfold Create. destruct (Record_Validate record) as [e|] eqn:Hv; [by apply Hsame|].
  apply locked_by_post; [|intros r w2 w3 Hf|done].
  - intros w1 Hw1 Hd. destruct (readAll_spec o s Hroot Hreads w1 Hd) as
      (w2 & Hf2 & [[e Hr]|(recs & probs & Hr & Hin)]); unfold os_bind; rewrite Hr.
    { apply Hsame. intros r. by rewrite (stored_files w1 w2 Hf2 r). }
    assert (Hw2 : forall r, stored w2 r <-> stored w r)
      by (intros r; by rewrite (stored_files w1 w2 Hf2 r)).
    destruct (first_conflict _ _) as [e|] eqn:Hfc; [by apply Hsame|].
    assert (Hcomp : forall r0, stored w r0 -> ID r0 <> ID record /\ compatible r0 record).
    { intros r0 Hr0. eapply create_conflict_None, first_conflict_None; [exact Hfc|].
      simpl. apply Hin, Hw1, Hr0. }
    pose proof (writeAtomic_written o s Hroot record false w2 (valid_id _ Hv)) as Hwr.
    destruct (writeAtomic o s record false w2) as [[[]|e] w3]; simpl in *;
      destruct (written_stored record w2 _ w3 Hst Hv Hwr) as (S1 & S2 & S3);
      (split_and!; [| | |try done]).
    all: try (eapply (consistent_put record w2); [done|by eapply consistent_iff|done|];
              intros r0 Hr0%Hw2 _; by apply Hcomp).
    all: try (intros r0 Hr0; apply S2; [by apply Hw2|by apply Hcomp]).
    all: try (intros r0 [Hr0|Hr0]%S1; [left; by apply Hw2|by right]).
    intros _. split; [by apply S3|done].
  - intros (P1 & P2 & P3 & P4). pose proof (stored_files w2 w3 Hf) as Hs. split_and!.
    + by eapply consistent_iff.
    + intros r0 Hr0. by apply Hs, P2.
    + intros r0 Hr0. by apply P3, Hs.
    + intros Hr. destruct (P4 Hr). split; [by apply Hs|done].
Qed.

(** The generic outcome of an operation: the invariant holds and every
    record present comes from before or is described by [Q]. *)
Definition keeps_post (Q : Record_ -> Prop) (w w' : world) : Prop :=
  consistent w' /\ (forall r0, stored w' r0 -> stored w r0 \/ Q r0).

Lemma keeps_post_same Q w w' : consistent w -> (forall r, stored w' r <-> stored w r) -> keeps_post Q w w'.
Proof. intros Hc Hw. split; [by eapply consistent_iff|]. intros r0 Hr0. left. by apply Hw. Qed.

Lemma keeps_post_files Q w w2 w3 : files w3 = files w2 -> keeps_post Q w w2 -> keeps_post Q w w3.
Proof.
  intros Hf [P1 P2]. pose proof (stored_files w2 w3 Hf) as Hs. split; [by eapply consistent_iff|].
  intros r0 Hr0. by apply P2, Hs.
Qed.

Lemma validate_name_utf8 name : ValidateName name = None -> valid_utf8 name = true.
Proof. unfold ValidateName. intros Hv. repeat (case_hyp Hv; simplify_eq/=); guards; done. Qed.

Lemma storable_with_name r name :
  storable r -> valid_utf8 name = true -> storable (with_name r name).
Proof.
  intros (Hs & ?) Hn. split; [|done]. rewrite !Forall_cons in *. simpl. naive_solver.
Qed.

Lemma validate_with_name r name :
  Record_Validate r = None -> ValidateName name = None -> Record_Validate (with_name r name) = None.
Proof.
  unfold Record_Validate. cbn [with_name Version ID Name PID ControlSocket StartedAt RecDirectory RecTarget].
  intros Hv ->. repeat (case_hyp Hv; simplify_eq/=); done.
Qed.

Lemma stored_valid w r : stored w r -> Record_Validate r = None.
Proof. intros (n & _ & _ & Hp). by eapply parse_record_valid. Qed.

(** What a rename may leave. *)
Definition renamed (id : bytes) (pid : Z) (name : bytes) (w : world) (r0 : Record_) : Prop :=
  exists current, stored w current /\ ID current = id /\ PID current = pid /\ r0 = with_name current name.

Lemma rename_spec id pid name w :
  consistent w ->
  keeps_post (renamed id pid name w) w (snd (RenameIfPID o s id pid name w)) /\
  (fst (RenameIfPID o s id pid name w) = Ok true ->
   exists r0, renamed id pid name w r0 /\ stored (snd (RenameIfPID o s id pid name w)) r0) /\
  (forall r0, stored w r0 -> ID r0 <> id -> stored (snd (RenameIfPID o s id pid name w)) r0).
Proof.
  intros Hc.
  set (P := fun w (r : result bool) w' => keeps_post (renamed id pid name w) w w' /\
    (r = Ok true -> exists r0, renamed id pid name w r0 /\ stored w' r0) /\
    (forall r0, stored w r0 -> ID r0 <> id -> stored w' r0)).
  assert (Hsame : forall r w', r <> Ok true -> (forall r, stored w' r <-> stored w r) -> P w r w').
  { intros r w' Hr Hw. split_and!; [by apply keeps_post_same|done|]. intros r0 Hr0 _. by apply Hw. }
  change (P w (fst (RenameIfPID o s id pid name w)) (snd (RenameIfPID o s id pid name w))).
  unfold RenameIfPID. case_goal; [by apply Hsame|].
  destruct (ValidateName name) as [e|] eqn:Hv; [by apply Hsame|].
  apply locked_by_post; [|intros r w2 w3 Hf|by intros; apply Hsame].
  - intros w1 Hw1 Hd. destruct (readAll_spec o s Hroot Hreads w1 Hd) as
      (w2 & Hf2 & [[e Hr]|(recs & probs & Hr & Hin)]); unfold os_bind; rewrite Hr.
    { apply Hsame; [done|]. intros r. by rewrite (stored_files w1 w2 Hf2 r). }
    assert (Hw2 : forall r, stored w2 r <-> stored w r)
      by (intros r; by rewrite (stored_files w1 w2 Hf2 r)).
    destruct (first_conflict _ _) as [e|] eqn:Hfc; [by apply Hsame|].
    destruct (last _) as [current|] eqn:Hl; [|by apply Hsame].
    apply last_Some_elem_of, list_elem_of_filter in Hl as [[Hid Hpid] Hcur]. simpl in Hcur.
    apply Hin, Hw1 in Hcur.
    assert (Hother : forall r0, stored w r0 -> ID r0 <> ID (with_name current name) ->
      compatible r0 (with_name current name)).
    { intros r0 Hr0 Hne. simpl in Hne.
      destruct (proj2 Hc current r0 Hcur Hr0) as (C1 & C2 & C3 & C4); [congruence|].
      destruct (rename_conflict_None id name r0) as [N1 N2].
      - eapply first_conflict_None; [exact Hfc|]. simpl. by apply Hin, Hw1.
      - congruence.
      - split_and!; simpl; [congruence..|]. intros E. apply C4. symmetry. exact E. }
    pose proof (storable_with_name current name (proj1 Hc _ Hcur) (validate_name_utf8 _ Hv)) as Hst.
    pose proof (validate_with_name current name (stored_valid w _ Hcur) Hv) as Hval.
    pose proof (writeAtomic_written o s Hroot (with_name current name) true w2
      (valid_id _ Hval)) as Hwr.
    destruct (writeAtomic o s (with_name current name) true w2) as [[[]|e] w3]; simpl in *;
      destruct (written_stored (with_name current name) w2 _ w3 Hst Hval Hwr) as (S1 & S2 & S3);
      (split_and!; [split| |]); try done.
    all: try (eapply (consistent_put (with_name current name) w2);
              [done|by eapply consistent_iff|done|]; intros r0 Hr0%Hw2 Hne; by apply Hother).
    all: try (intros r0 [Hr0| ->]%S1; [left; by apply Hw2|right; by exists current]).
    all: try (intros r0 Hr0 Hne; apply S2; [by apply Hw2|]; simpl; congruence).
    intros _. exists (with_name current name). split; [by exists current|by apply S3].
  - intros (P1 & P2 & P3). pose proof (stored_files w2 w3 Hf) as Hs.
    split_and!; [by eapply keeps_post_files| |].
    + intros Hr. destruct (P2 Hr) as (r0 & ? & ?). exists r0. split; [done|by apply Hs].
    + intros r0 Hr0 Hne. by apply Hs, P3.
Qed.

(** ** Removing *)

Lemma remove_record_cases path w :
  (files (snd (remove_record o path w)) = files w /\
   (fst (remove_record o path w) = Ok () -> files w !! path = None)) \/
  (fst (remove_record o path w) = Ok () /\ files (snd (remove_record o path w)) = delete path (files w)).
Proof.
  unfold remove_record, os_bind, os_try, Remove, call.
  destruct (fault o (calls w) !"remove" path) as [e|] eqn:Hf.
  - left. simpl. destruct (is_not_exist _) eqn:Hn; [|done]. exfalso.
    unfold is_not_exist in Hn. simpl in Hn. guards. subst e. by apply (proj2 Hreads) in Hf.
  - simpl. destruct (files w !! path); simpl; [by right|by left].
Qed.

Lemma stored_deleted id w w' :
  idPattern id = true -> files w' = delete (record_path s id) (files w) ->
  forall r, stored w' r <-> stored w r /\ ID r <> id.
Proof.
  intros Hid Hf r. unfold StoreProps.stored. split.
  - intros (n & Hn & Hk & Hp). rewrite Hf in Hn. apply lookup_delete_Some in Hn as [Hne Hn].
    split; [by exists n|]. congruence.
  - intros [(n & Hn & Hk & Hp) Hne]. exists n. rewrite Hf. split; [|done].
    rewrite lookup_delete_ne; [done|]. intros E. apply Hne.
    apply record_path_inj in E; [done|done|done|]. by eapply valid_id, parse_record_valid.
Qed.

Lemma remove_consistent id w w' :
  (forall r, stored w' r <-> stored w r /\ ID r <> id) -> consistent w -> consistent w'.
Proof.
  intros Hs [A B]. split.
  - intros r Hr. by apply A, Hs.
  - intros r1 r2 H1%Hs H2%Hs. apply B; naive_solver.
Qed.

(** Every stored record survives, except that the one named [id] may go. *)
Definition remove_post (id : bytes) (w w' : world) : Prop :=
  consistent w' /\ (forall r, stored w' r -> stored w r) /\
  (forall r, stored w r -> ID r <> id -> stored w' r).

Lemma remove_post_same id w w' : consistent w -> (forall r, stored w' r <-> stored w r) -> remove_post id w w'.
Proof. intros Hc Hw. split_and!; [by eapply consistent_iff|naive_solver..]. Qed.

Lemma remove_post_files id w w2 w3 : files w3 = files w2 -> remove_post id w w2 -> remove_post id w w3.
Proof.
  intros Hf (P1 & P2 & P3). pose proof (stored_files w2 w3 Hf) as Hs. split_and!.
  - by eapply consistent_iff.
  - intros r Hr. by apply P2, Hs.
  - intros r Hr Hne. by apply Hs, P3.
Qed.

Lemma remove_record_post id w w1 :
  idPattern id = true -> consistent w -> (forall r, stored w1 r <-> stored w r) ->
  remove_post id w (snd (remove_record o (record_path s id) w1)).
Proof.
  intros Hid Hc Hw. destruct (remove_record_cases (record_path s id) w1) as [[Hf _]|[_ Hf]].
  - apply remove_post_same; [done|]. intros r. by rewrite (stored_files _ _ Hf r).
  - pose proof (stored_deleted id w1 _ Hid Hf) as Hd.
    assert (Hd' : forall r, stored (snd (remove_record o (record_path s id) w1)) r <->
      stored w r /\ ID r <> id) by (intros r; rewrite Hd; by rewrite Hw).
    split_and!; [by eapply remove_consistent|naive_solver..].
Qed.

Lemma remove_spec id w : consistent w -> remove_post id w (snd (RemoveInstance o s id w)).
Proof.
  intros Hc. unfold RemoveInstance. destruct (idPattern id) eqn:Hid; simpl;
    [|by apply remove_post_same].
  apply (locked_by_post _ (fun w _ w' => remove_post id w w')).
  - intros w1 Hw1 _. by apply remove_record_post.
  - intros _. apply remove_post_files.
  - intros e w'. by apply remove_post_same.
Qed.

Lemma readRecord_cases path w :
  files (snd (readRecord o path w)) = files w /\
  (forall r, fst (readRecord o path w) = Ok r ->
     exists p n, follow w path = Some (p, n) /\ n_kind n = KRegular /\ parse_record (n_data n) = Ok r).
Proof.
  unfold readRecord, os_bind, ReadFile. rewrite call_none by apply (proj1 Hreads).
  change (follow (count_call w) path) with (follow w path).
  destruct (follow w path) as [[p n]|] eqn:Hf; simpl; [|by split].
  destruct (n_kind n) eqn:Hk; simpl; split; try done. intros r Hr. by exists p, n.
Qed.

(** Removing on behalf of a process: only its own record goes. *)
Lemma remove_if_pid_spec id pid w :
  consistent w ->
  remove_post id w (snd (RemoveIfPID o s id pid w)) /\
  (forall r, stored w r -> ID r = id -> PID r <> pid -> stored (snd (RemoveIfPID o s id pid w)) r) /\
  (fst (RemoveIfPID o s id pid w) = Ok true ->
   exists r, stored w r /\ ID r = id /\ PID r = pid /\ ~ stored (snd (RemoveIfPID o s id pid w)) r).
Proof.
  intros Hc.
  set (P := fun w (res : result bool) w' => remove_post id w w' /\
    (forall r, stored w r -> ID r = id -> PID r <> pid -> stored w' r) /\
    (res = Ok true -> exists r, stored w r /\ ID r = id /\ PID r = pid /\ ~ stored w' r)).
  assert (Hsame : forall r w', r <> Ok true -> (forall r, stored w' r <-> stored w r) -> P w r w').
  { intros r w' Hr Hw. split_and!; [by apply remove_post_same|naive_solver|done]. }
  change (P w (fst (RemoveIfPID o s id pid w)) (snd (RemoveIfPID o s id pid w))).
  unfold RemoveIfPID. destruct (idPattern id) eqn:Hid; cbn [negb]; [|by apply Hsame].
  case_goal; [by apply Hsame|].
  apply locked_by_post; [|intros r w2 w3 Hf|by intros; apply Hsame].
  - intros w1 Hw1 _. set (path := record_path s id).
    match goal with |- P w (fst (?m w1)) _ => destruct (m w1) as [res w'] eqn:E end. simpl.
    revert E. unfold os_bind at 1, os_try at 1, Lstat.
    rewrite call_none by apply (proj1 Hreads).
    change (files (count_call w1)) with (files w1).
    destruct (files w1 !! path) as [n|] eqn:Hn; [|intros [= <- <-]; by apply Hsame].
    destruct (negb (is_regular (info_of n)) || is_symlink (info_of n)) eqn:Hreg;
      [intros [= <- <-]; by apply Hsame|].
    assert (n_kind n = KRegular) as Hk.
    { unfold is_regular, is_symlink, info_of in Hreg. simpl in Hreg. by destruct (n_kind n). }
    destruct (readRecord_cases path (count_call w1)) as [Hfr Hrr]. unfold os_bind at 1.
    destruct (readRecord o path (count_call w1)) as [[r0|e] w2]; simpl in Hfr, Hrr.
    2:{ intros [= <- <-]. apply Hsame; [done|]. intros r. by rewrite (stored_files w1 w2 Hfr r). }
    destruct (Hrr r0 eq_refl) as (p & m & Hfol & _ & Hp). clear Hrr.
    unfold follow in Hfol. simpl in Hfol. rewrite Hn, Hk in Hfol. injection Hfol as <- <-.
    assert (Hw2 : forall r, stored w2 r <-> stored w r)
      by (intros r; by rewrite (stored_files w1 w2 Hfr r)).
    destruct (negb (ID r0 ==b id) || negb (PID r0 =? pid)) eqn:Hne;
      [intros [= <- <-]; by apply Hsame|]. apply orb_false_iff in Hne as [Hri Hrp]. guards.
    assert (Hst : stored w r0).
    { apply Hw1. exists n. by rewrite Hri. }
    pose proof (remove_record_post id w w2 Hid Hc Hw2) as Hpost. fold path in Hpost.
    assert (Hpid : forall r, stored w r -> ID r = id -> PID r <> pid -> False).
    { intros r Hr Hri' Hrp'. apply Hrp'. by rewrite (stored_unique s w r r0) by congruence. }
    pose proof (remove_record_cases path w2) as Hcases. unfold os_bind.
    destruct (remove_record o path w2) as [[[]|e] w3]; simpl in *; intros [= <- <-];
      (split_and!; [done|intros; exfalso; by eapply Hpid|]); [|done].
    intros _. exists r0. split_and!; [done|done|done|]. intros (n3 & Hn3 & _).
    rewrite Hri in Hn3. fold path in Hn3. destruct Hcases as [[Hf Hnone]|[_ Hf]].
    + specialize (Hnone eq_refl). congruence.
    + rewrite Hf, lookup_delete_eq in Hn3. done.
  - intros (P1 & P2 & P3). pose proof (stored_files w2 w3 Hf) as Hs.
    split_and!; [by eapply remove_post_files| |].
    + intros r0 Hr Hi Hp. by apply Hs, P2.
    + intros Hr. destruct (P3 Hr) as (r0 & ? & ? & ? & Hn). exists r0. split_and!; [done..|].
      intros Hs'. by apply Hn, Hs.
Qed.

End WithOracle.
End Invariant.

(** ** Sequences of operations *)

Inductive store_op :=
| OpCreate (record : Record_)
| OpRename (id : bytes) (pid : Z) (name : bytes)
| OpRemove (id : bytes)
| OpRemoveIfPID (id : bytes) (pid : Z)
| OpReadAll.

Section Sequences.
Context `{UnicodeTables} `{RecordCodec} (sha256 : bytes -> bytes) (s : Store).

Definition run_op (o : oracle) (op : store_op) (w : world) : world :=
  match op with
  | OpCreate record => snd (Create sha256 o s record w)
  | OpRename id pid name => snd (RenameIfPID o s id pid name w)
  | OpRemove id => snd (RemoveInstance o s id w)
  | OpRemoveIfPID id pid => snd (RemoveIfPID o s id pid w)
  | OpReadAll => snd (ReadAll o s w)
  end.

(** A record that the format can carry. *)
Definition op_ok (op : store_op) : Prop :=
  match op with OpCreate record => storable record | _ => True end.

(** One operation of some process, under some pattern of failures. *)
Definition store_step (w w' : world) : Prop :=
  exists o op, reads_ok o /\ op_ok op /\ w' = run_op o op w.
Definition no_records (w : world) : Prop := forall r, ~ stored s w r.

Hypothesis Hroot : clean_abs (StateRoot s).

Lemma readAll_same o w : reads_ok o -> forall r, stored s (snd (ReadAll o s w)) r <-> stored s w r.
Proof.
  intros Hreads.
  apply (locked_by_post s Hroot o (readAllUnlocked o s)
    (fun w _ w' => forall r, stored s w' r <-> stored s w r)).
  - intros w1 Hw1 Hd r.
    destruct (readAll_spec o s Hroot Hreads w1 Hd) as (w2 & Hf & [[e Hr]|(recs & probs & Hr & _)]);
      rewrite Hr; simpl; by rewrite (stored_files s Hroot w1 w2 Hf r).
  - intros _ w2 w3 Hf Hw r. by rewrite (stored_files s Hroot w2 w3 Hf r).
  - done.
Qed.

Lemma run_op_consistent o op w :
  reads_ok o -> op_ok op -> consistent sha256 s w -> consistent sha256 s (run_op o op w).
Proof.
  intros Hreads Hok Hc. destruct op; simpl.
  - by apply create_spec.
  - by apply rename_spec.
  - by apply remove_spec.
  - by apply remove_if_pid_spec.
  - eapply consistent_iff; [|done]. by apply readAll_same.
Qed.

Lemma reachable_consistent w : reachable no_records store_step w -> consistent sha256 s w.
Proof.
  apply reachable_invariant.
  - intros w0 Hw0. split; [intros r Hr|intros r1 r2 Hr]; by apply Hw0 in Hr.
  - intros w1 w2 _ Hc (o & op & Hreads & Hok & ->). by apply run_op_consistent.
Qed.
End Sequences.

(** C11: full selectors stay unique while records can be read.  Starting without
    records, after any sequence of creations of storable records (valid text,
    numbers in range), renames and removals by any processes, with system calls
    failing at any point but those that read a record, any two stored records
    with different identifiers have different names and different tmux windows,
    and neither's name is the other's identifier.  A prefix of an identifier may
    still mean several records, and a record that cannot be read may lose its
    name to another. *)
Theorem store_selectors_unique `{UnicodeTables} `{RecordCodec} (sha256 : bytes -> bytes) (s : Store)
    (w : world) (r1 r2 : Record_)
    (Hroot : clean_abs (StateRoot s))
    (Hw : reachable (no_records s) (store_step sha256 s) w)
    (H1 : stored s w r1) (H2 : stored s w r2) (Hne : ID r1 <> ID r2) :
  Name r1 <> Name r2 /\ ID r1 <> Name r2 /\ ID r2 <> Name r1 /\
  Store.Key sha256 r1 <> Store.Key sha256 r2.
Proof. exact (proj2 (reachable_consistent sha256 s Hroot w Hw) r1 r2 H1 H2 Hne). Qed.

Lemma no_faults_reads : reads_ok no_faults.
Proof. by split. Defined.

Lemma storable_demo id name window :
  valid_utf8 id = true -> valid_utf8 name = true -> valid_utf8 window = true ->
  valid_utf8 (!"/r/" ++ id ++ !".sock") = true -> storable (demo_record id name window).
Proof.
  intros Hi Hn Hw Hc. split; [|by split_and!].
  repeat (apply Forall_cons; split; [done|]). by apply Forall_nil.
Defined.

Lemma store_selectors_unique_witness :
  let a := demo_record !"abc123" !"one" !"@1" in
  let b := demo_record !"def456" !"two" !"@2" in
  let w1 := run_op id demo_store no_faults (OpCreate a) empty_world in
  let w2 := run_op id demo_store no_faults (OpCreate b) w1 in
  let w3 := run_op id demo_store no_faults (OpRename (ID b) 42 !"one") w2 in
  Name b <> !"one" /\ stored demo_store w3 b /\ Name a <> Name b.
Proof.
  intros a b w1 w2 w3.
  assert (Ha : stored demo_store w3 a).
  { eexists. split; [vm_compute; reflexivity|]. split; [reflexivity|vm_compute; reflexivity]. }
  assert (Hb : stored demo_store w3 b).
  { eexists. split; [vm_compute; reflexivity|]. split; [reflexivity|vm_compute; reflexivity]. }
  split; [discriminate|]. split; [exact Hb|].
  refine (proj1 (store_selectors_unique id demo_store w3 a b demo_root _ Ha Hb _)); [|discriminate].
  assert (Hstep : forall w op, op_ok op -> reachable (no_records demo_store) (store_step id demo_store) w ->
    reachable (no_records demo_store) (store_step id demo_store) (run_op id demo_store no_faults op w)).
  { intros w op Hop Hr. eapply reachable_step; [exact Hr|]. exists no_faults, op.
    split; [exact no_faults_reads|]. split; [exact Hop|reflexivity]. }
  apply Hstep; [exact I|]. apply Hstep; [apply storable_demo; reflexivity|].
  apply Hstep; [apply storable_demo; reflexivity|].
  apply reachable_init. intros r (n & Hn & _). discriminate Hn.
Defined.
