(* ===== verification/StoreResolve.v ===== *)
(** * The instance store: selectors and removal

    What [Resolve] finds, what [RemoveIfPID] removes, and two behaviours at
    the edges: a creation that fails late and a record that cannot be read. *)

From stdpp Require Import sorting.
From S2P Require Import Prelude GoString GoUnicode GoConv GoErrors GoPath GoOS Target Helper.
From S2P Require Import InstanceName Store PlainCodec StoreProps StoreWrite StoreInvariant.
Open Scope Z_scope.

(** ** The records read are distinct *)

Section Distinct.
Context `{UnicodeTables} `{RecordCodec} (o : oracle) (s : Store).

Lemma child_name_inv dir p name : child_name dir p = Some name -> p = dir_prefix dir ++ name.
Proof.
  unfold child_name. destruct (has_prefix (dir_prefix dir) p) eqn:E; [|done].
  apply has_prefix_spec in E as [t ->]. rewrite drop_app_length. case_match; [done|]. by intros [= ->].
Qed.

Lemma children_nodup w dir : NoDup (children w dir).
Proof.
  unfold children. rewrite merge_sort_Permutation.
  pose proof (NoDup_fst_map_to_list (files w)) as Hnd.
  change (map fst (map_to_list (files w))) with ((map_to_list (files w)).*1).
  induction Hnd as [|p ps Hp Hnd IH]; simpl; [constructor|].
  destruct (child_name dir p) as [name|] eqn:E; [|done]. constructor; [|done].
  intros (p' & Hp' & E')%list_elem_of_omap. apply child_name_inv in E, E'. by subst.
Qed.

Lemma read_entry_name name w r w' :
  is_record_name name = true -> read_entry o s name w = (Ok r, w') -> name = ID r ++ !".json".
Proof.
  unfold read_entry, os_bind. intros Hn Hr.
  destruct (Lstat _ _ _) as [[info|e] w1]; [|done].
  case_match; [done|]. destruct (readRecord _ _ _) as [[r0|e] w2]; [|done].
  destruct (trim_suffix !".json" name ==b ID r0) eqn:E; [|done]. guards. simpl in Hr. simplify_eq.
  unfold is_record_name in Hn. apply andb_true_iff in Hn as [_ Hs].
  apply has_suffix_spec in Hs as [t ->]. injection Hr as <- _. by rewrite <- E, trim_suffix_app.
Qed.

Lemma read_entries_nodup names : NoDup names -> forall w recs probs w',
  read_entries o s names w = (Ok (recs, probs), w') ->
  NoDup (map ID recs) /\ forall r, r ∈ recs -> (ID r ++ !".json") ∈ names.
Proof.
  induction 1 as [|name names Hn Hnd IH]; intros w recs probs w' Hr; simpl in Hr.
  - injection Hr as <- <- _. split; [constructor|]. intros r ?%not_elem_of_nil. done.
  - destruct (is_record_name name) eqn:Hname; simpl in Hr.
    2:{ apply IH in Hr as [? Hin]. split; [done|]. intros r Hr'. right. by apply Hin. }
    unfold os_bind at 1, os_try in Hr. destruct (read_entry o s name w) as [res w1] eqn:He.
    unfold os_bind in Hr. destruct (read_entries o s names w1) as [[[recs1 probs1]|e] w2] eqn:Hre; [|done].
    apply IH in Hre as [Hnd1 Hin1]. destruct res as [r0|e]; injection Hr as <- <- _.
    + apply read_entry_name in He; [|done]. split.
      * simpl. constructor; [|done]. intros Hin. apply Hn. rewrite He.
        apply list_elem_of_fmap in Hin as (r & E & Hr). rewrite E. by apply Hin1.
      * intros r [->|Hr]%elem_of_cons; [rewrite He; by left|right; by apply Hin1].
    + split; [done|]. intros r Hr. right. by apply Hin1.
Qed.

Lemma readAll_nodup w recs probs w' :
  readAllUnlocked o s w = (Ok (recs, probs), w') -> NoDup recs.
Proof.
  unfold readAllUnlocked, os_bind, os_wrap, ReadDir. intros Hr.
  match type of Hr with context [call o ?op ?p ?act w] =>
    destruct (call_cases o op p act w) as [[e E]|[_ E]]; rewrite E in Hr; clear E end; [done|].
  destruct (follow _ _) as [[d n]|]; [|done]. destruct (n_kind n); try done.
  destruct (read_entries o s _ _) as [[[recs1 probs1]|e] w2] eqn:Hre; [|done]. injection Hr as <- <- _.
  apply read_entries_nodup in Hre as [Hnd _]; [|apply children_nodup].
  rewrite merge_sort_Permutation. by eapply NoDup_fmap_1.
Qed.
End Distinct.

(** ** Resolving a selector *)

Section Resolving.
Context `{UnicodeTables}.

Definition exact_match (selector : bytes) (r : Record_) : Prop := Name r = selector \/ ID r = selector.
Definition prefix_match (selector : bytes) (r : Record_) : Prop := has_prefix selector (ID r) = true.

(** What a selector means among a set of records. *)
Definition resolution (present : Record_ -> Prop) (selector : bytes) (res : result Record_) : Prop :=
  match res with
  | Ok r => present r /\
      ((exact_match selector r /\ forall r', present r' -> exact_match selector r' -> r' = r) \/
       (prefix_match selector r /\ (forall r', present r' -> ~ exact_match selector r') /\
        forall r', present r' -> prefix_match selector r' -> r' = r))
  | Err e =>
      (errors_is ErrNotFound e = true /\
       forall r', present r' -> ~ exact_match selector r' /\ ~ prefix_match selector r') \/
      (errors_is ErrAmbiguous e = true /\ exists r1 r2, present r1 /\ present r2 /\ r1 <> r2 /\
       ((exact_match selector r1 /\ exact_match selector r2) \/
        (prefix_match selector r1 /\ prefix_match selector r2 /\
         forall r', present r' -> ~ exact_match selector r')))
  end.

Lemma filter_two {A} (P : A -> Prop) `{forall x, Decision (P x)} (l : list A) x y rest :
  NoDup l -> filter P l = x :: y :: rest -> x <> y /\ (x ∈ l /\ P x) /\ (y ∈ l /\ P y).
Proof.
  intros Hnd Hf. assert (NoDup (x :: y :: rest)) as Hnd' by (rewrite <- Hf; by apply NoDup_filter).
  split.
  - intros ->. apply NoDup_cons in Hnd' as [Hn _]. set_solver.
  - assert (forall z, z ∈ x :: y :: rest -> z ∈ l /\ P z) as Hin.
    { intros z Hz. rewrite <- Hf in Hz. apply list_elem_of_filter in Hz. naive_solver. }
    split; apply Hin; set_solver.
Qed.

Lemma filter_one {A} (P : A -> Prop) `{forall x, Decision (P x)} (l : list A) x :
  filter P l = [x] -> (x ∈ l /\ P x) /\ forall y, y ∈ l -> P y -> y = x.
Proof.
  intros Hf. split.
  - assert (x ∈ filter P l) as Hx by (rewrite Hf; set_solver). apply list_elem_of_filter in Hx. naive_solver.
  - intros y Hy Hp. assert (y ∈ filter P l) as Hy' by (by apply list_elem_of_filter).
    rewrite Hf in Hy'. set_solver.
Qed.

Lemma filter_none {A} (P : A -> Prop) `{forall x, Decision (P x)} (l : list A) :
  filter P l = [] -> forall y, y ∈ l -> ~ P y.
Proof.
  intros Hf y Hy Hp. assert (y ∈ filter P l) as Hy' by (by apply list_elem_of_filter).
  rewrite Hf in Hy'. by apply not_elem_of_nil in Hy'.
Qed.

Lemma resolve_in_spec records selector :
  NoDup records -> resolution (fun r => r ∈ records) selector (resolve_in records selector).
Proof.
  intros Hnd. unfold resolve_in.
  destruct (filter (fun r => Name r = selector \/ ID r = selector) records) as [|r [|r2 rest]] eqn:He.
  - pose proof (filter_none _ _ He) as Hnone.
    destruct (filter (fun r => has_prefix selector (ID r) = true) records) as [|r [|r2 rest]] eqn:Hp.
    + left. split; [reflexivity|]. intros r Hr. split; [by apply Hnone|].
      exact (filter_none _ _ Hp r Hr).
    + apply filter_one in Hp as [[Hin Hm] Huniq]. split; [done|]. by right.
    + apply (filter_two _ _ _ _ _ Hnd) in Hp as (Hne & [? ?] & [? ?]).
      right. split; [reflexivity|]. exists r, r2. split_and!; [done..|]. by right.
  - apply filter_one in He as [[Hin Hm] Huniq]. split; [done|]. by left.
  - apply (filter_two _ _ _ _ _ Hnd) in He as (Hne & [? ?] & [? ?]).
    right. split; [reflexivity|]. exists r, r2. split_and!; [done..|]. by left.
Qed.
Lemma resolution_iff (P Q : Record_ -> Prop) selector res :
  (forall r, P r <-> Q r) -> resolution P selector res -> resolution Q selector res.
Proof.
  intros Hpq. unfold resolution. destruct res as [r|e].
  - rewrite (Hpq r). intros [? [[? ?]|(? & ? & ?)]]; (split; [done|]); [left|right]; split_and!; try done;
      intros r' Hr'; naive_solver.
  - intros [[? Hall]|(? & r1 & r2 & ? & ? & ? & Hm)]; [left|right]; (split; [done|]).
    + intros r' Hr'. by apply Hall, Hpq.
    + exists r1, r2. split_and!; [by apply Hpq|by apply Hpq|done|].
      destruct Hm as [?|(? & ? & Hn)]; [by left|right]. split_and!; [done|done|].
      intros r' Hr'. by apply Hn, Hpq.
Qed.
End Resolving.

Section ResolveOp.
Context `{UnicodeTables} `{RecordCodec} (o : oracle) (s : Store).
Hypothesis Hroot : clean_abs (StateRoot s).
Hypothesis Hreads : reads_ok o.

Lemma readAll_result w :
  (exists e, fst (ReadAll o s w) = Err e) \/
  (exists recs probs, fst (ReadAll o s w) = Ok (recs, probs) /\ NoDup recs /\
     forall r, r ∈ recs <-> stored s w r).
Proof.
  apply (locked_by_post s Hroot o (readAllUnlocked o s)
    (fun w res _ => (exists e, res = Err e) \/
       (exists recs probs, res = Ok (recs, probs) /\ NoDup recs /\ forall r, r ∈ recs <-> stored s w r))).
  - intros w1 Hw1 Hd.
    destruct (readAll_spec o s Hroot Hreads w1 Hd) as (w2 & Hf & [[e Hr]|(recs & probs & Hr & Hin)]).
    + left. exists e. by rewrite Hr.
    + right. exists recs, probs. rewrite Hr. split; [done|]. split; [by eapply readAll_nodup|].
      intros r. by rewrite Hin.
  - done.
  - intros e w' _. left. by exists e.
Qed.

End ResolveOp.

(** C12: [Resolve] finds what the selector means, and in a consistent store a
    name or a full identifier is never ambiguous.  Unless the directory cannot
    be read, the result is the one record whose name or identifier is the
    selector, else the one whose identifier it begins, else "not found" or
    "ambiguous" exactly when no or several identifiers begin with it; a
    stored record is found by its name and by its identifier. *)
Theorem resolve_means_selector `{UnicodeTables} `{RecordCodec} (sha256 : bytes -> bytes) (o : oracle)
    (s : Store) (selector : bytes) (w : world)
    (Hroot : clean_abs (StateRoot s)) (Hreads : reads_ok o) (Hw : consistent sha256 s w) :
  (exists e, fst (ReadAll o s w) = Err e /\ fst (Resolve o s selector w) = Err e) \/
  (resolution (stored s w) selector (fst (Resolve o s selector w)) /\
   forall r, stored s w r -> exact_match selector r -> fst (Resolve o s selector w) = Ok r).
Proof.
  destruct (readAll_result o s Hroot Hreads w) as [[e He]|(recs & probs & Hr & Hnd & Hin)];
    unfold Resolve, os_bind; destruct (ReadAll o s w) as [res w']; simpl in *; subst res.
  - left. by exists e.
  - right. simpl.
    assert (Hres : resolution (stored s w) selector (resolve_in recs selector))
      by (eapply resolution_iff; [exact Hin|by apply resolve_in_spec]).
    split; [done|]. intros r Hst Hex.
    assert (Huniq : forall r', stored s w r' -> exact_match selector r' -> r' = r).
    { intros r' Hst' Hex'. destruct (decide (ID r' = ID r)) as [E|Hne]; [by eapply stored_unique|].
      destruct (proj2 Hw r' r Hst' Hst Hne) as (N1 & N2 & N3 & _).
      exfalso. destruct Hex as [?|?], Hex' as [?|?]; congruence. }
    destruct (resolve_in recs selector) as [r0|e]; simpl in Hres.
    + destruct Hres as [Hp [[Hex0 _]|(_ & Hno & _)]]; [by rewrite (Huniq r0)|].
      exfalso. by eapply Hno.
    + exfalso. destruct Hres as [[_ Hno]|(_ & r1 & r2 & P1 & P2 & Hne & [[E1 E2]|(_ & _ & Hno)])].
      * by destruct (Hno r Hst).
      * apply Hne. rewrite (Huniq r1), (Huniq r2) by done. done.
      * by eapply Hno.
Qed.

(** ** A store with two records *)

Definition demo_a : Record_ := demo_record !"abc123" !"one" !"@1".
Definition demo_b : Record_ := demo_record !"def456" !"two" !"@2".
Definition demo_world : world :=
  run_op id demo_store no_faults (OpCreate demo_b)
    (run_op id demo_store no_faults (OpCreate demo_a) empty_world).

Lemma demo_world_consistent : consistent id demo_store demo_world.
Proof.
  apply reachable_consistent; [exact demo_root|].
  assert (Hstep : forall w op, op_ok op -> reachable (no_records demo_store) (store_step id demo_store) w ->
    reachable (no_records demo_store) (store_step id demo_store) (run_op id demo_store no_faults op w)).
  { intros w op Hop Hr. eapply reachable_step; [exact Hr|]. exists no_faults, op.
    split; [exact no_faults_reads|]. split; [exact Hop|reflexivity]. }
  apply Hstep; [apply storable_demo; reflexivity|].
  apply Hstep; [apply storable_demo; reflexivity|].
  apply reachable_init. intros r (n & Hn & _). discriminate Hn.
Qed.

Lemma demo_a_stored : stored demo_store demo_world demo_a.
Proof.
  eexists. split; [vm_compute; reflexivity|]. split; [reflexivity|vm_compute; reflexivity].
Qed.

Lemma resolve_means_selector_witness :
  fst (Resolve no_faults demo_store !"one" demo_world) = Ok demo_a.
Proof.
  destruct (resolve_means_selector id no_faults demo_store !"one" demo_world demo_root
              no_faults_reads demo_world_consistent) as [(e & He & _)|[_ Hex]].
  - exfalso. revert He. vm_compute. discriminate.
  - apply Hex; [exact demo_a_stored|left; reflexivity].
Defined.

(** A process removes only its own record.  [RemoveIfPID] keeps every
    record with another identifier and keeps the named record when it belongs
    to another process; when it reports a removal, exactly a record with that
    identifier and PID is gone; and it keeps the store's invariant. *)
Theorem remove_if_pid_own_only `{UnicodeTables} `{RecordCodec} (sha256 : bytes -> bytes) (o : oracle)
    (s : Store) (id : bytes) (pid : Z) (w : world)
    (Hroot : clean_abs (StateRoot s)) (Hreads : reads_ok o) (Hw : consistent sha256 s w) :
  let w' := snd (RemoveIfPID o s id pid w) in
  consistent sha256 s w' /\ (forall r, stored s w' r -> stored s w r) /\
  (forall r, stored s w r -> ID r <> id \/ PID r <> pid -> stored s w' r) /\
  (fst (RemoveIfPID o s id pid w) = Ok true ->
   exists r, stored s w r /\ ID r = id /\ PID r = pid /\ ~ stored s w' r).
Proof.
  destruct (remove_if_pid_spec sha256 s Hroot o Hreads id pid w Hw) as ((R1 & R2 & R3) & R4 & R5).
  cbv zeta. split_and!; [done|done| |done]. intros r Hr Hne.
  destruct (decide (ID r = id)) as [E|]; [|by apply R3]. apply R4; [done|done|naive_solver].
Qed.

Lemma remove_if_pid_own_only_witness :
  stored demo_store (snd (RemoveIfPID no_faults demo_store !"abc123" 7 demo_world)) demo_a.
Proof.
  refine (proj1 (proj2 (proj2 (remove_if_pid_own_only Datatypes.id no_faults demo_store !"abc123" 7 demo_world
            demo_root no_faults_reads demo_world_consistent))) demo_a demo_a_stored _).
  right. discriminate.
Defined.

(** ** Edges *)

(** The directory's sync fails after the rename: [Create] reports an error and
    the record stays. *)
Definition sync_fails : oracle :=
  {| fault := fun _ op path => if (op ==b !"sync") && (path ==b !"/s/instances") then Some EIO else None;
     torn := fun _ => 0%nat; rand32 := fun n => Z.of_nat n |}.

Example create_error_leaves_record :
  exists e w', Create id sync_fails demo_store demo_a empty_world = (Err e, w') /\
    stored demo_store w' demo_a.
Proof.
  destruct (Create id sync_fails demo_store demo_a empty_world) as [[u|e] w'] eqn:Hc.
  - exfalso. apply (f_equal fst) in Hc. revert Hc. vm_compute. discriminate.
  - exists e, w'. split; [done|].
    assert (w' = snd (Create id sync_fails demo_store demo_a empty_world)) as -> by (by rewrite Hc).
    eexists. split; [vm_compute; reflexivity|]. split; [reflexivity|vm_compute; reflexivity].
Qed.

(** A record that cannot be read is passed over: a second record takes its
    name. *)
Definition read_fails : oracle :=
  {| fault := fun _ op path => if (op ==b !"read") && (path ==b !"/s/instances/abc123.json")
                               then Some EIO else None;
     torn := fun _ => 0%nat; rand32 := fun n => Z.of_nat n |}.

Example unreadable_record_loses_its_name :
  let other := demo_record !"def456" !"one" !"@2" in
  let w := run_op id demo_store no_faults (OpCreate demo_a) empty_world in
  fst (Create id read_fails demo_store other w) = Ok () /\
  stored demo_store (snd (Create id read_fails demo_store other w)) demo_a /\
  stored demo_store (snd (Create id read_fails demo_store other w)) other.
Proof.
  cbv zeta. split; [vm_compute; reflexivity|].
  split; (eexists; split; [vm_compute; reflexivity|]; split; [reflexivity|vm_compute; reflexivity]).
Qed.
