(* ===== verification/LeaseProps.v ===== *)
(** * Leases: one step at a time, and what pruning spares

    While a worker holds the lock on its lease file nobody else acquires the
    lease, everybody sees it held, and pruning removes neither the lease nor
    the diagnostics of the instance. *)

From stdpp Require Import sorting.
From S2P Require Import Prelude GoString GoUnicode GoConv GoErrors GoPath GoOS Target Helper.
From S2P Require Import InstanceName Store PlainCodec StoreProps StoreWrite StoreInvariant.
From S2P Require Import StoreResolve Lease.
Open Scope Z_scope.

(** ** Keeping files and locks *)

(** Files outside [T] stay, with their contents, and the lock on [ino] stays. *)
Definition kept (ino : Z) (T : bytes -> Prop) (w w' : world) : Prop :=
  (forall p n, ~ T p -> files w !! p = Some n ->
     exists n', files w' !! p = Some n' /\ same_contents n n') /\
  (ino ∈ locked w -> ino ∈ locked w').

#[export] Instance kept_preorder ino T : CallPreorder (kept ino T).
Proof.
  split.
  - intros w. split; [|done]. eauto using same_contents_refl.
  - intros w1 w2 w3 [A1 B1] [A2 B2]. split; [|auto]. intros p n Hp Hn.
    destruct (A1 p n Hp Hn) as (n' & Hn' & Hc). destruct (A2 p n' Hp Hn') as (n'' & ? & ?).
    eauto using same_contents_trans.
  - intros w. split; [|done]. eauto using same_contents_refl.
Qed.

Definition same_locks (w w' : world) : Prop := locked w' = locked w.
#[export] Instance same_locks_preorder : CallPreorder same_locks.
Proof. split; unfold same_locks; [done|congruence|done]. Qed.

Section Kept.
Context (o : oracle) (ino : Z) (T : bytes -> Prop).

Lemma kept_of_grows X w w' : grows X w w' -> same_locks w w' -> kept ino T w w'.
Proof.
  intros [Hg _] Hl. split; [|unfold same_locks in Hl; by rewrite Hl]. intros p n _. apply Hg.
Qed.

Lemma kept_grows {A} X (m : os A) :
  only_grows X m -> respects same_locks m -> respects (kept ino T) m.
Proof. intros Hg Hl w. eapply kept_of_grows; [apply Hg|apply Hl]. Qed.

Lemma same_locks_mkdir_all path perm : respects same_locks (MkdirAll o path perm).
Proof.
  apply respects_call; [apply _|]. generalize (S (length path)). intros fuel. revert path.
  induction fuel as [|fuel IH]; intros path w; simpl; [done|].
  destruct (follow w path) as [[p n]|]; [by destruct (n_kind n)|].
  destruct (files w !! path); [done|].
  case_bool_decide; simpl; [by destruct (files w !! path) as [[[] ? ? ? ?]|]|].
  specialize (IH (path_dir path) w). destruct (mkdir_all fuel (path_dir path) perm w) as [[u|e] w1];
    simpl in *; [|done]. by destruct (files w1 !! path) as [[[] ? ? ? ?]|].
Qed.
Lemma same_locks_chmod path perm : respects same_locks (Chmod o path perm).
Proof. apply respects_call; [apply _|]. intros w. by destruct (follow w path) as [[]|]. Qed.
Lemma same_locks_open path create nofollow perm : respects same_locks (OpenFile o path create nofollow perm).
Proof. apply respects_call; [apply _|]. intros w. by repeat case_match. Qed.

Lemma kept_mkdirPrivate path : respects (kept ino T) (mkdirPrivate o path).
Proof.
  apply (kept_grows (fun _ => False)).
  - unfold mkdirPrivate. grows.
  - unfold mkdirPrivate. respects_with ltac:(idtac; first
      [ apply same_locks_mkdir_all | apply same_locks_chmod | typeclasses eauto ]).
Qed.
Lemma kept_open path create nofollow perm : respects (kept ino T) (OpenFile o path create nofollow perm).
Proof.
  apply (kept_grows (fun p => p = path)); [by apply only_grows_open|apply same_locks_open].
Qed.
Lemma kept_remove path : T path -> respects (kept ino T) (Remove o path).
Proof.
  intros Ht. apply respects_call; [apply _|]. intros w. destruct (files w !! path); [|apply cp_refl].
  split; [|done]. intros p m Hp Hm. exists m. split; [|apply same_contents_refl]. simpl.
  rewrite lookup_delete_ne; [done|]. by intros <-.
Qed.
Lemma kept_flock_nb f : respects (kept ino T) (FlockNB o f).
Proof.
  apply respects_call; [apply _|]. intros w. case_match; [apply cp_refl|].
  split; [eauto using same_contents_refl|]. simpl. set_solver.
Qed.
Lemma kept_unlock_other op path i : i <> ino ->
  respects (kept ino T) (call o op path (fun w => (Ok (), set_locked w (locked w ∖ {[ i ]})))).
Proof.
  intros Hi. apply respects_call; [apply _|]. intros w.
  split; [eauto using same_contents_refl|]. simpl. set_solver.
Qed.
End Kept.

Ltac kept :=
  respects_with ltac:(idtac; first
    [ apply kept_mkdirPrivate | apply kept_open | apply kept_flock_nb
    | apply kept_remove; solve [auto] | typeclasses eauto ]).

(** ** Acquiring *)

Section Acquire.
Context `{UnicodeTables} (o : oracle) (s : Store).

(** Instance [id] holds its lease: the lock on the file at its path. *)
Definition lease_held (w : world) (id : bytes) : Prop :=
  exists n, files w !! lease_path s id = Some n /\ n_kind n = KRegular /\ n_ino n ∈ locked w.

Lemma acquire_kept ino T id : respects (kept ino T) (AcquireLease o s id).
Proof. unfold AcquireLease, prepare_lease, check_lease_path, open_lease, lock_lease. kept. Qed.

(** The steps before the lock is taken: the file found or made. *)
Lemma flock_ok f w u w1 :
  FlockNB o f w = (Ok u, w1) ->
  (i_ino (f_info f) ∉ locked w) /\ locked w1 = {[ i_ino (f_info f) ]} ∪ locked w /\ files w1 = files w.
Proof.
  unfold FlockNB.
  match goal with |- context [call o ?op ?p ?act w] =>
    destruct (call_cases o op p act w) as [[e ->]|[_ ->]] end; [done|]. simpl.
  case_bool_decide; [done|]. by intros [= <- <-].
Qed.

Lemma open_info path create nofollow perm w f w1 :
  OpenFile o path create nofollow perm w = (Ok f, w1) -> nofollow = true ->
  exists n, files w1 !! path = Some n /\ f_info f = info_of n /\ locked w1 = locked w.
Proof.
  unfold OpenFile. intros Ho ->. revert Ho.
  match goal with |- context [call o ?op ?p ?act w] =>
    destruct (call_cases o op p act w) as [[e ->]|[_ ->]] end; [done|]. simpl.
  destruct (files w !! path) as [n|] eqn:Hn.
  - destruct (n_kind n); simpl; intros [= <- <-]; by exists n.
  - destruct create; [|done]. intros [= <- <-]. simpl. rewrite lookup_insert_eq.
    eexists. split; [done|]. by split.
Qed.

Lemma fstat_ok f w info w1 :
  FStat o f w = (Ok info, w1) -> info = f_info f /\ files w1 = files w /\ locked w1 = locked w.
Proof.
  unfold FStat.
  match goal with |- context [call o ?op ?p ?act w] =>
    destruct (call_cases o op p act w) as [[e ->]|[_ ->]] end; [done|]. by intros [= <- <-].
Qed.

Lemma lock_lease_ok f w l w1 :
  lock_lease o f w = (Ok l, w1) ->
  l = {| lease_file := f |} /\ is_regular (f_info f) = true /\ files w1 = files w /\
  (i_ino (f_info f) ∉ locked w) /\ locked w1 = {[ i_ino (f_info f) ]} ∪ locked w.
Proof.
  unfold lock_lease, os_bind at 1, os_try at 1. destruct (FStat o f w) as [[info|e] w2] eqn:Hs.
  - apply fstat_ok in Hs as (-> & Hf & Hl). destruct (is_regular (f_info f)) eqn:Hr; simpl;
      [|unfold os_bind, os_try; by destruct (FClose o f w2)].
    unfold os_bind at 1, os_try. destruct (FlockNB o f w2) as [[u|e] w3] eqn:Hlock.
    + apply flock_ok in Hlock as (Hin & Hl' & Hf'). intros [= <- <-].
      split_and!; [done|done|congruence|by rewrite <- Hl|by rewrite Hl', Hl].
    + unfold os_bind. destruct (FClose o f w3) as [r w4]. by case_match.
  - unfold os_bind, os_try. by destruct (FClose o f w2).
Qed.

(** The steps before the file is opened change no lock. *)
Lemma acquire_prefix_locks id : respects same_locks (prepare_lease o s id).
Proof.
  unfold prepare_lease, check_lease_path, mkdirPrivate. respects_with ltac:(idtac; first
    [ apply same_locks_mkdir_all | apply same_locks_chmod | typeclasses eauto ]).
Qed.

(** A successful acquisition took a free lock on the file at the path and
    holds it. *)
Lemma acquire_ok id w l w1 :
  AcquireLease o s id w = (Ok l, w1) ->
  lease_held w1 id /\ (i_ino (f_info (lease_file l)) ∉ locked w) /\
  exists n, files w1 !! lease_path s id = Some n /\ n_ino n = i_ino (f_info (lease_file l)).
Proof.
  unfold AcquireLease.
  pose proof (acquire_prefix_locks id w) as Hpre. unfold os_bind at 1.
  destruct (prepare_lease o s id w) as [[u|e] w2]; [|done].
  unfold same_locks in Hpre. simpl in Hpre.
  unfold os_bind, open_lease, os_wrap. destruct (OpenFile o _ true true 0x180 w2) as [[f|e] w3] eqn:Ho; [|done].
  apply open_info in Ho as (n & Hn & Hi & Hl); [|done].
  intros (-> & Hr & Hf & Hin & Hl')%lock_lease_ok. simpl. rewrite Hi in *. simpl in *.
  split_and!.
  - exists n. split_and!; [by rewrite Hf| |rewrite Hl'; set_solver].
    unfold is_regular, info_of in Hr. simpl in Hr. by destruct (n_kind n).
  - rewrite Hl, Hpre in Hin. done.
  - exists n. by rewrite Hf.
Qed.

(** The steps before the file is opened leave the lease file. *)
Lemma held_kept w w' id :
  (forall ino, kept ino (fun _ => False) w w') -> lease_held w id -> lease_held w' id.
Proof.
  intros Hk (n & Hn & Hr & Hin). destruct (Hk (n_ino n)) as [Hf Hl].
  destruct (Hf _ n (fun F => F) Hn) as (n' & Hn' & E1 & E2 & _).
  exists n'. split_and!; [done|congruence|]. rewrite E2. by apply Hl.
Qed.

(** A held lease cannot be acquired. *)
Lemma acquire_held id w l w1 : lease_held w id -> AcquireLease o s id w = (Ok l, w1) -> False.
Proof.
  intros Hh Ha. pose proof Ha as Ha'. apply acquire_ok in Ha' as (_ & Hin & n & Hn & Hi).
  destruct Hh as (m & Hm & _ & Hlm).
  pose proof (acquire_kept (n_ino m) (fun _ => False) id w) as [Hf _]. rewrite Ha in Hf. simpl in Hf.
  destruct (Hf _ m (fun F => F) Hm) as (n' & Hn' & _ & E & _). apply Hin. rewrite <- Hi. congruence.
Qed.
End Acquire.

(** ** Pruning *)

Section Pruning.
Context `{UnicodeTables} `{RecordCodec} (o : oracle) (s : Store).
Hypothesis Hroot : clean_abs (StateRoot s).
Hypothesis Hrun : clean_abs (RuntimeRoot s).

(** The artifacts of an instance. *)
Definition artifact (id p : bytes) : Prop :=
  p = lease_path s id \/ p = path_join [DiagnosticsDir s; id ++ !".jsonl"] \/
  p = path_join [DiagnosticsDir s; id ++ !".jsonl.1"].

Lemma diagnostics_clean : clean_abs (DiagnosticsDir s).
Proof.
  apply path_clean_join; [done|]. split_and!; [|done..]. apply (bool_decide_unpack _). vm_compute. exact I.
Qed.

Lemma suffix_simple id suffix :
  idPattern id = true -> (slash ∉ suffix) -> (3 <= length suffix)%nat -> simple_name (id ++ suffix).
Proof.
  intros Hid Hs Hl. split_and!.
  - intros [Hin|Hin]%elem_of_app; [by apply (no_slash_id id Hid)|done].
  - intros E%(f_equal length). rewrite length_app in E. simpl in E. lia.
  - intros E%(f_equal length). rewrite length_app in E. change (length !".") with 1%nat in E. lia.
  - intros E%(f_equal length). rewrite length_app in E. change (length !"..") with 2%nat in E. lia.
Qed.

Lemma id_no_dot id : idPattern id = true -> "."%byte ∉ id.
Proof.
  intros (c & rest & -> & _ & Hall)%idPattern_cons Hin. rewrite Forall_forall in Hall.
  apply Hall, id_byte_not in Hin. by destruct Hin.
Qed.

Lemma id_suffix_inj id1 id2 t1 t2 : idPattern id1 = true -> idPattern id2 = true ->
  id1 ++ "."%byte :: t1 = id2 ++ "."%byte :: t2 -> id1 = id2.
Proof.
  intros H1%id_no_dot H2%id_no_dot E. pose proof (index_byte_app "." id1 t1 H1) as E1.
  rewrite E, index_byte_app in E1 by done. injection E1 as E1.
  apply (f_equal (take (length id1))) in E. rewrite take_app_length in E.
  by rewrite <- E1, take_app_length in E.
Qed.

(** An artifact is a file in a clean directory whose name is the identifier,
    a dot and a suffix. *)
Lemma artifact_base id p : idPattern id = true -> artifact id p ->
  exists t, path_base p = id ++ "."%byte :: t.
Proof.
  intros Hid Ha.
  assert (forall d suffix t, clean_abs d -> suffix = "."%byte :: t -> (slash ∉ suffix) ->
    (3 <= length suffix)%nat -> p = path_join [d; id ++ suffix] ->
    exists t, path_base p = id ++ "."%byte :: t) as Hgen.
  { intros d suffix t Hd Hsuf Hsl Hlen ->. exists t. rewrite path_base_join; [by rewrite Hsuf|done|].
    by apply suffix_simple. }
  pose proof diagnostics_clean. destruct Ha as [Hp|[Hp|Hp]].
  all: eapply Hgen; [| | | |exact Hp]; [done|reflexivity| |vm_compute; lia].
  all: apply (bool_decide_unpack _); vm_compute; exact I.
Qed.

Lemma artifact_disjoint id1 id2 p :
  idPattern id1 = true -> idPattern id2 = true -> artifact id1 p -> artifact id2 p -> id1 = id2.
Proof.
  intros H1 H2 (t1 & E1)%artifact_base (t2 & E2)%artifact_base; try done.
  rewrite E1 in E2. by eapply id_suffix_inj.
Qed.

Lemma kept_weaken ino (T T' : bytes -> Prop) w w' :
  (forall p, T p -> T' p) -> kept ino T w w' -> kept ino T' w w'.
Proof. intros Ht [A B]. split; [|done]. intros p n Hp. apply A. auto. Qed.

(** Pruning one instance touches its own artifacts and no lock but its own. *)
Lemma remove_artifact_kept ino (T : bytes -> Prop) path :
  T path -> respects (kept ino T) (removeRegularArtifact o path).
Proof. intros Ht. unfold removeRegularArtifact. kept. Qed.
Lemma remove_lease_kept ino (T : bytes -> Prop) l path :
  T path -> respects (kept ino T) (remove_own_lease o l path).
Proof. intros Ht. unfold remove_own_lease, look_own_lease. kept. Qed.

Lemma close_kept ino T l : i_ino (f_info (lease_file l)) <> ino -> respects (kept ino T) (Lease_Close o (Some l)).
Proof.
  intros Hne. unfold Lease_Close, FUnlock, FCloseLocked.
  respects_with ltac:(idtac; first [ apply kept_unlock_other; exact Hne | typeclasses eauto ]).
Qed.

Lemma prune_tail_kept ino (T : bytes -> Prop) l id :
  (forall p, artifact id p -> T p) -> i_ino (f_info (lease_file l)) <> ino ->
  respects (kept ino T) (
    let* r1 := os_try (removeRegularArtifact o (path_join [DiagnosticsDir s; id ++ !".jsonl"])) in
    let* r2 := os_try (removeRegularArtifact o (path_join [DiagnosticsDir s; id ++ !".jsonl.1"])) in
    let* r3 := os_try (remove_own_lease o l (lease_path s id)) in
    let* r4 := os_try (Lease_Close o (Some l)) in
    match errors_join [err_of r1; err_of r2; err_of r3; err_of r4] with
    | Some err => os_fail err
    | None => os_ret ()
    end).
Proof.
  intros Ht Hne. unfold artifact in Ht.
  respects_with ltac:(idtac; first
    [ apply remove_artifact_kept; solve [auto] | apply remove_lease_kept; solve [auto]
    | apply close_kept; exact Hne | typeclasses eauto ]).
Qed.

Lemma prune_one_kept ino (T : bytes -> Prop) id w :
  (forall p, artifact id p -> T p) -> ino ∈ locked w ->
  kept ino T w (snd (pruneCompletedArtifact o s id w)).
Proof.
  intros Ht Hin. unfold pruneCompletedArtifact, os_bind at 1, os_try at 1.
  pose proof (acquire_kept o s ino T id w) as Hk.
  destruct (AcquireLease o s id w) as [[l|e] w1] eqn:Ha; simpl in Hk.
  - eapply cp_trans; [exact Hk|]. apply acquire_ok in Ha as (_ & Hni & _).
    apply (prune_tail_kept ino T l id Ht). congruence.
  - destruct (errors_is ErrLeaseHeld e); exact Hk.
Qed.

(** An instance that holds its lease loses nothing. *)
Lemma prune_held id w : lease_held s w id ->
  forall ino, kept ino (fun _ => False) w (snd (pruneCompletedArtifact o s id w)).
Proof.
  intros Hh ino. unfold pruneCompletedArtifact, os_bind at 1, os_try at 1.
  pose proof (acquire_kept o s ino (fun _ => False) id w) as Hk.
  destruct (AcquireLease o s id w) as [[l|e] w1] eqn:Ha; simpl in Hk.
  - exfalso. by eapply acquire_held.
  - destruct (errors_is ErrLeaseHeld e); exact Hk.
Qed.

(** What pruning must leave of an instance. *)
Definition spared (id : bytes) (w w' : world) : Prop :=
  forall p n, artifact id p -> files w !! p = Some n -> exists n', files w' !! p = Some n' /\ same_contents n n'.

Lemma spared_trans id w1 w2 w3 : spared id w1 w2 -> spared id w2 w3 -> spared id w1 w3.
Proof.
  intros A B p n Hp Hn. destruct (A p n Hp Hn) as (n' & Hn' & ?).
  destruct (B p n' Hp Hn') as (n'' & ? & ?). eauto using same_contents_trans.
Qed.

Lemma kept_spared ino T id w w' :
  (forall p, artifact id p -> ~ T p) -> kept ino T w w' -> spared id w w'.
Proof. intros Ht [A _] p n Hp. apply A. by apply Ht. Qed.

Lemma prune_other_spared id id' w :
  idPattern id = true -> idPattern id' = true -> id <> id' ->
  spared id w (snd (pruneCompletedArtifact o s id' w)).
Proof.
  intros H1 H2 Hne. unfold pruneCompletedArtifact, os_bind at 1, os_try at 1.
  assert (Hd : forall p, artifact id p -> ~ artifact id' p)
    by (intros p Ha Ha'; apply Hne; by eapply artifact_disjoint).
  destruct (AcquireLease o s id' w) as [[l|e] w1] eqn:Ha.
  - set (ino := i_ino (f_info (lease_file l)) + 1).
    pose proof (acquire_kept o s ino (artifact id') id' w) as Hk. rewrite Ha in Hk.
    eapply spared_trans; [by eapply kept_spared|].
    eapply (kept_spared ino (artifact id')); [done|].
    apply prune_tail_kept; [done|]. unfold ino. lia.
  - pose proof (acquire_kept o s 0 (artifact id') id' w) as Hk. rewrite Ha in Hk.
    destruct (errors_is ErrLeaseHeld e); by eapply kept_spared.
Qed.

Definition ids_valid (items : list (bytes * Z)) : Prop :=
  Forall (fun item => idPattern (fst item) = true) items.

Lemma prune_each_not_listed id items : forall err w,
  idPattern id = true -> ids_valid items -> (id ∉ map fst items) ->
  spared id w (snd (prune_each o s items err w)).
Proof.
  induction items as [|item items IH]; intros err w Hid Hv Hn.
  - intros p n _ Hp. exists n. split; [done|apply same_contents_refl].
  - apply Forall_cons in Hv as [Hv1 Hv]. simpl in Hn. apply not_elem_of_cons in Hn as [Hne Hn].
    cbn [prune_each]. unfold os_bind, os_try.
    pose proof (prune_other_spared id (fst item) w Hid Hv1 Hne) as Hs.
    destruct (pruneCompletedArtifact o s (fst item) w) as [r w1]. simpl in Hs.
    eapply spared_trans; [exact Hs|]. by apply IH.
Qed.

Lemma prune_each_held id items : forall err w,
  idPattern id = true -> ids_valid items -> lease_held s w id ->
  spared id w (snd (prune_each o s items err w)).
Proof.
  induction items as [|item items IH]; intros err w Hid Hv Hh.
  - intros p n _ Hp. exists n. split; [done|apply same_contents_refl].
  - apply Forall_cons in Hv as [Hv1 Hv]. cbn [prune_each]. unfold os_bind, os_try.
    assert (Hstep : spared id w (snd (pruneCompletedArtifact o s (fst item) w)) /\
                    lease_held s (snd (pruneCompletedArtifact o s (fst item) w)) id).
    { destruct (decide (id = fst item)) as [<-|Hne].
      - pose proof (prune_held id w Hh) as Hk. split; [|by eapply held_kept].
        eapply (kept_spared 0); [|apply Hk]. by intros p _ [].
      - split; [by apply prune_other_spared|]. destruct Hh as (n & Hn & Hr & Hin).
        destruct (prune_one_kept (n_ino n) (artifact (fst item)) (fst item) w) as [Hf Hl]; [done|done|].
        destruct (Hf (lease_path s id) n) as (n' & Hn' & E1 & E2 & _); [|done|].
        + intros Ha. apply Hne. eapply (artifact_disjoint id (fst item)); [done|done|by left|done].
        + exists n'. split_and!; [done|congruence|]. rewrite E2. by apply Hl. }
    destruct (pruneCompletedArtifact o s (fst item) w) as [r w1]. simpl in Hstep.
    destruct Hstep as [Hs Hh1]. eapply spared_trans; [exact Hs|]. by apply IH.
Qed.

(** ** What is protected *)

Lemma read_entries_covers names : forall w recs probs w',
  read_entries o s names w = (Ok (recs, probs), w') ->
  forall name, name ∈ names -> is_record_name name = true ->
    (exists r, r ∈ recs /\ name = ID r ++ !".json") \/
    (exists p, p ∈ probs /\ re_path p = path_join [InstancesDir s; name]).
Proof.
  induction names as [|nm names IH]; intros w recs probs w' Hr name Hin Hname; simpl in Hr.
  - by apply not_elem_of_nil in Hin.
  - destruct (is_record_name nm) eqn:Hnm; simpl in Hr.
    2:{ apply elem_of_cons in Hin as [->|Hin]; [congruence|]. by eapply IH. }
    unfold os_bind at 1, os_try in Hr. destruct (read_entry o s nm w) as [res w1] eqn:He.
    unfold os_bind in Hr. destruct (read_entries o s names w1) as [[[recs1 probs1]|e] w2] eqn:Hre; [|done].
    pose proof (IH _ _ _ _ Hre) as IH'. apply elem_of_cons in Hin as [->|Hin].
    + destruct res as [r0|e]; injection Hr as <- <- _.
      * left. exists r0. split; [by left|]. by eapply read_entry_name.
      * right. eexists. split; [by left|]. done.
    + destruct (IH' name Hin Hname) as [(r & ? & ?)|(p & ? & ?)]; destruct res as [r0|e];
        injection Hr as <- <- _; simpl.
      * left. exists r. split; [by right|done].
      * left. by exists r.
      * right. by exists p.
      * right. exists p. split; [by right|done].
Qed.

Lemma recorded_protected id w recs probs w' :
  idPattern id = true -> directory_at w (InstancesDir s) -> is_Some (files w !! record_path s id) ->
  readAllUnlocked o s w = (Ok (recs, probs), w') -> id ∈ protected_ids recs probs.
Proof.
  intros Hid (d & Hd & Hdk) Hrec. unfold readAllUnlocked, os_bind, os_wrap, ReadDir. intros Hr.
  match type of Hr with context [call o ?op ?p ?act w] =>
    destruct (call_cases o op p act w) as [[e E]|[_ E]]; rewrite E in Hr; clear E end; [done|].
  unfold follow in Hr. simpl in Hr. rewrite Hd, Hdk in Hr. simpl in Hr. rewrite Hdk in Hr.
  change (children (count_call w) (InstancesDir s)) with (children w (InstancesDir s)) in Hr.
  destruct (read_entries o s _ _) as [[[recs1 probs1]|e] w2] eqn:Hre; [|done].
  injection Hr as <- <- _. pose proof (json_name_simple _ Hid) as Hsimple.
  assert (Hname : is_record_name (id ++ !".json") = true).
  { unfold is_record_name. rewrite has_suffix_app, andb_true_r. apply negb_true_iff.
    apply idPattern_cons in Hid as (c & rest & -> & Hc & _). apply id_byte_not in Hc as [_ Hc].
    simpl. apply andb_false_iff. left. apply byte_eqb_false. congruence. }
  unfold protected_ids. apply elem_of_app.
  destruct (read_entries_covers _ _ _ _ _ Hre (id ++ !".json")) as [(r & Hr & E)|(p & Hp & E)].
  - apply children_spec. destruct Hsimple as (? & ? & _). split_and!; [done|done|].
    by rewrite <- record_path_eq.
  - done.
  - left. apply app_inv_tail in E. subst id. apply list_elem_of_fmap_2. simpl.
    by rewrite merge_sort_Permutation.
  - right. apply list_elem_of_filter. split; [done|].
    apply list_elem_of_fmap. exists p. split; [|done]. rewrite E, path_base_join.
    + by rewrite trim_suffix_app.
    + by apply instances_clean.
    + done.
Qed.

(** ** The candidates *)

Definition keys_valid (m : gmap bytes Z) : Prop := forall id t, m !! id = Some t -> idPattern id = true.

Lemma collect_entries_valid dir f names : forall m w m' w',
  keys_valid m -> collect_entries o dir f names m w = (Ok m', w') -> keys_valid m'.
Proof.
  induction names as [|name names IH]; intros m w m' w' Hm Hc; simpl in Hc.
  - by injection Hc as <- _.
  - destruct (idPattern (f name)) eqn:Hid; simpl in Hc; [|by eapply IH].
    unfold os_bind in Hc. destruct (Lstat _ _ _) as [[info|e] w1]; [|done].
    eapply IH; [|exact Hc].
    assert (Hins : forall t, keys_valid (<[f name := t]> m)).
    { intros t id t' [[<- _]|[_ Hl]]%lookup_insert_Some; [done|by eapply Hm]. }
    destruct (m !! f name); [case_match|]; done.
Qed.

Lemma collect_valid dir f m w m' w' :
  keys_valid m -> collect o dir f m w = (Ok m', w') -> keys_valid m'.
Proof.
  unfold collect, os_bind, os_try. intros Hm Hc. destruct (ReadDir o dir w) as [[names|e] w1].
  - by eapply collect_entries_valid.
  - destruct (is_not_exist e); [|done]. by injection Hc as <- _.
Qed.

Lemma prune_order_in m protected item :
  item ∈ prune_order m protected -> m !! fst item = Some (snd item) /\ (fst item ∉ protected).
Proof.
  unfold prune_order. rewrite merge_sort_Permutation. intros [Hp Hin]%list_elem_of_filter.
  destruct item as [id t]. by apply elem_of_map_to_list in Hin.
Qed.

Lemma collect_silent dir f m : silent (collect o dir f m).
Proof.
  unfold collect. apply respects_bind; [apply _|silent|].
  intros [names|e]; [|silent]. revert m. induction names as [|name names IH]; intros m; simpl; [silent|].
  case_goal; [apply IH|]. apply respects_bind; [apply _|silent|]. intros info. apply IH.
Qed.
Lemma collect_same_locks dir f m : respects same_locks (collect o dir f m).
Proof.
  assert (Hl : forall path, respects same_locks (Lstat o path)) by (intros; apply respects_lstat; apply _).
  unfold collect. apply respects_bind; [apply _|respects_with ltac:(typeclasses eauto)|].
  intros [names|e]; [|respects_with ltac:(typeclasses eauto)].
  revert m. induction names as [|name names IH]; intros m; simpl; [apply respects_ret; apply _|].
  case_goal; [apply IH|]. apply respects_bind; [apply _|apply Hl|]. intros info. apply IH.
Qed.

(** ** The whole operation *)

Lemma lease_held_same w w' id :
  files w' = files w -> locked w' = locked w -> lease_held s w id -> lease_held s w' id.
Proof. intros Hf Hl (n & ?). exists n. by rewrite Hf, Hl. Qed.

Lemma read_entries_respects R `{!CallPreorder R} names : respects R (read_entries o s names).
Proof.
  induction names as [|name names IH]; simpl; [apply respects_ret; apply _|].
  case_goal; [apply IH|]. apply respects_bind; [apply _| |].
  - unfold read_entry, readRecord. respects_with ltac:(typeclasses eauto).
  - intros r. apply respects_bind; [apply _|apply IH|]. intros rest. respects_with ltac:(typeclasses eauto).
Qed.
Lemma readAll_respects R `{!CallPreorder R} : respects R (readAllUnlocked o s).
Proof.
  unfold readAllUnlocked. apply respects_bind; [apply _| |].
  - respects_with ltac:(typeclasses eauto).
  - intros entries. apply respects_bind; [apply _|by apply read_entries_respects|].
    intros all. apply respects_ret. apply _.
Qed.

Definition safe_instance (w : world) (id : bytes) : Prop :=
  lease_held s w id \/ is_Some (files w !! record_path s id).

Lemma spared_same id w w' : files w' = files w -> spared id w w'.
Proof. intros Hf p n _ Hn. exists n. rewrite Hf. split; [done|apply same_contents_refl]. Qed.

Lemma prune_locked_spared id retain w :
  idPattern id = true -> directory_at w (InstancesDir s) -> safe_instance w id ->
  spared id w (snd (prune_locked o s retain w)).
Proof.
  intros Hid Hd Hsafe. unfold prune_locked, os_bind at 1.
  pose proof (readAll_respects same_files w) as Hf1. pose proof (readAll_respects same_locks w) as Hl1.
  destruct (readAllUnlocked o s w) as [[[recs probs]|e] w1] eqn:Hr; [|by apply spared_same].
  unfold same_files, same_locks in Hf1, Hl1. simpl in Hf1, Hl1. unfold os_bind at 1, os_wrap at 1.
  pose proof (collect_silent (DiagnosticsDir s) diagnosticArtifactID ∅ w1) as Hf2.
  pose proof (collect_same_locks (DiagnosticsDir s) diagnosticArtifactID ∅ w1) as Hl2.
  destruct (collect o (DiagnosticsDir s) _ ∅ w1) as [[m1|e] w2] eqn:Hc1;
    [|apply spared_same; unfold same_files in Hf2; simpl in *; congruence].
  unfold os_bind at 1, os_wrap at 1.
  pose proof (collect_silent (RuntimeRoot s) leaseArtifactID m1 w2) as Hf3.
  pose proof (collect_same_locks (RuntimeRoot s) leaseArtifactID m1 w2) as Hl3.
  destruct (collect o (RuntimeRoot s) _ m1 w2) as [[m2|e] w3] eqn:Hc2; cbn [fst snd];
    unfold same_files, same_locks in *; simpl in Hf2, Hf3, Hl2, Hl3;
    [|apply spared_same; simpl; congruence].
  assert (Hv : keys_valid m2).
  { eapply collect_valid; [|exact Hc2]. eapply collect_valid; [|exact Hc1].
    intros id' t Hl. by rewrite lookup_empty in Hl. }
  set (items := drop _ _).
  assert (Hitems : forall item, item ∈ items -> m2 !! fst item = Some (snd item) /\
    (fst item ∉ protected_ids recs probs)).
  { intros item Hin. apply prune_order_in. by eapply subseteq_drop. }
  assert (Hids : ids_valid items).
  { apply Forall_forall. intros item Hin. destruct (Hitems item Hin) as [Hl _]. by eapply Hv. }
  assert (Hs : spared id w3 (snd (prune_each o s items None w3))).
  { destruct Hsafe as [Hh|Hrec].
    - apply prune_each_held; [done|done|]. eapply lease_held_same; [| |exact Hh]; congruence.
    - apply prune_each_not_listed; [done|done|]. intros ((id' & t) & -> & Hin)%list_elem_of_fmap.
      destruct (Hitems _ Hin) as [_ Hnp]. apply Hnp. by eapply recorded_protected. }
  assert (spared id w w3) as Hw3 by (apply spared_same; congruence).
  unfold os_bind. destruct (prune_each o s items None w3) as [[[e|]|e] w4];
    by eapply spared_trans.
Qed.

Lemma lock_kept ino : respects (kept ino (fun _ => False)) (lock o s).
Proof. unfold lock. kept. Qed.

Lemma lock_grows w : grows (fun p => p = lock_file_path s) w (snd (lock o s w)).
Proof. by apply only_grows_lock. Qed.
End Pruning.

(** C15: pruning spares what is alive or recorded.  Whatever calls fail,
    [PruneCompletedArtifacts] leaves the lease and the diagnostics of an
    instance in place when its worker holds its lease, or when a record file
    for it exists, readable or not. *)
Theorem prune_spares_live_and_recorded `{UnicodeTables} `{RecordCodec} (o : oracle) (s : Store)
    (retain : Z) (id p : bytes) (n : node) (w : world)
    (Hroot : clean_abs (StateRoot s)) (Hrun : clean_abs (RuntimeRoot s))
    (Hid : idPattern id = true) (Hsafe : safe_instance s w id)
    (Hart : artifact s id p) (Hfile : files w !! p = Some n) :
  exists n', files (snd (PruneCompletedArtifacts o s retain w)) !! p = Some n' /\ same_contents n n'.
Proof.
  unfold PruneCompletedArtifacts. case_goal; [exists n; by split|].
  assert (Hlock : spared s id w (snd (lock o s w))).
  { intros q m _ Hq. exact (proj1 (lock_kept o s 0 w) q m (fun F => F) Hq). }
  destruct (locked_by_lock o s (prune_locked o s retain) w) as [[e ->]|(w' & Hd & -> & Hf)]; simpl.
  - by apply Hlock.
  - rewrite Hf. revert p n Hart Hfile.
    enough (spared s id w (snd (prune_locked o s retain (snd (lock o s w))))) as Hs by exact Hs.
    eapply spared_trans; [exact Hlock|]. apply prune_locked_spared; [done..|].
    destruct Hsafe as [Hh|[m Hm]].
    + left. eapply held_kept; [|exact Hh]. intros ino. apply lock_kept.
    + right. destruct (proj1 (lock_kept o s 0 w) _ m (fun F => F) Hm) as (m' & Hm' & _). by exists m'.
Qed.

(** ** A lease seen by others *)

Section Probe.
Context `{UnicodeTables} (s : Store).

(** What a probe answers is whether the file at the path is locked. *)
Lemma probe_answers o id w n held :
  honest o -> files w !! lease_path s id = Some n -> fst (LeaseHeld o s id w) = Ok held ->
  held = bool_decide (n_ino n ∈ locked w).
Proof.
  intros Hno Hf. unfold LeaseHeld, os_bind at 1, look_lease. case_goal; [done|]. unfold os_bind at 1, os_try at 1, Lstat, call.
  destruct (fault o _ _ _) as [e|] eqn:He.
  { unfold is_not_exist, errors_is_sys. destruct e; try done. by apply Hno in He. }
  clear He. cbn [count_call files]. rewrite Hf. case_goal; [done|]. cbn [negb os_ret].
  unfold os_bind at 1, open_probe, os_wrap, OpenFile, call. destruct (fault o _ _ _) as [e|]; [done|].
  cbn [count_call files]. rewrite Hf.
  assert (Hr : n_kind n = KRegular).
  { apply orb_false_iff in Heqb0 as [Hr _]. unfold is_regular, info_of in Hr. simpl in Hr. by destruct (n_kind n). }
  rewrite Hr. cbn [f_path f_info info_of i_ino]. unfold os_bind at 1, os_try at 1, FlockNB, call at 1.
  cbn [f_path]. destruct (fault o (calls _) _ _) as [e|] eqn:He2.
  { unfold errors_is_sys. destruct e; try (by apply Hno in He2); unfold os_bind, os_try;
      by destruct (FClose o _ _). }
  cbn [f_info info_of i_ino count_call locked].
  destruct (bool_decide (n_ino n ∈ locked w)) eqn:Hl; unfold os_bind, os_try.
  - unfold errors_is_sys. destruct (FClose o _ _). simpl. congruence.
  - destruct (FUnlock o _ _) as [[u|e] w1]; destruct (FCloseLocked o _ _) as [rc w2]; simpl; congruence.
Qed.

(** A completed close released the lock, and changed no file. *)
Lemma close_ok o l w w' :
  Lease_Close o (Some l) w = (Ok (), w') ->
  files w' = files w /\ (i_ino (f_info (lease_file l)) ∉ locked w').
Proof.
  unfold Lease_Close, FUnlock, FCloseLocked, os_bind at 1, os_try at 1.
  match goal with |- context [call o ?op ?p ?act w] =>
    destruct (call_cases o op p act w) as [[e ->]|[_ ->]] end; cbv beta;
  unfold os_bind, os_try;
  match goal with |- context [call o ?op ?p ?act ?w] =>
    destruct (call_cases o op p act w) as [[e' ->]|[_ ->]] end; try done;
  intros [= <-]; split; [done|simpl; set_solver].
Qed.
End Probe.

(** ** Concrete runs *)

Definition lease_world : world := snd (AcquireLease no_faults demo_store !"abc123" demo_world).
Definition demo_lease : Lease :=
  match fst (AcquireLease no_faults demo_store !"abc123" demo_world) with
  | Ok l => l
  | Err _ => {| lease_file := {| f_path := []; f_info := info_of (new_node demo_world KRegular 0) |} |}
  end.
Lemma demo_acquired : AcquireLease no_faults demo_store !"abc123" demo_world = (Ok demo_lease, lease_world).
Proof. unfold demo_lease, lease_world. vm_compute. reflexivity. Qed.

Lemma demo_runtime : clean_abs (RuntimeRoot demo_store).
Proof. split; vm_compute; reflexivity. Qed.

Lemma demo_lease_held : lease_held demo_store lease_world !"abc123".
Proof. exact (proj1 (acquire_ok no_faults demo_store _ _ _ _ demo_acquired)). Qed.

Lemma prune_spares_live_and_recorded_witness :
  exists n', files (snd (PruneCompletedArtifacts no_faults demo_store 0 lease_world)) !! !"/r/abc123.lease" = Some n'.
Proof.
  destruct demo_lease_held as (n & Hn & Hr & Hl).
  destruct (prune_spares_live_and_recorded no_faults demo_store 0 !"abc123" !"/r/abc123.lease" n lease_world
    demo_root demo_runtime) as (n' & Hn' & _).
  - vm_compute; reflexivity.
  - left. exists n. split_and!; assumption.
  - left. vm_compute. reflexivity.
  - exact Hn.
  - exists n'. exact Hn'.
Defined.
