(* ===== verification/LeaseSteps.v ===== *)
(** * Leases: processes that take turns

    Any number of processes acquire, probe, close and prune leases; others run
    between any two of their steps, between the opening of a lease file and its
    lock too.  The steps are the functions of [Lease]. *)

From S2P Require Import Prelude GoString GoUnicode GoConv GoErrors GoPath GoOS Target Helper.
From S2P Require Import InstanceName Store PlainCodec StoreProps StoreWrite StoreInvariant.
From S2P Require Import StoreResolve Lease LeaseProps.
Open Scope Z_scope.

(** ** Processes *)

(** Who uses a lease: [AcquireLease] of a worker (or of a command), the one of
    [pruneCompletedArtifact], and [LeaseHeld]. *)
Inductive user := Worker | Pruner | Prober.

(** Where a process is. *)
Inductive stage :=
| Outside
| Prepared (u : user) (id : bytes)
| Opened (u : user) (id : bytes) (f : file)
| Holding (u : user) (id : bytes) (f : file)
| Seen (id : bytes) (f : file)            (* a pruner saw that the path is its own file *)
| Closing (f : file) (still_locked : bool).   (* after the call that unlocks *)

(** The file whose lock a process has. *)
Definition holds (st : stage) : option Z :=
  match st with
  | Holding _ _ f | Seen _ f | Closing f true => Some (i_ino (f_info f))
  | _ => None
  end.

Section Steps.
Context `{UnicodeTables} (o : oracle) (s : Store).

Definition prepare_step (u : user) (id : bytes) : os bool :=
  match u with
  | Prober => look_lease o s id
  | Worker | Pruner => prepare_lease o s id;* os_ret true
  end.
Definition open_step (u : user) (id : bytes) : os file :=
  match u with Prober => open_probe o s id | Worker | Pruner => open_lease o s id end.
Definition lock_step (u : user) (f : file) : os () :=
  match u with
  | Prober =>
      let* r := os_try (FlockNB o f) in
      match r with Ok _ => os_ret () | Err err => ignore FClose o f;* os_fail err end
  | Worker | Pruner => lock_lease o f;* os_ret ()
  end.

(** Where a call leaves a process, and the files. *)
Definition after {A} (r : result A * world) (ok : A -> stage) (bad : stage) : stage * world :=
  (match fst r with Ok a => ok a | Err _ => bad end, snd r).

Inductive party_step : stage -> world -> stage * world -> Prop :=
| p_prepare u id w : party_step Outside w
    (after (prepare_step u id w) (fun there => if there : bool then Prepared u id else Outside) Outside)
| p_open u id w : party_step (Prepared u id) w (after (open_step u id w) (Opened u id) Outside)
| p_lock u id f w : party_step (Opened u id f) w (after (lock_step u f w) (fun _ => Holding u id f) Outside)
| p_artifact id f suffix w : suffix = !".jsonl" \/ suffix = !".jsonl.1" ->
    party_step (Holding Pruner id f) w
      (after (removeRegularArtifact o (path_join [DiagnosticsDir s; id ++ suffix]) w)
         (fun _ => Holding Pruner id f) (Holding Pruner id f))
| p_look id f w : party_step (Holding Pruner id f) w
    (after (look_own_lease o {| lease_file := f |} (lease_path s id) w)
       (fun mine => if mine : bool then Seen id f else Holding Pruner id f) (Holding Pruner id f))
| p_remove id f w : party_step (Seen id f) w
    (after (Remove o (lease_path s id) w) (fun _ => Holding Pruner id f) (Holding Pruner id f))
| p_unlock u id f w : party_step (Holding u id f) w
    (after (FUnlock o f w) (fun _ => Closing f false) (Closing f true))
| p_close f (still : bool) w : party_step (Closing f still) w
    (after ((if still then FCloseLocked o f else FClose o f) w) (fun _ => Outside) Outside)
| p_dies st w : party_step st w     (* the kernel closes its files *)
    (Outside, match holds st with Some ino => set_locked w (locked w ∖ {[ ino ]}) | None => w end).
End Steps.

(** What happens elsewhere keeps the lease files and the locks. *)
Definition elsewhere (s : Store) (w w' : world) : Prop :=
  (forall id n, idPattern id = true -> files w !! lease_path s id = Some n ->
     exists n', files w' !! lease_path s id = Some n' /\ same_contents n n') /\ locked w' = locked w.

Record processes := { ps_world : world; ps_all : list stage }.

(** A step of the process [by], or of none of them. *)
Inductive lease_step `{UnicodeTables} (s : Store) : option nat -> processes -> processes -> Prop :=
| ls_party o i x st st' w : ps_all x !! i = Some st -> party_step o s st (ps_world x) (st', w) ->
    lease_step s (Some i) x {| ps_world := w; ps_all := <[i := st']> (ps_all x) |}
| ls_join x : lease_step s None x {| ps_world := ps_world x; ps_all := ps_all x ++ [Outside] |}
| ls_elsewhere x w : elsewhere s (ps_world x) w -> lease_step s None x {| ps_world := w; ps_all := ps_all x |}.

Definition any_step `{UnicodeTables} (s : Store) (x x' : processes) : Prop := exists by_, lease_step s by_ x x'.
Definition others_step `{UnicodeTables} (s : Store) (i : nat) (x x' : processes) : Prop :=
  exists by_, by_ <> Some i /\ lease_step s by_ x x'.

(** The file at the lease's path is [f]; and it is a regular file. *)
Definition at_path (s : Store) (w : world) (id : bytes) (f : file) : Prop :=
  exists n, files w !! lease_path s id = Some n /\ n_ino n = i_ino (f_info f).
Definition in_place (s : Store) (w : world) (id : bytes) (f : file) : Prop :=
  exists n, files w !! lease_path s id = Some n /\ n_kind n = KRegular /\ n_ino n = i_ino (f_info f).

(** ** What one step changes *)

Section Effects.
Context `{UnicodeTables} (o : oracle) (s : Store).
Hypothesis Hroot : clean_abs (StateRoot s).
Hypothesis Hrun : clean_abs (RuntimeRoot s).

(** Nothing at the paths of leases. *)
Definition leaves (w w' : world) : Prop :=
  forall id n, idPattern id = true -> files w !! lease_path s id = Some n ->
    exists n', files w' !! lease_path s id = Some n' /\ same_contents n n'.

Lemma kept_leaves ino T w w' : (forall id, ~ T (lease_path s id)) -> kept ino T w w' -> leaves w w'.
Proof. intros Ht [Hf _] id n _ Hn. by apply Hf. Qed.

Lemma leaves_files w w' : files w' = files w -> leaves w w'.
Proof. intros E id n _ Hn. exists n. split; [by rewrite E|apply same_contents_refl]. Qed.

Lemma lock_failed u f w e w' : lock_step o u f w = (Err e, w') -> files w' = files w /\ locked w' = locked w.
Proof.
  assert (Hclose : forall w, files (snd (FClose o f w)) = files w /\ locked (snd (FClose o f w)) = locked w).
  { intros w0. unfold FClose, call. by destruct (fault o _ _ _). }
  assert (Hflock : forall w e w', FlockNB o f w = (Err e, w') -> files w' = files w /\ locked w' = locked w).
  { intros w0 e0 w0'. unfold FlockNB, call. destruct (fault o _ _ _); [by intros [= <- <-]|]. case_bool_decide; [|done].
    by intros [= <- <-]. }
  assert (Hstat : files (snd (FStat o f w)) = files w /\ locked (snd (FStat o f w)) = locked w).
  { unfold FStat, call. by destruct (fault o _ _ _). }
  assert (Hlock : lock_lease o f w = (Err e, w') -> files w' = files w /\ locked w' = locked w).
  { unfold lock_lease, os_bind, os_try. destruct (FStat o f w) as [[info|e1] w1]; cbn [snd] in Hstat; destruct Hstat as [<- <-].
    - destruct (negb _).
      { specialize (Hclose w1). destruct (FClose o f w1). by intros [= _ <-]. }
      destruct (FlockNB o f w1) as [[u1|e1] w2] eqn:Hl; [done|]. destruct (Hflock _ _ _ Hl) as [<- <-].
      specialize (Hclose w2). destruct (FClose o f w2). destruct (errors_is_sys _ _); by intros [= _ <-].
    - specialize (Hclose w1). destruct (FClose o f w1). by intros [= _ <-]. }
  destruct u; cbn [lock_step].
  1,2: unfold os_bind; destruct (lock_lease o f w) as [[l|e1] w1]; [done|]; intros [= -> ->]; by apply Hlock.
  unfold os_bind, os_try. destruct (FlockNB o f w) as [[u1|e1] w1] eqn:Hl; [done|]. destruct (Hflock _ _ _ Hl) as [<- <-].
  specialize (Hclose w1). destruct (FClose o f w1). by intros [= _ <-].
Qed.

Lemma lock_took u f w w' : lock_step o u f w = (Ok (), w') ->
  files w' = files w /\ (i_ino (f_info f) ∉ locked w) /\ locked w' = {[ i_ino (f_info f) ]} ∪ locked w.
Proof.
  destruct u; cbn [lock_step].
  1,2: unfold os_bind; destruct (lock_lease o f w) as [[l|e1] w1] eqn:Hl; [|done]; intros [= <-];
    apply lock_lease_ok in Hl as (_ & _ & ? & ? & ?); by split_and!.
  unfold os_bind, os_try. destruct (FlockNB o f w) as [[u1|e1] w1] eqn:Hl; [|by destruct (FClose o f w1)].
  intros [= <-]. apply flock_ok in Hl as (? & ? & ?). by split_and!.
Qed.

Lemma same_locks_remove path : respects same_locks (Remove o path).
Proof. apply respects_call; [apply _|]. intros w. by destruct (files w !! path). Qed.

(** Calls that leave the leases and the locks alone. *)
Definition harmless {A} (m : os A) : Prop := forall w, leaves w (snd (m w)) /\ locked (snd (m w)) = locked w.

Lemma harmless_of {A} (m : os A) : (forall ino, respects (kept ino (fun _ => False)) m) -> respects same_locks m -> harmless m.
Proof. intros Hk Hl w. split; [|apply Hl]. apply (kept_leaves 0 (fun _ => False)); [tauto|apply Hk]. Qed.

Ltac harmless := apply harmless_of; [intros ino; kept|respects_with ltac:(idtac; first
  [ apply same_locks_mkdir_all | apply same_locks_chmod | apply same_locks_open | typeclasses eauto ])].

Lemma prepare_harmless u id : harmless (prepare_step o s u id).
Proof.
  destruct u; unfold prepare_step, prepare_lease, check_lease_path, look_lease.
  3: harmless.
  1,2: apply harmless_of; [intros ino; kept|].
  1,2: unfold mkdirPrivate; respects_with ltac:(idtac; first
    [ apply same_locks_mkdir_all | apply same_locks_chmod | typeclasses eauto ]).
Qed.

Lemma open_harmless u id : harmless (open_step o s u id).
Proof. destruct u; unfold open_step, open_lease, open_probe; harmless. Qed.

Lemma look_harmless l path : harmless (look_own_lease o l path).
Proof. unfold look_own_lease. harmless. Qed.

Lemma artifact_not_lease id id' suffix : idPattern id = true -> idPattern id' = true ->
  suffix = !".jsonl" \/ suffix = !".jsonl.1" ->
  lease_path s id' <> path_join [DiagnosticsDir s; id ++ suffix].
Proof.
  intros Hid Hid' Hs E. apply (f_equal path_base) in E. unfold lease_path in E.
  assert (Hlit : (slash ∉ suffix) /\ (3 <= length suffix)%nat /\ exists rest, suffix = "."%byte :: "j"%byte :: rest).
  { destruct Hs as [-> | ->]; (split_and!; [|vm_compute; lia|by eexists]); apply (bool_decide_unpack _); vm_compute; exact I. }
  destruct Hlit as (Hsl & Hlen & rest & Hrest).
  assert (Hl : slash ∉ !".lease") by (apply (bool_decide_unpack _); vm_compute; exact I).
  rewrite !path_base_join in E; [|by apply diagnostics_clean|by apply suffix_simple|done|apply suffix_simple; [done..|vm_compute; lia]].
  rewrite Hrest in E. assert (id' = id) as -> by exact (id_suffix_inj id' id _ _ Hid' Hid E).
  by apply app_inv_head in E.
Qed.

(** ** One step *)

Definition valid_stage (st : stage) : Prop :=
  match st with
  | Prepared _ id | Opened _ id _ | Holding _ id _ | Seen id _ => idPattern id = true
  | Outside | Closing _ _ => True
  end.

Record effect (st : stage) (w : world) (st' : stage) (w' : world) : Prop := {
  ef_valid : valid_stage st';
  ef_files : forall id n, idPattern id = true -> files w !! lease_path s id = Some n ->
    (exists n', files w' !! lease_path s id = Some n' /\ same_contents n n') \/
    (exists id' f, st = Seen id' f /\ lease_path s id' = lease_path s id);
  ef_others : forall ino, ino ∈ locked w -> holds st <> Some ino -> ino ∈ locked w';
  ef_holds : forall ino, holds st' = Some ino ->
    (holds st = Some ino /\ locked w' = locked w) \/ ((ino ∉ locked w) /\ ino ∈ locked w');
  ef_seen : forall id f, st' = Seen id f -> at_path s w' id f
}.

(** A harmless call after which the process holds nothing new. *)
Lemma harmless_effect {A} (m : os A) st w ok bad :
  harmless m -> (forall st', st' = bad \/ (exists a w', m w = (Ok a, w') /\ st' = ok a) ->
    valid_stage st' /\ (forall ino, holds st' = Some ino -> holds st = Some ino) /\
    forall id f, st' = Seen id f -> at_path s (snd (m w)) id f) ->
  effect st w (fst (after (m w) ok bad)) (snd (after (m w) ok bad)).
Proof.
  intros Hm Hst. destruct (Hm w) as [Hf Hl]. unfold after. cbn [fst snd].
  destruct (Hst (match fst (m w) with Ok a => ok a | Err _ => bad end)) as (Hv & Hh & Hs).
  { destruct (m w) as [[a|e] w']; [right; by exists a, w'|by left]. }
  split; [exact Hv|intros id n Hid Hn; left; by apply Hf|intros ino; by rewrite Hl|intros ino Hi; left; split; [by apply Hh|done]|exact Hs].
Qed.

Lemma prepared_id u id w there w' : prepare_step o s u id w = (Ok there, w') -> idPattern id = true.
Proof.
  destruct u; unfold prepare_step, prepare_lease, look_lease, os_bind; destruct (idPattern id); done.
Qed.

Lemma look_own_ok f path w w' : look_own_lease o {| lease_file := f |} path w = (Ok true, w') ->
  exists n, files w' !! path = Some n /\ n_ino n = i_ino (f_info f).
Proof.
  unfold look_own_lease, os_bind, os_try. cbn [lease_file]. destruct (FStat o f w) as [[info|e] w1] eqn:Hs.
  - apply fstat_ok in Hs as (-> & _ & _). unfold Lstat.
    match goal with |- context [call o ?op ?p ?act w1] =>
      destruct (call_cases o op p act w1) as [[e ->]|[_ ->]] end; cbv beta.
    { by destruct (is_not_exist _). }
    cbn [count_call files]. destruct (files w1 !! path) as [n|] eqn:Hn; [|by destruct (is_not_exist _)].
    destruct (negb _) eqn:Hi; [done|]. intros [= <-]. apply negb_false_iff, Z.eqb_eq in Hi. exists n. by split.
  - by destruct (Lstat o path w1) as [[?|?] ?].
Qed.

Lemma step_effect st w st' w' : valid_stage st -> party_step o s st w (st', w') -> effect st w st' w'.
Proof.
  intros Hv Hstep. change st' with (fst (st', w')). change w' with (snd (st', w')) at 2.
  revert Hstep. generalize (st', w'). clear st' w'. intros r Hstep.
  destruct Hstep as [u id w|u id w|u id f w|id f suffix w Hs|id f w|id f w|u id f w|f still w|st w].
  - apply harmless_effect; [apply prepare_harmless|]. intros st' [->|([] & w' & Hp & ->)]; split_and!; try done.
    by eapply prepared_id.
  - apply harmless_effect; [apply open_harmless|]. intros st' [->|(f & w' & _ & ->)]; by split_and!.
  - destruct (lock_step o u f w) as [[[]|e] w'] eqn:Hl; unfold after; cbn [fst snd].
    + apply lock_took in Hl as (Hf & Hni & Hl). split; [exact Hv|intros id' n _ Hn; left; exists n| | |done].
      * split; [by rewrite Hf|apply same_contents_refl].
      * intros ino Hi _. rewrite Hl. set_solver.
      * intros ino [= <-]. right. split; [done|]. rewrite Hl. set_solver.
    + apply lock_failed in Hl as [Hf Hl]. split; [done|intros id' n _ Hn; left; exists n| |done|done].
      * split; [by rewrite Hf|apply same_contents_refl].
      * intros ino Hi _. by rewrite Hl.
  - assert (Hlocks : respects same_locks (removeRegularArtifact o (path_join [DiagnosticsDir s; id ++ suffix]))).
    { unfold removeRegularArtifact. respects_with ltac:(idtac; first [apply same_locks_remove|typeclasses eauto]). }
    assert (Hk := remove_artifact_kept o 0 (eq (path_join [DiagnosticsDir s; id ++ suffix])) _ eq_refl w).
    specialize (Hlocks w). unfold same_locks in Hlocks. unfold after. cbn [fst snd].
    assert (Hst : match fst (removeRegularArtifact o (path_join [DiagnosticsDir s; id ++ suffix]) w) with
                  | Ok _ => Holding Pruner id f | Err _ => Holding Pruner id f end = Holding Pruner id f) by (by case_match).
    rewrite Hst. split; [exact Hv| |intros ino; by rewrite Hlocks|intros ino Hi; by left|done].
    intros id' n Hid' Hn. left. apply Hk; [|done]. intros E. exact (artifact_not_lease id id' suffix Hv Hid' Hs (eq_sym E)).
  - apply harmless_effect; [apply look_harmless|]. intros st' [->|([] & w' & Hp & ->)]; split_and!; try done.
    intros id' f' [= <- <-]. rewrite Hp. by eapply look_own_ok.
  - unfold after, Remove. 
    match goal with |- context [call o ?op ?p ?act w] =>
      destruct (call_cases o op p act w) as [[e ->]|[_ ->]] end; cbn [fst snd].
    + split; [exact Hv|intros id' n _ Hn; left; by exists n|done|by left|done].
    + cbn [count_call files]. destruct (files w !! lease_path s id) as [m|]; cbn [fst snd];
        (split; [exact Hv| |done|by left|done]); intros id' n _ Hn; [|left; by exists n].
      destruct (decide (lease_path s id = lease_path s id')) as [E|Hne]; [right; by exists id, f|left].
      exists n. split; [|apply same_contents_refl]. cbn. by rewrite lookup_delete_ne.
  - unfold after, FUnlock.
    match goal with |- context [call o ?op ?p ?act w] =>
      destruct (call_cases o op p act w) as [[e ->]|[_ ->]] end; cbn [fst snd].
    + split; [done|intros id' n _ Hn; left; by exists n|done|by left|done].
    + split; [done|intros id' n _ Hn; left; by exists n| |done|done]. intros ino Hi Hne. cbn in *. set_solver.
  - destruct still; unfold after, FCloseLocked, FClose.
    all: match goal with |- context [call o ?op ?p ?act ?v] =>
      destruct (call_cases o op p act v) as [[e ->]|[_ ->]] end; cbn [fst snd].
    all: split; [done|intros id' n _ Hn; left; by exists n| |done|done].
    all: intros ino Hi Hne; cbn in *; set_solver.
  - cbn [fst snd]. split; [done|intros id' n _ Hn; left; exists n; split; [by destruct (holds st)|apply same_contents_refl]| |done|done].
    intros ino Hi Hne. destruct (holds st) as [i|]; [|done]. cbn. set_solver.
Qed.
End Effects.

(** ** All steps *)

Section Runs.
Context `{UnicodeTables} (s : Store).
Hypothesis Hroot : clean_abs (StateRoot s).
Hypothesis Hrun : clean_abs (RuntimeRoot s).

Record leases_ok (x : processes) : Prop := {
  lo_valid : forall i st, ps_all x !! i = Some st -> valid_stage st;
  lo_locked : forall i st ino, ps_all x !! i = Some st -> holds st = Some ino -> ino ∈ locked (ps_world x);
  lo_one : forall i j st st' ino, ps_all x !! i = Some st -> ps_all x !! j = Some st' ->
    holds st = Some ino -> holds st' = Some ino -> i = j;
  lo_seen : forall i id f, ps_all x !! i = Some (Seen id f) -> at_path s (ps_world x) id f
}.

Lemma at_path_leaves w w' id f : idPattern id = true -> leaves s w w' -> at_path s w id f -> at_path s w' id f.
Proof. intros Hid Hl (n & Hn & Hi). destruct (Hl id n Hid Hn) as (n' & Hn' & _ & E & _). exists n'. split; congruence. Qed.

(** The step of the process [i] removes no lease file of another that is locked. *)
Lemma effect_spares x i st st' w id f n : leases_ok x -> ps_all x !! i = Some st -> effect s st (ps_world x) st' w ->
  idPattern id = true -> files (ps_world x) !! lease_path s id = Some n -> n_ino n = i_ino (f_info f) ->
  holds st <> Some (i_ino (f_info f)) ->
  exists n', files w !! lease_path s id = Some n' /\ same_contents n n'.
Proof.
  intros [_ _ _ L4] Hi [_ E2 _ _ _] Hid Hn Hino Hne.
  destruct (E2 id n Hid Hn) as [Hkept|(id' & f' & -> & Hp)]; [done|exfalso].
  destruct (L4 i id' f' Hi) as (m & Hm & Hmi). rewrite Hp, Hn in Hm. injection Hm as <-. apply Hne. cbn. congruence.
Qed.

Lemma party_ok x i o st st' w : leases_ok x -> ps_all x !! i = Some st -> party_step o s st (ps_world x) (st', w) ->
  leases_ok {| ps_world := w; ps_all := <[i := st']> (ps_all x) |}.
Proof.
  intros Hok Hi Hstep. pose proof Hok as [L1 L2 L3 L4].
  pose proof (step_effect o s Hroot Hrun _ _ _ _ (L1 _ _ Hi) Hstep) as He. pose proof He as [E1 E2 E3 E4 E5].
  assert (Hnew : forall j st1 ino, j <> i -> ps_all x !! j = Some st1 -> holds st1 = Some ino -> holds st' <> Some ino).
  { intros j st1 ino Hne Hj H1 H2. destruct (E4 ino H2) as [[Ho _]|[Hni _]]; [by apply Hne, (L3 j i st1 st ino)|].
    by apply Hni, (L2 j st1). }
  assert (Hold : forall j st1 ino, j <> i -> ps_all x !! j = Some st1 -> holds st1 = Some ino -> holds st <> Some ino).
  { intros j st1 ino Hne Hj H1 H2. by apply Hne, (L3 j i st1 st ino). }
  split; cbn [ps_all ps_world].
  - intros j st1 [(<- & <- & _)|[Hne Hj]]%list_lookup_insert_Some; [done|by apply (L1 j)].
  - intros j st1 ino [(<- & <- & _)|[Hne Hj]]%list_lookup_insert_Some Hh.
    + destruct (E4 ino Hh) as [[Ho ->]|[_ Hin]]; [by apply (L2 i st)|done].
    + apply E3; [by apply (L2 j st1)|]. by eapply Hold.
  - intros j k st1 st2 ino [(<- & <- & _)|[Hne Hj]]%list_lookup_insert_Some
      [(<- & <- & _)|[Hne' Hk]]%list_lookup_insert_Some H1 H2; [done| | |by apply (L3 j k st1 st2 ino)].
    + exfalso. by apply (Hnew k st2 ino).
    + exfalso. by apply (Hnew j st1 ino).
  - intros j id f [(<- & -> & _)|[Hne Hj]]%list_lookup_insert_Some; [by apply E5|].
    destruct (L4 j id f Hj) as (n & Hn & Hino).
    destruct (effect_spares x i st st' w id f n) as (n' & Hn' & _ & E & _); try done.
    + exact (L1 _ _ Hj).
    + by apply (Hold j (Seen id f)).
    + exists n'. split; congruence.
Qed.

Lemma elsewhere_ok x w : leases_ok x -> elsewhere s (ps_world x) w -> leases_ok {| ps_world := w; ps_all := ps_all x |}.
Proof.
  intros [L1 L2 L3 L4] [Hf Hl]. split; cbn; [done|intros i st ino Hi Hh; rewrite Hl; by apply (L2 i st)|done|].
  intros i id f Hi. eapply at_path_leaves; [exact (L1 _ _ Hi)|exact Hf|by apply (L4 i)].
Qed.

Lemma join_ok x : leases_ok x -> leases_ok {| ps_world := ps_world x; ps_all := ps_all x ++ [Outside] |}.
Proof.
  intros [L1 L2 L3 L4].
  assert (Hnew : forall i st, (ps_all x ++ [Outside]) !! i = Some st -> ps_all x !! i = Some st \/ st = Outside).
  { intros i st [[_ Hi]|[_ <-]]%lookup_snoc_Some; auto. }
  split; cbn [ps_all ps_world].
  - intros i st [Hi| ->]%Hnew; [by apply (L1 i)|done].
  - intros i st ino [Hi| ->]%Hnew Hh; [by apply (L2 i st)|done].
  - intros i j st st' ino [Hi| ->]%Hnew [Hj| ->]%Hnew H1 H2; try done. by apply (L3 i j st st' ino).
  - intros i id f [Hi|[=]]%Hnew. by apply (L4 i).
Qed.

Lemma step_ok by_ x x' : leases_ok x -> lease_step s by_ x x' -> leases_ok x'.
Proof.
  intros Hok Hstep. destruct Hstep as [o i x st st' w Hi Hs|x|x w He];
    [by eapply party_ok|by apply join_ok|by apply elsewhere_ok].
Qed.

Definition nobody_inside (x : processes) : Prop := Forall (eq Outside) (ps_all x).

Lemma reach_ok x : reachable nobody_inside (any_step s) x -> leases_ok x.
Proof.
  revert x. apply reachable_invariant; [|intros x x' _ Hok [by_ Hs]; by eapply step_ok].
  intros x Hall. unfold nobody_inside in Hall. rewrite Forall_lookup in Hall.
  split; intros i; intros; specialize (Hall i); by match goal with
    | Hi : ps_all x !! i = Some _ |- _ => apply Hall in Hi; subst end.
Qed.

(** ** The one who holds the file at the path *)

Definition keeps_place (i : nat) (u : user) (id : bytes) (f : file) (x : processes) : Prop :=
  leases_ok x /\ ps_all x !! i = Some (Holding u id f) /\ in_place s (ps_world x) id f.

Lemma others_keep i u id f x x' : keeps_place i u id f x -> others_step s i x x' -> keeps_place i u id f x'.
Proof.
  intros (Hok & Hi & n & Hn & Hk & Hino) (by_ & Hby & Hstep). split; [by eapply step_ok|].
  pose proof (lo_valid _ Hok _ _ Hi) as Hid.
  destruct Hstep as [o j x st st' w Hj Hs|x|x w [Hf Hl]]; cbn [ps_all ps_world].
  - assert (Hne : j <> i) by congruence. rewrite list_lookup_insert_ne by done. split; [done|].
    destruct (effect_spares x j st st' w id f n) as (n' & Hn' & E1 & E2 & _); try done.
    + eapply step_effect; [done..|by eapply (lo_valid _ Hok)|exact Hs].
    + intros Hh. apply Hne. by apply (lo_one _ Hok j i st (Holding u id f) (i_ino (f_info f))).
    + exists n'. split_and!; congruence.
  - split; [by apply lookup_app_l_Some|]. by exists n.
  - split; [done|]. destruct (Hf id n Hid Hn) as (n' & Hn' & E1 & E2 & _). exists n'. split_and!; congruence.
Qed.
End Runs.

(** C14: a lease excludes others.  Processes acquire, probe, prune and close
    leases, and die, in any order of their steps, others' between the opening
    and the locking of one too, and whichever calls fail.  No two processes ever
    hold the lock of one file.  A process that locks the file it opened while
    that file is still at the lease's path (no pruner removed it in between)
    keeps it there until it closes it or dies: meanwhile nobody else has its
    lock, whoever opens the lease gets this file and cannot lock it, so nobody
    acquires the lease, and a probe that answers says it is held; once it is
    closed, a probe says it is free. *)
Theorem lease_excludes `{UnicodeTables} (s : Store) x
    (Hroot : clean_abs (StateRoot s)) (Hrun : clean_abs (RuntimeRoot s))
    (Hx : reachable nobody_inside (any_step s) x) :
  (forall i j st st' ino, ps_all x !! i = Some st -> ps_all x !! j = Some st' ->
     holds st = Some ino -> holds st' = Some ino -> i = j) /\
  forall i u id f o w1 x2, ps_all x !! i = Some (Opened u id f) -> in_place s (ps_world x) id f ->
    lock_step o u f (ps_world x) = (Ok (), w1) ->
    rtc (others_step s i) {| ps_world := w1; ps_all := <[i := Holding u id f]> (ps_all x) |} x2 ->
    in_place s (ps_world x2) id f /\
    (forall j st, j <> i -> ps_all x2 !! j = Some st -> holds st <> Some (i_ino (f_info f))) /\
    (forall o' u' f' w', open_step o' s u' id (ps_world x2) = (Ok f', w') -> i_ino (f_info f') = i_ino (f_info f)) /\
    (forall o' u' f' w', i_ino (f_info f') = i_ino (f_info f) -> lock_step o' u' f' (ps_world x2) <> (Ok (), w')) /\
    (forall o' l w', AcquireLease o' s id (ps_world x2) <> (Ok l, w')) /\
    (forall o' held, honest o' -> fst (LeaseHeld o' s id (ps_world x2)) = Ok held -> held = true) /\
    (forall o' w', Lease_Close o' (Some {| lease_file := f |}) (ps_world x2) = (Ok (), w') ->
       forall o'' held, honest o'' -> fst (LeaseHeld o'' s id w') = Ok held -> held = false).
Proof.
  pose proof (reach_ok s Hroot Hrun x Hx) as Hok. split; [exact (lo_one _ _ Hok)|].
  intros i u id f o w1 x2 Hi Hplace Hlock Hrtc.
  assert (Hk : keeps_place s i u id f x2).
  { assert (H0 : keeps_place s i u id f {| ps_world := w1; ps_all := <[i := Holding u id f]> (ps_all x) |}).
    { split; [|split].
      - eapply (party_ok s Hroot Hrun x i o (Opened u id f)); [done..|].
        pose proof (p_lock o s u id f (ps_world x)) as Hp. rewrite Hlock in Hp. exact Hp.
      - cbn. apply list_lookup_insert_eq. by eapply lookup_lt_Some.
      - destruct Hplace as (n & Hn & Hk). apply lock_took in Hlock as (Hf & _). exists n. cbn. by rewrite Hf. }
    clear -H0 Hrtc Hroot Hrun. induction Hrtc as [|a b c Hs _ IH]; [done|]. by eapply IH, others_keep. }
  destruct Hk as (Hok2 & Hi2 & n & Hn & Hr & Hino).
  assert (Hin : i_ino (f_info f) ∈ locked (ps_world x2)) by exact (lo_locked _ _ Hok2 i _ _ Hi2 eq_refl).
  split_and!.
  - by exists n.
  - intros j st Hne Hj Hh. apply Hne. by apply (lo_one _ _ Hok2 j i st (Holding u id f) (i_ino (f_info f))).
  - intros o' u' f' w' Ho. pose proof (open_harmless o' s u' id (ps_world x2)) as [Hf _]. rewrite Ho in Hf. cbn [snd] in Hf.
    destruct (Hf id n (lo_valid _ _ Hok2 _ _ Hi2) Hn) as (n' & Hn' & _ & E & _).
    assert (exists m, files w' !! lease_path s id = Some m /\ f_info f' = info_of m) as (m & Hm & ->).
    { destruct u'; cbn [open_step] in Ho; unfold open_lease, open_probe, os_wrap in Ho;
        match type of Ho with context [match ?m with _ => _ end] => destruct m as [[f1|e] w3] eqn:Hopen end; try done;
        injection Ho as -> ->; apply open_info in Hopen as (m & Hm & Hi' & _); by eauto. }
    rewrite Hm in Hn'. injection Hn' as ->. cbn. congruence.
  - intros o' u' f' w' E Hl. apply lock_took in Hl as (_ & Hni & _). by rewrite E in Hni.
  - intros o' l w' Ha. eapply (acquire_held o' s id); [|exact Ha]. exists n. split_and!; [done..|congruence].
  - intros o' held Ho Hp. rewrite (probe_answers s o' id _ n held Ho Hn Hp). apply bool_decide_eq_true. congruence.
  - intros o' w' Hc o'' held Ho Hp. apply close_ok in Hc as [Hf Hni]. cbn in Hni. rewrite <- Hf in Hn.
    rewrite (probe_answers s o'' id w' n held Ho Hn Hp), Hino. by apply bool_decide_eq_false.
Qed.

(** ** Concrete runs *)

Lemma moves_prepared `{UnicodeTables} o s u id w w' : prepare_step o s u id w = (Ok true, w') ->
  party_step o s Outside w (Prepared u id, w').
Proof. intros Hp. pose proof (p_prepare o s u id w) as Hs. by rewrite Hp in Hs. Qed.

Lemma moves_opened `{UnicodeTables} o s u id w f w' : open_step o s u id w = (Ok f, w') ->
  party_step o s (Prepared u id) w (Opened u id f, w').
Proof. intros Hp. pose proof (p_open o s u id w) as Hs. by rewrite Hp in Hs. Qed.

Section Example.
#[local] Abbreviation id := (!"abc123" : bytes).
#[local] Abbreviation worker_prepares := (prepare_step no_faults demo_store Worker id).
#[local] Abbreviation worker_opens := (open_step no_faults demo_store Worker id).

(** One worker opens and locks its lease; a second one opens it then. *)
Definition file_of (r : result file * world) : file :=
  match fst r with Ok f => f | Err _ => {| f_path := []; f_info := info_of (new_node empty_world KRegular 0) |} end.
Definition demo_prepared : result bool * world := worker_prepares empty_world.
Definition demo_opened : result file * world := worker_opens (snd demo_prepared).
Definition demo_locked : result () * world := lock_step no_faults Worker (file_of demo_opened) (snd demo_opened).
Definition demo_prepared2 : result bool * world := worker_prepares (snd demo_locked).
Definition demo_opened2 : result file * world := worker_opens (snd demo_prepared2).

Lemma from_ok {A} (m : os A) w a : fst (m w) = Ok a -> m w = (Ok a, snd (m w)).
Proof. destruct (m w). cbn. by intros ->. Qed.

Lemma place_ok s w id f : option_map (fun n => (n_kind n, n_ino n)) (files w !! lease_path s id) = Some (KRegular, i_ino (f_info f)) ->
  in_place s w id f.
Proof. unfold in_place. destruct (files w !! _) as [n|]; [|done]. cbn. intros [= ? ?]. by exists n. Qed.

Lemma demo_steps : exists w1 f w2 w3 w4 f2 w5,
  worker_prepares empty_world = (Ok true, w1) /\ worker_opens w1 = (Ok f, w2) /\ in_place demo_store w2 id f /\
  lock_step no_faults Worker f w2 = (Ok (), w3) /\ worker_prepares w3 = (Ok true, w4) /\ worker_opens w4 = (Ok f2, w5).
Proof.
  exists (snd demo_prepared), (file_of demo_opened), (snd demo_opened), (snd demo_locked), (snd demo_prepared2),
    (file_of demo_opened2), (snd demo_opened2).
  unfold demo_opened2, demo_prepared2, demo_locked, demo_opened, demo_prepared.
  split_and!; [| |apply place_ok| | |]; [apply from_ok|apply from_ok| |apply from_ok|apply from_ok|apply from_ok];
    vm_compute; reflexivity.
Qed.

Lemma lease_excludes_witness : exists f2 w5, (exists w4, worker_opens w4 = (Ok f2, w5)) /\
  forall w6, lock_step no_faults Worker f2 w5 <> (Ok (), w6).
Proof.
  destruct demo_steps as (w1 & f & w2 & w3 & w4 & f2 & w5 & P1 & O1 & Hplace & L1 & P2 & O2).
  set (opened := {| ps_world := w2; ps_all := [Opened Worker id f] |}).
  assert (Hx : reachable nobody_inside (any_step demo_store) opened).
  { eapply (reachable_step _ _ {| ps_world := w1; ps_all := [Prepared Worker id] |});
      [eapply (reachable_step _ _ {| ps_world := empty_world; ps_all := [Outside] |});
         [apply reachable_init; by repeat constructor|]|]; exists (Some 0%nat).
    - exact (ls_party demo_store no_faults 0 {| ps_world := empty_world; ps_all := [Outside] |} _ _ _ eq_refl (moves_prepared _ _ _ _ _ _ P1)).
    - exact (ls_party demo_store no_faults 0 {| ps_world := w1; ps_all := [Prepared Worker id] |} _ _ _ eq_refl (moves_opened _ _ _ _ _ _ _ O1)). }
  destruct (lease_excludes demo_store opened demo_root demo_runtime Hx) as [_ Hholds].
  set (held := {| ps_world := w3; ps_all := [Holding Worker id f] |}).
  set (second := {| ps_world := w4; ps_all := [Holding Worker id f; Prepared Worker id] |}).
  assert (R1 : rtc (others_step demo_store 0) held second).
  { eapply rtc_l; [exists None; split; [done|apply ls_join]|]. eapply rtc_l; [|apply rtc_refl].
    exists (Some 1%nat). split; [done|].
    exact (ls_party demo_store no_faults 1 {| ps_world := w3; ps_all := [Holding Worker id f; Outside] |} _ _ _ eq_refl (moves_prepared _ _ _ _ _ _ P2)). }
  assert (R2 : rtc (others_step demo_store 0) held {| ps_world := w5; ps_all := [Holding Worker id f; Opened Worker id f2] |}).
  { eapply rtc_r; [exact R1|]. exists (Some 1%nat). split; [done|].
    exact (ls_party demo_store no_faults 1 second _ _ _ eq_refl (moves_opened _ _ _ _ _ _ _ O2)). }
  destruct (Hholds 0%nat Worker id f no_faults w3 second eq_refl Hplace L1 R1) as (_ & _ & Hopen & _).
  destruct (Hholds 0%nat Worker id f no_faults w3 _ eq_refl Hplace L1 R2) as (_ & _ & _ & Hno & _).
  exists f2, w5. split; [by exists w4|]. intros w6. apply Hno. exact (Hopen no_faults Worker f2 w5 O2).
Defined.
End Example.

(** Acquiring is not one step: a pruner that locks and removes the lease file
    between the worker's open and its lock leaves the worker with the lock of a
    file at no path.  A probe then says that nobody holds the lease, and a
    second worker acquires it. *)
Example pruned_between_open_and_lock :
  let path := lease_path demo_store !"abc123" in
  let w := snd (mkdirPrivate no_faults (RuntimeRoot demo_store) empty_world) in
  match OpenFile no_faults path true true 0x180 w with
  | (Ok f, w) =>
      let w := snd (PruneCompletedArtifacts no_faults demo_store 0 w) in
      match lock_lease no_faults f w with
      | (Ok _, w) => (fst (LeaseHeld no_faults demo_store !"abc123" w),
                      match fst (AcquireLease no_faults demo_store !"abc123" w) with Ok _ => true | Err _ => false end)
      | (Err _, w) => (Ok true, false)
      end
  | (Err _, w) => (Ok true, false)
  end = (Ok false, true).
Proof. vm_compute. reflexivity. Qed.
