(* ===== verification/Control.v ===== *)
(** * The control socket of a running share (internal/control)

    A worker answers one request per connection on a Unix socket: its status,
    a new name, a new pairing code, or a shutdown.  A request is one line of
    JSON, read with a limit; the worker's [Handler] is an interface, here a
    record of operations on the handler's own state. *)

From S2P Require Import Prelude GoString GoUnicode GoConv GoErrors GoPath GoOS Target Helper.
Open Scope Z_scope.

(** ** Requests and replies (protocol.go) *)

Definition ActionStatus := !"status".
Definition ActionRename := !"rename".
Definition ActionRotate := !"rotate".
Definition ActionShutdown := !"shutdown".

Definition CodeNotFound := !"not_found".
Definition CodeInvalidRequest := !"invalid_request".
Definition CodeNotReady := !"not_ready".
Definition CodeInternal := !"internal".

Definition MaxRequestBytes : Z := 65536.     (* 64 << 10 *)
Definition maxResponseBytes : Z := 1048576.  (* 1 << 20 *)

Record Request := { InstanceID : bytes; Action : bytes; ReqName : bytes }.

Section Validate.
Context `{UnicodeTables}.

Definition Request_validate (r : Request) : option error :=
  if negb (instanceIDPattern (InstanceID r)) then Some (EText !"invalid instance ID")
  else if (Action r ==b ActionStatus) || (Action r ==b ActionRotate) || (Action r ==b ActionShutdown)
  then if negb (ReqName r ==b []) then Some (EText !"request name is only valid for rename") else None
  else if Action r ==b ActionRename
  then if ReqName r ==b [] then Some (EText !"rename requires a name") else None
  else Some (EText (!"unknown action " ++ quote (Action r))).
End Validate.

Record Status := {
  StID : bytes; StName : bytes; State : bytes; PairingURL : bytes; QR : bytes;
  StDirectory : bytes; Clients : Z; StStartedAt : Z; StTarget : Target; Warning : bytes
}.

(** [response]; its error is a code and a message. *)
Record response := { rspStatus : option Status; rspError : option (bytes * bytes) }.
Definition status_reply (s : Status) : response := {| rspStatus := Some s; rspError := None |}.
Definition error_reply (code message : bytes) : response :=
  {| rspStatus := None; rspError := Some (code, message) |}.

(** ** The formats

    What both ends need of the JSON encoding: a written request is one line
    and reads back with nothing after it, a written reply reads back.  Texts
    that are not UTF-8 would be altered. *)
Definition utf8_target (t : Target) : Prop :=
  Forall (fun s => valid_utf8 s = true)
    [SocketPath t; Generation t; SessionID t; WindowID t; SessionName t; WindowName t; Directory t].
Definition sendable_status (s : Status) : Prop :=
  Forall (fun s => valid_utf8 s = true)
    [StID s; StName s; State s; PairingURL s; QR s; StDirectory s; Warning s] /\
  utf8_target (StTarget s) /\ - 2 ^ 63 <= Clients s < 2 ^ 63 /\
  0 <= StStartedAt s < 315537897600 * 10 ^ 9.
Definition sendable (r : response) : Prop :=
  (forall s, rspStatus r = Some s -> sendable_status s) /\
  (forall c m, rspError r = Some (c, m) -> valid_utf8 c = true /\ valid_utf8 m = true).
Definition sendable_request (r : Request) : Prop :=
  Forall (fun s => valid_utf8 s = true) [InstanceID r; Action r; ReqName r].

Class ControlCodec := {
  encode_request : Request -> result bytes;
  decode_request : bytes -> result (Request * bytes);
  decode_trailing : bytes -> result ();
  encode_response : response -> bytes;
  decode_response : bytes -> result response;
  request_law : forall r, sendable_request r -> exists line rest,
    encode_request r = Ok (line ++ [x0a]) /\ (x0a ∉ line) /\
    decode_request (line ++ [x0a]) = Ok (r, rest) /\ decode_trailing rest = Err (ESentinel IoEOF);
  response_law : forall r, sendable r -> decode_response (encode_response r) = Ok r
}.

(** ** The server (server.go) *)

(** The handler's operations on its state [X]. *)
Record Handler (X : Type) := {
  h_Status : X -> Status;
  h_Rename : bytes -> X -> result Status * X;
  h_Rotate : X -> result Status * X;
  h_Shutdown : X -> result () * X
}.
Arguments h_Status {X}. Arguments h_Rename {X}. Arguments h_Rotate {X}. Arguments h_Shutdown {X}.

(** [bufio.Reader.ReadBytes]: up to and with the delimiter, or all there is
    and no delimiter. *)
Definition read_bytes (delim : byte) (input : bytes) : bytes * bool :=
  match index_byte delim input with
  | Some i => (take (S i) input, true)
  | None => (input, false)
  end.

Section Server.
Context `{UnicodeTables} `{ControlCodec}.

(** [input] is what the connection delivers before it ends or times out. *)
Definition readRequest (input : bytes) : result Request :=
  let '(data, delimited) := read_bytes x0a (take (Z.to_nat (MaxRequestBytes + 1)) input) in
  fail_if MaxRequestBytes <? len data with EText !"control request is too large";;
  fail_if negb delimited with EText !"control request must end with a newline";;
  match decode_request data with
  | Err err => Err (wrapf !"invalid control request: " err)
  | Ok (request, rest) =>
      match decode_trailing rest with
      | Err err =>
          fail_if negb (errors_is IoEOF err) with EText !"control request contains trailing JSON";;
          match Request_validate request with
          | Some err => Err err
          | None => Ok request
          end
      | Ok _ => Err (EText !"control request contains trailing JSON")
      end
  end.

Definition responseError (err : error) : bytes * bytes :=
  if errors_is ErrNotReady err then (CodeNotReady, sentinel_text ErrNotReady)
  else (CodeInternal, !"Wrap operation failed").

Definition operation_reply (r : result Status) : response :=
  match r with
  | Ok status => status_reply status
  | Err err => {| rspStatus := None; rspError := Some (responseError err) |}
  end.

(** What a valid request does: the reply written, whether the server stops
    after it, and the handler's new state. *)
Definition operate {X} (hd : Handler X) (request : Request) (h : X) : option response * bool * X :=
  if Action request ==b ActionStatus then (Some (status_reply (h_Status hd h)), false, h)
  else if Action request ==b ActionRename then
    let '(r, h) := h_Rename hd (ReqName request) h in (Some (operation_reply r), false, h)
  else if Action request ==b ActionRotate then
    let '(r, h) := h_Rotate hd h in (Some (operation_reply r), false, h)
  else if Action request ==b ActionShutdown then
    let '(err, h) := h_Shutdown hd h in
    let status := h_Status hd h in
    match err with
    | Err err => (Some (operation_reply (Err err)), false, h)
    | Ok _ => (Some (status_reply status), true, h)
    end
  else (None, false, h).

Definition handle {X} (hd : Handler X) (instanceID input : bytes) (h : X) : option response * bool * X :=
  match readRequest input with
  | Err requestErr => (Some (error_reply CodeInvalidRequest (error_text requestErr)), false, h)
  | Ok request =>
      if negb (InstanceID request ==b instanceID)
      then (Some (error_reply CodeNotFound !"Wrap instance not found"), false, h)
      else operate hd request h
  end.

End Server.

(** ** The accept loop

    Each connection is served by a goroutine: it reads its request, answers a
    status at once, runs any other operation under the mutex [opMu], then writes
    the reply, and after a shutdown stops the server.  An operation of the
    handler is not one step: [Stepped] says how it goes on, a step at a time, on
    the handler's state, and others run in between.  The loop returns when
    accepting fails; [Serve] returns once all connections are finished. *)

(** What runs under the mutex, as a whole. *)
Definition locked_call {X} (hd : Handler X) (request : Request) (h : X) : result Status * X :=
  if Action request ==b ActionRename then h_Rename hd (ReqName request) h
  else if Action request ==b ActionRotate then h_Rotate hd h
  else let '(err, h) := h_Shutdown hd h in
       (match err with Err err => Err err | Ok _ => Ok (h_Status hd h) end, h).

(** The steps of the locked operations of a handler: where they begin, how they
    go on, and what they return.  Undisturbed, they do what the handler says. *)
Record Stepped {X : Type} (hd : Handler X) := {
  Local : Type;
  op_begins : Request -> Local;
  op_step : Local * X -> Local * X -> Prop;
  op_returns : Local -> option (result Status);
  op_law : forall request h l h' r, Action request <> ActionStatus ->
    rtc op_step (op_begins request, h) (l, h') -> op_returns l = Some r -> locked_call hd request h = (r, h')
}.
Arguments Local {X hd}. Arguments op_begins {X hd}. Arguments op_step {X hd}. Arguments op_returns {X hd}.

Inductive phase (L : Type) :=
| Arrived (input : bytes)
| Waiting (input : bytes) (request : Request)              (* at [opMu.Lock] *)
| Running (input : bytes) (request : Request) (at_ : L)    (* holds [opMu] *)
| Replying (input : bytes) (reply : option response) (stops : bool)
| Finished (input : bytes) (reply : option response).
Arguments Arrived {L}. Arguments Waiting {L}. Arguments Running {L}. Arguments Replying {L}. Arguments Finished {L}.

Record serving (X L : Type) := {
  sv_handler : X;
  sv_conns : list (phase L);
  sv_opMu : option nat;                 (* the connection that has the mutex *)
  sv_open : bool;                       (* the listener *)
  sv_stop : bool;                       (* channel [stop] is closed *)
  sv_ctx : option error;                (* [ctx.Err()] *)
  sv_result : option (option error)     (* what the loop returned *)
}.
Arguments sv_handler {X L}. Arguments sv_conns {X L}. Arguments sv_opMu {X L}. Arguments sv_open {X L}.
Arguments sv_stop {X L}. Arguments sv_ctx {X L}. Arguments sv_result {X L}.
#[export] Instance eta_serving X L : Eta (serving X L) := fun st =>
  {| sv_handler := sv_handler st; sv_conns := sv_conns st; sv_opMu := sv_opMu st; sv_open := sv_open st;
     sv_stop := sv_stop st; sv_ctx := sv_ctx st; sv_result := sv_result st |}.

Section Loop.
Context `{UnicodeTables} `{ControlCodec} {X : Type} {hd : Handler X} (sd : Stepped hd) (instanceID : bytes).
#[local] Abbreviation state := (serving X (Local sd)).

Definition goes (st : state) (i : nat) (c : phase (Local sd)) : state := st <| sv_conns := <[i := c]> (sv_conns st) |>.

(** The goroutine of a connection up to its reply, or to the mutex. *)
Definition read_step (st : state) (i : nat) (input : bytes) : state :=
  goes st i
    match readRequest input with
    | Err requestErr => Replying input (Some (error_reply CodeInvalidRequest (error_text requestErr))) false
    | Ok request =>
        if negb (InstanceID request ==b instanceID)
        then Replying input (Some (error_reply CodeNotFound !"Wrap instance not found")) false
        else if Action request ==b ActionStatus
        then Replying input (Some (status_reply (h_Status hd (sv_handler st)))) false
        else if (Action request ==b ActionRename) || (Action request ==b ActionRotate) || (Action request ==b ActionShutdown)
        then Waiting input request
        else Replying input None false
    end.
Definition lock_step (st : state) (i : nat) (input : bytes) (request : Request) : state :=
  (goes st i (Running input request (op_begins sd request))) <| sv_opMu := Some i |>.
Definition unlock_step (st : state) (i : nat) (input : bytes) (request : Request) (r : result Status) : state :=
  (goes st i (Replying input (Some (operation_reply r))
                ((Action request ==b ActionShutdown) && match r with Ok _ => true | Err _ => false end)))
    <| sv_opMu := None |>.
(** The reply, and after it [stopOnce]. *)
Definition finish (st : state) (i : nat) (input : bytes) (reply : option response) (stops : bool) : state :=
  (goes st i (Finished input reply)) <| sv_open := sv_open st && negb stops |> <| sv_stop := sv_stop st || stops |>.
(** [AcceptUnix] returned an error. *)
Definition accept_failed (st : state) (err : error) : state :=
  st <| sv_result := Some (if sv_stop st then None else
       match sv_ctx st with
       | Some e => Some e
       | None => Some (wrapf !"accept control connection: " err)
       end) |>.

Inductive serve_step : state -> state -> Prop :=
| step_accept st input : sv_open st = true -> sv_result st = None ->
    serve_step st (st <| sv_conns := sv_conns st ++ [Arrived input] |>)
| step_read st i input : sv_conns st !! i = Some (Arrived input) -> serve_step st (read_step st i input)
| step_lock st i input request : sv_conns st !! i = Some (Waiting input request) -> sv_opMu st = None ->
    serve_step st (lock_step st i input request)
| step_operate st i input request l l' h' : sv_conns st !! i = Some (Running input request l) ->
    op_step sd (l, sv_handler st) (l', h') ->
    serve_step st ((goes st i (Running input request l')) <| sv_handler := h' |>)
| step_unlock st i input request l r : sv_conns st !! i = Some (Running input request l) ->
    op_returns sd l = Some r -> serve_step st (unlock_step st i input request r)
| step_reply st i input reply stops : sv_conns st !! i = Some (Replying input reply stops) ->
    serve_step st (finish st i input reply stops)
| step_cancel st e : sv_ctx st = None -> serve_step st (st <| sv_ctx := Some e |>)
| step_watch st e : sv_ctx st = Some e -> serve_step st (st <| sv_open := false |>)
| step_accept_failed st err : sv_result st = None -> serve_step st (accept_failed st err).

Definition serve_start (h : X) (st : state) : Prop :=
  st = {| sv_handler := h; sv_conns := []; sv_opMu := None; sv_open := true; sv_stop := false; sv_ctx := None;
          sv_result := None |}.
(** [clients.Wait] is over. *)
Definition all_finished (st : state) : Prop :=
  Forall (fun c => match c with Finished _ _ => True | _ => False end) (sv_conns st).
End Loop.

(** ** The socket's file *)

Section Socket.
Context `{UnicodeTables} (o : oracle).

(** Binding makes the socket; an existing file is refused. *)
Definition ListenUnix (path : bytes) : os () :=
  call o !"listen" path (fun w =>
    match files w !! path with
    | Some _ => (Err (ESys !"listen" path EADDRINUSE), w)
    | None => (Ok (), add_node w path KSocket 0x1ED (* 0o755 *))
    end).

Definition prepareSocketDirectory (path : bytes) : os () :=
  os_wrap !"create control socket directory: " (MkdirAll o path 0x1C0 (* 0o700 *));*
  let* info := os_wrap !"inspect control socket directory: " (Lstat o path) in
  if negb (is_dir info) || is_symlink info
  then os_fail (EText !"control socket directory is not a regular directory")
  else os_wrap !"protect control socket directory: " (Chmod o path 0x1C0).

Definition removeOwnedSocket (path : bytes) (owned : option Info) : os () :=
  let* r := os_try (Lstat o path) in
  match r with
  | Err err => if is_not_exist err then os_ret ()
               else os_fail (wrapf !"inspect control socket during cleanup: " err)
  | Ok current =>
      if match owned with
         | Some owned => negb (i_ino owned =? i_ino current)
         | None => negb (is_socket current)
         end
      then os_ret () else
      let* r := os_try (Remove o path) in
      match r with
      | Err err => if is_not_exist err then os_ret ()
                   else os_fail (wrapf !"remove control socket: " err)
      | Ok _ => os_ret ()
      end
  end.

(** The errors of the loop come first; the loop ends when every connection
    is finished. *)
Definition serve_and_remove (socketPath : bytes) (owned : Info) (loop : os ()) : os () :=
  let* r := os_try loop in
  let* c := os_try (removeOwnedSocket socketPath (Some owned)) in
  match r, c with
  | Err err, _ | Ok _, Err err => os_fail err
  | Ok _, Ok _ => os_ret ()
  end.

Definition Serve (socketPath instanceID : bytes) (loop : os ()) : os () :=
  if negb (is_abs socketPath) then os_fail (EText !"control socket path must be absolute") else
  match Request_validate {| InstanceID := instanceID; Action := ActionStatus; ReqName := [] |} with
  | Some err => os_fail err
  | None =>
      prepareSocketDirectory (path_dir socketPath);*
      let* r := os_try (Lstat o socketPath) in
      match r with
      | Ok _ => os_fail (EText (!"control socket path already exists: " ++ socketPath))
      | Err err =>
          if negb (is_not_exist err) then os_fail (wrapf !"inspect control socket path: " err) else
          os_wrap !"listen on control socket: " (ListenUnix socketPath);*
          let* r := os_try (Chmod o socketPath 0x180 (* 0o600 *)) in
          match r with
          | Err err => ignore removeOwnedSocket socketPath None;*
                       os_fail (wrapf !"protect control socket: " err)
          | Ok _ =>
              let* owned := os_wrap !"inspect created control socket: " (Lstat o socketPath) in
              serve_and_remove socketPath owned loop
          end
      end
  end.
End Socket.

(** ** The client (client.go) *)

(** What happens around one call: how dialling, the deadline and the write
    end, what the context says when one of them failed, and the peer. *)
Record network := {
  n_dial : result ();
  n_dial_ctx : option error;           (* [callCtx.Err()] after a failed dial *)
  n_deadline : result ();
  n_write : result ();
  n_ctx : option error;                (* [callCtx.Err()] after a failed write or read *)
  n_timed_out : bool;                  (* the failure is a timeout past the deadline *)
  n_peer : bytes -> bytes              (* what is read back *)
}.

Section Client.
Context `{UnicodeTables} `{ControlCodec}.

Definition callContextError (n : network) : option error :=
  match n_ctx n with
  | Some err => Some err
  | None => if n_timed_out n then Some (ESentinel ContextDeadlineExceeded) else None
  end.
(** The context's error, if it has one, else the wrapped error. *)
Definition or_wrapped (ctxErr : option error) (before : bytes) (err : error) : error :=
  match ctxErr with Some e => e | None => wrapf before err end.

Definition Call (n : network) (socketPath : bytes) (request : Request) : result Status :=
  fail_if negb (is_abs socketPath) with EText !"control socket path must be absolute";;
  match Request_validate request with
  | Some err => Err (EControl CodeInvalidRequest (error_text err))
  | None =>
  match encode_request request with
  | Err err => Err (wrapf !"encode control request: " err)
  | Ok payload =>
  fail_if MaxRequestBytes <? len payload with EControl CodeInvalidRequest !"control request is too large";;
  match n_dial n with
  | Err err => Err (or_wrapped (n_dial_ctx n) !"connect to Wrap control socket: " err)
  | Ok _ =>
  match n_deadline n with
  | Err err => Err (wrapf !"set control deadline: " err)
  | Ok _ =>
  match n_write n with
  | Err err => Err (or_wrapped (callContextError n) !"write control request: " err)
  | Ok _ =>
  match decode_response (take (Z.to_nat (maxResponseBytes + 1)) (n_peer n payload)) with
  | Err err => Err (or_wrapped (callContextError n) !"decode control response: " err)
  | Ok reply =>
      match rspError reply with
      | Some (code, message) => Err (EControl code message)
      | None =>
          match rspStatus reply with
          | None => Err (EText !"control response contains no status")
          | Some status => Ok status
          end
      end
  end end end end end end.
End Client.
