(* ===== verification/PlainControl.v ===== *)
(** * A concrete request and reply format

    The theorems on the control socket hold for every format with the laws of
    [ControlCodec].  This one shows that the laws can hold and lets the
    examples evaluate: a value is a list of fields, and a field is written
    with two letters per byte and a full stop at its end. *)

From S2P Require Import Prelude GoString GoUnicode GoConv GoErrors GoPath GoOS Target Helper.
From S2P Require Import Control.
Open Scope Z_scope.

Definition letter (n : Z) : byte := zb (97 + n).
Definition put_letters (b : byte) : bytes := [letter (bz b / 16); letter (bz b mod 16)].
Definition put_item (f : bytes) : bytes := flat_map put_letters f ++ !".".

Fixpoint get_item (s : bytes) : option (bytes * bytes) :=
  match s with
  | [] => None
  | x :: s' =>
      if Byte.eqb x "."%byte then Some ([], s')
      else match s' with
           | [] => None
           | y :: s'' => '(f, rest) ← get_item s''; Some (zb ((bz x - 97) * 16 + (bz y - 97)) :: f, rest)
           end
  end.

Lemma letters_read b :
  Byte.eqb (letter (bz b / 16)) "." || Byte.eqb (letter (bz b / 16)) x0a ||
  Byte.eqb (letter (bz b mod 16)) x0a ||
  negb (Byte.eqb (zb ((bz (letter (bz b / 16)) - 97) * 16 + (bz (letter (bz b mod 16)) - 97))) b) = false.
Proof.
  apply negb_true_iff. revert b.
  all_bytes.
Qed.

Lemma get_put_item f rest : get_item (put_item f ++ rest) = Some (f, rest).
Proof.
  unfold put_item. rewrite <- app_assoc. induction f as [|b f IH]; [done|].
  cbn [flat_map put_letters app get_item]. pose proof (letters_read b) as Hb.
  apply orb_false_iff in Hb as [[[Hb _]%orb_false_iff _]%orb_false_iff Hz%negb_false_iff].
  rewrite Hb. cbn [app] in IH. rewrite IH. apply byte_eqb_true in Hz. by rewrite Hz.
Qed.

Lemma put_item_line f : x0a ∉ put_item f.
Proof.
  unfold put_item. induction f as [|b f IH]; [by intros [[=]|[]%elem_of_nil]%elem_of_cons|].
  pose proof (letters_read b) as Hb.
  apply orb_false_iff in Hb as [[[_ Hb]%orb_false_iff Hb']%orb_false_iff _].
  apply byte_eqb_false in Hb, Hb'. cbn [flat_map put_letters app].
  intros [E|[E|E]%elem_of_cons]%elem_of_cons; congruence.
Qed.

Fixpoint get_items (n : nat) (s : bytes) : option (list bytes * bytes) :=
  match n with
  | O => Some ([], s)
  | S n' => '(f, s) ← get_item s; '(fs, s) ← get_items n' s; Some (f :: fs, s)
  end.

Lemma get_put_items fs rest :
  get_items (length fs) (flat_map put_item fs ++ rest) = Some (fs, rest).
Proof.
  induction fs as [|f fs IH]; [done|]. cbn [length get_items flat_map].
  rewrite <- app_assoc, get_put_item. cbn [mbind option_bind]. by rewrite IH.
Qed.

Definition status_items (s : Status) : list bytes :=
  let t := StTarget s in
  [StID s; StName s; State s; PairingURL s; QR s; StDirectory s; itoa (Clients s);
   format_uint (StStartedAt s); SocketPath t; Generation t; SessionID t; WindowID t; SessionName t;
   WindowName t; Directory t; Warning s].
Definition response_items (r : response) : list bytes :=
  match rspError r, rspStatus r with
  | None, None => [!"n"; []; []]
  | None, Some s => [!"s"; []; []] ++ status_items s
  | Some (c, m), None => [!"e"; c; m]
  | Some (c, m), Some s => [!"b"; c; m] ++ status_items s
  end.

Definition items_status (fs : list bytes) : option Status :=
  match fs with
  | [id; name; st; url; qr; dir; clients; started; tsocket; tgen; tsid; twid; tsname; twname; tdir; warn] =>
      c ← parse_int clients; at_ ← digits_acc 0 started;
      Some {| StID := id; StName := name; State := st; PairingURL := url; QR := qr; StDirectory := dir;
              Clients := c; StStartedAt := at_; Warning := warn;
              StTarget := {| SocketPath := tsocket; Target.Generation := tgen; SessionID := tsid;
                WindowID := twid; SessionName := tsname; WindowName := twname; Directory := tdir |} |}
  | _ => None
  end.

Lemma items_status_items s : sendable_status s -> items_status (status_items s) = Some s.
Proof.
  intros (_ & _ & Hc & Hs). unfold items_status, status_items.
  rewrite !atoi_itoa, digits_format_uint by lia. destruct s as [? ? ? ? ? ? ? ? [] ?]. done.
Qed.

Definition read_response (data : bytes) : option response :=
  '(head, rest) ← get_items 3 data;
  match head with
  | [tag; c; m] =>
      if tag ==b !"n" then Some {| rspStatus := None; rspError := None |}
      else if tag ==b !"e" then Some (error_reply c m)
      else '(fs, _) ← get_items 16 rest; s ← items_status fs;
           if tag ==b !"s" then Some (status_reply s)
           else Some {| rspStatus := Some s; rspError := Some (c, m) |}
  | _ => None
  end.

Lemma read_head a b c rest : get_items 3 (flat_map put_item [a; b; c] ++ rest) = Some ([a; b; c], rest).
Proof. exact (get_put_items [a; b; c] rest). Qed.
Lemma read_status s : get_items 16 (flat_map put_item (status_items s)) = Some (status_items s, []).
Proof. pose proof (get_put_items (status_items s) []) as Hg. by rewrite app_nil_r in Hg. Qed.

Lemma read_response_items r : sendable r -> read_response (flat_map put_item (response_items r)) = Some r.
Proof.
  intros [Hs _]. unfold read_response.
  destruct r as [[s|] [[c m]|]]; unfold response_items; cbn [rspStatus rspError].
  - rewrite flat_map_app, read_head. cbn [mbind option_bind]. rewrite !bool_decide_false by done.
    rewrite read_status. cbn [mbind option_bind]. by rewrite items_status_items by (by apply Hs).
  - rewrite flat_map_app, read_head. cbn [mbind option_bind]. rewrite !(bool_decide_false (!"s" = _)) by done.
    rewrite read_status. cbn [mbind option_bind]. by rewrite items_status_items by (by apply Hs).
  - rewrite <- (app_nil_r (flat_map put_item _)), read_head. done.
  - rewrite <- (app_nil_r (flat_map put_item _)), read_head. done.
Qed.

#[export, refine] Instance plain_control : ControlCodec := {|
  encode_request r := Ok (flat_map put_item [InstanceID r; Action r; ReqName r] ++ [x0a]);
  decode_request data :=
    match get_items 3 data with
    | Some ([id; action; name], rest) => Ok ({| InstanceID := id; Action := action; ReqName := name |}, rest)
    | _ => Err (EText !"unexpected end of input")
    end;
  decode_trailing rest := if rest ==b [x0a] then Err (ESentinel IoEOF) else Ok ();
  encode_response r := flat_map put_item (response_items r);
  decode_response data :=
    match read_response data with Some r => Ok r | None => Err (EText !"unexpected end of input") end
|}.
Proof.
  - intros r _. exists (flat_map put_item [InstanceID r; Action r; ReqName r]), [x0a].
    split; [done|]. split.
    + cbn [flat_map]. rewrite !elem_of_app. intros [E|[E|[E|E]]]; try (by apply put_item_line in E).
      by apply elem_of_nil in E.
    + change 3%nat with (length [InstanceID r; Action r; ReqName r]). rewrite get_put_items.
      destruct r. done.
  - intros r Hr. by rewrite read_response_items.
Defined.
