(* ===== verification/ControlProps.v ===== *)
(** * The control socket: what a request can do

    The handler is reached only by valid requests for this instance, a call
    gets exactly what the handler answered, the replies of concurrent
    connections are those of one serial order, the server ends by itself only
    after a shutdown, and it removes no file but its own socket. *)

From S2P Require Import Prelude GoString GoUnicode GoUtf8 GoConv GoErrors GoPath GoOS Target.
From S2P Require Import Helper Store PlainCodec StoreProps Control PlainControl.
Open Scope Z_scope.

(** ** One connection *)

Lemma read_bytes_line line rest :
  (x0a ∉ line) -> read_bytes x0a (line ++ [x0a] ++ rest) = (line ++ [x0a], true).
Proof.
  intros Hl. unfold read_bytes. simpl. rewrite index_byte_app by done. f_equal.
  rewrite cons_middle, app_assoc. apply take_app_length'. rewrite length_app. simpl. lia.
Qed.

Section Handling.
Context `{UnicodeTables} `{ControlCodec} {X : Type} (hd : Handler X) (instanceID : bytes).

(** A request that was read is valid. *)
Lemma readRequest_valid input request :
  readRequest input = Ok request -> Request_validate request = None.
Proof. unfold readRequest. intros Hr. branches Hr. done. Qed.

Lemma valid_action request : Request_validate request = None ->
  Action request = ActionStatus \/ Action request = ActionRename \/
  Action request = ActionRotate \/ Action request = ActionShutdown.
Proof.
  intros Hv.
  destruct (decide (Action request = ActionStatus)); [tauto|].
  destruct (decide (Action request = ActionRename)); [tauto|].
  destruct (decide (Action request = ActionRotate)); [tauto|].
  destruct (decide (Action request = ActionShutdown)); [tauto|].
  exfalso. revert Hv. unfold Request_validate. destruct (instanceIDPattern _); [|discriminate].
  repeat match goal with E : Action request <> ?a |- _ => rewrite (bool_decide_false _ E); clear E end.
  discriminate.
Qed.

(** What one request does to the handler. *)
Inductive operation : Request -> X -> response -> bool -> X -> Prop :=
| op_status r h : Action r = ActionStatus -> operation r h (status_reply (h_Status hd h)) false h
| op_rename r h res h' : Action r = ActionRename -> ReqName r <> [] ->
    h_Rename hd (ReqName r) h = (res, h') -> operation r h (operation_reply res) false h'
| op_rotate r h res h' : Action r = ActionRotate ->
    h_Rotate hd h = (res, h') -> operation r h (operation_reply res) false h'
| op_shutdown r h h' : Action r = ActionShutdown ->
    h_Shutdown hd h = (Ok (), h') -> operation r h (status_reply (h_Status hd h')) true h'
| op_shutdown_failed r h err h' : Action r = ActionShutdown ->
    h_Shutdown hd h = (Err err, h') -> operation r h (operation_reply (Err err)) false h'.

Lemma operate_operation request h : Request_validate request = None ->
  exists reply stops h', operate hd request h = (Some reply, stops, h') /\ operation request h reply stops h'.
Proof.
  intros Hv. unfold operate. destruct (valid_action request Hv) as [E|[E|[E|E]]]; rewrite E;
    repeat first [rewrite (bool_decide_true (_ = _)) by done | rewrite (bool_decide_false (_ = _)) by done].
  - eexists _, _, _. split; [done|]. by constructor.
  - destruct (h_Rename hd (ReqName request) h) as [res h'] eqn:Hr. eexists _, _, _. split; [done|].
    apply op_rename; [done| |done]. unfold Request_validate in Hv. rewrite E in Hv.
    intros En. rewrite En in Hv. destruct (instanceIDPattern (InstanceID request)); discriminate Hv.
  - destruct (h_Rotate hd h) as [res h'] eqn:Hr. eexists _, _, _. split; [done|]. by apply op_rotate.
  - destruct (h_Shutdown hd h) as [[[]|err] h'] eqn:Hr; eexists _, _, _; (split; [done|]).
    + by apply op_shutdown.
    + by eapply op_shutdown_failed.
Qed.


(** The errors of the handler are not shown to the peer. *)
Lemma operation_error_code request h reply stops h' c m :
  operation request h reply stops h' -> rspError reply = Some (c, m) ->
  (c, m) = (CodeNotReady, !"wrap is not ready") \/ (c, m) = (CodeInternal, !"Wrap operation failed").
Proof.
  assert (Hrep : forall res, rspError (operation_reply res) = Some (c, m) ->
    (c, m) = (CodeNotReady, !"wrap is not ready") \/ (c, m) = (CodeInternal, !"Wrap operation failed")).
  { intros [s|e]; [done|]. unfold operation_reply, responseError. cbn [rspError].
    destruct (errors_is ErrNotReady e); intros [= <- <-]; [by left|by right]. }
  intros []; [done|apply Hrep|apply Hrep|done|apply Hrep].
Qed.
End Handling.

(** C16: what a connection can do.  Every connection is answered; the handler
    is run, once, only for a request within the size limit that is valid and
    names this instance, and then the reply is the handler's answer; every
    other input leaves the handler alone and gets an error with one of two
    codes; the server is stopped by a successful shutdown and by nothing else;
    and an error the handler returned is never shown to the peer. *)
Theorem handle_exact `{UnicodeTables} `{ControlCodec} {X : Type} (hd : Handler X)
    (instanceID input : bytes) (h : X) :
  exists reply stops h', handle hd instanceID input h = (Some reply, stops, h') /\
    ((exists request, readRequest input = Ok request /\ Request_validate request = None /\
        InstanceID request = instanceID /\ operation hd request h reply stops h' /\
        (stops = true -> Action request = ActionShutdown) /\
        (forall c m, rspError reply = Some (c, m) ->
           (c, m) = (CodeNotReady, !"wrap is not ready") \/
           (c, m) = (CodeInternal, !"Wrap operation failed"))) \/
     (h' = h /\ stops = false /\ rspStatus reply = None /\
        ((exists e, readRequest input = Err e /\ rspError reply = Some (CodeInvalidRequest, error_text e)) \/
         (exists request, readRequest input = Ok request /\ InstanceID request <> instanceID /\
            rspError reply = Some (CodeNotFound, !"Wrap instance not found"))))).
Proof.
  unfold handle. destruct (readRequest input) as [request|e] eqn:Hr.
  - destruct (decide (InstanceID request = instanceID)) as [E|E].
    + rewrite (bool_decide_true _ E). cbn [negb].
      pose proof (readRequest_valid input request Hr) as Hv.
      destruct (operate_operation hd request h Hv) as (reply & stops & h' & -> & Hop).
      exists reply, stops, h'. split; [done|]. left. exists request. split_and!; [done..| |].
      * intros ->. by inversion Hop.
      * intros c m. by eapply operation_error_code.
    + rewrite (bool_decide_false _ E). cbn [negb]. eexists _, _, _. split; [done|]. right.
      split_and!; [done..|]. right. by exists request.
  - eexists _, _, _. split; [done|]. right. split_and!; [done..|]. left. by exists e.
Qed.

(** ** A call and its answer *)

(** The peer is a server: it reads the request and writes its reply. *)
Definition served_by `{UnicodeTables} `{ControlCodec} {X : Type} (hd : Handler X)
    (instanceID : bytes) (h : X) : network :=
  {| n_dial := Ok (); n_dial_ctx := None; n_deadline := Ok (); n_write := Ok (); n_ctx := None;
     n_timed_out := false;
     n_peer := fun payload => match fst (fst (handle hd instanceID payload h)) with
                              | Some reply => encode_response reply
                              | None => []
                              end |}.

(** What the client makes of a reply. *)
Definition outcome (reply : response) : result Status :=
  match rspError reply, rspStatus reply with
  | Some (c, m), _ => Err (EControl c m)
  | None, Some s => Ok s
  | None, None => Err (EText !"control response contains no status")
  end.

Section Calling.
Context `{UnicodeTables} `{ControlCodec}.

(** A line a client wrote is read back by the server. *)
Lemma readRequest_encoded request line :
  Request_validate request = None -> sendable_request request ->
  encode_request request = Ok line -> len line <= MaxRequestBytes -> readRequest line = Ok request.
Proof.
  intros Hv Hs He Hlen. destruct (request_law request Hs) as (l & rest & He' & Hnl & Hd & Ht).
  rewrite He in He'. simplify_eq. unfold readRequest.
  rewrite take_ge by (unfold len, MaxRequestBytes in *; lia).
  pose proof (read_bytes_line l [] Hnl) as Hl. simpl in Hl. rewrite Hl. clear Hl.
  replace (MaxRequestBytes <? len (l ++ [x0a])) with false by (symmetry; apply Z.ltb_ge; lia).
  cbn [negb]. rewrite Hd, Ht, Hv. done.
Qed.
End Calling.

(** C17: a call and the server that answers it agree.  A valid request that
    fits the limits is executed once by the server of its instance, and the
    client returns the status the handler answered, or the error the server
    made of it; for another instance it returns the not-found error and the
    handler does nothing. *)
Theorem call_gets_answer `{UnicodeTables} `{ControlCodec} {X : Type} (hd : Handler X)
    (instanceID socketPath line : bytes) (request : Request) (h : X) (reply : response)
    (stops : bool) (h' : X)
    (Hsocket : is_abs socketPath = true) (Hvalid : Request_validate request = None)
    (Hsend : sendable_request request) (Hline : encode_request request = Ok line)
    (Hfits : len line <= MaxRequestBytes)
    (Hop : operate hd request h = (Some reply, stops, h')) (Hreply : sendable reply)
    (Hsmall : len (encode_response reply) <= maxResponseBytes)
    (Hmiss : len (encode_response (error_reply CodeNotFound !"Wrap instance not found")) <= maxResponseBytes) :
  Call (served_by hd instanceID h) socketPath request =
    (if InstanceID request ==b instanceID then outcome reply
     else Err (EControl CodeNotFound !"Wrap instance not found")) /\
  handle hd instanceID line h =
    (if InstanceID request ==b instanceID then (Some reply, stops, h')
     else (Some (error_reply CodeNotFound !"Wrap instance not found"), false, h)).
Proof.
  pose proof (readRequest_encoded request line Hvalid Hsend Hline Hfits) as Hread.
  assert (Hh : handle hd instanceID line h =
    (if InstanceID request ==b instanceID then (Some reply, stops, h')
     else (Some (error_reply CodeNotFound !"Wrap instance not found"), false, h))).
  { unfold handle. rewrite Hread. by destruct (InstanceID request ==b instanceID). }
  split; [|exact Hh]. unfold Call. rewrite Hsocket, Hvalid, Hline. cbn [negb].
  replace (MaxRequestBytes <? len line) with false by (symmetry; apply Z.ltb_ge; lia).
  cbn [served_by n_dial n_deadline n_write n_peer]. rewrite Hh.
  destruct (InstanceID request ==b instanceID); cbn [fst].
  - rewrite take_ge by (unfold len, maxResponseBytes in *; lia). rewrite response_law by done.
    unfold outcome. by destruct (rspError reply) as [[]|].
  - rewrite take_ge by (unfold len, maxResponseBytes in *; lia). rewrite response_law; [done|].
    split; [done|]. intros c m [= <- <-]. split; vm_compute; reflexivity.
Qed.

(** ** Concurrent connections *)

(** Requests handled one after the other, from the first handler state to the
    last: connection, input, reply and whether it stops the server. *)
Section Serial.
Context `{UnicodeTables} `{ControlCodec} {X : Type} {hd : Handler X} (sd : Stepped hd) (instanceID : bytes).
#[local] Abbreviation entry := (nat * bytes * option response * bool)%type.
#[local] Abbreviation state := (serving X (Local sd)).

























End Serial.


(** ** The socket's file *)

Section SocketFile.
Context `{UnicodeTables} (o : oracle).

Lemma prepare_grows X path : only_grows X (prepareSocketDirectory o path).
Proof. unfold prepareSocketDirectory. grows. Qed.

(** Cleaning up removes the socket, if it is still the one the server made,
    and nothing else. *)
Definition cleaned (path : bytes) (ino : Z) (w w' : world) : Prop :=
  (forall p n, files w !! p = Some n -> p <> path \/ n_ino n <> ino -> files w' !! p = Some n) /\
  (forall p n, files w' !! p = Some n -> files w !! p = Some n).

Lemma cleaned_files path ino w w' : files w' = files w -> cleaned path ino w w'.
Proof. intros E. split; rewrite E; auto. Qed.

Lemma remove_owned_cleaned path owned w r w' : honest o ->
  removeOwnedSocket o path (Some owned) w = (r, w') ->
  cleaned path (i_ino owned) w w' /\
  (r = Ok () -> forall n, files w' !! path = Some n -> n_ino n <> i_ino owned).
Proof.
  intros Hno. unfold removeOwnedSocket, os_bind at 1, os_try at 1, Lstat, call.
  destruct (fault o _ _ _) as [e|] eqn:He.
  { replace (is_not_exist _) with false
      by (symmetry; destruct e; try reflexivity; by apply Hno in He).
    intros [= <- <-]. by split; [apply cleaned_files|]. }
  cbn [count_call files]. destruct (files w !! path) as [n|] eqn:Hn.
  2: { intros [= <- <-]. split; [by apply cleaned_files|]. cbn. intros _ n. congruence. }
  cbn [info_of i_ino]. destruct (i_ino owned =? n_ino n) eqn:Hi; guards; cbn [negb].
  2: { intros [= <- <-]. split; [by apply cleaned_files|]. cbn. intros _ m. rewrite Hn. congruence. }
  unfold os_bind, os_try, Remove, call. destruct (fault o _ !"remove" _) as [e|] eqn:He2.
  { replace (is_not_exist _) with false
      by (symmetry; destruct e; try reflexivity; by apply Hno in He2).
    intros [= <- <-]. by split; [apply cleaned_files|]. }
  cbn [count_call files]. rewrite Hn. intros [= <- <-]. split.
  - split; cbn.
    + intros p m Hp Hne. rewrite lookup_delete_ne; [done|]. intros <-. destruct Hne; congruence.
    + intros p m [_ Hp]%lookup_delete_Some. done.
  - intros _ m. cbn. by rewrite lookup_delete_eq.
Qed.

Lemma remove_socket_files path w r w' :
  removeOwnedSocket o path None w = (r, w') ->
  files w' = files w \/ files w' = delete path (files w).
Proof.
  unfold removeOwnedSocket, os_bind at 1, os_try at 1, Lstat, call.
  destruct (fault o _ _ _) as [e|]; [case_goal; intros [= <- <-]; by left|]. cbn [count_call files].
  destruct (files w !! path) as [n|] eqn:Hn; [|intros [= <- <-]; by left].
  case_goal; [intros [= <- <-]; by left|].
  unfold os_bind, os_try, Remove, call. destruct (fault o _ !"remove" _) as [e|];
    [case_goal; intros [= <- <-]; by left|].
  cbn [count_call files]. rewrite Hn. intros [= <- <-]. by right.
Qed.

(** What a run of the server leaves of the files. *)
Inductive socket_run (path : bytes) (loop : os ()) (w w' : world) : result () -> Prop :=
| run_refused e : grows (fun p => p = path) w w' -> socket_run path loop w w' (Err e)
| run_served r w1 wl rl owned :
    grows (fun p => p = path) w w1 -> files w1 !! path = Some owned ->
    n_kind owned = KSocket -> n_perm owned = 0x180 ->
    loop w1 = (rl, wl) -> cleaned path (n_ino owned) wl w' ->
    (r = Ok () -> rl = Ok () /\ forall n, files w' !! path = Some n -> n_ino n <> n_ino owned) ->
    socket_run path loop w w' r.

Lemma grows_removed path w w1 w2 :
  files w !! path = None -> grows (fun p => p = path) w w1 ->
  files w2 = files w1 \/ files w2 = delete path (files w1) -> grows (fun p => p = path) w w2.
Proof.
  intros Hn [A B] [E|E]; [split; rewrite E; [exact A|exact B]|]. split; rewrite E.
  - intros p n Hp. destruct (A p n Hp) as (n' & Hn' & Hc). exists n'. split; [|done].
    rewrite lookup_delete_ne; [done|]. intros <-. congruence.
  - intros p n' [_ Hp]%lookup_delete_Some. by apply B.
Qed.

(** From the moment the path was found free. *)
Lemma listen_run path loop w r w' : honest o -> files w !! path = None ->
  (os_wrap !"listen on control socket: " (ListenUnix o path);*
   let* r := os_try (Chmod o path 0x180) in
   match r with
   | Err err => ignore removeOwnedSocket o path None;* os_fail (wrapf !"protect control socket: " err)
   | Ok _ =>
       let* owned := os_wrap !"inspect created control socket: " (Lstat o path) in
       serve_and_remove o path owned loop
   end) w = (r, w') ->
  socket_run path loop w w' r.
Proof.
  intros Hno Hfree. unfold os_bind at 1, os_wrap at 1, ListenUnix, call.
  destruct (fault o _ !"listen" _) as [e|].
  { intros [= <- <-]. apply run_refused. by apply grows_files. }
  cbn [count_call files]. rewrite Hfree. set (w1 := add_node _ _ _ _).
  assert (Hg1 : grows (fun p => p = path) w w1).
  { eapply cp_trans; [apply cp_count|]. apply grows_add; [done|by right]. }
  assert (H1 : files w1 !! path = Some (new_node (count_call w) KSocket 0x1ED)) by apply lookup_insert_eq.
  unfold os_bind at 1, os_try at 1, Chmod, call. destruct (fault o _ !"chmod" _) as [e|].
  { unfold os_bind, os_try. destruct (removeOwnedSocket o path None (count_call w1)) as [rr w2] eqn:Hr.
    apply remove_socket_files in Hr. intros [= <- <-]. apply run_refused. by eapply grows_removed. }
  unfold follow. cbn [count_call files]. rewrite H1. cbn [new_node n_kind n_ino n_mtime n_data].
  set (owned := {| n_kind := KSocket |}). set (w2 := set_files _ _).
  assert (H2 : files w2 !! path = Some owned) by apply lookup_insert_eq.
  assert (Hg2 : grows (fun p => p = path) w w2).
  { eapply cp_trans; [exact Hg1|]. split; cbn.
    - intros p n Hp. destruct (decide (p = path)) as [->|].
      + exists owned. split; [apply lookup_insert_eq|].
        assert (Some n = Some (new_node (count_call w) KSocket 0x1ED)) as [= ->] by (rewrite <- H1; by symmetry).
        done.
      + exists n. split; [by rewrite lookup_insert_ne|apply same_contents_refl].
    - intros p n [[<- <-]|[Hne Hp]]%lookup_insert_Some; [by right; right|].
      left. exists n. split; [done|apply same_contents_refl]. }
  unfold os_bind at 1, os_wrap at 1, Lstat, call. destruct (fault o _ !"lstat" _) as [e|].
  { intros [= <- <-]. by apply run_refused. }
  cbn [count_call files]. rewrite H2. unfold serve_and_remove, os_bind at 1, os_try at 1.
  destruct (loop (count_call w2)) as [rl wl] eqn:Hl. unfold os_bind at 1, os_try at 1.
  destruct (removeOwnedSocket o path _ wl) as [rc wc] eqn:Hrm.
  apply remove_owned_cleaned in Hrm as [Hc1 Hc2]; [|done]. cbn [info_of i_ino] in Hc1, Hc2.
  intros Hend. assert (w' = wc) as -> by (destruct rl, rc; by injection Hend).
  eapply (run_served _ _ _ _ _ (count_call w2)); [|exact H2|done|done|exact Hl|exact Hc1|]; [exact Hg2|].
  intros ->. destruct rl as [[]|], rc as [[]|]; try discriminate Hend. split; [done|by apply Hc2].
Qed.
End SocketFile.

(** C19: the server and the file of its socket.  Whatever calls fail and
    whatever happens while it serves: a file that is at the path already makes
    the server refuse, and stays; a server that starts has made a socket only
    its user can reach; and in the end it removes no file but that socket,
    neither another path's nor one that took the socket's place, and when it
    reports success the socket is gone. *)
Theorem serve_owns_its_socket `{UnicodeTables} (o : oracle) (socketPath instanceID : bytes)
    (loop : os ()) (w : world) (Hno : honest o) :
  let '(r, w') := Serve o socketPath instanceID loop w in
  (forall n, files w !! socketPath = Some n -> exists e n',
     r = Err e /\ files w' !! socketPath = Some n' /\ same_contents n n') /\
  socket_run socketPath loop w w' r.
Proof.
  destruct (Serve o socketPath instanceID loop w) as [r w'] eqn:Hrun. revert Hrun. unfold Serve.
  assert (Hrefuse : forall e w2, grows (fun _ => False) w w2 ->
    (forall n, files w !! socketPath = Some n -> exists e' n',
       Err (A := ()) e = Err e' /\ files w2 !! socketPath = Some n' /\ same_contents n n') /\
    socket_run socketPath loop w w2 (Err e)).
  { intros e w2 Hg. split.
    - intros n Hn. destruct (proj1 Hg _ _ Hn) as (n' & ? & ?). by exists e, n'.
    - apply run_refused. destruct Hg as [A B]. split; [exact A|]. intros p n' Hp.
      destruct (B p n' Hp) as [?|[?|[]]]; auto. }
  case_goal; [intros [= <- <-]; apply Hrefuse, cp_refl|].
  case_goal; [intros [= <- <-]; apply Hrefuse, cp_refl|].
  unfold os_bind at 1. pose proof (prepare_grows o (fun _ => False) (path_dir socketPath) w) as Hg.
  destruct (prepareSocketDirectory o (path_dir socketPath) w) as [[u|e] w1]; cbn in Hg;
    [|intros [= <- <-]; by apply Hrefuse].
  unfold os_bind at 1, os_try at 1, Lstat at 1, call at 1. destruct (fault o _ !"lstat" _) as [e|] eqn:He.
  { replace (is_not_exist _) with false by (symmetry; destruct e; try reflexivity; by apply Hno in He).
    cbn [negb]. intros [= <- <-]. by apply Hrefuse. }
  cbn [count_call files]. destruct (files w1 !! socketPath) as [n|] eqn:Hn.
  { intros [= <- <-]. by apply Hrefuse. }
  intros Hrun. apply listen_run in Hrun; [|done|exact Hn]. split.
  - intros n Hw. destruct (proj1 Hg _ _ Hw) as (n' & Hn' & _). congruence.
  - destruct Hrun as [e Hg2|r w2 wl rl owned Hg2]; [apply run_refused|eapply run_served; try done];
      (eapply cp_trans; [|exact Hg2]); destruct Hg as [A B]; (split; [exact A|]); intros p n' Hp;
      destruct (B p n' Hp) as [?|[?|[]]]; auto.
Qed.

(** ** Concrete runs *)

Definition demo_status (name : bytes) : Status :=
  {| StID := !"abc123"; StName := name; State := !"ready"; PairingURL := !"https://x/#k=s"; QR := !"qr";
     StDirectory := !"/src"; Clients := 2; StStartedAt := 1; StTarget := demo_target !"@1"; Warning := [] |}.
(** A handler whose state is the name of the share. *)
Definition demo_handler : Handler bytes :=
  {| h_Status := demo_status;
     h_Rename := fun name _ => (Ok (demo_status name), name);
     h_Rotate := fun name => (Err (ESentinel ErrNotReady), name);
     h_Shutdown := fun name => (Ok (), name) |}.
Definition demo_request (action name : bytes) : Request :=
  {| InstanceID := !"abc123"; Action := action; ReqName := name |}.
Definition demo_line (r : Request) : bytes :=
  match encode_request r with Ok line => line | Err _ => [] end.

Lemma call_gets_answer_witness :
  Call (served_by demo_handler !"abc123" !"old") !"/r/abc123.sock" (demo_request ActionRename !"new") =
  Ok (demo_status !"new").
Proof.
  refine (proj1 (call_gets_answer demo_handler !"abc123" !"/r/abc123.sock"
    (demo_line (demo_request ActionRename !"new")) (demo_request ActionRename !"new") !"old"
    (status_reply (demo_status !"new")) false !"new" _ _ _ _ _ _ _ _ _)).
  - reflexivity.
  - vm_compute; reflexivity.
  - repeat constructor.
  - reflexivity.
  - vm_compute; discriminate.
  - vm_compute; reflexivity.
  - split; [|discriminate]. intros s [= <-]. split_and!; try (repeat constructor); vm_compute; congruence.
  - vm_compute; discriminate.
  - vm_compute; discriminate.
Defined.

(** Its operations step by step: a new name is written a byte at a time. *)
Inductive demo_at := DBegins (request : Request) | DWriting (rest name : bytes) | DReturns (r : result Status).
Definition demo_next (at_ : demo_at * bytes) : option (demo_at * bytes) :=
  match at_ with
  | (DBegins request, name) =>
      Some (if Action request ==b ActionRename then (DWriting (ReqName request) (ReqName request), [])
            else let '(r, name) := locked_call demo_handler request name in (DReturns r, name))
  | (DWriting (b :: rest) name, written) => Some (DWriting rest name, written ++ [b])
  | (DWriting [] name, written) => Some (DReturns (Ok (demo_status name)), written)
  | (DReturns _, _) => None
  end.

Lemma demo_steps_law request h l h' r : Action request <> ActionStatus ->
  rtc (fun a b => demo_next a = Some b) (DBegins request, h) (l, h') ->
  (match l with DReturns r => Some r | _ => None end) = Some r -> locked_call demo_handler request h = (r, h').
Proof.
  intros _ Hrtc Hret.
  set (ok := fun at_ : demo_at * bytes => match at_ with
    | (DBegins request', x) => request' = request /\ x = h
    | (DWriting rest name, x) => Action request = ActionRename /\ name = ReqName request /\ x ++ rest = name
    | (DReturns r, x) => locked_call demo_handler request h = (r, x)
    end).
  assert (Hstep : forall a b, ok a -> demo_next a = Some b -> ok b).
  { intros [[request'|[|b rest] name|r'] x] y Hok [= <-].
    - destruct Hok as [-> ->]. case_bool_decide as Ha; [by split_and!|]. cbn.
      by destruct (locked_call demo_handler request h).
    - destruct Hok as (Ha & -> & Hx). rewrite app_nil_r in Hx. subst x. cbn. unfold locked_call.
      by rewrite bool_decide_true.
    - destruct Hok as (Ha & -> & Hx). split_and!; [done..|]. by rewrite <- app_assoc. }
  assert (Hok : ok (l, h')).
  { clear Hret. remember (DBegins request, h) as a eqn:Ea. assert (Ha : ok a) by (by subst a).
    clear Ea. revert Ha. induction Hrtc as [|a b c Hs _ IH]; intros Ha; [done|]. apply IH. by eapply Hstep. }
  destruct l; try done. by injection Hret as <-.
Qed.
Definition demo_stepped : Stepped demo_handler :=
  {| Local := demo_at; op_begins := DBegins; op_step := fun a b => demo_next a = Some b;
     op_returns := fun l => match l with DReturns r => Some r | _ => None end; op_law := demo_steps_law |}.

Definition demo_serving (name : bytes) (conns : list (phase demo_at)) (mu : option nat) : serving bytes demo_at :=
  {| sv_handler := name; sv_conns := conns; sv_opMu := mu; sv_open := true; sv_stop := false; sv_ctx := None;
     sv_result := None |}.
#[local] Abbreviation demo_reached :=
  (reachable (serve_start demo_stepped !"old") (serve_step demo_stepped !"abc123")).
Definition rename_line : bytes := demo_line (demo_request ActionRename !"new").
Definition status_line : bytes := demo_line (demo_request ActionStatus []).

(** A status does not wait for a rename: it can show half of the new name. *)
Example status_in_between :
  demo_reached (demo_serving !"n"
    [Running rename_line (demo_request ActionRename !"new") (DWriting !"ew" !"new");
     Replying status_line (Some (status_reply (demo_status !"n"))) false] (Some 0%nat)).
Proof.
  eapply reachable_step; [|exact (step_read demo_stepped !"abc123" (demo_serving !"n"
    [Running rename_line (demo_request ActionRename !"new") (DWriting !"ew" !"new"); Arrived status_line] (Some 0%nat)) 1 status_line eq_refl)].
  eapply reachable_step; [|exact (step_operate demo_stepped !"abc123" (demo_serving []
    [Running rename_line (demo_request ActionRename !"new") (DWriting !"new" !"new"); Arrived status_line] (Some 0%nat)) 0
    rename_line _ _ _ _ eq_refl eq_refl)].
  eapply reachable_step; [|exact (step_operate demo_stepped !"abc123" (demo_serving !"old"
    [Running rename_line (demo_request ActionRename !"new") (DBegins (demo_request ActionRename !"new")); Arrived status_line] (Some 0%nat)) 0
    rename_line _ _ _ _ eq_refl eq_refl)].
  eapply reachable_step; [|exact (step_lock demo_stepped !"abc123" (demo_serving !"old"
    [Waiting rename_line (demo_request ActionRename !"new"); Arrived status_line] None) 0 rename_line _ eq_refl eq_refl)].
  eapply reachable_step; [|exact (step_accept demo_stepped !"abc123" (demo_serving !"old"
    [Waiting rename_line (demo_request ActionRename !"new")] None) status_line eq_refl eq_refl)].
  eapply reachable_step; [|exact (step_read demo_stepped !"abc123" (demo_serving !"old" [Arrived rename_line] None) 0 rename_line eq_refl)].
  eapply reachable_step; [|exact (step_accept demo_stepped !"abc123" (demo_serving !"old" [] None) rename_line eq_refl eq_refl)].
  by apply reachable_init.
Qed.



Lemma no_faults_honest : honest no_faults.
Proof. split; discriminate. Qed.

Lemma serve_owns_its_socket_witness :
  let w := snd (MkdirAll no_faults !"/r" 0x1C0 empty_world) in
  socket_run !"/r/abc123.sock" (os_ret ()) w
    (snd (Serve no_faults !"/r/abc123.sock" !"abc123" (os_ret ()) w)) (Ok ()).
Proof.
  cbv zeta. pose proof (serve_owns_its_socket no_faults !"/r/abc123.sock" !"abc123" (os_ret ())
    (snd (MkdirAll no_faults !"/r" 0x1C0 empty_world)) no_faults_honest) as Hs.
  destruct (Serve _ _ _ _ _) as [r w'] eqn:E.
  assert (Hr : fst (r, w') = Ok ()) by (rewrite <- E; vm_compute; reflexivity).
  cbn in Hr. subst r. exact (proj2 Hs).
Defined.

(** The socket's identity cannot be read: [Serve] fails and leaves its socket
    behind, and the next [Serve] refuses to start. *)
Definition second_lstat_fails : oracle :=
  {| fault := fun n op path => if (op ==b !"lstat") && (n =? 6)%nat then Some EIO else None;
     torn := fun _ => 0%nat; rand32 := fun n => Z.of_nat n |}.
Example socket_left_behind :
  let '(r, w) := Serve second_lstat_fails !"/r/abc123.sock" !"abc123" (os_ret ()) empty_world in
  let '(r', _) := Serve no_faults !"/r/abc123.sock" !"abc123" (os_ret ()) w in
  match r, r' with
  | Err e, Err e' => (error_text e, error_text e')
  | _, _ => ([], [])
  end = (!"inspect created control socket: lstat /r/abc123.sock: input/output error",
         !"control socket path already exists: /r/abc123.sock").
Proof. vm_compute. reflexivity. Qed.
