(* ===== verification/MirrorProtocol.v ===== *)
(** * The frames of a mirror connection (internal/mirror/protocol.go)

    A frame is a tag and a payload.  Some tags carry JSON; which tags either
    side may send, and with what, is checked before sending and after
    receiving.  Output is cut so that every frame fits a message. *)

From S2P Require Import Prelude GoString GoConv GoErrors.
Open Scope Z_scope.

Definition ProtocolVersion : Z := 3.

Definition TagClientHello : Z := 0x01.
Definition TagClose : Z := 0x05.
Definition TagInput : Z := 0x06.
Definition TagOutput : Z := 0x07.
Definition TagReady : Z := 0x08.
Definition TagShutdown : Z := 0x0a.
Definition TagError : Z := 0x0b.

Definition MaxWireMessage : Z := 131072.         (* 128 << 10 *)
Definition MaxClientQueueBytes : Z := 1048576.   (* 1 << 20 *)
Definition MaxHandshakes : Z := 16.
Definition MaxClients : Z := 8.

Record Ready := { RdID : bytes; RdGeneration : bytes; Columns : Z; Rows : Z }.   (* uint16 sizes *)
Record Shutdown := { Reason : bytes; ShRetry : bool }.
Record ProtocolError := { PeCode : bytes; PeMessage : bytes; PeRetry : bool }.

(** A frame's value, of dynamic type in the code. *)
Inductive value :=
| VNil
| VBytes (b : bytes)
| VHello (version : Z)
| VReady (r : Ready)
| VShutdown (s : Shutdown)
| VError (e : ProtocolError)
| VOther.

(** [0x%02x]. *)
Definition tag_text (tag : Z) : bytes := !"0x" ++ hex_encode [zb tag].

Definition isControlTag (tag : Z) : bool :=
  (tag =? TagClientHello) || (tag =? TagReady) || (tag =? TagShutdown) || (tag =? TagError).

(** ** The format of control payloads

    [decode_as shape] reads the first JSON value into a Go value of the type
    of [shape], unknown fields refused; [decode_after] tries to read another
    one.  The law: a marshalled value reads back, with nothing after it. *)
Definition same_type (a b : value) : bool :=
  match a, b with
  | VHello _, VHello _ | VReady _, VReady _ | VShutdown _, VShutdown _ | VError _, VError _ => true
  | _, _ => false
  end.

Class FrameCodec := {
  portable : value -> Prop;
  marshal : value -> result bytes;
  decode_as : value -> bytes -> result (value * bytes);
  decode_after : bytes -> result ();
  frame_law : forall shape v, portable v -> same_type shape v = true -> exists payload rest,
    marshal v = Ok payload /\ decode_as shape payload = Ok (v, rest) /\
    decode_after rest = Err (ESentinel IoEOF)
}.

Section Control.
Context `{FrameCodec}.

Definition no_control_data (tag : Z) : error :=
  EText (!"tag " ++ tag_text tag ++ !" does not carry JSON control data").
Definition control_too_large : error := EText !"control payload exceeds wire limit".

Definition EncodeControl (tag : Z) (v : value) : result bytes :=
  fail_if negb (isControlTag tag) with no_control_data tag;;
  match marshal v with
  | Err err => Err (wrapf (!"encode control tag " ++ tag_text tag ++ !": ") err)
  | Ok payload => fail_if MaxWireMessage <? len payload + 1 + 16 with control_too_large;; Ok payload
  end.

Definition DecodeControl (tag : Z) (payload : bytes) (shape : value) : result value :=
  fail_if negb (isControlTag tag) with no_control_data tag;;
  fail_if MaxWireMessage <? len payload + 1 + 16 with control_too_large;;
  match decode_as shape payload with
  | Err err => Err (wrapf (!"decode control tag " ++ tag_text tag ++ !": ") err)
  | Ok (dst, rest) =>
      match decode_after rest with
      | Err err => if errors_is IoEOF err then Ok dst
                   else Err (wrapf !"decode trailing control data: " err)
      | Ok _ => Err (EText !"control payload contains trailing JSON value")
      end
  end.
End Control.

(** ** What each side may send *)

Definition too_large_payload (payload : bytes) : bool := MaxWireMessage <? len payload + 1 + 16.

Definition ValidateClientFrame (tag : Z) (v : value) : option error :=
  if tag =? TagClientHello then
    match v with
    | VHello version =>
        if negb (version =? ProtocolVersion)
        then Some (EText (!"unsupported protocol version " ++ itoa version)) else None
    | _ => Some (EText !"invalid client hello payload")
    end
  else if tag =? TagClose then
    match v with
    | VNil => None
    | VBytes payload => if negb (len payload =? 0)
                        then Some (EText !"close payload must be empty") else None
    | _ => Some (EText !"invalid close payload")
    end
  else if tag =? TagInput then
    match v with
    | VBytes payload => if too_large_payload payload
                        then Some (EText !"input payload exceeds wire limit") else None
    | _ => Some (EText !"invalid input payload")
    end
  else Some (EText (!"tag " ++ tag_text tag ++ !" is not valid from client")).

Definition validateIdentity (id generation : bytes) : option error :=
  if id ==b [] then Some (EText !"session id is required")
  else if generation ==b [] then Some (EText !"session generation is required") else None.

Definition validateDimensions (columns rows : Z) : option error :=
  if (columns <? 2) || (500 <? columns)
  then Some (EText (!"columns " ++ itoa columns ++ !" outside 2..500"))
  else if (rows <? 2) || (300 <? rows)
  then Some (EText (!"rows " ++ itoa rows ++ !" outside 2..300")) else None.

Definition ValidateServerFrame (tag : Z) (v : value) : option error :=
  if tag =? TagClose then
    match v with
    | VNil => None
    | VBytes payload => if negb (len payload =? 0)
                        then Some (EText !"close acknowledgement payload must be empty") else None
    | _ => Some (EText !"invalid close acknowledgement payload")
    end
  else if tag =? TagOutput then
    match v with
    | VBytes payload => if too_large_payload payload
                        then Some (EText !"output payload exceeds wire limit") else None
    | _ => Some (EText !"invalid output payload")
    end
  else if tag =? TagReady then
    match v with
    | VReady opened =>
        match validateIdentity (RdID opened) (RdGeneration opened) with
        | Some err => Some err
        | None => validateDimensions (Columns opened) (Rows opened)
        end
    | _ => Some (EText !"invalid opened payload")
    end
  else if tag =? TagShutdown then
    match v with VShutdown _ => None | _ => Some (EText !"invalid shutdown payload") end
  else if tag =? TagError then
    match v with
    | VError e => if (PeCode e ==b []) || (PeMessage e ==b [])
                  then Some (EText !"invalid error payload") else None
    | _ => Some (EText !"invalid error payload")
    end
  else Some (EText (!"tag " ++ tag_text tag ++ !" is not valid from server")).

(** ** Cutting output *)

Definition maxPlainPayload : Z := MaxWireMessage - 1 - 16.

(** The loop takes at least one byte a round: the length is enough fuel. *)
Fixpoint chunk_loop (fuel : nat) (data : bytes) : list bytes :=
  match fuel with
  | O => []
  | S fuel' =>
      if len data <=? 0 then [] else
      let size := Z.to_nat (Z.min (len data) maxPlainPayload) in
      take size data :: chunk_loop fuel' (drop size data)
  end.
Definition ChunkOutput (data : bytes) : list bytes := chunk_loop (length data) data.

(** ** Lemmas *)

Lemma chunk_loop_concat fuel : forall data, (length data <= fuel)%nat -> concat (chunk_loop fuel data) = data.
Proof.
  induction fuel as [|fuel IH]; intros data Hl; simpl; [by destruct data; [|simpl in Hl; lia]|].
  destruct (len data <=? 0) eqn:Hz; guards.
  - rewrite (len_zero_inv data); [done|]. pose proof (len_nonneg data). lia.
  - simpl. rewrite IH; [apply take_drop|]. rewrite length_drop. unfold len, maxPlainPayload, MaxWireMessage in *. lia.
Qed.

Lemma chunk_loop_bounds fuel : forall data,
  Forall (fun c => 0 < len c <= maxPlainPayload) (chunk_loop fuel data).
Proof.
  induction fuel as [|fuel IH]; intros data; simpl; [constructor|].
  destruct (len data <=? 0) eqn:Hz; guards; [constructor|]. constructor; [|apply IH].
  unfold len in *. rewrite length_take. unfold maxPlainPayload, MaxWireMessage. lia.
Qed.

(** The chunks but the last are full. *)
Lemma chunk_loop_full fuel : forall data, (length data <= fuel)%nat ->
  forall pre c, chunk_loop fuel data = pre ++ [c] -> Forall (fun d => len d = maxPlainPayload) pre.
Proof.
  induction fuel as [|fuel IH]; intros data Hl pre c; simpl; [by destruct pre|].
  destruct (len data <=? 0) eqn:Hz; guards; [by destruct pre|].
  destruct pre as [|p pre]; [constructor|]. simpl. intros [= <- Hrest].
  constructor; [|eapply IH; [|exact Hrest]].
  - destruct (Z.le_gt_cases (len data) maxPlainPayload) as [Hle|Hgt].
    + rewrite Z.min_l in Hrest by done. unfold len in Hrest. rewrite Nat2Z.id, drop_all in Hrest.
      destruct fuel; simpl in Hrest; destruct pre; discriminate.
    + rewrite Z.min_r by lia. unfold len in *. rewrite length_take. unfold maxPlainPayload, MaxWireMessage in *. lia.
  - rewrite length_drop. unfold len, maxPlainPayload, MaxWireMessage in *. lia.
Qed.

(** Output is cut without loss.  The chunks put together are the output;
    every chunk is non-empty and fits a message with its tag and the cipher's
    overhead, so that it is a valid output frame; and all but the last are as
    long as they can be. *)
Theorem chunks_are_the_output (data : bytes) :
  concat (ChunkOutput data) = data /\
  Forall (fun c => c <> [] /\ len c + 1 + 16 <= MaxWireMessage /\
                   ValidateServerFrame TagOutput (VBytes c) = None) (ChunkOutput data) /\
  (forall pre c, ChunkOutput data = pre ++ [c] ->
     Forall (fun d => len d + 1 + 16 = MaxWireMessage) pre).
Proof.
  unfold ChunkOutput. split_and!.
  - by apply chunk_loop_concat.
  - eapply Forall_impl; [apply chunk_loop_bounds|]. intros c [H1 H2]. split_and!.
    + intros ->. by vm_compute in H1.
    + unfold maxPlainPayload in H2. lia.
    + unfold ValidateServerFrame, too_large_payload.
      replace (MaxWireMessage <? _) with false; [done|].
      symmetry. apply Z.ltb_ge. unfold maxPlainPayload in H2. lia.
  - intros pre c Hp. eapply Forall_impl; [by eapply chunk_loop_full|].
    intros d. unfold maxPlainPayload. lia.
Qed.
