(* ===== verification/MirrorCipher.v ===== *)
(** * Encryption of frames (internal/mirror/cipher.go)

    Each direction has a key and a message counter, and the counter is the
    nonce: a frame opens only as the next frame of its direction.  A failure
    poisons the direction for good.  AES-GCM and HKDF are parameters. *)

From S2P Require Import Prelude GoString GoConv GoErrors MirrorProtocol.
Open Scope Z_scope.

(** ** The primitives *)

(** [cipher.AEAD] for one key: nonce, plaintext or ciphertext. *)
Record AEAD := {
  aead_seal : bytes -> bytes -> bytes;
  aead_open : bytes -> bytes -> result bytes;
  Overhead : Z
}.

(** GCM: sixteen bytes of overhead, and decryption accepts exactly what
    encryption makes. *)
Class GCM (a : AEAD) : Prop := {
  gcm_overhead : Overhead a = 16;
  gcm_length : forall nonce plain, len (aead_seal a nonce plain) = len plain + 16;
  gcm_open : forall nonce plain c, aead_open a nonce c = Ok plain <-> c = aead_seal a nonce plain
}.

Section Keys.
(** [hkdf.Key(sha256.New, secret, salt, info, length)]. *)
Variable hkdf_key : bytes -> bytes -> bytes -> Z -> result bytes.

Definition DeriveKeys (secret serverNonce clientNonce : bytes) : result (bytes * bytes) :=
  fail_if negb (len secret =? 32) with EText !"pairing secret must be 32 bytes";;
  fail_if negb (len serverNonce =? 16) || negb (len clientNonce =? 16)
    with EText !"handshake nonces must be 16 bytes";;
  let salt := serverNonce ++ clientNonce in
  match hkdf_key secret salt !"wrap-mirror/v3/c2s" 32 with
  | Err err => Err (wrapf !"derive client-to-server key: " err)
  | Ok c2s =>
      match hkdf_key secret salt !"wrap-mirror/v3/s2c" 32 with
      | Err err => Err (wrapf !"derive server-to-client key: " err)
      | Ok s2c => Ok (c2s, s2c)
      end
  end.
End Keys.

(** ** Counters *)

Definition MaxUint64 : Z := 2 ^ 64 - 1.

(** Eight bytes, the most significant first. *)
Definition PutUint64 (v : Z) : bytes :=
  map (fun i => zb (Z.shiftr v (8 * i))) [7; 6; 5; 4; 3; 2; 1; 0].
Definition counterNonce (counter : Z) : bytes := replicate 4 x00 ++ PutUint64 counter.

Record Sealer := { s_aead : AEAD; s_counter : Z; s_poisoned : bool }.
Record Opener := { o_aead : AEAD; o_counter : Z; o_poisoned : bool }.

Section New.
(** [newGCM]: AES over the key, in Galois counter mode. *)
Variable newGCM : bytes -> result AEAD.
Definition NewSealer (key : bytes) : result Sealer :=
  let? aead := newGCM key in Ok {| s_aead := aead; s_counter := 0; s_poisoned := false |}.
Definition NewOpener (key : bytes) : result Opener :=
  let? aead := newGCM key in Ok {| o_aead := aead; o_counter := 0; o_poisoned := false |}.
End New.

Definition poison_sealer (s : Sealer) : Sealer :=
  {| s_aead := s_aead s; s_counter := s_counter s; s_poisoned := true |}.
Definition poison_opener (o : Opener) : Opener :=
  {| o_aead := o_aead o; o_counter := o_counter o; o_poisoned := true |}.

(** [uint64] addition wraps around. *)
Definition next_counter (c : Z) : Z := (c + 1) mod 2 ^ 64.

Definition Seal (s : Sealer) (tag : Z) (payload : bytes) : result bytes * Sealer :=
  if s_poisoned s then (Err (ESentinel ErrCipherPoisoned), s)
  else if s_counter s =? MaxUint64 then (Err (ESentinel ErrCounterExhausted), poison_sealer s)
  else if MaxWireMessage <? len payload + 1 + Overhead (s_aead s)
  then (Err (EText !"plaintext exceeds wire limit"), poison_sealer s)
  else
    let plain := zb tag :: payload in
    let ciphertext := aead_seal (s_aead s) (counterNonce (s_counter s)) plain in
    (Ok ciphertext, {| s_aead := s_aead s; s_counter := next_counter (s_counter s); s_poisoned := s_poisoned s |}).

Definition Open (o : Opener) (ciphertext : bytes) : result (Z * bytes) * Opener :=
  if o_poisoned o then (Err (ESentinel ErrCipherPoisoned), o)
  else if o_counter o =? MaxUint64 then (Err (ESentinel ErrCounterExhausted), poison_opener o)
  else if MaxWireMessage <? len ciphertext
  then (Err (EText !"ciphertext exceeds wire limit"), poison_opener o)
  else
    match aead_open (o_aead o) (counterNonce (o_counter o)) ciphertext with
    | Err err => (Err (wrapf !"authenticate mirror frame: " err), poison_opener o)
    | Ok [] => (Err (EText !"mirror frame has no tag"), poison_opener o)
    | Ok (tag :: payload) =>
        (Ok (bz tag, payload),
         {| o_aead := o_aead o; o_counter := next_counter (o_counter o); o_poisoned := o_poisoned o |})
    end.
