(* ===== verification/MirrorCipherProps.v ===== *)
(** * The encrypted channel: nonces, round trips, order

    A sealer never uses a nonce twice; what it sealed opens, in order; and
    whoever reorders, drops, repeats or changes messages can at most cut the
    sequence short. *)

From S2P Require Import Prelude GoString GoConv GoErrors MirrorProtocol MirrorCipher.
Open Scope Z_scope.

(** ** Nonces *)

Lemma put_uint64_byte v i : 0 <= i < 8 ->
  nth (Z.to_nat (7 - i)) (PutUint64 v) x00 = zb (Z.shiftr v (8 * i)).
Proof.
  intros Hi. assert (i = 0 \/ i = 1 \/ i = 2 \/ i = 3 \/ i = 4 \/ i = 5 \/ i = 6 \/ i = 7)
    as [E|[E|[E|[E|[E|[E|[E|E]]]]]]] by lia; by subst.
Qed.

Lemma counterNonce_inj c1 c2 :
  0 <= c1 < 2 ^ 64 -> 0 <= c2 < 2 ^ 64 -> counterNonce c1 = counterNonce c2 -> c1 = c2.
Proof.
  intros H1 H2 E. apply app_inv_head in E. apply Z.bits_inj'. intros n Hn.
  destruct (Z.lt_ge_cases n 64) as [Hlt|Hge].
  - assert (Hb : forall c, 0 <= c < 2 ^ 64 -> Z.testbit c n =
      Z.testbit (bz (nth (Z.to_nat (7 - n / 8)) (PutUint64 c) x00)) (n mod 8)).
    { intros c _. rewrite put_uint64_byte by (split; [apply Z.div_pos|apply Z.div_lt_upper_bound]; lia).
      rewrite bz_zb. change 256 with (2 ^ 8). rewrite Z.mod_pow2_bits_low by (apply Z.mod_pos_bound; lia).
      rewrite Z.shiftr_spec by (apply Z.mod_pos_bound; lia). f_equal.
      pose proof (Z.div_mod n 8). lia. }
    rewrite (Hb c1 H1), (Hb c2 H2). by rewrite E.
  - assert (Hb : forall c, 0 <= c < 2 ^ 64 -> Z.testbit c n = false).
    { intros c Hc. rewrite <- (Z.mod_small c (2 ^ 64)) by lia. apply Z.mod_pow2_bits_high. lia. }
    by rewrite !Hb.
Qed.

(** ** Runs *)

(** Frames sealed one after the other, whatever the outcomes. *)
Fixpoint seal_all (s : Sealer) (frames : list (Z * bytes)) : list (result bytes) :=
  match frames with
  | [] => []
  | (tag, payload) :: frames' => let '(r, s') := Seal s tag payload in r :: seal_all s' frames'
  end.
Fixpoint open_all (o : Opener) (messages : list bytes) : list (result (Z * bytes)) :=
  match messages with
  | [] => []
  | c :: messages' => let '(r, o') := Open o c in r :: open_all o' messages'
  end.

Definition oks {A} (rs : list (result A)) : list A :=
  omap (fun r => match r with Ok a => Some a | Err _ => None end) rs.
Definition is_err {A} (r : result A) : Prop := exists e, r = Err e.

(** The ciphertexts of frames sealed under successive counters. *)
Fixpoint sealed_from (a : AEAD) (n : Z) (frames : list (Z * bytes)) : list (result bytes) :=
  match frames with
  | [] => []
  | (tag, payload) :: frames' =>
      Ok (aead_seal a (counterNonce n) (zb tag :: payload)) :: sealed_from a (n + 1) frames'
  end.

Definition new_sealer (a : AEAD) : Sealer := {| s_aead := a; s_counter := 0; s_poisoned := false |}.
Definition new_opener (a : AEAD) : Opener := {| o_aead := a; o_counter := 0; o_poisoned := false |}.

Lemma seal_all_poisoned s frames : s_poisoned s = true -> Forall is_err (seal_all s frames).
Proof.
  intros Hp. induction frames as [|[tag payload] frames IH]; simpl; [constructor|].
  unfold Seal. rewrite Hp. constructor; [by eexists|exact IH].
Qed.
Lemma open_all_poisoned o ds : o_poisoned o = true -> Forall is_err (open_all o ds).
Proof.
  intros Hp. induction ds as [|d ds IH]; simpl; [constructor|].
  unfold Open. rewrite Hp. constructor; [by eexists|exact IH].
Qed.
Lemma oks_errs {A} (rs : list (result A)) : Forall is_err rs -> oks rs = [].
Proof. induction 1 as [|? ? [e ->] _ IH]; [done|exact IH]. Qed.

(** A run seals a prefix of its frames under the counters 0, 1, ... and fails
    on the rest. *)
Lemma seal_all_prefix a n frames : 0 <= n <= MaxUint64 ->
  exists k, (k <= length frames)%nat /\ n + Z.of_nat k <= MaxUint64 /\
    exists errs, seal_all {| s_aead := a; s_counter := n; s_poisoned := false |} frames =
      sealed_from a n (take k frames) ++ errs /\ Forall is_err errs /\
      (Forall (fun f => len (snd f) + 1 + Overhead a <= MaxWireMessage) frames ->
       n + len frames <= MaxUint64 -> k = length frames).
Proof.
  revert n. induction frames as [|[tag payload] frames IH]; intros n Hn.
  { exists 0%nat. split; [done|]. split; [lia|]. by exists []. }
  cbn [seal_all]. unfold Seal. cbn [s_poisoned s_counter s_aead].
  destruct (n =? MaxUint64) eqn:Hmax; guards.
  { exists 0%nat. split; [simpl; lia|]. split; [lia|]. eexists. split; [reflexivity|]. split.
    - constructor; [by eexists|]. by apply seal_all_poisoned.
    - intros _ Hl. rewrite len_cons in Hl. pose proof (len_nonneg frames). lia. }
  destruct (MaxWireMessage <? len payload + 1 + Overhead a) eqn:Hbig; guards.
  { exists 0%nat. split; [simpl; lia|]. split; [lia|]. eexists. split; [reflexivity|]. split.
    - constructor; [by eexists|]. by apply seal_all_poisoned.
    - intros [Hf _]%Forall_cons. simpl in Hf. lia. }
  unfold next_counter. rewrite Z.mod_small by (unfold MaxUint64 in *; lia).
  destruct (IH (n + 1)) as (k & Hk & Hb & errs & E & He & Hall); [lia|].
  exists (S k). split; [simpl; lia|]. split; [lia|]. exists errs. split; [by rewrite E|]. split; [done|].
  intros [_ Hf]%Forall_cons Hl. rewrite len_cons in Hl. simpl. f_equal. apply Hall; [done|lia].
Qed.

(** A nonce is never used twice.  Whatever frames a new sealer is given,
    those it seals are the first ones, the [i]-th of them under the nonce of
    the counter [i], no two of these nonces are equal, and once a frame was
    refused every later one is; frames that fit are refused only when the
    counter is used up. *)
Theorem nonces_never_repeat (a : AEAD) (frames : list (Z * bytes)) :
  exists k errs, seal_all (new_sealer a) frames = sealed_from a 0 (take k frames) ++ errs /\
    (k <= length frames)%nat /\ Forall is_err errs /\
    (forall i j, (i < k)%nat -> (j < k)%nat ->
       counterNonce (Z.of_nat i) = counterNonce (Z.of_nat j) -> i = j) /\
    (Forall (fun f => len (snd f) + 1 + Overhead a <= MaxWireMessage) frames ->
     len frames < 2 ^ 64 -> k = length frames).
Proof.
  destruct (seal_all_prefix a 0 frames) as (k & Hk & Hb & errs & E & He & Hall); [unfold MaxUint64; lia|].
  exists k, errs. split_and!; [done..| |].
  - intros i j Hi Hj Eq. unfold MaxUint64 in Hb. apply counterNonce_inj in Eq; lia.
  - intros Hf Hl. apply Hall; [done|]. unfold MaxUint64. lia.
Qed.

(** ** Opening *)

Lemma open_sealed a `{!GCM a} n tag payload :
  0 <= n < MaxUint64 -> 0 <= tag < 256 -> len payload + 1 + 16 <= MaxWireMessage ->
  Open {| o_aead := a; o_counter := n; o_poisoned := false |}
    (aead_seal a (counterNonce n) (zb tag :: payload)) =
  (Ok (tag, payload), {| o_aead := a; o_counter := n + 1; o_poisoned := false |}).
Proof.
  intros Hn Ht Hl. unfold Open. cbn [o_poisoned o_counter o_aead].
  replace (n =? MaxUint64) with false by (symmetry; apply Z.eqb_neq; lia).
  replace (MaxWireMessage <? _) with false.
  2: { symmetry. apply Z.ltb_ge. rewrite gcm_length, len_cons. lia. }
  rewrite (proj2 (gcm_open (counterNonce n) (zb tag :: payload) _) eq_refl).
  unfold next_counter. rewrite bz_zb, !Z.mod_small by (unfold MaxUint64 in *; lia). done.
Qed.

(** Frames as a sealer and an opener can pass them. *)
Definition fits (f : Z * bytes) : Prop := 0 <= fst f < 256 /\ len (snd f) + 1 + 16 <= MaxWireMessage.

Lemma open_all_sealed a `{!GCM a} frames : Forall fits frames -> forall n,
  0 <= n -> n + len frames <= MaxUint64 ->
  open_all {| o_aead := a; o_counter := n; o_poisoned := false |} (oks (sealed_from a n frames)) = map Ok frames.
Proof.
  induction 1 as [|[tag payload] frames [Ht Hp] Hfits IH]; intros n Hn Hl; [done|].
  rewrite len_cons in Hl. pose proof (len_nonneg frames). unfold oks.
  cbn [sealed_from omap list_omap open_all]. simpl in Ht, Hp.
  rewrite open_sealed by (done || lia). cbn [map]. f_equal. apply IH; lia.
Qed.

(** What is sealed opens.  Delivered in order, the messages of a sealer
    open to the frames it was given, tags and payloads. *)
Theorem channel_roundtrip (a : AEAD) `{!GCM a} (frames : list (Z * bytes))
    (Hfits : Forall fits frames)
    (Hcount : len frames < 2 ^ 64) :
  open_all (new_opener a) (oks (seal_all (new_sealer a) frames)) = map Ok frames.
Proof.
  destruct (seal_all_prefix a 0 frames) as (k & _ & _ & errs & E & He & Hall); [unfold MaxUint64; lia|].
  assert (k = length frames) as ->.
  { apply Hall; [|unfold MaxUint64; lia]. eapply Forall_impl; [exact Hfits|]. intros f [_ Hf].
    rewrite gcm_overhead. lia. }
  unfold new_sealer. rewrite E, firstn_all. unfold oks. rewrite omap_app.
  change (omap _ errs) with (oks errs). rewrite (oks_errs errs He), app_nil_r. clear E He Hall.
  apply open_all_sealed; [done|done|lia|unfold MaxUint64; lia].
Qed.

Lemma opener_accepts_a_prefix (a : AEAD) (frames : list (Z * bytes)) (messages : list bytes) :
  Forall (fun f => 0 <= fst f < 256) frames ->
  (forall n c plain, 0 <= n < 2 ^ 64 -> In c messages ->
     aead_open a (counterNonce n) c = Ok plain ->
     exists tag payload, frames !! Z.to_nat n = Some (tag, payload) /\ plain = zb tag :: payload) ->
  oks (open_all (new_opener a) messages) `prefix_of` frames.
Proof.
  intros Htags Hauth.
  enough (forall n, 0 <= n <= MaxUint64 ->
    oks (open_all {| o_aead := a; o_counter := n; o_poisoned := false |} messages)
      `prefix_of` drop (Z.to_nat n) frames) as Hg by (apply (Hg 0); unfold MaxUint64; lia).
  induction messages as [|c messages IH]; intros n Hn; [apply prefix_nil|].
  cbn [open_all]. unfold Open. cbn [o_poisoned o_counter o_aead].
  assert (Hstop : forall (e : error) o', o_poisoned o' = true ->
    oks (Err e :: open_all o' messages) `prefix_of` drop (Z.to_nat n) frames).
  { intros e o' Ho. change (oks (Err e :: ?l)) with (oks l).
    rewrite oks_errs by (by apply open_all_poisoned). apply prefix_nil. }
  destruct (n =? MaxUint64) eqn:Hmax; guards; [by apply Hstop|].
  destruct (MaxWireMessage <? len c); [by apply Hstop|].
  destruct (aead_open a (counterNonce n) c) as [[|t payload]|e] eqn:Ho; [by apply Hstop| |by apply Hstop].
  destruct (Hauth n c (t :: payload)) as (tag & payload' & Hf & [= -> ->]);
    [unfold MaxUint64 in *; lia|by left|done|].
  assert (Ht : 0 <= tag < 256).
  { rewrite Forall_forall in Htags. apply (Htags (tag, payload')). by eapply list_elem_of_lookup_2. }
  rewrite (drop_S _ (tag, payload')) by done. cbn [oks omap list_omap].
  rewrite bz_zb, Z.mod_small by lia. apply prefix_cons.
  unfold next_counter. rewrite Z.mod_small by (unfold MaxUint64 in *; lia).
  replace (S (Z.to_nat n)) with (Z.to_nat (n + 1)) by lia. apply IH; [|lia].
  intros m d plain Hm Hd. apply Hauth; [done|by right].
Qed.

(** C23: nobody can do more than cut the channel.  Whatever frames a sealer is
    given, those it seals are the first ones, the [i]-th under the nonce of the
    counter [i], and no two of these nonces are equal.  And take any messages
    in any order: if, as authenticated encryption promises, a message opens
    under a nonce only to the frame the sealer sealed under that nonce, then
    the frames the opener accepts are, in order, the first ones the sealer was
    given. *)
Theorem channel_accepts_a_prefix (a : AEAD) (frames : list (Z * bytes)) :
  (exists k errs, seal_all (new_sealer a) frames = sealed_from a 0 (take k frames) ++ errs /\ Forall is_err errs /\
     forall i j, (i < k)%nat -> (j < k)%nat -> counterNonce (Z.of_nat i) = counterNonce (Z.of_nat j) -> i = j) /\
  forall messages,
    Forall (fun f => 0 <= fst f < 256) frames ->
    (forall n c plain, 0 <= n < 2 ^ 64 -> In c messages ->
       aead_open a (counterNonce n) c = Ok plain ->
       exists tag payload, frames !! Z.to_nat n = Some (tag, payload) /\ plain = zb tag :: payload) ->
    oks (open_all (new_opener a) messages) `prefix_of` frames.
Proof.
  split; [|intros messages; apply opener_accepts_a_prefix].
  destruct (nonces_never_repeat a frames) as (k & errs & E & _ & He & Hn & _). by exists k, errs.
Qed.

(** ** Concrete runs

    A stand-in for GCM that shows the laws can hold: it does not encrypt, it
    puts the nonce before the plaintext. *)
Definition plain_tag (nonce : bytes) : bytes := take 16 (nonce ++ replicate 16 x00).
Definition plain_aead : AEAD :=
  {| aead_seal := fun nonce plain => plain_tag nonce ++ plain;
     aead_open := fun nonce c => if take 16 c ==b plain_tag nonce then Ok (drop 16 c)
                                 else Err (EText !"cipher: message authentication failed");
     Overhead := 16 |}.

Lemma length_plain_tag nonce : length (plain_tag nonce) = 16%nat.
Proof. unfold plain_tag. rewrite length_take, length_app, length_replicate. lia. Qed.

#[export] Instance plain_gcm : GCM plain_aead.
Proof.
  split; [done| |].
  - intros nonce plain. cbn. rewrite len_app. unfold len. rewrite length_plain_tag. lia.
  - intros nonce plain c. cbn. pose proof (length_plain_tag nonce) as Hl. split.
    + case_bool_decide as E; [|done]. intros [= <-]. by rewrite <- E, take_drop.
    + intros ->. rewrite take_app_length' by done. rewrite bool_decide_true by done.
      by rewrite drop_app_length'.
Defined.

Definition demo_frames : list (Z * bytes) := [(TagInput, !"a"); (TagInput, !"b")].

Lemma channel_roundtrip_witness :
  open_all (new_opener plain_aead) (oks (seal_all (new_sealer plain_aead) demo_frames)) = map Ok demo_frames.
Proof.
  apply (channel_roundtrip plain_aead demo_frames).
  - repeat constructor; vm_compute; congruence.
  - vm_compute. reflexivity.
Defined.

Definition demo_sealed (n : Z) (payload : bytes) : bytes :=
  aead_seal plain_aead (counterNonce n) (zb TagInput :: payload).

Lemma plain_opens m n text plain : 0 <= m < 2 ^ 64 -> 0 <= n < 2 ^ 64 ->
  aead_open plain_aead (counterNonce m) (aead_seal plain_aead (counterNonce n) text) = Ok plain -> m = n /\ plain = text.
Proof.
  intros Hm Hn Ho. apply gcm_open in Ho. cbn [plain_aead aead_seal] in Ho.
  apply app_inj_1 in Ho as [Ht Hp]; [|by rewrite !length_plain_tag]. split; [|done].
  apply counterNonce_inj; [done|done|]. unfold plain_tag in Ht.
  rewrite !take_app_ge in Ht by (vm_compute; lia). by apply app_inj_1 in Ht as [Ht _].
Qed.

(** The second message is a replay of the first. *)
Lemma channel_accepts_a_prefix_witness :
  oks (open_all (new_opener plain_aead)
    [demo_sealed 0 !"a"; demo_sealed 0 !"a"; demo_sealed 1 !"b"]) `prefix_of` demo_frames.
Proof.
  apply (proj2 (channel_accepts_a_prefix plain_aead demo_frames)).
  - repeat constructor; vm_compute; congruence.
  - intros n c plain Hn Hin Ho.
    assert (Hc : c = demo_sealed 0 !"a" \/ c = demo_sealed 1 !"b")
      by (destruct Hin as [<-|[<-|[<-|[]]]]; [left|left|right]; reflexivity).
    destruct Hc as [-> | ->]; apply plain_opens in Ho as [-> ->]; try lia; eexists _, _; split; reflexivity.
Defined.

(** The replay is refused and nothing is accepted after it. *)
Example replay_poisons :
  map (fun r => match r with Ok (_, p) => p | Err e => error_text e end)
    (open_all (new_opener plain_aead) [demo_sealed 0 !"a"; demo_sealed 0 !"a"; demo_sealed 1 !"b"]) =
  [!"a"; !"authenticate mirror frame: cipher: message authentication failed";
   !"mirror cipher is poisoned"].
Proof. vm_compute. reflexivity. Qed.
