(* ===== verification/MirrorPairing.v ===== *)
(** * Pairing secrets and the pairing URL (internal/mirror/pairing.go)

    A share is paired by a URL whose fragment carries a secret of 32 bytes;
    the host must be a quick tunnel's.  URL parsing and printing, and the QR
    code's library, are parameters. *)

From S2P Require Import Prelude GoString GoConv GoErrors GoBase64 TmuxQuote.
Open Scope Z_scope.

(** ** The host: [^[a-z0-9](?:[a-z0-9-]{0,61}[a-z0-9])?\.trycloudflare\.com$] *)

Definition is_lower_alnum (b : byte) : bool :=
  ((97 <=? bz b) && (bz b <=? 122)) || ((48 <=? bz b) && (bz b <=? 57)).
Definition is_label_byte (b : byte) : bool := is_lower_alnum b || (bz b =? 45).

Definition quick_label (label : bytes) : bool :=
  match label with
  | [] => false
  | c :: rest =>
      is_lower_alnum c && (len rest <=? 62) && forallb is_label_byte rest &&
      match last rest with Some d => is_lower_alnum d | None => true end
  end.
Definition tunnel_domain : bytes := !".trycloudflare.com".
Definition quickTunnelHost (host : bytes) : bool :=
  has_suffix tunnel_domain host && quick_label (trim_suffix tunnel_domain host).

(** ** Secrets *)

(** [random]: nil, or what reading 32 bytes from it gives. *)
Definition NewSecret (random : option (result bytes)) : result bytes :=
  match random with
  | None => Err (EText !"random source is required")
  | Some (Err err) => Err (wrapf !"generate pairing secret: " err)
  | Some (Ok secret) => Ok secret
  end.

Definition ParseSecret (raw : bytes) : result bytes :=
  match b64_decode raw with
  | Err _ => Err (EText !"invalid pairing secret encoding")
  | Ok decoded =>
      fail_if negb (len decoded =? 32) with EText !"pairing secret must decode to 32 bytes";;
      Ok decoded
  end.
Definition Secret_String (s : bytes) : bytes := b64_encode s.

(** ** The URL *)

(** The fields of [url.URL] the code looks at or sets. *)
Record URL := {
  Scheme : bytes; HasUser : bool; Host : bytes; Path : bytes; ForceQuery : bool; RawQuery : bytes;
  Fragment : bytes
}.

Section Pairing.
Variables (url_parse : bytes -> result URL) (url_string : URL -> bytes) (hostname : URL -> bytes)
  (parse_ip : bytes -> bool) (qr_encode : bytes -> result bytes).

Definition PairingURL (publicURL secret : bytes) : result bytes :=
  match url_parse publicURL with
  | Err err => Err (wrapf !"parse tunnel URL: " err)
  | Ok parsed =>
      let host := hostname parsed in
      fail_if negb (Scheme parsed ==b !"https") || negb (quickTunnelHost host) ||
              negb (Host parsed ==b host) || HasUser parsed || negb (Path parsed ==b []) ||
              negb (RawQuery parsed ==b []) || negb (Fragment parsed ==b [])
        with EText !"tunnel URL must be an HTTPS trycloudflare origin";;
      fail_if parse_ip host with EText !"tunnel URL host must be a DNS name";;
      Ok (url_string {| Scheme := Scheme parsed; HasUser := HasUser parsed; Host := Host parsed;
            Path := !"/"; ForceQuery := ForceQuery parsed; RawQuery := RawQuery parsed;
            Fragment := !"k=" ++ Secret_String secret |})
  end.

(** [ToSmallString(true)] of the code of medium recovery level. *)
Definition TerminalQR (pairingURL : bytes) : result bytes :=
  match qr_encode pairingURL with
  | Err err => Err (wrapf !"encode pairing QR: " err)
  | Ok text => Ok text
  end.
End Pairing.

(** How [URL.String] prints an origin with a root path and a fragment of
    characters that need no escaping. *)
Definition fragment_byte (b : byte) : bool :=
  is_alnum (bz b) || (b ∈b !"-_.~$&+,/:;=?@!()*").
Definition prints_origins (url_string : URL -> bytes) : Prop :=
  forall u, HasUser u = false -> quickTunnelHost (Host u) = true -> Path u = !"/" -> RawQuery u = [] ->
    Scheme u <> [] -> Fragment u <> [] -> forallb fragment_byte (Fragment u) = true ->
    url_string u = Scheme u ++ !"://" ++ Host u ++ !"/" ++ (if ForceQuery u then !"?" else []) ++
                   !"#" ++ Fragment u.

(** ** Lemmas *)

Lemma b64_char_fragment n : 0 <= n < 64 -> fragment_byte (b64_char n) = true.
Proof.
  intros Hn. assert (In n (map Z.of_nat (seq 0 64))) as Hin.
  { apply in_map_iff. exists (Z.to_nat n). split; [lia|]. apply in_seq. lia. }
  enough (forallb (fun n => fragment_byte (b64_char n)) (map Z.of_nat (seq 0 64)) = true) as Hall.
  { rewrite forallb_forall in Hall. by apply Hall. }
  vm_compute. reflexivity.
Qed.

Lemma secret_fragment s : forallb fragment_byte (Secret_String s) = true.
Proof.
  unfold Secret_String. rewrite b64_encode_sextets. apply forallb_forall. intros b.
  rewrite in_map_iff. intros (n & <- & Hn). apply b64_char_fragment.
  pose proof (b64_sextets_range s) as Hr. rewrite Forall_forall in Hr. apply Hr, list_elem_of_In, Hn.
Qed.

(** The pairing URL leads to the tunnel and carries the secret.  A URL is
    only made for an HTTPS origin that is a quick tunnel's host; it is that
    origin's root with the fragment [k=] and the secret's text, from which the
    secret is read back; and the fragment, which browsers do not send, is the
    only place the secret is in. *)
Theorem pairing_url_carries_secret (url_parse : bytes -> result URL) (url_string : URL -> bytes)
    (hostname : URL -> bytes) (parse_ip : bytes -> bool) (publicURL secret url : bytes)
    (Hprint : prints_origins url_string) (Hsecret : len secret = 32)
    (Hok : PairingURL url_parse url_string hostname parse_ip publicURL secret = Ok url) :
  exists parsed, url_parse publicURL = Ok parsed /\
    quickTunnelHost (Host parsed) = true /\ Scheme parsed = !"https" /\
    url = !"https://" ++ Host parsed ++ !"/" ++ (if ForceQuery parsed then !"?" else []) ++
          !"#k=" ++ Secret_String secret /\
    ParseSecret (Secret_String secret) = Ok secret.
Proof.
  unfold PairingURL in Hok. destruct (url_parse publicURL) as [u|e] eqn:Hu; [|done].
  match type of Hok with (if ?c then _ else _) = _ => destruct c eqn:Hg end; [done|].
  repeat match goal with H : _ || _ = false |- _ => apply orb_false_iff in H; destruct H end. guards.
  destruct (parse_ip _); [done|]. injection Hok as <-. exists u.
  assert (Hh : quickTunnelHost (Host u) = true) by congruence.
  split_and!; [done|done|done| |].
  - rewrite Hprint; cbn [HasUser Host Path RawQuery Scheme Fragment ForceQuery]; try done.
    + match goal with E : Scheme u = _ |- _ => rewrite E end. done.
    + match goal with E : Scheme u = _ |- _ => rewrite E end. done.
    + exact (secret_fragment secret).
  - unfold ParseSecret, Secret_String. rewrite b64_decode_encode, Hsecret. reflexivity.
Qed.

(** ** A concrete run *)

Definition demo_host : bytes := !"calm-river.trycloudflare.com".
Definition origin (u : URL) : bytes :=
  Scheme u ++ !"://" ++ Host u ++ Path u ++ (if ForceQuery u then !"?" else []) ++
  (if Fragment u ==b [] then [] else !"#" ++ Fragment u).
Definition demo_parse (raw : bytes) : result URL :=
  Ok {| Scheme := !"https"; HasUser := false; Host := trim_prefix !"https://" raw; Path := [];
        ForceQuery := false; RawQuery := []; Fragment := [] |}.

Lemma pairing_url_carries_secret_witness :
  let secret := replicate 32 x41 in
  exists parsed url, PairingURL demo_parse origin Host (fun _ => false) (!"https://" ++ demo_host) secret = Ok url /\
    url = !"https://" ++ Host parsed ++ !"/#k=" ++ Secret_String secret.
Proof.
  cbv zeta.
  destruct (PairingURL demo_parse origin Host (fun _ => false) (!"https://" ++ demo_host)
              (replicate 32 x41)) as [url|e] eqn:Hok.
  - destruct (pairing_url_carries_secret demo_parse origin Host (fun _ => false)
      (!"https://" ++ demo_host) (replicate 32 x41) url) as (parsed & Hp & Hh & Hs & Hurl & _).
    + intros u _ _ Hpath Hq _ Hf _. unfold origin. rewrite Hpath, (bool_decide_false _ Hf). done.
    + reflexivity.
    + exact Hok.
    + exists parsed, url. split; [reflexivity|]. rewrite Hurl. injection Hp as <-. reflexivity.
  - exfalso. revert Hok. vm_compute. discriminate.
Defined.

Example hosts :
  map quickTunnelHost [demo_host; !"a.trycloudflare.com"; !"-a.trycloudflare.com"; !"a-.trycloudflare.com";
    !".trycloudflare.com"; !"A.trycloudflare.com"; !"a.b.trycloudflare.com"; !"a.trycloudflare.com."] =
  [true; true; false; false; false; false; false; false].
Proof. vm_compute. reflexivity. Qed.
