(* ===== verification/MirrorClient.v ===== *)
(** * One mirror connection (internal/mirror/client.go)

    A connection is authenticated by an encrypted hello.  Then senders push
    frames into a bounded queue, a writer takes them out, seals and writes
    them, and a reader opens what arrives and dispatches it.  They share the
    connection: [conn_step] has the steps of the writer, the senders and the
    manager, and the reader is a program whose calls are steps of it
    ([call_step]).  What reads and writes return is the environment's. *)

From S2P Require Import Prelude Program GoString GoConv GoErrors MirrorProtocol MirrorCipher.
Open Scope Z_scope.

(** ** The outbound queue *)

(** A frame; [f_result] names the channel its outcome is sent to, if any. *)
Record frame := { f_tag : Z; f_payload : bytes; f_result : option nat }.
Definition plain_frame (tag : Z) (payload : bytes) : frame :=
  {| f_tag := tag; f_payload := payload; f_result := None |}.
Definition frame_size (f : frame) : Z := len (f_payload f) + 1 + 16.

Record queue := {
  q_frames : list frame; q_bytes : Z; q_max : Z; q_closed : bool;
  q_wake : bool       (* the wake channel, of capacity one, holds a token *)
}.
Definition newOutboundQueue (maxBytes : Z) : queue :=
  {| q_frames := []; q_bytes := 0; q_max := maxBytes; q_closed := false; q_wake := false |}.

(** What was sent on result channels: channel and value, nil for success. *)
Definition sends := list (nat * option error).
Definition fail_results (err : error) (frames : list frame) : sends :=
  omap (fun f => id ← f_result f; Some (id, Some err)) frames.

Definition closeLocked (err : error) (q : queue) : queue * sends :=
  if q_closed q then (q, [])
  else ({| q_frames := []; q_bytes := 0; q_max := q_max q; q_closed := true; q_wake := true |},
        fail_results err (q_frames q)).

Definition mirror_client_closed : error := EText !"mirror client is closed".

(** The queue is closed when a frame does not fit. *)
Definition push (f : frame) (q : queue) : option error * queue * sends :=
  let size := frame_size f in
  if q_closed q then (Some mirror_client_closed, q, [])
  else if (q_max q <? size) || (q_max q <? q_bytes q + size)
  then let '(q, s) := closeLocked (ESentinel ErrClientQueueFull) q in
       (Some (ESentinel ErrClientQueueFull), q, s)
  else (None, {| q_frames := q_frames q ++ [f]; q_bytes := q_bytes q + size; q_max := q_max q;
                 q_closed := q_closed q; q_wake := true |}, []).

(** One round of [pop]: the queue is closed, a frame is taken, or it waits. *)
Inductive popped := PopClosed | PopFrame (f : frame) | PopWait.
Definition pop_round (q : queue) : popped * queue :=
  if q_closed q then (PopClosed, q)
  else match q_frames q with
       | f :: rest => (PopFrame f, {| q_frames := rest; q_bytes := q_bytes q - frame_size f;
                                      q_max := q_max q; q_closed := q_closed q; q_wake := q_wake q |})
       | [] => (PopWait, q)
       end.

(** ** The connection's state *)

Record Client := {
  c_opener : Opener; c_sealer : Sealer; c_queue : queue;
  c_closedNow : bool;        (* [closeOnce] is done: the connection is closed *)
  c_viewerOpen : bool;
  c_results : sends          (* everything sent on result channels so far *)
}.
Definition with_queue (c : Client) (q : queue) (s : sends) : Client :=
  {| c_opener := c_opener c; c_sealer := c_sealer c; c_queue := q; c_closedNow := c_closedNow c;
     c_viewerOpen := c_viewerOpen c; c_results := c_results c ++ s |}.
Definition with_sealer (c : Client) (sealer : Sealer) (s : sends) : Client :=
  {| c_opener := c_opener c; c_sealer := sealer; c_queue := c_queue c; c_closedNow := c_closedNow c;
     c_viewerOpen := c_viewerOpen c; c_results := c_results c ++ s |}.

Definition closeNow (err : error) (c : Client) : Client :=
  if c_closedNow c then c else
  let '(q, s) := closeLocked err (c_queue c) in
  {| c_opener := c_opener c; c_sealer := c_sealer c; c_queue := q; c_closedNow := true;
     c_viewerOpen := c_viewerOpen c; c_results := c_results c ++ s |}.

(** ** Authentication *)

(** The web socket during the handshake: what writing the nonce returns, and
    what the reads return: whether the message is binary, and its bytes. *)
Definition message := (bool * bytes)%type.

Section Authenticate.
Context `{FrameCodec}.
Variables (hkdf_key : bytes -> bytes -> bytes -> Z -> result bytes) (newGCM : bytes -> result AEAD).

Definition authenticateClient (random : result bytes) (written : bytes -> result ())
    (read1 read2 : result message) (secret : bytes) : result Client :=
  match random with
  | Err err => Err (wrapf !"generate server nonce: " err)
  | Ok serverNonce =>
  match written serverNonce with
  | Err err => Err (wrapf !"write server nonce: " err)
  | Ok _ =>
  match read1 with
  | Err err => Err (wrapf !"read client nonce: " err)
  | Ok (binary, clientNonce) =>
  fail_if negb binary || negb (len clientNonce =? 16) with EText !"invalid client nonce";;
  let? keys := DeriveKeys hkdf_key secret serverNonce clientNonce in
  let? opener := NewOpener newGCM (fst keys) in
  let? sealer := NewSealer newGCM (snd keys) in
  match read2 with
  | Err err => Err (wrapf !"read encrypted client hello: " err)
  | Ok (binary, encryptedHello) =>
  fail_if negb binary with EText !"client hello must be binary";;
  match Open opener encryptedHello with
  | (Err _, _) => Err (EText !"invalid encrypted client hello")
  | (Ok (tag, payload), opener) =>
  fail_if negb (tag =? TagClientHello) with EText !"invalid encrypted client hello";;
  let? hello := DecodeControl tag payload (VHello 0) in
  match ValidateClientFrame tag hello with
  | Some err => Err err
  | None =>
      Ok {| c_opener := opener; c_sealer := sealer; c_queue := newOutboundQueue MaxClientQueueBytes;
            c_closedNow := false; c_viewerOpen := false; c_results := [] |}
  end end end end end end.
End Authenticate.

(** ** Sending *)

Section Sending.
Context `{FrameCodec}.

(** [ctxErr] is what the context says when the frame is sent. *)
Definition send (ctxErr : option error) (tag : Z) (payload : bytes) (c : Client) : option error * Client :=
  match ctxErr with
  | Some err => (Some err, c)
  | None =>
      let '(r, q, s) := push (plain_frame tag payload) (c_queue c) in
      let c := with_queue c q s in
      match r with
      | Some err => (Some err, closeNow err c)
      | None => (None, c)
      end
  end.

Definition SendControl (ctxErr : option error) (tag : Z) (v : value) (c : Client) : option error * Client :=
  match ValidateServerFrame tag v with
  | Some err => (Some err, c)
  | None => match EncodeControl tag v with
            | Err err => (Some err, c)
            | Ok payload => send ctxErr tag payload c
            end
  end.

(** [ctxErr i] is what the context says at the [i]-th chunk. *)
Fixpoint send_chunks (ctxErr : nat -> option error) (i : nat) (chunks : list bytes) (c : Client)
    : option error * Client :=
  match chunks with
  | [] => (None, c)
  | chunk :: chunks' =>
      match send (ctxErr i) TagOutput chunk c with
      | (Some err, c) => (Some err, c)
      | (None, c) => send_chunks ctxErr (S i) chunks' c
      end
  end.
Definition SendOutput (ctxErr : nat -> option error) (output : bytes) (c : Client) : option error * Client :=
  send_chunks ctxErr 0 (ChunkOutput output) c.
End Sending.

(** ** The writer

    [writeLoop] runs beside the senders and closers of the connection.  The
    wire is what the peer has received. *)
Inductive writer := Popping | Waiting | Writing (f : frame) | Stopped.

Record conn := {
  k_client : Client; k_writer : writer; k_wire : list bytes;
  k_accepted : list frame    (* the frames the queue took, in order *)
}.

(** [writeLoop] with a frame: it is sealed and written, its outcome is sent to
    its channel, and an error closes the connection.  [written] is what the
    web socket's write returns; with an error the message may still have been
    delivered. *)
Definition answer (f : frame) (v : option error) : sends :=
  match f_result f with Some id => [(id, v)] | None => [] end.
Definition write_frame (f : frame) (written : result ()) (delivered : bool) (k : conn) : conn :=
  let c := k_client k in
  let '(r, sealer) := Seal (c_sealer c) (f_tag f) (f_payload f) in
  match r with
  | Err err =>
      {| k_client := closeNow err (with_sealer c sealer (answer f (Some err))); k_writer := Stopped;
         k_wire := k_wire k; k_accepted := k_accepted k |}
  | Ok ciphertext =>
      match written with
      | Err err =>
          {| k_client := closeNow err (with_sealer c sealer (answer f (Some err))); k_writer := Stopped;
             k_wire := if delivered then k_wire k ++ [ciphertext] else k_wire k;
             k_accepted := k_accepted k |}
      | Ok _ =>
          {| k_client := with_sealer c sealer (answer f None); k_writer := Popping;
             k_wire := k_wire k ++ [ciphertext]; k_accepted := k_accepted k |}
      end
  end.

Definition with_client (k : conn) (c : Client) : conn :=
  {| k_client := c; k_writer := k_writer k; k_wire := k_wire k; k_accepted := k_accepted k |}.
Definition with_writer (k : conn) (w : writer) (q : queue) : conn :=
  {| k_client := with_queue (k_client k) q []; k_writer := w; k_wire := k_wire k; k_accepted := k_accepted k |}.
Definition clear_wake (q : queue) : queue :=
  {| q_frames := q_frames q; q_bytes := q_bytes q; q_max := q_max q; q_closed := q_closed q; q_wake := false |}.

(** Somebody pushes [f]; a result channel is made for one frame only. *)
Definition push_frame (f : frame) (k : conn) : option error * conn :=
  let '(r, q, s) := push f (c_queue (k_client k)) in
  (r, {| k_client := with_queue (k_client k) q s; k_writer := k_writer k; k_wire := k_wire k;
         k_accepted := match r with Some _ => k_accepted k | None => k_accepted k ++ [f] end |}).
Definition push_step (f : frame) (k : conn) : conn := snd (push_frame f k).
(** The tag is a byte, and the channel is new. *)
Definition pushable (f : frame) (k : conn) : Prop :=
  0 <= f_tag f < 256 /\
  match f_result f with Some id => id ∉ omap f_result (k_accepted k) | None => True end.

(** What the reader and the manager change. *)
Definition with_opener (k : conn) (o : Opener) : conn :=
  let c := k_client k in
  with_client k {| c_opener := o; c_sealer := c_sealer c; c_queue := c_queue c; c_closedNow := c_closedNow c;
                   c_viewerOpen := c_viewerOpen c; c_results := c_results c |}.
Definition with_viewer (k : conn) (b : bool) : conn :=
  let c := k_client k in
  with_client k {| c_opener := c_opener c; c_sealer := c_sealer c; c_queue := c_queue c; c_closedNow := c_closedNow c;
                   c_viewerOpen := b; c_results := c_results c |}.

Inductive conn_step : conn -> conn -> Prop :=
| st_push k f : pushable f k -> conn_step k (push_step f k)
| st_viewer k b : conn_step k (with_viewer k b)       (* viewerOpen is stored *)
| st_open k c : conn_step k (with_opener k (snd (Open (c_opener (k_client k)) c)))   (* the reader *)
| st_close k err : conn_step k (with_client k (closeNow err (k_client k)))
| st_pop k : k_writer k = Popping ->
    conn_step k (let '(p, q) := pop_round (c_queue (k_client k)) in
                 with_writer k (match p with PopClosed => Stopped | PopFrame f => Writing f
                                | PopWait => Waiting end) q)
| st_wake k : k_writer k = Waiting -> q_wake (c_queue (k_client k)) = true ->
    conn_step k (with_writer k Popping (clear_wake (c_queue (k_client k))))
| st_cancelled k : k_writer k = Waiting -> conn_step k (with_writer k Stopped (c_queue (k_client k)))
| st_write k f written delivered : k_writer k = Writing f ->
    conn_step k (write_frame f written delivered k).

(** ** The reader

    Its calls: of the web socket, of the handler, and of what it shares. *)
Inductive ccall :=
| CRead | COpen (ciphertext : bytes)
| CViewerOpen                                 (* viewerOpen.Load *)
| CSwapViewer                                 (* viewerOpen.CompareAndSwap(true, false) *)
| CHandlerClose | CHandlerInput (data : bytes) | CDisconnected
| CPush (tag : Z) (payload : bytes)           (* with a new result channel *)
| CAwait (id : nat)                           (* the channel's value, or the end of the context *)
| CCloseNow (err : error).

Definition canswer (c : ccall) : Type :=
  match c with
  | CRead => result message
  | COpen _ => result (Z * bytes)
  | CViewerOpen | CSwapViewer => bool
  | CHandlerClose | CHandlerInput _ => option error
  | CPush _ _ => result nat
  | CAwait _ => option error + error
  | CDisconnected | CCloseNow _ => unit
  end.
Abbreviation cprog := (prog ccall canswer).

Definition closeWithFrame (tag : Z) (payload : bytes) : cprog (option error) :=
  let failed err := _ ← ask (CCloseNow err); mret (Some err) in
  pushed ← ask (CPush tag payload);
  match (pushed : result nat) with
  | Err err => failed err
  | Ok result =>
      outcome ← ask (CAwait result);
      match (outcome : option error + error) with
      | inl (Some err) => failed err
      | inl None => _ ← ask (CCloseNow (EText !"mirror client closed")); mret None
      | inr err => failed err
      end
  end.

Definition closeWithControl `{FrameCodec} (tag : Z) (v : value) : cprog (option error) :=
  match ValidateServerFrame tag v with
  | Some err => mret (Some err)
  | None => match EncodeControl tag v with
            | Err err => mret (Some err)
            | Ok payload => closeWithFrame tag payload
            end
  end.

(** The client has a connection. *)
Definition sendCloseAcknowledgement : cprog (option error) :=
  match ValidateServerFrame TagClose VNil with
  | Some err => mret (Some err)
  | None => closeWithFrame TagClose []
  end.

Definition dispatch (tag : Z) (payload : bytes) : cprog (option error) :=
  if tag =? TagClose then
    match ValidateClientFrame tag (VBytes payload) with
    | Some err => mret (Some err)
    | None =>
        isOpen ← ask CViewerOpen;
        if negb isOpen then sendCloseAcknowledgement else
        closed ← ask CHandlerClose;
        match (closed : option error) with
        | Some err =>
            isOpen ← ask CViewerOpen;
            if negb isOpen then sendCloseAcknowledgement else mret (Some err)
        | None =>
            swapped ← ask CSwapViewer;
            if negb swapped then sendCloseAcknowledgement else sendCloseAcknowledgement
        end
    end
  else if tag =? TagInput then
    match ValidateClientFrame tag (VBytes payload) with
    | Some err => mret (Some err)
    | None =>
        isOpen ← ask CViewerOpen;
        if negb isOpen then mret None else
        err ← ask (CHandlerInput payload);
        match (err : option error) with
        | Some err =>
            isOpen ← ask CViewerOpen;
            mret (if negb isOpen then None else Some err)
        | None => mret None
        end
    end
  else mret (Some (EText (!"tag " ++ tag_text tag ++ !" is invalid from client"))).

(** The loop of [run]; false: it still reads after [fuel] messages. *)
Fixpoint read_loop (fuel : nat) : cprog bool :=
  match fuel with
  | O => mret false
  | S fuel =>
      received ← ask CRead;
      match (received : result message) with
      | Ok (true, ciphertext) =>
          opened ← ask (COpen ciphertext);
          match (opened : result (Z * bytes)) with
          | Ok (tag, payload) =>
              err ← dispatch tag payload;
              match (err : option error) with
              | None => read_loop fuel
              | Some _ => mret true
              end
          | Err _ => mret true
          end
      | _ => mret true
      end
  end.

Definition run (fuel : nat) : cprog bool :=
  ended ← read_loop fuel;
  if (ended : bool) then
    _ ← ask (CCloseNow (EText !"mirror client disconnected"));
    _ ← ask CDisconnected;
    mret true
  else mret false.

(** What a call does to the connection, and what it answers: [delivers] are the
    messages that the network can deliver; a connection that is closed reads
    none. *)
Definition call_step (delivers : bytes -> Prop) (c : ccall) : canswer c -> conn -> conn -> Prop :=
  match c with
  | CRead => fun r k k' => k' = k /\
      match r with Ok (_, m) => c_closedNow (k_client k) = false /\ delivers m | Err _ => True end
  | COpen m => fun r k k' => r = fst (Open (c_opener (k_client k)) m) /\
      k' = with_opener k (snd (Open (c_opener (k_client k)) m))
  | CViewerOpen => fun r k k' => r = c_viewerOpen (k_client k) /\ k' = k
  | CSwapViewer => fun r k k' => r = c_viewerOpen (k_client k) /\ k' = with_viewer k false
  | CPush tag payload => fun r k k' => exists id,
      let f := {| f_tag := tag; f_payload := payload; f_result := Some id |} in
      pushable f k /\ k' = push_step f k /\
      r = match fst (push_frame f k) with None => Ok id | Some err => Err err end
  | CAwait id => fun r k k' => k' = k /\ match r with inl v => (id, v) ∈ c_results (k_client k) | inr _ => True end
  | CCloseNow err => fun _ k k' => k' = with_client k (closeNow err (k_client k))
  | CHandlerClose | CHandlerInput _ | CDisconnected => fun _ k k' => k' = k
  end.

(** The others leave the opener to the reader. *)
Definition others_step (k k' : conn) : Prop := conn_step k k' /\ c_opener (k_client k') = c_opener (k_client k).
