(* ===== verification/MirrorClientProps.v ===== *)
(** * One mirror connection: what the peer gets, and who is answered

    The queue is bounded and no wake-up is lost; the peer receives the frames
    that were accepted, in their order and without gaps; every frame that
    waits for its outcome gets one answer, a good one only if the peer has the
    frame; and only a peer with the secret is let in. *)

From S2P Require Import Prelude GoString GoConv GoErrors MirrorProtocol MirrorCipher.
From S2P Require Import MirrorCipherProps MirrorClient.
Open Scope Z_scope.

Definition sizes (fs : list frame) : Z := foldr (fun f n => frame_size f + n) 0 fs.

Lemma sizes_app fs gs : sizes (fs ++ gs) = sizes fs + sizes gs.
Proof. induction fs as [|f fs IH]; simpl; [done|]. rewrite IH. lia. Qed.
Lemma frame_size_pos f : 17 <= frame_size f.
Proof. unfold frame_size. pose proof (len_nonneg (f_payload f)). lia. Qed.
Lemma sizes_nonneg fs : 0 <= sizes fs.
Proof. induction fs as [|f fs IH]; simpl; [done|]. pose proof (frame_size_pos f). lia. Qed.

Lemma fail_results_ids err fs : map fst (fail_results err fs) = omap f_result fs.
Proof.
  induction fs as [|f fs IH]; [done|]. unfold fail_results in *. simpl.
  destruct (f_result f); simpl; [f_equal|]; exact IH.
Qed.

(** ** The queue *)

Record queue_ok (q : queue) : Prop := {
  qo_bytes : q_bytes q = sizes (q_frames q);
  qo_max : q_bytes q <= q_max q;
  qo_closed : q_closed q = true -> q_frames q = []
}.

(** [q'] is [q] closed. *)
Definition closes (q q' : queue) : Prop :=
  q_closed q' = true /\ q_frames q' = [] /\ q_max q' = q_max q /\ queue_ok q' /\
  (q_wake q' = true \/ (q_closed q = true /\ q_wake q' = q_wake q)).

Lemma closeLocked_closes err q q' s : queue_ok q -> 0 <= q_max q ->
  closeLocked err q = (q', s) -> closes q q' /\ s = fail_results err (q_frames q).
Proof.
  intros [Hb Hm Hc] Hmax. unfold closeLocked. destruct (q_closed q) eqn:Hq; intros [= <- <-].
  - rewrite (Hc eq_refl). split; [|done]. split_and!; [done|by apply Hc|done|split; tauto|by right].
  - split; [|done]. split_and!; [done|done|done|by split|by left].
Qed.

Lemma push_cases f q : queue_ok q -> 0 <= q_max q ->
  (push f q = (None, {| q_frames := q_frames q ++ [f]; q_bytes := q_bytes q + frame_size f; q_max := q_max q;
                        q_closed := false; q_wake := true |}, []) /\
   q_closed q = false /\ q_bytes q + frame_size f <= q_max q) \/
  (exists err q' , push f q = (Some err, q', fail_results err (q_frames q)) /\ closes q q').
Proof.
  intros Hok Hmax. unfold push. destruct (q_closed q) eqn:Hc.
  - right. exists mirror_client_closed, q. pose proof (qo_closed q Hok) as He. rewrite (He Hc).
    split; [done|]. split_and!; [done|by apply He|done|done|by right].
  - destruct ((q_max q <? frame_size f) || (q_max q <? q_bytes q + frame_size f)) eqn:Hfull; guards.
    + right. destruct (closeLocked (ESentinel ErrClientQueueFull) q) as [q' s] eqn:Hcl.
      apply closeLocked_closes in Hcl as [Hcl ->]; [|done|done]. by eexists _, q'.
    + left. split; [done|]. split; [done|lia].
Qed.

(** Frames that failed got no good answer. *)
Lemma good_after_failure {P : nat -> Prop} rs err fs : (forall id, (id, None) ∈ rs -> P id) ->
  forall id, (id, None) ∈ rs ++ fail_results err fs -> P id.
Proof.
  intros Hr id [Hin|Hin]%elem_of_app; [by apply Hr|]. unfold fail_results in Hin.
  apply list_elem_of_omap in Hin as (f & _ & Hf). destruct (f_result f); [by injection Hf|done].
Qed.

(** ** The state of a connection *)

Abbreviation kq k := (c_queue (k_client k)).
Definition current (k : conn) : list frame :=
  match k_writer k with Writing f => [f] | _ => [] end.
Definition pairs (fs : list frame) : list (Z * bytes) := map (fun f => (f_tag f, f_payload f)) fs.

(** The frames on the wire come first, then the one being written, then the
    queue; frames are lost only when the connection ends. *)
Definition fifo (a : AEAD) (k : conn) : Prop :=
  exists done_ lost, k_accepted k = done_ ++ current k ++ q_frames (kq k) ++ lost /\
    map Ok (k_wire k) = sealed_from a 0 (pairs done_) /\ Forall fits (pairs done_) /\
    len done_ <= MaxUint64 /\
    (q_closed (kq k) = false -> lost = []) /\
    (k_writer k <> Stopped ->
       c_sealer (k_client k) = {| s_aead := a; s_counter := len done_; s_poisoned := false |}) /\
    (forall id, (id, None) ∈ c_results (k_client k) -> id ∈ omap f_result done_).

(** Every channel of an accepted frame has its answer or its frame is still to
    be written; none has two. *)
Definition answered (k : conn) : Prop :=
  NoDup (omap f_result (k_accepted k)) /\
  omap f_result (k_accepted k) ≡ₚ
    map fst (c_results (k_client k)) ++ omap f_result (current k ++ q_frames (kq k)).

Definition wakes (k : conn) : Prop :=
  k_writer k = Waiting -> q_wake (kq k) = false -> q_frames (kq k) = [] /\ q_closed (kq k) = false.

Record inv (a : AEAD) (k : conn) : Prop := {
  i_queue : queue_ok (kq k);
  i_max : q_max (kq k) = MaxClientQueueBytes;
  i_tags : Forall (fun f => 0 <= f_tag f < 256) (k_accepted k);
  i_closed : c_closedNow (k_client k) = true -> q_closed (kq k) = true;
  i_wakes : wakes k;
  i_fifo : fifo a k;
  i_answered : answered k
}.

(** The connection of [k] closed, with the writer in state [w]. *)
Definition shut (k k' : conn) : Prop :=
  closes (kq k) (kq k') /\ c_sealer (k_client k') = c_sealer (k_client k) /\
  k_wire k' = k_wire k /\ k_accepted k' = k_accepted k /\ k_writer k' = k_writer k /\
  exists err, c_results (k_client k') = c_results (k_client k) ++ fail_results err (q_frames (kq k)).

Lemma closeNow_spec err c :
  queue_ok (c_queue c) -> 0 <= q_max (c_queue c) -> (c_closedNow c = true -> q_closed (c_queue c) = true) ->
  closes (c_queue c) (c_queue (closeNow err c)) /\ c_sealer (closeNow err c) = c_sealer c /\
  c_results (closeNow err c) = c_results c ++ fail_results err (q_frames (c_queue c)).
Proof.
  intros Hq Hm Hn. unfold closeNow. destruct (c_closedNow c); simpl.
  - pose proof (Hn eq_refl) as Hc. rewrite (qo_closed _ Hq Hc). cbn. rewrite app_nil_r. split_and!; [|done..].
    split_and!; [done|by apply qo_closed|done|done|by right].
  - destruct (closeLocked err (c_queue c)) as [q s] eqn:Hcl.
    by apply closeLocked_closes in Hcl as [Hcl ->].
Qed.

Lemma inv_max_nonneg a k : inv a k -> 0 <= q_max (kq k).
Proof. intros Hk. by rewrite (i_max a k Hk). Qed.

Lemma closeNow_shut err k a : inv a k -> shut k (with_client k (closeNow err (k_client k))).
Proof.
  intros Hk. destruct (closeNow_spec err (k_client k) (i_queue a k Hk) (inv_max_nonneg a k Hk)
    (i_closed a k Hk)) as (Hc & Hs & Hr).
  unfold shut. simpl. split_and!; [exact Hc|done|done|done|done|by exists err].
Qed.

Lemma shut_inv a k k' : inv a k -> shut k k' -> inv a k'.
Proof.
  intros Hk ((C1 & C2 & C3 & C4 & C5) & S1 & S2 & S3 & S4 & err & S5). split.
  - done.
  - by rewrite C3, (i_max a k Hk).
  - rewrite S3. apply (i_tags a k Hk).
  - done.
  - intros Hw Hwk. destruct C5 as [C5|[C5 C6]]; [congruence|]. rewrite S4 in Hw. rewrite C6 in Hwk.
    destruct (i_wakes a k Hk Hw Hwk). congruence.
  - destruct (i_fifo a k Hk) as (dn & lost & E & Ew & Ef & En & _ & Es & Eg).
    exists dn, (q_frames (kq k) ++ lost). unfold current. rewrite S1, S2, S3, S4, S5, C2. simpl.
    split_and!; [exact E|done|done|done|congruence|done|by apply good_after_failure].
  - destruct (i_answered a k Hk) as [Hn Hp]. split; [by rewrite S3|].
    rewrite S3, Hp, S5, C2, map_app, fail_results_ids, app_nil_r, omap_app. unfold current. rewrite S4.
    rewrite <- app_assoc. apply Permutation_app_head. apply Permutation_app_comm.
Qed.

(** ** The steps *)

Lemma push_step_inv a k f : inv a k -> pushable f k -> inv a (push_step f k).
Proof.
  intros Hk [Htag Hid]. unfold push_step, push_frame.
  destruct (push_cases f (kq k) (i_queue a k Hk) (inv_max_nonneg a k Hk))
    as [(-> & Hopen & Hfit)|(err & q' & -> & Hcl)].
  - split; simpl.
    + split; simpl; [|lia|done]. rewrite sizes_app, (qo_bytes _ (i_queue a k Hk)). simpl. lia.
    + apply (i_max a k Hk).
    + apply Forall_app. split; [apply (i_tags a k Hk)|by constructor].
    + intros Hn. pose proof (i_closed a k Hk Hn). congruence.
    + intros _. discriminate.
    + destruct (i_fifo a k Hk) as (dn & lost & E & Ew & Ef & En & El & Es & Eg). exists dn, []. simpl.
      rewrite (El Hopen), app_nil_r in E. rewrite !app_nil_r. split_and!; try done.
      rewrite E, <- !app_assoc. done.
    + destruct (i_answered a k Hk) as [Hn Hp]. split; simpl; rewrite omap_app; simpl.
      * destruct (f_result f) as [id|]; simpl; [|by rewrite app_nil_r].
        apply NoDup_app. split_and!; [done| |apply NoDup_singleton].
        intros x Hx ->%list_elem_of_singleton. done.
      * rewrite Hp, app_nil_r. unfold current. simpl.
        by rewrite !omap_app, <- !app_assoc.
  - apply (shut_inv a k); [done|]. unfold shut. simpl. split_and!; [exact Hcl|done|done|done|done|by exists err].
Qed.

(** What the reader and the manager change is of no matter to the writer. *)
Lemma reader_inv a k o b : inv a k -> inv a (with_opener k o) /\ inv a (with_viewer k b).
Proof. intros [H1 H2 H3 H4 H5 H6 H7]. split; split; done. Qed.

Lemma pop_inv a k : inv a k -> k_writer k = Popping ->
  inv a (let '(p, q) := pop_round (kq k) in
         with_writer k (match p with PopClosed => Stopped | PopFrame f => Writing f | PopWait => Waiting end) q).
Proof.
  intros Hk Hw. pose proof (i_queue a k Hk) as Hq. pose proof (i_fifo a k Hk) as (dn & lost & E & Ew & Ef & En & El & Es & Eg).
  pose proof (i_answered a k Hk) as [Hn Hp]. unfold current in *. rewrite Hw in *.
  unfold pop_round. destruct (q_closed (kq k)) eqn:Hc; [|destruct (q_frames (kq k)) as [|f rest] eqn:Hf].
  - split; simpl; [exact Hq|apply (i_max a k Hk)|apply (i_tags a k Hk)|done|done| |].
    + exists dn, lost. simpl. rewrite app_nil_r. split_and!; try done. congruence.
    + split; simpl; [done|]. by rewrite app_nil_r.
  - split; simpl; [exact Hq|apply (i_max a k Hk)|apply (i_tags a k Hk)|apply (i_closed a k Hk)|done| |].
    + exists dn, lost. simpl. rewrite Hf, app_nil_r. split_and!; try done; intros _; first [by apply El|by apply Es].
    + split; simpl; [done|]. by rewrite app_nil_r, Hf.
  - split; simpl; [|apply (i_max a k Hk)|apply (i_tags a k Hk)| |done| |].
    + destruct Hq as [Hb Hm _]. rewrite Hf in Hb. simpl in Hb. split; simpl; [lia| |congruence].
      pose proof (frame_size_pos f). lia.
    + intros Hx%(i_closed a k Hk). congruence.
    + exists dn, lost. simpl. rewrite app_nil_r. split_and!; try done; intros _; first [by apply El|by apply Es].
    + split; simpl; [done|]. by rewrite app_nil_r.
Qed.

Lemma wait_inv a k w : inv a k -> k_writer k = Waiting -> w = Popping \/ w = Stopped ->
  inv a (with_writer k w (match w with Popping => clear_wake (kq k) | _ => kq k end)).
Proof.
  intros Hk Hw Hw'. pose proof (i_fifo a k Hk) as (dn & lost & E & Ew & Ef & En & El & Es & Eg).
  pose proof (i_answered a k Hk) as [Hn Hp]. pose proof (i_queue a k Hk) as [Q1 Q2 Q3].
  unfold current in *. rewrite Hw in *.
  destruct Hw' as [-> | ->]; (split; simpl;
    [by split|apply (i_max a k Hk)|apply (i_tags a k Hk)|apply (i_closed a k Hk)|by intros [=]| |]).
  - exists dn, lost. simpl. rewrite app_nil_r. split_and!; try done. intros _. by apply Es.
  - split; simpl; [done|]. by rewrite app_nil_r.
  - exists dn, lost. simpl. rewrite app_nil_r. split_and!; done.
  - split; simpl; [done|]. by rewrite app_nil_r.
Qed.

Lemma sealed_from_snoc a n fs t p :
  sealed_from a n (fs ++ [(t, p)]) =
  sealed_from a n fs ++ [Ok (aead_seal a (counterNonce (n + len fs)) (zb t :: p))].
Proof.
  revert n. induction fs as [|[t' p'] fs IH]; intros n; simpl.
  - by rewrite len_nil, Z.add_0_r.
  - rewrite IH, len_cons. by replace (n + (1 + len fs)) with (n + 1 + len fs) by lia.
Qed.
Lemma pairs_snoc fs f : pairs (fs ++ [f]) = pairs fs ++ [(f_tag f, f_payload f)].
Proof. unfold pairs. by rewrite map_app. Qed.
Lemma len_pairs fs : len (pairs fs) = len fs.
Proof. unfold len, pairs. by rewrite length_map. Qed.

Lemma answer_ids f v : map fst (answer f v) = omap f_result [f].
Proof. unfold answer. simpl. by destruct (f_result f). Qed.

(** The writer gives up while it has frame [f]. *)
Lemma give_up_inv a k f err sealer wire : inv a k -> k_writer k = Writing f ->
  (forall dn, map Ok (k_wire k) = sealed_from a 0 (pairs dn) -> Forall fits (pairs dn) -> len dn <= MaxUint64 ->
     (exists l, k_accepted k = dn ++ [f] ++ l) ->
     c_sealer (k_client k) = {| s_aead := a; s_counter := len dn; s_poisoned := false |} ->
     exists dn' l, map Ok wire = sealed_from a 0 (pairs dn') /\ Forall fits (pairs dn') /\
       len dn' <= MaxUint64 /\ dn ++ [f] = dn' ++ l /\ omap f_result dn ⊆ omap f_result dn') ->
  inv a {| k_client := closeNow err (with_sealer (k_client k) sealer (answer f (Some err)));
           k_writer := Stopped; k_wire := wire; k_accepted := k_accepted k |}.
Proof.
  intros Hk Hw Hwire.
  destruct (closeNow_spec err (with_sealer (k_client k) sealer (answer f (Some err)))
    (i_queue a k Hk) (inv_max_nonneg a k Hk) (i_closed a k Hk)) as ((C1 & C2 & C3 & C4 & C5) & Hs & Hr).
  simpl in Hr, Hs. pose proof (i_fifo a k Hk) as (dn & lost & E & Ew & Ef & En & El & Es & Eg).
  pose proof (i_answered a k Hk) as [Hn Hp]. unfold current in *. rewrite Hw in *.
  split; simpl.
  - exact C4.
  - rewrite C3. apply (i_max a k Hk).
  - apply (i_tags a k Hk).
  - done.
  - by intros [=].
  - destruct (Hwire dn Ew Ef En) as (dn' & l & E1 & E2 & E3 & E4 & E5); [by eexists|by apply Es|].
    exists dn', (l ++ q_frames (kq k) ++ lost). simpl. rewrite C2. simpl.
    split_and!; try done.
    + rewrite E. simpl. rewrite (app_assoc dn' l), <- E4, <- app_assoc. done.
    + simpl in C1. congruence.
    + rewrite Hr. apply good_after_failure. intros id [Hin|Hin]%elem_of_app; [by apply E5, Eg|].
      unfold answer in Hin. destruct (f_result f); [|by apply elem_of_nil in Hin].
      apply list_elem_of_singleton in Hin. done.
  - split; simpl; [done|]. rewrite Hr, C2, Hp, !map_app, fail_results_ids, answer_ids. simpl.
    rewrite app_nil_r, <- app_assoc. apply Permutation_app_head. simpl.
    destruct (f_result f); done.
Qed.

Lemma write_inv a `{!GCM a} k f written delivered : inv a k -> k_writer k = Writing f ->
  inv a (write_frame f written delivered k).
Proof.
  intros Hk Hw. pose proof (i_fifo a k Hk) as (dn & lost & E & Ew & Ef & En & El & Es & Eg).
  pose proof (i_answered a k Hk) as [Hn Hp]. pose proof (i_tags a k Hk) as Ht.
  unfold write_frame.
  assert (Hs : c_sealer (k_client k) = {| s_aead := a; s_counter := len dn; s_poisoned := false |})
    by (apply Es; congruence).
  destruct (Seal (c_sealer (k_client k)) (f_tag f) (f_payload f)) as [r sealer] eqn:Hseal.
  rewrite Hs in Hseal. unfold Seal in Hseal. cbn [s_poisoned s_counter s_aead] in Hseal.
  assert (Hquit : forall err, inv a {| k_client := closeNow err (with_sealer (k_client k) sealer (answer f (Some err)));
    k_writer := Stopped; k_wire := k_wire k; k_accepted := k_accepted k |}).
  { intros err. apply give_up_inv; [done|done|]. intros d H1 H2 H3 _ _. exists d, [f]. by split_and!. }
  destruct (len dn =? MaxUint64) eqn:Hmax; guards; [simplify_eq; apply Hquit|].
  destruct (MaxWireMessage <? _) eqn:Hbig; guards; [simplify_eq; apply Hquit|].
  rewrite gcm_overhead in Hbig. injection Hseal as <- <-.
  assert (Hf : In f (k_accepted k)).
  { rewrite E. unfold current. rewrite Hw. apply in_or_app. right. by left. }
  rewrite Forall_forall in Ht. apply list_elem_of_In in Hf. specialize (Ht f Hf).
  assert (Hw1 : map Ok (k_wire k ++ [aead_seal a (counterNonce (len dn)) (zb (f_tag f) :: f_payload f)]) =
                sealed_from a 0 (pairs (dn ++ [f]))).
  { rewrite map_app, Ew, pairs_snoc, sealed_from_snoc, len_pairs. done. }
  assert (Hf1 : Forall fits (pairs (dn ++ [f]))).
  { rewrite pairs_snoc. apply Forall_app. split; [done|]. constructor; [split; simpl; lia|constructor]. }
  assert (Hl1 : len (dn ++ [f]) <= MaxUint64) by (rewrite len_app, len_cons, len_nil; lia).
  destruct written as [u|err].
  2: { destruct delivered; [|apply Hquit]. apply give_up_inv; [done|done|]. intros d H1 H2 H3 _ Hsd.
       assert (len d = len dn) as Hd by congruence. exists (d ++ [f]), []. rewrite app_nil_r.
       rewrite map_app, H1, pairs_snoc, sealed_from_snoc, len_pairs, Hd. simpl. split_and!; [done| | |done|].
       - apply Forall_app. split; [done|]. constructor; [split; simpl; lia|constructor].
       - rewrite len_app, len_cons, len_nil. lia.
       - rewrite omap_app. set_solver. }
  unfold current in *. rewrite Hw in *. split; simpl.
  - apply (i_queue a k Hk).
  - apply (i_max a k Hk).
  - apply (i_tags a k Hk).
  - apply (i_closed a k Hk).
  - by intros [=].
  - exists (dn ++ [f]), lost. simpl. split_and!; try done.
    + rewrite E, <- app_assoc. done.
    + intros _. unfold next_counter. rewrite Z.mod_small by (pose proof (len_nonneg dn); unfold MaxUint64 in *; lia).
      by rewrite len_app.
    + intros id [Hin|Hin]%elem_of_app; rewrite omap_app; apply elem_of_app; [left; by apply Eg|right].
      unfold answer in Hin. simpl. destruct (f_result f); [|by apply elem_of_nil in Hin].
      apply list_elem_of_singleton in Hin as [= ->]. by left.
  - split; simpl; [done|]. rewrite Hp, map_app, answer_ids, <- app_assoc. apply Permutation_app_head.
    simpl. by destruct (f_result f).
Qed.

(** ** Runs of a connection *)

(** A connection that was just authenticated, its writer started. *)
Definition started (a : AEAD) (k : conn) : Prop :=
  c_sealer (k_client k) = new_sealer a /\ kq k = newOutboundQueue MaxClientQueueBytes /\
  c_closedNow (k_client k) = false /\ c_results (k_client k) = [] /\
  k_writer k = Popping /\ k_wire k = [] /\ k_accepted k = [].

Lemma started_inv a k : started a k -> inv a k.
Proof.
  intros (Hs & Hq & Hc & Hr & Hw & Hwire & Hacc). split; rewrite ?Hq, ?Hacc; simpl; try done.
  - congruence.
  - intros Hx. congruence.
  - exists [], []. unfold current. rewrite Hw, Hq, Hwire, Hacc, Hs. split_and!; try done. intros id. rewrite Hr. by intros ?%elem_of_nil.
  - split; [rewrite Hacc; constructor|]. unfold current. by rewrite Hacc, Hr, Hq, Hw.
Qed.

Lemma step_inv a `{!GCM a} k k' : inv a k -> conn_step k k' -> inv a k'.
Proof.
  intros Hk Hs. destruct Hs as [k f Hf|k b|k c|k err|k Hw|k Hw _|k Hw|k f written delivered Hw].
  - by apply push_step_inv.
  - by apply (reader_inv a k (c_opener (k_client k)) b).
  - by eapply (reader_inv a k _ true).
  - apply (shut_inv a k); [done|by eapply closeNow_shut].
  - by apply pop_inv.
  - exact (wait_inv a k Popping Hk Hw (or_introl eq_refl)).
  - exact (wait_inv a k Stopped Hk Hw (or_intror eq_refl)).
  - by apply write_inv.
Qed.

Lemma reachable_inv a `{!GCM a} k : reachable (started a) conn_step k -> inv a k.
Proof.
  revert k. apply reachable_invariant; [apply started_inv|].
  intros k k' _ Hk Hs. by eapply step_inv.
Qed.

Lemma oks_map_Ok {A} (l : list A) : oks (map Ok l) = l.
Proof. unfold oks. induction l as [|x l IH]; [done|]. simpl. f_equal. exact IH. Qed.

(** What the peer opens: the frames that are done. *)
Lemma wire_received a `{!GCM a} k dn : map Ok (k_wire k) = sealed_from a 0 (pairs dn) -> Forall fits (pairs dn) ->
  len dn <= MaxUint64 -> open_all (new_opener a) (k_wire k) = map Ok (pairs dn).
Proof.
  intros Ew Ef En. rewrite <- (oks_map_Ok (k_wire k)), Ew. apply open_all_sealed; [done|done|lia|rewrite len_pairs; lia].
Qed.

(** A good answer says that the peer has the frame. *)
Lemma good_answer_received a `{!GCM a} k id : inv a k -> (id, None) ∈ c_results (k_client k) ->
  exists f received, f ∈ k_accepted k /\ f_result f = Some id /\
    open_all (new_opener a) (k_wire k) = map Ok received /\ (f_tag f, f_payload f) ∈ received.
Proof.
  intros Hk Hid. destruct (i_fifo a k Hk) as (dn & lost & E & Ew & Ef & En & _ & _ & Eg).
  pose proof (Eg id Hid) as (f & Hf & Hfid)%list_elem_of_omap. exists f, (pairs dn). split_and!; [|done| |].
  - rewrite E. set_solver.
  - by apply wire_received.
  - unfold pairs. apply list_elem_of_fmap. by exists f.
Qed.

(** A channel belongs to one frame. *)
Lemma channel_unique (l : list frame) f g id : NoDup (omap f_result l) -> f ∈ l -> g ∈ l ->
  f_result f = Some id -> f_result g = Some id -> f = g.
Proof.
  intros Hn Hf Hg Hfi Hgi. induction l as [|x l IH]; [by apply elem_of_nil in Hf|]. simpl in Hn.
  assert (Hx : forall y, y ∈ l -> f_result y = Some id -> f_result x <> Some id).
  { intros y Hy Hyi Hxi. rewrite Hxi in Hn. simpl in Hn. apply NoDup_cons in Hn as [Hn _]. apply Hn.
    apply list_elem_of_omap. by exists y. }
  apply elem_of_cons in Hf as [->|Hf], Hg as [->|Hg]; [done|by edestruct Hx|by edestruct Hx|].
  apply IH; [|done|done]. destruct (f_result x); simpl in Hn; [by apply NoDup_cons in Hn as [_ ?]|done].
Qed.

(** C25: the queue is bounded and no wake-up is lost.  At every moment the
    queued frames take at most the limit, the byte count is theirs, a closed
    connection has none, and a writer that waits without a token in its wake
    channel has nothing to do: the queue is open and empty. *)
Theorem queue_bounded_and_awake (a : AEAD) `{!GCM a} (k : conn)
    (Hreach : reachable (started a) conn_step k) :
  sizes (q_frames (kq k)) = q_bytes (kq k) /\ q_bytes (kq k) <= MaxClientQueueBytes /\
  (c_closedNow (k_client k) = true -> q_closed (kq k) = true) /\
  (q_closed (kq k) = true -> q_frames (kq k) = []) /\
  (k_writer k = Waiting -> q_frames (kq k) <> [] \/ q_closed (kq k) = true -> q_wake (kq k) = true).
Proof.
  pose proof (reachable_inv a k Hreach) as Hk. destruct (i_queue a k Hk) as [Hb Hm Hc].
  rewrite (i_max a k Hk) in Hm. split_and!; [done|done|by apply (i_closed a k Hk)|done|].
  intros Hw Hsome. destruct (q_wake (kq k)) eqn:Hwk; [done|].
  destruct (i_wakes a k Hk Hw Hwk) as [Hf Hcl]. destruct Hsome; congruence.
Qed.

(** C26: the peer receives what was accepted, in order and without gaps.
    Whatever senders, closers and the network do, the messages on the wire
    open, for a peer with the key, to the first of the frames the queue
    accepted; and while the queue is open nothing is missing: the accepted frames are those received, the one being written and
    those queued. *)
Theorem peer_receives_accepted_frames (a : AEAD) `{!GCM a} (k : conn)
    (Hreach : reachable (started a) conn_step k) :
  exists received, open_all (new_opener a) (k_wire k) = map Ok received /\
    received `prefix_of` pairs (k_accepted k) /\
    (q_closed (kq k) = false ->
     pairs (k_accepted k) = received ++ pairs (current k ++ q_frames (kq k))).
Proof.
  pose proof (reachable_inv a k Hreach) as Hk.
  destruct (i_fifo a k Hk) as (dn & lost & E & Ew & Ef & En & El & _). exists (pairs dn). split_and!.
  - by apply wire_received.
  - rewrite E. unfold pairs. rewrite map_app. by eexists.
  - intros Hc. rewrite E, (El Hc), app_nil_r. unfold pairs. by rewrite map_app.
Qed.

(** C27: every closing frame is answered once.  The channels on which senders
    wait never get a second value; the channel of every frame the queue
    accepted has its value, unless the frame is still queued or being
    written; and a value without an error means that the peer has received the
    frame. *)
Theorem waiters_answered_once (a : AEAD) `{!GCM a} (k : conn)
    (Hreach : reachable (started a) conn_step k) :
  NoDup (map fst (c_results (k_client k))) /\
  (forall f id, f ∈ k_accepted k -> f_result f = Some id ->
     (exists v, (id, v) ∈ c_results (k_client k)) \/ f ∈ current k ++ q_frames (kq k)) /\
  (q_closed (kq k) = true -> k_writer k = Stopped ->
   forall f id, f ∈ k_accepted k -> f_result f = Some id -> exists v, (id, v) ∈ c_results (k_client k)) /\
  (forall id, (id, None) ∈ c_results (k_client k) ->
   exists f received, f ∈ k_accepted k /\ f_result f = Some id /\
     open_all (new_opener a) (k_wire k) = map Ok received /\ (f_tag f, f_payload f) ∈ received).
Proof.
  pose proof (reachable_inv a k Hreach) as Hk. destruct (i_answered a k Hk) as [Hn Hp].
  assert (Hnd : NoDup (map fst (c_results (k_client k)) ++ omap f_result (current k ++ q_frames (kq k))))
    by (by rewrite <- Hp).
  assert (Hboth : forall f id, f ∈ k_accepted k -> f_result f = Some id ->
     (exists v, (id, v) ∈ c_results (k_client k)) \/ id ∈ omap f_result (current k ++ q_frames (kq k))).
  { intros f id Hf Hid. assert (Hin : id ∈ omap f_result (k_accepted k)) by (apply list_elem_of_omap; eauto).
    rewrite Hp in Hin. apply elem_of_app in Hin as [Hin|Hin]; [left|by right].
    apply list_elem_of_fmap in Hin as ([id' v] & -> & Hin). by exists v. }
  split_and!.
  - by apply NoDup_app in Hnd as [? _].
  - intros f id Hf Hid. destruct (Hboth f id Hf Hid) as [Hv|Hin]; [by left|right].
    apply list_elem_of_omap in Hin as (g & Hg & Hgid).
    destruct (i_fifo a k Hk) as (dn & lost & E & _). enough (f = g) as -> by done.
    assert (Hga : g ∈ k_accepted k) by (rewrite E; set_solver).
    by eapply channel_unique.
  - intros Hc Hw f id Hf Hid. destruct (Hboth f id Hf Hid) as [Hv|Hin]; [done|].
    rewrite (qo_closed _ (i_queue a k Hk) Hc) in Hin. unfold current in Hin. rewrite Hw in Hin.
    by apply elem_of_nil in Hin.
  - intros id Hid. by apply good_answer_received.
Qed.

(** ** Authentication *)

(** C28: only a peer with the secret is let in.  Authentication succeeds
    exactly when the random source, the writes and the reads work, the peer's
    nonce has sixteen bytes, and its second message is what sealing a hello of
    protocol version 3 under the first nonce gives with the client's key, which
    is derived from the secret and both nonces.  The connection then expects
    the second message from the peer, and its first message is sealed with the
    server's own key. *)
Theorem authenticated_exactly `{FrameCodec} (hkdf_key : bytes -> bytes -> bytes -> Z -> result bytes)
    (newGCM : bytes -> result AEAD) (random : result bytes) (written : bytes -> result ())
    (read1 read2 : result message) (secret : bytes) (c : Client)
    (Hgcm : forall key a, newGCM key = Ok a -> GCM a) :
  authenticateClient hkdf_key newGCM random written read1 read2 secret = Ok c <->
  exists serverNonce clientNonce hello c2s s2c a_in a_out payload,
    random = Ok serverNonce /\ written serverNonce = Ok () /\
    read1 = Ok (true, clientNonce) /\ read2 = Ok (true, hello) /\
    len secret = 32 /\ len serverNonce = 16 /\ len clientNonce = 16 /\
    hkdf_key secret (serverNonce ++ clientNonce) !"wrap-mirror/v3/c2s" 32 = Ok c2s /\
    hkdf_key secret (serverNonce ++ clientNonce) !"wrap-mirror/v3/s2c" 32 = Ok s2c /\
    newGCM c2s = Ok a_in /\ newGCM s2c = Ok a_out /\
    hello = aead_seal a_in (counterNonce 0) (zb TagClientHello :: payload) /\
    len hello <= MaxWireMessage /\
    DecodeControl TagClientHello payload (VHello 0) = Ok (VHello ProtocolVersion) /\
    c = {| c_opener := {| o_aead := a_in; o_counter := 1; o_poisoned := false |};
           c_sealer := {| s_aead := a_out; s_counter := 0; s_poisoned := false |};
           c_queue := newOutboundQueue MaxClientQueueBytes; c_closedNow := false;
           c_viewerOpen := false; c_results := [] |}.
Proof.
  split.
  - unfold authenticateClient. intros Hok.
    destruct random as [sn|]; [|done]. destruct (written sn) as [[]|] eqn:Hwr; [|done].
    destruct read1 as [[b1 cn]|]; [|done].
    destruct b1; [|done]. cbn [negb orb] in Hok.
    destruct (len cn =? 16) eqn:Hcn; [|done]. cbn [negb] in Hok.
    unfold DeriveKeys in Hok. destruct (len secret =? 32) eqn:Hsec; [|done].
    destruct (len sn =? 16) eqn:Hsn; [|done]. rewrite Hcn in Hok. cbn [negb orb rbind] in Hok.
    destruct (hkdf_key _ _ _ _) as [c2s|] eqn:Hc2s; [|done].
    destruct (hkdf_key _ _ !"wrap-mirror/v3/s2c" _) as [s2c|] eqn:Hs2c; [|done]. cbn [rbind fst snd] in Hok.
    unfold NewOpener, NewSealer in Hok.
    destruct (newGCM c2s) as [a_in|] eqn:Hin; [|done]. destruct (newGCM s2c) as [a_out|] eqn:Hout; [|done].
    cbn [rbind] in Hok. destruct read2 as [[b2 hello]|]; [|done]. destruct b2; [|done]. cbn [negb] in Hok.
    unfold Open in Hok. cbn [o_poisoned o_counter o_aead] in Hok.
    change (0 =? MaxUint64) with false in Hok. cbv iota in Hok.
    destruct (MaxWireMessage <? len hello) eqn:Hl; [done|].
    destruct (aead_open a_in (counterNonce 0) hello) as [[|t payload]|] eqn:Hop; [done| |done].
    destruct (bz t =? TagClientHello) eqn:Ht; [|done]. cbn [negb] in Hok.
    guards. rewrite Ht in Hok. destruct (DecodeControl _ _ _) as [v|] eqn:Hd; [|done]. cbn [rbind] in Hok.
    destruct (ValidateClientFrame TagClientHello v) eqn:Hv; [done|]. injection Hok as <-.
    pose proof (Hgcm c2s a_in Hin) as Hg. apply gcm_open in Hop.
    assert (t = zb TagClientHello) as -> by (rewrite <- Ht; by rewrite zb_bz).
    unfold ValidateClientFrame in Hv. cbn in Hv. destruct v; try done.
    destruct (version =? ProtocolVersion) eqn:Hver; [|done]. guards. subst version.
    exists sn, cn, hello, c2s, s2c, a_in, a_out, payload. split_and!; try done.
  - intros (sn & cn & hello & c2s & s2c & a_in & a_out & payload & -> & Hw & -> & -> & H1 & H2 & H3 & H4 & H5 &
            H6 & H7 & Hh & H8 & H9 & ->).
    unfold authenticateClient. rewrite Hw. unfold DeriveKeys. rewrite H1, H2, H3. cbn [negb orb Z.eqb Pos.eqb].
    rewrite H4, H5. cbn [rbind fst snd]. unfold NewOpener, NewSealer. rewrite H6, H7. cbn [rbind].
    unfold Open. cbn [o_poisoned o_counter o_aead]. change (0 =? MaxUint64) with false. cbv iota.
    rewrite (proj2 (Z.ltb_ge _ _) H8).
    pose proof (Hgcm c2s a_in H6) as Hg. rewrite (proj2 (gcm_open _ _ _) Hh).
    rewrite bz_zb. change (TagClientHello mod 256) with TagClientHello. cbn [negb Z.eqb Pos.eqb TagClientHello].
    rewrite H9. cbn [rbind]. done.
Qed.

(** ** Sending output *)

Lemma send_chunks_spec ctxErr chunks : forall i c, queue_ok (c_queue c) -> 0 <= q_max (c_queue c) ->
  match send_chunks ctxErr i chunks c with
  | (None, c') => c_sealer c' = c_sealer c /\
      q_frames (c_queue c') = q_frames (c_queue c) ++ map (plain_frame TagOutput) chunks
  | (Some err, c') => (exists j, (j < length chunks)%nat /\ ctxErr (i + j)%nat = Some err) \/
      (c_closedNow c = false -> q_closed (c_queue c') = true /\ c_closedNow c' = true)
  end.
Proof.
  induction chunks as [|chunk chunks IH]; intros i c Hq Hm; cbn [send_chunks].
  { split; [done|]. by rewrite app_nil_r. }
  unfold send. destruct (ctxErr i) as [err|] eqn:Hctx.
  { left. exists 0%nat. rewrite Nat.add_0_r. split; [simpl; lia|done]. }
  destruct (push_cases (plain_frame TagOutput chunk) (c_queue c) Hq Hm)
    as [(-> & Hopen & Hfit)|(err & q' & -> & Hcl)].
  - set (q1 := {| q_frames := _ |}). set (c1 := with_queue c q1 []).
    assert (Hq1 : queue_ok (c_queue c1)).
    { split; simpl; [|lia|done]. rewrite sizes_app, (qo_bytes _ Hq). simpl. lia. }
    specialize (IH (S i) c1 Hq1 Hm). destruct (send_chunks ctxErr (S i) chunks c1) as [[err|] c'].
    + destruct IH as [(j & Hj & He)|IH]; [left|right; exact IH]. exists (S j). simpl. split; [lia|].
      by rewrite Nat.add_succ_r.
    + destruct IH as [Hs Hf]. split; [exact Hs|]. rewrite Hf. simpl. by rewrite <- app_assoc.
  - right. intros Hn. destruct Hcl as (C1 & C2 & C3 & C4 & C5).
    unfold closeNow. simpl. rewrite Hn. unfold closeLocked. rewrite C1. split; [exact C1|done].
Qed.

Lemma concat_payloads chunks : concat (map f_payload (map (plain_frame TagOutput) chunks)) = concat chunks.
Proof. induction chunks as [|c cs IH]; [done|]. simpl. by rewrite IH. Qed.

(** Output is sent whole or the connection ends.  When [SendOutput]
    reports success, what it added to the queue are output frames whose
    payloads put together are the output; when it fails, the caller's context
    is over, or the connection is closed. *)
Theorem output_sent_whole (ctxErr : nat -> option error) (output : bytes) (c : Client)
    (Hq : queue_ok (c_queue c)) (Hmax : 0 <= q_max (c_queue c)) (Hopen : c_closedNow c = false) :
  match SendOutput ctxErr output c with
  | (None, c') => exists added, q_frames (c_queue c') = q_frames (c_queue c) ++ added /\
      Forall (fun f => f_tag f = TagOutput /\ f_result f = None /\
                       len (f_payload f) + 1 + 16 <= MaxWireMessage) added /\
      concat (map f_payload added) = output
  | (Some err, c') => (exists i, ctxErr i = Some err) \/ (q_closed (c_queue c') = true /\ c_closedNow c' = true)
  end.
Proof.
  unfold SendOutput. pose proof (send_chunks_spec ctxErr (ChunkOutput output) 0 c Hq Hmax) as Hs.
  destruct (send_chunks ctxErr 0 (ChunkOutput output) c) as [[err|] c'].
  - destruct Hs as [(j & _ & Hj)|Hs]; [left; by eexists|right; by apply Hs].
  - destruct Hs as [_ Hf]. exists (map (plain_frame TagOutput) (ChunkOutput output)). split_and!; [done| |].
    + apply Forall_map. eapply Forall_impl; [apply chunk_loop_bounds|]. intros ch [_ Hb]. simpl.
      unfold maxPlainPayload in Hb. split_and!; [done|done|lia].
    + rewrite concat_payloads. by apply chunk_loop_concat.
Qed.

(** ** Concrete runs *)

(** A format for hellos. *)
#[export, refine] Instance plain_frames : FrameCodec := {|
  portable v := match v with VHello n => - 2 ^ 63 <= n < 2 ^ 63 | _ => False end;
  marshal v := match v with VHello n => Ok (itoa n) | _ => Err (EText !"no format") end;
  decode_as shape data := match shape, parse_int data with
                          | VHello _, Some n => Ok (VHello n, [])
                          | _, _ => Err (EText !"invalid character") end;
  decode_after rest := if rest ==b [] then Err (ESentinel IoEOF) else Ok ()
|}.
Proof.
  intros shape [| |n| | | |] Hp Hs; try done. exists (itoa n), []. split; [done|].
  destruct shape; try done. by rewrite atoi_itoa.
Defined.

Definition demo_secret : bytes := replicate 32 x07.
Definition demo_hkdf (secret salt info : bytes) (length : Z) : result bytes := Ok (secret ++ salt ++ info).
Definition demo_gcm (key : bytes) : result AEAD := Ok plain_aead.
Lemma demo_gcm_ok key a : demo_gcm key = Ok a -> GCM a.
Proof. intros [= <-]. apply _. Qed.
Definition demo_nonce : bytes := replicate 16 x09.
Definition demo_hello : bytes := aead_seal plain_aead (counterNonce 0) (zb TagClientHello :: !"3").
Definition demo_client : Client :=
  {| c_opener := {| o_aead := plain_aead; o_counter := 1; o_poisoned := false |};
     c_sealer := {| s_aead := plain_aead; s_counter := 0; s_poisoned := false |};
     c_queue := newOutboundQueue MaxClientQueueBytes; c_closedNow := false;
     c_viewerOpen := false; c_results := [] |}.

Lemma authenticated_exactly_witness :
  authenticateClient demo_hkdf demo_gcm (Ok demo_nonce) (fun _ => Ok ()) (Ok (true, demo_nonce))
    (Ok (true, demo_hello)) demo_secret = Ok demo_client.
Proof.
  apply (authenticated_exactly demo_hkdf demo_gcm _ _ _ _ _ _ demo_gcm_ok).
  exists demo_nonce, demo_nonce, demo_hello.
  eexists _, _, plain_aead, plain_aead, !"3".
  split_and!; try reflexivity; vm_compute; congruence.
Defined.

(** Output is queued, taken and written; then a closing frame is queued. *)
Definition demo_conn : conn :=
  {| k_client := demo_client; k_writer := Popping; k_wire := []; k_accepted := [] |}.
Definition demo_output : frame := plain_frame TagOutput !"hi".
Definition demo_close : frame := {| f_tag := TagClose; f_payload := []; f_result := Some 0%nat |}.
Definition demo_popped : conn :=
  let k := push_step demo_output demo_conn in
  let '(p, q) := pop_round (kq k) in
  with_writer k (match p with PopClosed => Stopped | PopFrame f => Writing f | PopWait => Waiting end) q.
Definition demo_written : conn := push_step demo_close (write_frame demo_output (Ok ()) true demo_popped).
Definition demo_ended : conn :=
  with_client demo_written (closeNow (EText !"mirror client disconnected") (k_client demo_written)).

Lemma demo_written_reachable : reachable (started plain_aead) conn_step demo_written.
Proof.
  eapply reachable_step; [|apply st_push; split; [vm_compute; intuition congruence|]].
  - eapply reachable_step; [|apply (st_write demo_popped demo_output (Ok ()) true); reflexivity].
    eapply reachable_step; [|apply (st_pop (push_step demo_output demo_conn)); reflexivity].
    eapply reachable_step; [|apply st_push; split; [vm_compute; intuition congruence|exact I]].
    apply reachable_init. by split_and!.
  - intros Hin. vm_compute in Hin. by apply elem_of_nil in Hin.
Qed.
Lemma demo_ended_reachable : reachable (started plain_aead) conn_step demo_ended.
Proof. eapply reachable_step; [apply demo_written_reachable|apply st_close]. Qed.

Lemma queue_bounded_and_awake_witness : q_bytes (kq demo_written) <= MaxClientQueueBytes.
Proof. exact (proj1 (proj2 (queue_bounded_and_awake plain_aead demo_written demo_written_reachable))). Defined.

Lemma peer_receives_accepted_frames_witness :
  exists received, open_all (new_opener plain_aead) (k_wire demo_written) = map Ok received /\
    received `prefix_of` pairs (k_accepted demo_written).
Proof.
  destruct (peer_receives_accepted_frames plain_aead demo_written demo_written_reachable) as (r & H1 & H2 & _).
  exists r. split; [exact H1|exact H2].
Defined.

Lemma waiters_answered_once_witness :
  (exists v, (0%nat, v) ∈ c_results (k_client demo_ended)) \/ demo_close ∈ current demo_ended ++ q_frames (kq demo_ended).
Proof.
  apply (proj1 (proj2 (waiters_answered_once plain_aead demo_ended demo_ended_reachable))); [|reflexivity].
  right. left.
Defined.

Lemma output_sent_whole_witness :
  exists added, q_frames (c_queue (snd (SendOutput (fun _ => None) !"hi" demo_client))) = added /\
    concat (map f_payload added) = !"hi".
Proof.
  pose proof (output_sent_whole (fun _ => None) !"hi" demo_client) as Hs.
  destruct (SendOutput (fun _ => None) !"hi" demo_client) as [[e|] c] eqn:E.
  - exfalso. apply (f_equal fst) in E. vm_compute in E. discriminate.
  - destruct Hs as (added & Hf & _ & Hc); [split; [reflexivity|vm_compute; congruence|reflexivity]|vm_compute; congruence|reflexivity|].
    exists added. split; [exact Hf|exact Hc].
Defined.
