(* ===== verification/MirrorReaderProps.v ===== *)
(** * The reader of a mirror connection

    The reader runs beside the writer, the senders and the manager
    ([Program.thread_step] over [MirrorClient.conn_step]).  A monitor follows
    its calls; what it knows about the connection holds between any two of
    them. *)

From S2P Require Import Prelude Program GoString GoConv GoErrors MirrorProtocol MirrorCipher.
From S2P Require Import MirrorCipherProps MirrorClient MirrorClientProps.
Open Scope Z_scope.

Abbreviation cevent := (event ccall canswer).
Abbreviation reader := (thread (C := ccall) (answer := canswer) (W := conn) (A := bool)).

Definition is_some {A} (o : option A) : bool := match o with Some _ => true | None => false end.
Lemma omap_none {A B} (f : A -> option B) l : Forall (fun x => is_some (f x) = false) l -> omap f l = [].
Proof. induction 1 as [|x l Hx _ IH]; [done|]. cbn. by destruct (f x). Qed.

(** ** What a trace says *)

(** The frame an event opened, and the frame it handed to the handler. *)
Definition opened_by (e : cevent) : option (Z * bytes) :=
  match e with existT (COpen _) (Ok f) => Some f | _ => None end.
Definition handed_by (e : cevent) : option (Z * bytes) :=
  match e with
  | existT CHandlerClose _ => Some (TagClose, [])
  | existT (CHandlerInput p) _ => Some (TagInput, p)
  | _ => None
  end.
Definition is_push (c : ccall) : bool := match c with CPush _ _ => true | _ => false end.

(** What the reader calls next when it has opened [f] and seen whether the
    viewer is open. *)
Definition reaction (f : Z * bytes) (viewer : bool) : ccall :=
  if fst f =? TagClose then (if viewer then CHandlerClose else CPush TagClose [])
  else if viewer then CHandlerInput (snd f) else CRead.

(** ** The monitor *)

Record rstate := {
  rs_read : option bytes;              (* read and not yet opened *)
  rs_opened : list (Z * bytes); rs_handed : list (Z * bytes);
  rs_pending : option (Z * bytes);     (* the last call opened it *)
  rs_owed : option ccall;              (* what must be called next *)
  rs_over : bool;                      (* a close was handed over or is acknowledged *)
  rs_pushed : bool; rs_await : option nat; rs_acked : bool;
  rs_closed : bool; rs_gone : bool
}.
#[export] Instance eta_rstate : Eta rstate := fun s =>
  {| rs_read := rs_read s; rs_opened := rs_opened s; rs_handed := rs_handed s; rs_pending := rs_pending s;
     rs_owed := rs_owed s; rs_over := rs_over s; rs_pushed := rs_pushed s; rs_await := rs_await s;
     rs_acked := rs_acked s; rs_closed := rs_closed s; rs_gone := rs_gone s |}.
Definition rs_start : rstate :=
  {| rs_read := None; rs_opened := []; rs_handed := []; rs_pending := None; rs_owed := None; rs_over := false;
     rs_pushed := false; rs_await := None; rs_acked := false; rs_closed := false; rs_gone := false |}.

Definition rs_next (s : rstate) (e : cevent) : rstate :=
  let s' := s <| rs_pending := None |> <| rs_owed := None |> <| rs_read := None |> in
  match e with
  | existT CRead (Ok (_, m)) => s' <| rs_read := Some m |>
  | existT (COpen _) (Ok f) => s' <| rs_opened := rs_opened s ++ [f] |> <| rs_pending := Some f |>
  | existT CViewerOpen v => s' <| rs_owed := f ← rs_pending s; Some (reaction f v) |>
  | existT CHandlerClose _ => s' <| rs_handed := rs_handed s ++ [(TagClose, [])] |> <| rs_over := true |>
  | existT (CHandlerInput p) _ => s' <| rs_handed := rs_handed s ++ [(TagInput, p)] |>
  | existT (CPush _ _) r =>
      s' <| rs_over := true |> <| rs_pushed := true |>
         <| rs_await := match r with Ok id => Some id | Err _ => None end |>
  | existT (CAwait _) (inl None) => s' <| rs_acked := true |>
  | existT (CCloseNow _) _ => s' <| rs_closed := true |>
  | existT CDisconnected _ => s' <| rs_gone := true |>
  | _ => s'
  end.

Definition acceptable (f : Z * bytes) : Prop := f = (TagClose, []) \/ fst f = TagInput.

Definition rs_allowed (s : rstate) (c : ccall) : Prop :=
  rs_gone s = false /\ match rs_owed s with Some c' => c = c' | None => True end /\
  match c with
  | COpen m => rs_read s = Some m /\ rs_over s = false
  | CViewerOpen => match rs_pending s with Some f => acceptable f | None => True end
  | CHandlerClose | CHandlerInput _ => rs_owed s = Some c /\ rs_over s = false
  | CPush tag payload => tag = TagClose /\ payload = [] /\ rs_pushed s = false /\ rs_acked s = false /\ last (rs_opened s) = Some (TagClose, [])
  | CAwait id => rs_await s = Some id /\ rs_acked s = false
  | CDisconnected => rs_closed s = true
  | _ => True
  end.

Section Reader.
(** The server's and the client's direction, what the network delivers, and the
    frames the peer sent after its hello. *)
Context (a b : AEAD) `{!GCM a} (delivers : bytes -> Prop) (frames : list (Z * bytes)).
Hypothesis tags : Forall (fun f => 0 <= fst f < 256) frames.
Hypothesis authentic : forall n c plain, delivers c -> 1 <= n < 2 ^ 64 -> aead_open b (counterNonce n) c = Ok plain ->
  exists tag payload, frames !! Z.to_nat (n - 1) = Some (tag, payload) /\ plain = zb tag :: payload.

Definition rs_sees (s : rstate) (c : ccall) : canswer c -> Prop :=
  match c with
  | CRead => fun r => rs_closed s = true -> match r with Ok _ => False | Err _ => True end
  | COpen _ => fun r => match r with Ok f => frames !! length (rs_opened s) = Some f | Err _ => True end
  | _ => fun _ => True
  end.

(** ** The program follows the monitor *)

#[local] Abbreviation rtwp := (twp rs_allowed rs_next rs_sees).

(** The next call of the program. *)
Ltac rcall := cbn -[rs_next rs_allowed rs_sees]; split; [unfold rs_allowed; cbn|intros].

(** The connection was closed by the reader, which still runs. *)
Definition shutting (s : rstate) : Prop := rs_gone s = false /\ rs_owed s = None /\ rs_closed s = true.

Lemma ack_twp s : rs_gone s = false -> match rs_owed s with Some c => c = CPush TagClose [] | None => True end ->
  rs_pushed s = false -> rs_acked s = false -> last (rs_opened s) = Some (TagClose, []) ->
  rtwp sendCloseAcknowledgement s (fun _ s' => shutting s').
Proof.
  intros Hg Ho Hp Ha Hl. unfold sendCloseAcknowledgement, closeWithFrame. rcall.
  { split_and!; try done. by destruct (rs_owed s). }
  destruct r as [id|err]; rcall; try by split_and!.
  destruct r as [[err|]|err]; rcall; by split_and!.
Qed.

(** Between two messages. *)
Definition ready (s : rstate) : Prop :=
  rs_gone s = false /\ (rs_owed s = None \/ rs_owed s = Some CRead) /\
  ((rs_over s = false /\ rs_pushed s = false /\ rs_acked s = false) \/ rs_closed s = true).
Definition ending (s : rstate) : Prop := rs_gone s = false /\ rs_owed s = None.

Lemma shutting_ready s : shutting s -> ready s.
Proof. intros (Hg & Ho & Hc). by split_and!; [|left|right]. Qed.
Lemma shutting_ending s : shutting s -> ending s.
Proof. intros (Hg & Ho & Hc). by split. Qed.

Definition dispatched (err : option error) (s : rstate) : Prop :=
  match err with None => ready s | Some _ => ending s end.

Lemma ack_dispatched s : rs_gone s = false -> match rs_owed s with Some c => c = CPush TagClose [] | None => True end ->
  rs_pushed s = false -> rs_acked s = false -> last (rs_opened s) = Some (TagClose, []) ->
  rtwp sendCloseAcknowledgement s dispatched.
Proof.
  intros. eapply twp_mono; [|by apply ack_twp]. intros [err|] s' Hs; [by apply shutting_ending|by apply shutting_ready].
Qed.

(** The frame that was just opened is dispatched. *)
Lemma dispatch_twp tag payload s : rs_gone s = false -> rs_owed s = None -> rs_pending s = Some (tag, payload) ->
  rs_over s = false -> rs_pushed s = false -> rs_acked s = false -> last (rs_opened s) = Some (tag, payload) ->
  rtwp (dispatch tag payload) s dispatched.
Proof.
  intros Hg Ho Hpe Hov Hp Ha Hl. unfold dispatch. destruct (tag =? TagClose) eqn:Hc; guards; [subst tag|].
  - unfold ValidateClientFrame. change (TagClose =? TagClientHello) with false. change (TagClose =? TagClose) with true.
    cbv iota. destruct (negb (len payload =? 0)) eqn:Hlen; guards; [by split|].
    apply len_zero_inv in Hlen as ->.
    rcall. { rewrite Ho, Hpe. split_and!; [done..|by left]. }
    destruct r; cbn [negb].
    + rcall. { by rewrite Hpe. }
      destruct r as [err|].
      * rcall. { done. }
        destruct r; cbn [negb]; [by split|]. by apply ack_dispatched.
      * rcall. { done. }
        destruct r; cbn [negb]; by apply ack_dispatched.
    + apply ack_dispatched; cbn; rewrite ?Hpe; done.
  - destruct (tag =? TagInput) eqn:Hi; guards; [subst tag|by split].
    destruct (ValidateClientFrame TagInput (VBytes payload)); [by split|].
    rcall. { rewrite Ho, Hpe. split_and!; [done..|by right]. }
    destruct r; cbn [negb].
    + rcall. { by rewrite Hpe. }
      destruct r as [err|]; [|by split_and!; [|left|left]].
      rcall. { done. }
      destruct r; cbn [negb]; [by split|]. by split_and!; [|left|left].
    + split_and!; cbn; rewrite ?Hpe; [done|by right|by left].
Qed.

Lemma loop_twp fuel : forall s, ready s -> rtwp (read_loop fuel) s (fun ended s' => ended = true -> ending s').
Proof.
  induction fuel as [|fuel IH]; intros s (Hg & Ho & Hr); [done|].
  rcall. { split_and!; [done| |done]. destruct Ho as [-> | ->]; done. }
  destruct r as [[[] m]|err]; try (intros _; by split).
  destruct Hr as [(Hov & Hp & Ha)|Hc]; [|by destruct (H Hc)].
  rcall. { done. }
  destruct r as [[tag payload]|err]; [|intros _; by split].
  rewrite twp_bind. eapply twp_mono; [|apply dispatch_twp; cbn; rewrite ?last_snoc; done].
  intros [err|] s' Hs; [intros _; exact Hs|by apply IH].
Qed.

Lemma run_twp fuel : rtwp (run fuel) rs_start (fun ended s => ended = true -> rs_gone s = true).
Proof.
  unfold run. rewrite twp_bind. eapply twp_mono; [|apply loop_twp; by split_and!; [|left|left]].
  intros [] s Hs; [|done]. destruct (Hs eq_refl) as [Hg Ho].
  rcall. { by rewrite Ho. }
  rcall. { done. }
  done.
Qed.

(** ** What the monitor knows about the connection *)

Definition knows (s : rstate) (k : conn) : Prop :=
  inv a k /\ (rs_closed s = true -> c_closedNow (k_client k) = true) /\
  (forall m, rs_read s = Some m -> delivers m) /\
  (o_aead (c_opener (k_client k)) = b /\
   (o_poisoned (c_opener (k_client k)) = false ->
    o_counter (c_opener (k_client k)) = 1 + len (rs_opened s) /\ len (rs_opened s) < MaxUint64)) /\
  (forall id, rs_await s = Some id -> exists f, f ∈ k_accepted k /\ f_result f = Some id /\
     f_tag f = TagClose /\ f_payload f = []) /\
  (rs_acked s = true -> exists id, rs_await s = Some id /\ (id, None) ∈ c_results (k_client k)).

(** What only grows. *)
Definition grows (k k' : conn) : Prop :=
  (c_closedNow (k_client k) = true -> c_closedNow (k_client k') = true) /\
  k_accepted k `prefix_of` k_accepted k' /\ c_results (k_client k) `prefix_of` c_results (k_client k').

Lemma closeNow_grows err c : c_closedNow (closeNow err c) = true /\ c_results c `prefix_of` c_results (closeNow err c) /\
  c_opener (closeNow err c) = c_opener c.
Proof.
  unfold closeNow. destruct (c_closedNow c) eqn:Hc; [done|]. destruct (closeLocked err (c_queue c)).
  split_and!; [done|by eexists|done].
Qed.

Lemma conn_grows k k' : conn_step k k' -> grows k k'.
Proof.
  intros Hs. destruct Hs as [k f Hf|k v|k c|k err|k Hw|k Hw _|k Hw|k f written delivered Hw]; try by split_and!.
  - unfold push_step, push_frame. destruct (push f (kq k)) as [[[err|] q] s]; cbn.
    + split_and!; [done..|by eexists].
    + split_and!; [done|by eexists|by eexists].
  - split_and!; [intros _|done|]; apply closeNow_grows.
  - destruct (pop_round (kq k)). split_and!; [done..|by eexists].
  - split_and!; [done..|by eexists].
  - split_and!; [done..|by eexists].
  - unfold write_frame. destruct (Seal _ _ _) as [[ciphertext|err] sealer]; [destruct written as [u|err]|].
    + split_and!; [done..|by eexists].
    + pose proof (closeNow_grows err (with_sealer (k_client k) sealer (answer f (Some err)))) as (G1 & G2 & G3).
      split_and!; [intros _; apply G1|done|]. etrans; [|exact G2]. by eexists.
    + pose proof (closeNow_grows err (with_sealer (k_client k) sealer (answer f (Some err)))) as (G1 & G2 & G3).
      split_and!; [intros _; apply G1|done|]. etrans; [|exact G2]. by eexists.
Qed.

(** A change of the connection that leaves the opener alone. *)
Lemma knows_grows s k k' : knows s k -> inv a k' -> grows k k' -> c_opener (k_client k') = c_opener (k_client k) ->
  knows s k'.
Proof.
  intros (_ & K2 & K3 & [K4 K4'] & K5 & K6) Hi (G1 & G2 & G3) Ho. split_and!; [done|auto|done|by rewrite Ho..| |].
  - intros id Hid. destruct (K5 id Hid) as (f & Hf & ?). exists f. split; [|done]. by eapply elem_of_prefix.
  - intros Ha. destruct (K6 Ha) as (id & ? & ?). exists id. split; [done|]. by eapply elem_of_prefix.
Qed.

Lemma knows_other s k k' : knows s k -> others_step k k' -> knows s k'.
Proof.
  intros Hk [Hs Ho]. eapply knows_grows; [done| |by apply conn_grows|done]. eapply step_inv; [done|apply Hk|done].
Qed.

(** What a call leaves of what is known when it records nothing new. *)
Lemma knows_same s s' k : knows s k -> rs_closed s' = rs_closed s -> rs_opened s' = rs_opened s ->
  rs_await s' = rs_await s -> rs_acked s' = rs_acked s -> rs_read s' = None -> knows s' k.
Proof.
  intros (K1 & K2 & K3 & [K4 K4'] & K5 & K6) E1 E2 E3 E4 E5. unfold knows. rewrite E1, E2, E3, E4, E5. by split_and!.
Qed.

Lemma knows_opened s m k : knows s k -> rs_read s = Some m ->
  let r := fst (Open (c_opener (k_client k)) m) in
  rs_sees s (COpen m) r /\ knows (rs_next s (ev (COpen m) r)) (with_opener k (snd (Open (c_opener (k_client k)) m))).
Proof.
  intros (K1 & K2 & K3 & (K4 & K4') & K5 & K6) Hm. specialize (K3 m Hm).
  assert (Hi : forall o, inv a (with_opener k o)) by (intros o; by apply (reader_inv a k o true)).
  unfold Open. destruct (c_opener (k_client k)) as [aead cnt []] eqn:Hop; cbn [o_poisoned o_counter o_aead] in *; subst aead.
  { split; [done|]. by split_and!. }
  destruct (K4' eq_refl) as [-> Hlt]. clear K4'. pose proof (len_nonneg (rs_opened s)).
  destruct (1 + len (rs_opened s) =? MaxUint64) eqn:Hmax; guards; [split; [done|]; by split_and!|].
  destruct (MaxWireMessage <? len m); [split; [done|]; by split_and!|].
  destruct (aead_open b (counterNonce (1 + len (rs_opened s))) m) as [[|t payload]|err] eqn:Ho;
    [split; [done|]; by split_and!| |split; [done|]; by split_and!].
  apply authentic in Ho as (tag & payload' & Hf & [= -> ->]); [|done|unfold MaxUint64 in *; lia].
  assert (Ht : 0 <= tag < 256) by (rewrite Forall_forall in tags; apply (tags (tag, payload')); by eapply list_elem_of_lookup_2).
  cbn [fst snd]. rewrite bz_zb, Z.mod_small by lia. split.
  - cbn. rewrite <- Hf. f_equal. unfold len. lia.
  - split_and!; cbn; try done. intros _. unfold next_counter.
    rewrite Z.mod_small, len_app, len_cons, len_nil by (unfold MaxUint64 in *; lia). lia.
Qed.

Lemma knows_call s c r k k' : knows s k -> rs_allowed s c -> call_step delivers c r k k' ->
  rs_sees s c r /\ knows (rs_next s (ev c r)) k'.
Proof.
  intros Hk (Hg & Ho & Hal) Hd. destruct c; cbn [call_step] in Hd.
  - destruct Hd as [-> Hd]. split.
    + intros Hc. destruct r as [[? m]|]; [|done]. destruct Hd. destruct Hk as (_ & K2 & _). specialize (K2 Hc). congruence.
    + destruct r as [[? m]|err]; [|by apply (knows_same s)].
      destruct Hk as (K1 & K2 & K3 & K4 & K5 & K6). split_and!; try done; try apply K4. cbn. intros ? [= <-]. apply Hd.
  - destruct Hd as [-> ->]. apply knows_opened; [done|apply Hal].
  - destruct Hd as [-> ->]. split; [done|]. by apply (knows_same s).
  - destruct Hd as [-> ->]. split; [done|]. apply (knows_same s); try done.
    eapply (knows_grows s k); [done|by apply (reader_inv a k (c_opener (k_client k)) false), Hk| |done].
    apply conn_grows. constructor.
  - subst k'. split; [done|]. by apply (knows_same s).
  - subst k'. split; [done|]. by apply (knows_same s).
  - subst k'. split; [done|]. by apply (knows_same s).
  - destruct Hd as (id & [Ht Hfresh] & -> & ->). set (f := {| f_tag := tag |}) in *. split; [done|].
    pose proof (conn_grows k _ (st_push k f (conj Ht Hfresh))) as Hgr.
    destruct (knows_grows s k (push_step f k) Hk) as (K1 & K2 & K3 & K4 & K5 & K6);
      [by apply push_step_inv; [apply Hk|]|done|unfold push_step, push_frame; by destruct (push f (kq k)) as [[? ?] ?]|].
    destruct Hal as (-> & -> & _ & Hacked & _). split_and!; cbn; try done; try apply K4; [|by rewrite Hacked].
    intros id' Hid. exists f. revert Hid. unfold push_step, push_frame. destruct (push f (kq k)) as [[[err|] q] res]; [done|].
    intros [= <-]. split_and!; [|done..]. cbn. set_solver.
  - destruct Hd as [-> Hd]. split; [done|]. destruct Hal as [Haw Hacked].
    destruct r as [[err|]|err]; [by apply (knows_same s)| |by apply (knows_same s)].
    destruct Hk as (K1 & K2 & K3 & K4 & K5 & K6). split_and!; cbn; try done; try apply K4. intros _. by exists id.
  - subst k'. split; [done|].
    destruct (knows_grows s k (with_client k (closeNow err (k_client k))) Hk) as (K1 & K2 & K3 & K4 & K5 & K6).
    + eapply step_inv; [done|apply Hk|constructor].
    + apply conn_grows. constructor.
    + apply closeNow_grows.
    + split_and!; cbn; try done; try apply K4. intros _. apply closeNow_grows.
Qed.

(** ** From the monitor to the trace *)

Abbreviation after := (foldl rs_next rs_start).
#[local] Abbreviation opened t := (omap opened_by t).
#[local] Abbreviation handed t := (omap handed_by t).

Definition follows (t : list cevent) : Prop := forall t1 e t2, t = t1 ++ e :: t2 ->
  rs_allowed (after t1) (projT1 e) /\ rs_sees (after t1) (projT1 e) (projT2 e).

Lemma follows_app t1 t2 : follows (t1 ++ t2) -> follows t1.
Proof. intros H t3 e t4 ->. apply (H t3 e (t4 ++ t2)). by rewrite <- app_assoc. Qed.
Lemma follows_snoc t e : follows (t ++ [e]) -> rs_allowed (after t) (projT1 e) /\ rs_sees (after t) (projT1 e) (projT2 e).
Proof. intros H. by apply (H t e []). Qed.

Lemma after_snoc t e : after (t ++ [e]) = rs_next (after t) e.
Proof. by rewrite foldl_app. Qed.

(** Every kind of event, with what was answered. *)
Ltac each_event e :=
  let c := fresh "c" in let r := fresh "r" in destruct e as [c r];
  destruct c; cbn [canswer] in r; repeat match type of r with
  | result _ => destruct r as [r|?] | message => destruct r as [? r] | (_ * _)%type => destruct r as [? r]
  | option _ => destruct r as [?|] | (_ + _)%type => destruct r as [r|?] end.

Lemma opened_after t : rs_opened (after t) = opened t.
Proof.
  induction t as [|e t IH] using rev_ind; [done|]. rewrite after_snoc, omap_app, <- IH.
  each_event e; cbn; by rewrite ?app_nil_r.
Qed.
Lemma handed_after t : rs_handed (after t) = handed t.
Proof.
  induction t as [|e t IH] using rev_ind; [done|]. rewrite after_snoc, omap_app, <- IH.
  each_event e; cbn; by rewrite ?app_nil_r.
Qed.

(** What is pending or owed comes from the last events. *)
Lemma pending_last t f : rs_pending (after t) = Some f -> exists t0 m, t = t0 ++ [ev (COpen m) (Ok f)].
Proof.
  induction t as [|e t _] using rev_ind; [done|]. rewrite after_snoc. each_event e; cbn; try done.
  intros [= ->]. by eexists _, _.
Qed.
Lemma owed_last t c : rs_owed (after t) = Some c ->
  exists t0 m f v, t = t0 ++ [ev (COpen m) (Ok f); ev CViewerOpen v] /\ c = reaction f v.
Proof.
  induction t as [|e t _] using rev_ind; [done|]. rewrite after_snoc. each_event e; cbn; try done.
  destruct (rs_pending (after t)) as [f|] eqn:Hp; [|done]. intros [= <-].
  apply pending_last in Hp as (t0 & m & ->). exists t0, m, f, r. by rewrite <- app_assoc.
Qed.

(** What never changes back. *)
Lemma once t1 t2 (P : rstate -> bool) : (forall s e, P s = true -> P (rs_next s e) = true) ->
  P (after t1) = true -> P (after (t1 ++ t2)) = true.
Proof.
  intros HP H1. induction t2 as [|e t2 IH] using rev_ind; [by rewrite app_nil_r|].
  rewrite app_assoc, after_snoc. by apply HP.
Qed.
Lemma over_once s e : rs_over s = true -> rs_over (rs_next s e) = true.
Proof. by each_event e. Qed.
Lemma pushed_once s e : rs_pushed s = true -> rs_pushed (rs_next s e) = true.
Proof. by each_event e. Qed.
Lemma closed_once s e : rs_closed s = true -> rs_closed (rs_next s e) = true.
Proof. by each_event e. Qed.
Lemma gone_once s e : rs_gone s = true -> rs_gone (rs_next s e) = true.
Proof. by each_event e. Qed.
Lemma acked_once s e : rs_acked s = true -> rs_acked (rs_next s e) = true.
Proof. by each_event e. Qed.

(** A property of events that the monitor forbids once [P] holds. *)
Lemma forbidden_after (P : rstate -> bool) (bad : cevent -> bool) t1 e t2 :
  (forall s e, P s = true -> P (rs_next s e) = true) ->
  (forall s e, bad e = true -> rs_allowed s (projT1 e) -> P s = false) ->
  follows (t1 ++ e :: t2) -> P (rs_next (after t1) e) = true -> Forall (fun e => bad e = false) t2.
Proof.
  intros HP Hbad Ht H1. apply Forall_forall. intros e' (t3 & t4 & ->)%list_elem_of_split.
  destruct (bad e') eqn:Hb; [|done]. exfalso. rewrite <- after_snoc in H1.
  pose proof (once (t1 ++ [e]) t3 P HP H1) as H2.
  destruct (Ht ((t1 ++ [e]) ++ t3) e' t4) as [Hal _]; [by rewrite <- !app_assoc|].
  rewrite (Hbad _ e' Hb Hal) in H2. done.
Qed.

Lemma opened_prefix t : follows t -> opened t `prefix_of` frames.
Proof.
  induction t as [|e t IH] using rev_ind; intros Ht; [by apply prefix_nil|].
  destruct (follows_snoc _ _ Ht) as [_ Hs]. specialize (IH (follows_app _ _ Ht)). rewrite omap_app.
  destruct e as [c r]. destruct c; try (cbn; rewrite app_nil_r; exact IH). destruct r as [f|err]; [|cbn; by rewrite app_nil_r].
  cbn in Hs. rewrite opened_after in Hs. destruct IH as [l ->]. rewrite lookup_app_r, Nat.sub_diag in Hs by done.
  destruct l as [|f' l]; [done|]. injection Hs as ->. cbn. exists l. by rewrite <- app_assoc.
Qed.

(** A frame is handed over right after it was opened and the viewer was seen open. *)
Lemma handed_over t e f : follows (t ++ [e]) -> handed_by e = Some f ->
  exists t0 m, t = t0 ++ [ev (COpen m) (Ok f); ev CViewerOpen true].
Proof.
  intros Ht Hf. destruct (follows_snoc _ _ Ht) as [(_ & _ & Hal) _].
  assert (Ho : rs_owed (after t) = Some (projT1 e)) by (each_event e; try discriminate Hf; apply Hal).
  apply owed_last in Ho as (t0 & m & f' & v & -> & Hr). exists t0, m.
  assert (Hacc : acceptable f').
  { destruct (Ht (t0 ++ [ev (COpen m) (Ok f')]) (ev CViewerOpen v) [e]) as [(_ & _ & Ha) _]; [by rewrite <- !app_assoc|].
    rewrite after_snoc in Ha. exact Ha. }
  enough (f' = f /\ v = true) as [-> ->] by done. unfold reaction in Hr.
  destruct Hacc as [->|Hi]; [|destruct f' as [tag p]; cbn in Hi; subst tag]; cbn in Hr; destruct v;
    each_event e; cbn in *; try discriminate Hf; try discriminate Hr; injection Hf as <-; try done; by injection Hr as ->.
Qed.

Lemma handed_sublist t : follows t -> handed t `sublist_of` opened t.
Proof.
  induction t as [t IH] using (induction_ltof1 _ length). unfold ltof in IH. intros Ht.
  destruct t as [|e t _] using rev_ind; [constructor|]. rewrite !omap_app.
  destruct (handed_by e) as [f|] eqn:Hf.
  - destruct (handed_over t e f Ht Hf) as (t0 & m & ->). rewrite !omap_app. cbn. rewrite Hf, app_nil_r.
    assert (Hl : (length t0 < length ((t0 ++ [ev (COpen m) (Ok f); ev CViewerOpen true]) ++ [e]))%nat)
      by (rewrite !length_app; cbn; lia).
    specialize (IH t0 Hl). rewrite <- app_assoc in Ht. specialize (IH (follows_app _ _ Ht)).
    rewrite <- app_assoc. apply sublist_app; [exact IH|]. apply sublist_skip, sublist_nil_l.
  - assert (Hl : (length t < length (t ++ [e]))%nat) by (rewrite length_app; cbn; lia).
    specialize (IH t Hl (follows_app _ _ Ht)). change (omap handed_by [e]) with (match handed_by e with Some y => [y] | None => [] end).
    rewrite Hf, app_nil_r. by apply sublist_inserts_r.
Qed.

(** ** The reader beside the others *)

(** An authenticated connection whose reader begins; the hello took the first
    nonce. *)
Definition reading (fuel : nat) (x : reader) : Prop :=
  started a (th_shared x) /\ c_opener (k_client (th_shared x)) = {| o_aead := b; o_counter := 1; o_poisoned := false |} /\
  th_rest x = run fuel /\ th_past x = [].
#[local] Abbreviation rreach fuel := (reachable (reading fuel) (thread_step (call_step delivers) others_step)).

Lemma reader_monitored fuel x : rreach fuel x ->
  monitored rs_allowed rs_next rs_sees knows rs_start (fun ended s => ended = true -> rs_gone s = true) x.
Proof.
  apply thread_monitored; [intros s k k'; apply knows_other|intros s c r k k'; apply knows_call|].
  intros [k m t] (Hs & Ho & Hm & Ht). cbn in Hs, Ho, Hm, Ht. subst m t. unfold monitored, knows. cbn. rewrite Ho. cbn. split_and!.
  - by apply started_inv.
  - done.
  - done.
  - done.
  - intros _. split; [done|]. by vm_compute.
  - done.
  - done.
  - apply run_twp.
  - by intros [].
Qed.

(** C29: the reader acts on the peer's frames only, and acknowledges a close
    once.  It runs beside the writer, the senders and the manager, and any
    messages arrive; a message opens under a nonce only to the frame that the
    peer sealed under it.  Then what the reader opens is a prefix of the peer's
    frames; what it hands to the handler is among them, in order; an input or a
    close is handed over exactly when it was just opened and the viewer was
    seen open, and a close that finds the viewer closed is acknowledged at once;
    after a close was handed over or is acknowledged nothing more is opened; at
    most one acknowledgement is sent, only for a close that was the last frame
    opened, and when it is confirmed the peer has received it; and
    [Disconnected] is called last and once, when the connection is closed, by
    every reader that ends. *)
Theorem reader_acts_on_peer_frames fuel x : rreach fuel x ->
  let t := th_past x in
  opened t `prefix_of` frames /\ handed t `sublist_of` opened t /\
  (forall t1 m f v e t2, t = t1 ++ ev (COpen m) (Ok f) :: ev CViewerOpen v :: e :: t2 -> projT1 e = reaction f v) /\
  (forall t1 e t2 f, t = t1 ++ e :: t2 -> handed_by e = Some f ->
     exists t0 m, t1 = t0 ++ [ev (COpen m) (Ok f); ev CViewerOpen true]) /\
  (forall t1 e t2, t = t1 ++ e :: t2 -> projT1 e = CHandlerClose \/ is_push (projT1 e) = true -> opened t2 = [] /\ handed t2 = []) /\
  (forall t1 tag p r t2, t = t1 ++ ev (CPush tag p) r :: t2 ->
     tag = TagClose /\ p = [] /\ last (opened t1) = Some (TagClose, []) /\ Forall (fun e => is_push (projT1 e) = false) t2) /\
  (forall id, ev (CAwait id) (inl None) ∈ t ->
     exists received, open_all (new_opener a) (k_wire (th_shared x)) = map Ok received /\ (TagClose, []) ∈ received) /\
  (forall t1 r t2, t = t1 ++ ev CDisconnected r :: t2 -> t2 = [] /\ c_closedNow (k_client (th_shared x)) = true) /\
  (th_rest x = Ret true -> exists t0, t = t0 ++ [ev CDisconnected tt]).
Proof.
  intros Hreach t. destruct (reader_monitored fuel x Hreach) as ((K1 & K2 & K3 & K4 & K5 & K6) & Hm & Ht).
  fold t in K2, K3, K4, K5, K6, Hm, Ht. change (follows t) in Ht. clearbody t. split_and!.
  - by apply opened_prefix.
  - by apply handed_sublist.
  - intros t1 m f v e t2 E.
    destruct (Ht (t1 ++ [ev (COpen m) (Ok f); ev CViewerOpen v]) e t2) as [(_ & Ho & _) _]; [by rewrite E, <- app_assoc|].
    by rewrite foldl_app in Ho.
  - intros t1 e t2 f E. apply handed_over. apply (follows_app _ t2). rewrite <- app_assoc. by rewrite E in Ht.
  - intros t1 e t2 E He. rewrite E in Ht.
    assert (Hover : rs_over (rs_next (after t1) e) = true).
    { destruct He as [He|He]; each_event e; try discriminate He; done. }
    split; apply omap_none.
    + apply (forbidden_after rs_over (fun e => is_some (opened_by e)) t1 e); [apply over_once| |done|done].
      intros s0 e0 Hb (_ & _ & Hal). each_event e0; try discriminate Hb; apply Hal.
    + apply (forbidden_after rs_over (fun e => is_some (handed_by e)) t1 e); [apply over_once| |done|done].
      intros s0 e0 Hb (_ & _ & Hal). each_event e0; try discriminate Hb; apply Hal.
  - intros t1 tag p r t2 E. rewrite E in Ht. destruct (Ht t1 _ t2 eq_refl) as [(_ & _ & -> & -> & _ & _ & Hl) _].
    rewrite opened_after in Hl. split_and!; [done..|].
    eapply (forbidden_after rs_pushed (fun e => is_push (projT1 e))); [apply pushed_once| |exact Ht|by destruct r].
    intros s0 e0 Hb (_ & _ & Hal). each_event e0; try discriminate Hb; apply Hal.
  - intros id (t1 & t2 & E)%list_elem_of_split.
    assert (Hacked : rs_acked (after t) = true).
    { rewrite E. rewrite cons_middle, app_assoc. apply once; [apply acked_once|]. by rewrite after_snoc. }
    destruct (K6 Hacked) as (id' & Haw & Hres). destruct (K5 id' Haw) as (f & Hf & Hid & Htag & Hp).
    destruct (good_answer_received a _ id' K1 Hres) as (f' & received & Hf' & Hid' & Hrec & Hin).
    exists received. split; [done|]. rewrite <- Htag, <- Hp.
    by rewrite (channel_unique (k_accepted (th_shared x)) f f' id' (proj1 (i_answered _ _ K1)) Hf Hf' Hid Hid').
  - intros t1 r t2 E. rewrite E in Ht. destruct (Ht t1 _ t2 eq_refl) as [(_ & _ & Hc) _]. split.
    + destruct t2 as [|e t2]; [done|]. exfalso.
      assert (Hf : Forall (fun _ => true = false) (e :: t2)).
      { eapply (forbidden_after rs_gone (fun _ => true)); [apply gone_once| |exact Ht|done]. by intros s0 e0 _ (Hg & _). }
      by apply Forall_cons in Hf as [? _].
    + apply K2. rewrite E. by apply once; [apply closed_once|].
  - intros Hr. rewrite Hr in Hm. cbn in Hm. specialize (Hm eq_refl).
    destruct t as [|e t0 _] using rev_ind; [done|]. exists t0.
    destruct (follows_snoc _ _ Ht) as [[Hg _] _]. rewrite after_snoc in Hm.
    each_event e; cbn in Hm; try congruence. by destruct r.
Qed.
End Reader.

(** ** A concrete run

    The peer sends an input and then a close. *)
Definition demo_sent : list (Z * bytes) := [(TagInput, !"a"); (TagClose, [])].
Definition demo_message (n : nat) (f : Z * bytes) : bytes :=
  aead_seal plain_aead (counterNonce (1 + Z.of_nat n)) (zb (fst f) :: snd f).
Definition demo_delivers (m : bytes) : Prop := exists n f, demo_sent !! n = Some f /\ m = demo_message n f.

Lemma demo_authentic n c plain : demo_delivers c -> 1 <= n < 2 ^ 64 -> aead_open plain_aead (counterNonce n) c = Ok plain ->
  exists tag payload, demo_sent !! Z.to_nat (n - 1) = Some (tag, payload) /\ plain = zb tag :: payload.
Proof.
  intros (i & [tag payload] & Hi & ->) Hn Ho. pose proof (lookup_lt_Some _ _ _ Hi) as Hlt. cbn in Hlt.
  apply plain_opens in Ho as [-> ->]; [|lia..]. exists tag, payload. split; [|done]. rewrite <- Hi. f_equal. lia.
Qed.

(** What is answered: reads give the message [n], the handler is content. *)
Definition respond (n : nat) (c : ccall) (k : conn) : canswer c * conn :=
  match c with
  | CRead => (match demo_sent !! n with
              | Some f => if c_closedNow (k_client k) then Err (EText !"closed") else Ok (true, demo_message n f)
              | None => Err (EText !"closed") end, k)
  | COpen m => let '(r, o) := Open (c_opener (k_client k)) m in (r, with_opener k o)
  | CViewerOpen => (c_viewerOpen (k_client k), k)
  | CSwapViewer => (c_viewerOpen (k_client k), with_viewer k false)
  | CHandlerClose | CHandlerInput _ => (None, k)
  | CPush tag payload =>
      let f := {| f_tag := tag; f_payload := payload; f_result := Some (length (k_accepted k)) |} in
      (match fst (push_frame f k) with None => Ok (length (k_accepted k)) | Some err => Err err end, push_step f k)
  | CAwait id => (match list_find (fun r => fst r = id) (c_results (k_client k)) with
                  | Some (_, (_, v)) => inl v | None => inr (ESentinel ContextCanceled) end, k)
  | CDisconnected => (tt, k)
  | CCloseNow err => (tt, with_client k (closeNow err (k_client k)))
  end.
Definition possible (c : ccall) (k : conn) : bool :=
  match c with
  | CPush tag _ => (0 <=? tag) && (tag <? 256) && negb (length (k_accepted k) ∈b omap f_result (k_accepted k))
  | _ => true
  end.

Lemma respond_step n c k : possible c k = true -> call_step demo_delivers c (fst (respond n c k)) k (snd (respond n c k)).
Proof.
  destruct c; cbn; intros Hp; try done.
  - split; [done|]. destruct (demo_sent !! n) as [f|] eqn:Hf; [|done].
    destruct (c_closedNow (k_client k)) eqn:Hc; [done|]. split; [done|]. by exists n, f.
  - by destruct (Open _ _).
  - apply andb_true_iff in Hp as [[H1 H2]%andb_true_iff H3%negb_true_iff%bool_decide_eq_false].
    exists (length (k_accepted k)). split_and!; [|done|done]. split; [cbn; lia|done].
  - split; [done|]. destruct (list_find _ _) as [[i [id' v]]|] eqn:Hf; [|done].
    apply list_find_Some in Hf as (Hi & <- & _). by eapply list_elem_of_lookup_2.
Qed.

Inductive rturn := TReader (n : nat) | TPop | TWrite.
Definition rtake (x : reader) (t : rturn) : reader :=
  let k := th_shared x in
  match t with
  | TReader n =>
      match th_rest x with
      | Do c f => if possible c k then {| th_shared := snd (respond n c k); th_rest := f (fst (respond n c k));
                                          th_past := th_past x ++ [ev c (fst (respond n c k))] |} else x
      | Ret _ => x
      end
  | TPop =>
      match k_writer k with
      | Popping => {| th_shared := let '(p, q) := pop_round (c_queue (k_client k)) in
                        with_writer k (match p with PopClosed => Stopped | PopFrame f => Writing f | PopWait => Waiting end) q;
                      th_rest := th_rest x; th_past := th_past x |}
      | _ => x
      end
  | TWrite =>
      match k_writer k with
      | Writing f => {| th_shared := write_frame f (Ok ()) true k; th_rest := th_rest x; th_past := th_past x |}
      | _ => x
      end
  end.

Lemma write_frame_opener f written delivered k :
  c_opener (k_client (write_frame f written delivered k)) = c_opener (k_client k).
Proof.
  unfold write_frame. destruct (Seal _ _ _) as [[ciphertext|err] sealer]; [destruct written as [u|err]|].
  - done.
  - apply (closeNow_grows err (with_sealer (k_client k) sealer (answer f (Some err)))).
  - apply (closeNow_grows err (with_sealer (k_client k) sealer (answer f (Some err)))).
Qed.

Lemma rtake_step x t : rtake x t = x \/ thread_step (call_step demo_delivers) others_step x (rtake x t).
Proof.
  destruct x as [k m past]. destruct t as [n| |]; cbn [rtake th_rest th_shared th_past].
  - destruct m as [r|c f]; [by left|]. destruct (possible c k) eqn:Hp; [right|by left].
    apply (th_call _ _ {| th_shared := k; th_rest := Do c f; th_past := past |} c f); [done|by apply respond_step].
  - destruct (k_writer k) eqn:Hw; try by left. right.
    apply (th_other _ _ {| th_shared := k; th_rest := m; th_past := past |}). split; [by apply st_pop|].
    by destruct (pop_round (c_queue (k_client k))).
  - destruct (k_writer k) eqn:Hw; try by left. right.
    apply (th_other _ _ {| th_shared := k; th_rest := m; th_past := past |}). split; [by apply st_write|].
    apply write_frame_opener.
Qed.

(** The reader looks at the two messages; the writer sends the acknowledgement
    before the reader waits for it. *)
Definition demo_start : reader :=
  {| th_shared := with_viewer demo_conn true; th_rest := run 5; th_past := [] |}.
Definition demo_turns : list rturn :=
  replicate 4 (TReader 0) ++ replicate 6 (TReader 1) ++ [TPop; TWrite] ++ replicate 5 (TReader 1).
Definition demo_end : reader := foldl rtake demo_start demo_turns.

Lemma demo_end_reachable : reachable (reading plain_aead plain_aead 5) (thread_step (call_step demo_delivers) others_step) demo_end.
Proof.
  unfold demo_end. cut (reachable (reading plain_aead plain_aead 5) (thread_step (call_step demo_delivers) others_step) demo_start).
  - generalize demo_start. induction demo_turns as [|t ts IH]; intros x Hx; [done|]. apply IH.
    destruct (rtake_step x t) as [->|Hs]; [done|]. by eapply reachable_step.
  - apply reachable_init. by split_and!.
Qed.

Example demo_trace : omap handed_by (th_past demo_end) = demo_sent /\
  map (fun e => projT1 e) (th_past demo_end) =
  [CRead; COpen (demo_message 0 (TagInput, !"a")); CViewerOpen; CHandlerInput !"a";
   CRead; COpen (demo_message 1 (TagClose, [])); CViewerOpen; CHandlerClose; CSwapViewer;
   CPush TagClose []; CAwait 0; CCloseNow (EText !"mirror client closed"); CRead;
   CCloseNow (EText !"mirror client disconnected"); CDisconnected].
Proof. by vm_compute. Qed.

Lemma reader_acts_on_peer_frames_witness :
  exists received, open_all (new_opener plain_aead) (k_wire (th_shared demo_end)) = map Ok received /\
    (TagClose, []) ∈ received.
Proof.
  assert (Ht : Forall (fun f : Z * bytes => 0 <= fst f < 256) demo_sent) by (repeat constructor; vm_compute; congruence).
  pose proof (reader_acts_on_peer_frames plain_aead plain_aead demo_delivers demo_sent Ht demo_authentic 5 demo_end
    demo_end_reachable) as H.
  apply (proj1 (proj2 (proj2 (proj2 (proj2 (proj2 (proj2 H)))))) 0%nat).
  vm_compute. do 10 right. left.
Defined.
