(* ===== verification/MirrorDiagnostics.v ===== *)
(** * The diagnostics log (internal/mirror/diagnostics.go, diagnostics_file_unix.go)

    Records of a fixed vocabulary are written as lines of JSON to a log of
    bounded size with one backup. *)

From S2P Require Import Prelude GoString GoUnicode GoConv GoErrors GoPath GoJson GoOS.
Open Scope Z_scope.

Definition maxDiagnosticLogSize : Z := 1048576.    (* 1 << 20 *)
Definition maxDiagnosticEventSize : Z := 4096.     (* 4 << 10 *)
Definition maxDiagnosticPathSize : Z := 256.

(** [^[a-z][a-z0-9_]{0,63}$]. *)
Definition is_lower (b : byte) : bool := (97 <=? bz b) && (bz b <=? 122).
Definition diagnosticTokenPattern (s : bytes) : bool :=
  match s with
  | [] => false
  | c :: rest =>
      is_lower c && (len rest <=? 63) &&
      forallb (fun b => is_lower b || is_digit b || (bz b =? 95)) rest
  end.

Definition diagnosticComponents : list bytes :=
  [!"credential"; !"handshake"; !"server"; !"tunnel"; !"viewer"].

Definition diagnosticEvents : list bytes :=
  [!"asset_missing"; !"authenticated"; !"closed"; !"ended"; !"exit"; !"geometry_corrected";
   !"geometry_failed"; !"geometry_preparing"; !"geometry_verified"; !"open_failed"; !"opened";
   !"preparing"; !"process_exit"; !"process_start_failed"; !"process_started"; !"ready";
   !"rejected"; !"revoked"; !"rotated"; !"start_failed"; !"started"; !"starting"; !"stopped"].

Definition diagnosticCodes : list bytes :=
  [!"authentication_failed"; !"automatic_target_unavailable"; !"client_asset_unavailable";
   !"client_capacity"; !"cleanup_incomplete"; !"credential_expired"; !"origin_rejected";
   !"process_unavailable"; !"server_busy"; !"server_starting"; !"server_unavailable";
   !"session_list_failed"; !"terminal_ended"; !"terminal_unavailable"; !"tunnel_unavailable";
   !"unexpected_exit"; !"upgrade_failed"].

(** All sizes are [uint16]. *)
Record ViewerGeometryDiagnostic := {
  CapturedColumns : Z; CapturedRows : Z; ClientColumns : Z; ClientRows : Z;
  WindowColumns : Z; WindowRows : Z; StatusRows : Z; Corrected : bool
}.

Record DiagnosticRecord := {
  Level : bytes; Component : bytes; DEvent : bytes; DCode : bytes; DPath : bytes;
  DGeometry : option ViewerGeometryDiagnostic
}.

(** ** Writing a record as a line *)

(** [strings.ToValidUTF8(value, "")]: invalid bytes are dropped. *)
Fixpoint drop_invalid (s : bytes) (rs : list (Z * nat)) : bytes :=
  match rs with
  | [] => []
  | (r, w) :: rs' =>
      (if (r =? rune_error) && (w =? 1)%nat then [] else take w s) ++ drop_invalid (drop w s) rs'
  end.
Definition to_valid_utf8 (s : bytes) : bytes := drop_invalid s (runes s).

(** The loop drops bytes at the end until the rest is valid. *)
Fixpoint trim_to_valid (fuel : nat) (value : bytes) : bytes :=
  match fuel with
  | O => value
  | S fuel' => if valid_utf8 value then value else trim_to_valid fuel' (removelast value)
  end.

Definition sanitizeDiagnosticPath (value : bytes) : bytes :=
  let value := match index_any !"?#" value with Some cutoff => take cutoff value | None => value end in
  let value := to_valid_utf8 value in
  if len value <=? maxDiagnosticPathSize then value
  else let value := take (Z.to_nat maxDiagnosticPathSize) value in
       trim_to_valid (length value) value.

Definition geometry_json (g : ViewerGeometryDiagnostic) : bytes :=
  let field name n := json_field name (format_uint n) in
  json_object
    [field !"captured_columns" (CapturedColumns g); field !"captured_rows" (CapturedRows g);
     field !"client_columns" (ClientColumns g); field !"client_rows" (ClientRows g);
     field !"window_columns" (WindowColumns g); field !"window_rows" (WindowRows g);
     field !"status_rows" (StatusRows g); json_field !"corrected" (json_bool (Corrected g))].

(** [json.Marshal] of a [diagnosticLine], which cannot fail. *)
Definition diagnosticLine (timestamp : bytes) (r : DiagnosticRecord) : bytes :=
  json_object
    [json_field !"timestamp" (json_string timestamp); json_field !"level" (json_string (Level r));
     json_field !"component" (json_string (Component r)); json_field !"event" (json_string (DEvent r));
     omit_empty !"code" (DCode r); omit_empty !"path" (sanitizeDiagnosticPath (DPath r));
     match DGeometry r with
     | None => None
     | Some g => json_field !"viewer_geometry" (geometry_json g)
     end].

(** [timestamp] is the formatted time.  The code visits component and event in
    the order of a map, so with two bad tokens either may be named. *)
Definition sink_marshal (timestamp : bytes) (r : DiagnosticRecord) : result bytes :=
  fail_if negb (Level r ∈b [!"info"; !"warn"; !"error"])
    with EText !"invalid mirror diagnostic level";;
  fail_if negb (diagnosticTokenPattern (Component r))
    with EText !"invalid mirror diagnostic component";;
  fail_if negb (diagnosticTokenPattern (DEvent r))
    with EText !"invalid mirror diagnostic event";;
  fail_if negb (Component r ∈b diagnosticComponents)
    with EText !"unsupported mirror diagnostic component";;
  fail_if negb (DEvent r ∈b diagnosticEvents) with EText !"unsupported mirror diagnostic event";;
  fail_if negb (DCode r ==b []) && negb (DCode r ∈b diagnosticCodes)
    with EText !"invalid mirror diagnostic code";;
  let encoded := diagnosticLine timestamp r ++ [x0a] in
  fail_if maxDiagnosticEventSize <? len encoded
    with EText !"mirror diagnostic event exceeds size limit";;
  Ok encoded.

(** ** Writing a line to the log *)

Section Log.
Variable o : oracle.

Definition not_regular_log : error := EText !"mirror diagnostic log is not a regular file".

(** [unix.Open] gives a bare error number.  The file is opened for appending
    and a link at the path is refused. *)
Definition bare_errno (e : error) : error := match e with ESys _ _ n => EErrno n | _ => e end.
Definition openDiagnosticLog (path : bytes) : os file :=
  let* r := os_try (OpenFile o path true true 0x180 (* 0o600 *)) in
  match r with
  | Err err => os_fail (bare_errno err)
  | Ok file =>
      let* r := os_try (FStat o file) in
      match r with
      | Err err => ignore FClose o file;* os_fail err
      | Ok info =>
          if negb (is_regular info) then ignore FClose o file;* os_fail not_regular_log
          else os_ret file
      end
  end.

Definition secureDiagnosticLog (path : bytes) : os () :=
  let* file := openDiagnosticLog path in
  let* r := os_try (FChmod o file 0x180) in
  match r with
  | Err err => ignore FClose o file;* os_fail err
  | Ok _ => FClose o file
  end.

(** An old backup makes way. *)
Definition remove_backup (backup : bytes) : os () :=
  let* r := os_try (Lstat o backup) in
  match r with
  | Ok backupInfo =>
      if negb (is_regular backupInfo)
      then os_fail (EText !"mirror diagnostic backup is not a regular file")
      else os_wrap !"replace mirror diagnostic backup: " (Remove o backup)
  | Err backupErr =>
      if is_not_exist backupErr then os_ret ()
      else os_fail (wrapf !"inspect mirror diagnostic backup: " backupErr)
  end.

(** The log becomes the backup. *)
Definition rotate_log (path : bytes) : os () :=
  let backup := path ++ !".1" in
  remove_backup backup;*
  os_wrap !"rotate mirror diagnostic log: " (Rename o path backup);*
  let* r := os_try (secureDiagnosticLog backup) in
  match r with
  | Ok _ => os_ret ()
  | Err err =>
      let* r := os_try (Remove o backup) in
      os_fail (match errors_join [Some (wrapf !"secure mirror diagnostic backup: " err); err_of r] with
               | Some e => e
               | None => err
               end)
  end.

(** A log that is there is rotated when the line does not fit. *)
Definition make_room (path line : bytes) : os () :=
  let* r := os_try (Lstat o path) in
  match r with
  | Err err => if negb (is_not_exist err)
               then os_fail (wrapf !"inspect mirror diagnostic log: " err) else os_ret ()
  | Ok info =>
      if negb (is_regular info) then os_fail not_regular_log
      else if maxDiagnosticLogSize <? i_size info + len line then rotate_log path
      else os_ret ()
  end.

Definition append_line (path line : bytes) : os () :=
  let* file := os_wrap !"open mirror diagnostic log: " (openDiagnosticLog path) in
  let* r := os_try (FChmod o file 0x180) in
  match r with
  | Err err => ignore FClose o file;* os_fail (wrapf !"secure mirror diagnostic log: " err)
  | Ok _ =>
      let* r := os_try (FWrite o file line) in
      match r with
      | Err err => ignore FClose o file;* os_fail (wrapf !"write mirror diagnostic log: " err)
      | Ok _ => os_wrap !"close mirror diagnostic log: " (FClose o file)
      end
  end.

(** [jsonlDiagnosticSink.Write]. *)
Definition sink_Write (path timestamp : bytes) (record : DiagnosticRecord) : os () :=
  match sink_marshal timestamp record with
  | Err err => os_fail err
  | Ok line =>
      if path ==b [] then os_fail (EText !"mirror diagnostic path is empty") else
      os_wrap !"create mirror diagnostic directory: " (MkdirAll o (path_dir path) 0x1C0 (* 0o700 *));*
      make_room path line;*
      append_line path line
  end.

(** A sequence of events; the caller goes on after an error. *)
Fixpoint write_events (path : bytes) (events : list (bytes * DiagnosticRecord)) : os () :=
  match events with
  | [] => os_ret ()
  | (timestamp, record) :: events' =>
      ignore sink_Write path timestamp record;* write_events path events'
  end.
End Log.
