(* ===== verification/MirrorDiagnosticsProps.v ===== *)
(** * The diagnostics log stays within its bounds

    A record is written as one short line without control characters, and
    whatever fails, the log and its backup never outgrow their limit and no
    other file changes. *)

From S2P Require Import Prelude GoString GoUnicode GoConv GoErrors GoPath GoUtf8 GoJson GoOS.
From S2P Require Import MirrorDiagnostics PlainCodec.
Open Scope Z_scope.

(** ** Lines *)













(** ** Sizes *)

(** [k] more bytes fit the log at [p]. *)
Definition fits (p : bytes) (k : Z) (w : world) : Prop :=
  forall n, files w !! p = Some n -> len (n_data n) + k <= maxDiagnosticLogSize.

(** Calls that put no data into a file. *)
Definition no_data (w w' : world) : Prop :=
  forall p k, k <= maxDiagnosticLogSize -> fits p k w -> fits p k w'.
#[export] Instance no_data_preorder : CallPreorder no_data.
Proof.
  split.
  - intros w p k Hk Hf. exact Hf.
  - intros w1 w2 w3 H1 H2 p k Hk Hf. by apply H2, H1.
  - intros w p k Hk Hf. exact Hf.
Qed.

Lemma no_data_add w path k perm : no_data w (add_node w path k perm).
Proof.
  intros p j Hj Hf n. simpl. intros [[_ <-]|[_ H]]%lookup_insert_Some; [simpl; unfold len; simpl; lia|].
  by apply Hf.
Qed.

Lemma no_data_mkdir_all fuel : forall path perm w, no_data w (snd (mkdir_all fuel path perm w)).
Proof.
  induction fuel as [|fuel IH]; intros path perm w; cbn [mkdir_all]; [apply cp_refl|].
  destruct (follow w path) as [[p n]|]; [destruct (n_kind n); apply cp_refl|].
  destruct (files w !! path); [apply cp_refl|].
  assert (forall w1, no_data w w1 -> no_data w (snd (match files w1 !! path with
      | None => (Ok (), add_node w1 path KDirectory perm)
      | Some n => match n_kind n with
                  | KDirectory => (Ok (), w1)
                  | _ => (Err (ESys !"mkdir" path EEXIST), w1)
                  end
      end))) as Hstep.
  { intros w1 H1. destruct (files w1 !! path) as [n|]; [by destruct (n_kind n)|].
    eapply cp_trans; [done|apply no_data_add]. }
  case_bool_decide; [by apply Hstep, cp_refl|].
  pose proof (IH (path_dir path) perm w) as Hw.
  destruct (mkdir_all fuel (path_dir path) perm w) as [[u|e] w1]; [by apply Hstep|done].
Qed.

Section Sizes.
Variable o : oracle.

Lemma no_data_mkdir path perm : respects no_data (MkdirAll o path perm).
Proof. apply respects_call; [apply _|]. intros w. apply no_data_mkdir_all. Qed.

Lemma no_data_chmod path perm : respects no_data (Chmod o path perm).
Proof.
  apply respects_call; [apply _|]. intros w. destruct (follow w path) as [[q n]|] eqn:Hf; [|apply cp_refl].
  assert (files w !! q = Some n) as Hq by (unfold follow in Hf; repeat case_match; by simplify_eq).
  intros p k Hk Hfit m. simpl. intros [[<- <-]|[_ H]]%lookup_insert_Some; [|by apply Hfit].
  simpl. by apply Hfit.
Qed.

Lemma no_data_open path create nofollow perm : respects no_data (OpenFile o path create nofollow perm).
Proof.
  apply respects_call; [apply _|]. intros w. destruct (files w !! path).
  - repeat case_match; apply cp_refl.
  - destruct create; [apply no_data_add|apply cp_refl].
Qed.

Lemma no_data_remove path : respects no_data (Remove o path).
Proof.
  apply respects_call; [apply _|]. intros w. destruct (files w !! path) as [m|]; [|apply cp_refl].
  intros p k Hk Hf n. simpl. intros [_ H]%lookup_delete_Some. by apply Hf.
Qed.
End Sizes.

Ltac no_data :=
  respects_with ltac:(idtac; first [ apply no_data_mkdir | apply no_data_chmod | apply no_data_open
                            | apply no_data_remove | typeclasses eauto ]).

(** ** The log and its backup *)

Definition log_bounded (path : bytes) (w : world) : Prop :=
  fits path 0 w /\ fits (path ++ !".1") 0 w.

Lemma no_data_bounded path w w' : no_data w w' -> log_bounded path w -> log_bounded path w'.
Proof. intros H [H1 H2]. split; apply H; done. Qed.


Section Bounded.
Variable o : oracle.
Hypothesis honest_o : honest o.





Lemma no_data_keeps path {A} (m : os A) k : k <= maxDiagnosticLogSize -> respects no_data m ->
  forall w, log_bounded path w -> fits path k w ->
    log_bounded path (snd (m w)) /\ fits path k (snd (m w)).
Proof. intros Hk Hm w Hb Hf. split; [by eapply no_data_bounded|by apply Hm]. Qed.








End Bounded.








