(* ===== verification/MirrorManager.v ===== *)
(** * The mirror manager (internal/mirror/manager.go)

    The manager owns the local server, the tunnel and the viewers of the
    connected clients.  Its methods run concurrently: every section under the
    lock [mu] is one step, and so is every call of a server, a tunnel or a
    viewer; between the steps the other methods run.  A running method is a
    list of instructions; [exec] runs the first one, given what the outside
    world answers.  One method at a time holds [opMu].

    Servers, tunnels, contexts, prepared viewers and viewers are numbers; so
    are the [openingViewer] objects, which live in a heap because both the
    manager's map and the method that opens a viewer point to them. *)

From S2P Require Import Prelude GoString GoConv GoErrors TmuxQuote MirrorProtocol MirrorPairing MirrorDiagnostics.
Open Scope Z_scope.

Inductive State := StateStopped | StateStarting | StateReady | StateFailed.
#[export] Instance state_eq_dec : EqDecision State.
Proof. solve_decision. Defined.

Record HostSession := { HsID : bytes; HsWindowID : bytes; HsGeneration : bytes; HsName : bytes; HsKind : bytes }.

Record Snapshot := {
  SnState : State; SnPublicURL : bytes; SnPairingURL : bytes; SnQR : bytes; SnErr : bytes;
  SnDiagnosticsWarning : bytes; SnCleanupWarning : bytes
}.

(** viewer.go *)
Record Identity := { IdID : bytes; IdWindowID : bytes; IdGeneration : bytes }.
#[export] Instance identity_eq_dec : EqDecision Identity.
Proof. solve_decision. Defined.

Record activeViewer := { av_identity : Identity; av_viewer : nat; av_opening : nat }.
Record openingViewer := { ov_identity : Identity; ov_viewer : option nat }.
Record managerStartup := { su_cancel : nat; su_canceled : bool }.

(** What changes in a [Manager]; its target and its options are arguments. *)
Record Manager := {
  m_state : State; publicURL : bytes; pairingURL : bytes; m_qr : bytes; errText : bytes;
  m_secret : option bytes;              (* [None]: the zero secret *)
  m_server : option nat; m_tunnel : option nat; runtimeCancel : option nat;
  startup : option managerStartup;
  clients : gset nat; active : gmap nat activeViewer; opening : gmap nat nat;
  shutdown : bool; shutdownAsked : bool;
  diagnosticsFailed : bool; diagnosticsWarning : bytes; cleanupWarning : bytes;
  events : list Snapshot
}.
#[export] Instance eta_manager : Eta Manager := fun m =>
  {| m_state := m_state m; publicURL := publicURL m; pairingURL := pairingURL m; m_qr := m_qr m;
     errText := errText m; m_secret := m_secret m; m_server := m_server m; m_tunnel := m_tunnel m;
     runtimeCancel := runtimeCancel m; startup := startup m; clients := clients m; active := active m;
     opening := opening m; shutdown := shutdown m; shutdownAsked := shutdownAsked m;
     diagnosticsFailed := diagnosticsFailed m; diagnosticsWarning := diagnosticsWarning m;
     cleanupWarning := cleanupWarning m; events := events m |}.

Definition new_manager : Manager :=
  {| m_state := StateStopped; publicURL := []; pairingURL := []; m_qr := []; errText := [];
     m_secret := None; m_server := None; m_tunnel := None; runtimeCancel := None; startup := None;
     clients := ∅; active := ∅; opening := ∅; shutdown := false; shutdownAsked := false;
     diagnosticsFailed := false; diagnosticsWarning := []; cleanupWarning := []; events := [] |}.

Definition NewManager (workspace : bytes) (target : option HostSession) : result (HostSession * Manager) :=
  fail_if workspace ==b [] with EText !"mirror workspace is required";;
  match target with
  | None => Err (EText !"mirror target is required")
  | Some target =>
      match validateIdentity (HsID target) (HsGeneration target) with
      | Some err => Err err
      | None => Ok (target, new_manager)
      end
  end.

(** ** Sections under [mu] *)

Definition snapshotLocked (m : Manager) : Snapshot :=
  {| SnState := m_state m; SnPublicURL := publicURL m; SnPairingURL := pairingURL m; SnQR := m_qr m;
     SnErr := errText m; SnDiagnosticsWarning := diagnosticsWarning m;
     SnCleanupWarning := cleanupWarning m |}.

Definition ClientCount (m : Manager) : Z := Z.of_nat (size (clients m)).
Definition clientsLocked (m : Manager) : list nat := elements (clients m).

(** The channel holds 64 events; when it is full everything in it is dropped. *)
Definition maxEvents : nat := 64.
Definition publishSnapshot (s : Snapshot) (m : Manager) : Manager :=
  m <| events := if (length (events m) <? maxEvents)%nat then events m ++ [s] else [s] |>.

(** The viewers of the openings [m] points to. *)
Definition opening_viewers (heap : gmap nat openingViewer) (o : gmap nat nat) : list nat :=
  omap (fun '(_, p) => heap !! p ≫= ov_viewer) (map_to_list o).

(** The viewers to close and the clients whose viewer is marked closed.  Go
    visits a map in any order; here it is the order of the keys' encoding. *)
Definition detachClientsLocked (heap : gmap nat openingViewer) (m : Manager) : list nat * list nat * Manager :=
  (map (fun '(_, a) => av_viewer a) (map_to_list (active m)) ++ opening_viewers heap (opening m),
   map fst (map_to_list (opening m)),
   m <| active := ∅ |> <| opening := ∅ |> <| clients := ∅ |>).

Record managerCleanup := {
  cl_server : option nat; cl_tunnel : option nat; cl_cancel : option nat;
  cl_clients : list nat; cl_viewers : list nat
}.

Definition clearLocked (heap : gmap nat openingViewer) (st : State) (text : bytes) (m : Manager)
    : managerCleanup * list nat * Manager :=
  let cs := clientsLocked m in
  let '(viewers, marked, m') := detachClientsLocked heap m in
  ({| cl_server := m_server m; cl_tunnel := m_tunnel m; cl_cancel := runtimeCancel m;
      cl_clients := cs; cl_viewers := viewers |}, marked,
   m' <| m_server := None |> <| m_tunnel := None |> <| runtimeCancel := None |> <| m_secret := None |>
      <| publicURL := [] |> <| pairingURL := [] |> <| m_qr := [] |> <| cleanupWarning := [] |>
      <| clients := ∅ |> <| m_state := st |> <| errText := text |>).

(** ** Instructions *)

(** What becomes of the error of a viewer's [Close]. *)
Inductive close_mode :=
| CloseIgnored                   (* [_ = viewer.Close()] *)
| CloseJoined                    (* collected for [errors.Join] *)
| CloseActive                    (* [Close]: the client's viewer *)
| CloseOpening                   (* [Close]: an opening *)
| GoneActive | GoneOpening.      (* [Disconnected] *)

(** A method that must hold [opMu]. *)
Inductive locked_method :=
| CStart | CRotate | CShutdown | CTunnelExit (tunnel : nat) (err : option error).

Inductive instr :=
| INeedOp (c : locked_method)
| IReturn (err : option error)
| IReturnJoined                                   (* the errors collected so far *)
(* shared *)
| IPublish (s : Snapshot)
| IDiag (r : DiagnosticRecord) | IDiagFailed
| ICleanupFailed                                  (* recordViewerCleanupFailure *)
| ICloseViewer (v : nat) (mode : close_mode)
| IClosePrepared (p : nat)
| ICleanupFactory
| ICloseClient (c : nat) (s : Shutdown)
| ICloseTunnel (t : nat) (joined : bool)
| ICloseServer (s : nat) (joined : bool)          (* joined before the tunnel's error *)
| ICancel (ctx : nat)
(* start *)
| IStart
| INewSecret (rt : nat)
| IStartServer (rt : nat) (secret : bytes)
| IStartTunnel (rt : nat) (secret : bytes) (server : nat)
| IPair (rt : nat) (secret : bytes) (server tunnel : nat) (url : bytes)
| ICommit (rt : nat) (secret : bytes) (server tunnel : nat) (url pairing qr : bytes) (canceled : bool)
| IFailStart (rt : nat) (err : error)
| IEndStart (rt : nat)
(* Rotate, Shutdown *)
| IRotate (url : bytes)
| IRotateCommit (secret pairing qr : bytes)
| IRotateEnd
| IAskShutdown
(* a client *)
| IConnected (c : nat)
| IClaim (c : nat)
| IPrepare (c : nat)
| IReserve (c p : nat) (opened : Ready)
| IStartViewer (c p o : nat)
| IHandOver (c v o : nat)
| IActivate (c v o : nat)
| IRemoveOpening (c o : nat)
| IUnclaim (c : nat)                              (* viewerOpen.Store(false) *)
| IClose (c : nat)
| IDisconnected (c : nat)
| IInput (c : nat) (data : bytes)
| IWrite (v : nat) (data : bytes)
| IOutput (c o : nat) (data : bytes)              (* a viewer's output callback *)
(* goroutines *)
| IGoWatchTunnel (t : nat)
| IGoWatchViewer (c : nat) (identity : Identity) (v : nat)
| IWatchTunnel (t : nat)
| IWatchViewer (c : nat) (identity : Identity) (v : nat)
| ISendError (c : nat) (e : ProtocolError).

(** A running method: its instructions and the errors it has collected. *)
Record thread := { code : list instr; errs : list (option error) }.

(** What the outside world answers to an instruction. *)
Record answer := {
  an_err : option error;           (* the error of the call *)
  an_random : result bytes;        (* 32 random bytes *)
  an_url : bytes;                  (* the tunnel's URL *)
  an_columns : Z; an_rows : Z;     (* the prepared viewer's geometry *)
  an_closed : bool                 (* the channel was closed without a value *)
}.

(** What the program did to the outside world. *)
Inductive effect :=
| EPublicHost (server : nat) (host : bytes)
| ESetSecret (server : nat) (secret : bytes)
| ESent (c : nat) (tag : Z) (v : value)
| EClosedClient (c : nat) (s : Shutdown)
| EOutput (c o : nat) (data : bytes)
| EWritten (v : nat) (data : bytes)
| EDiagnostic (r : DiagnosticRecord)
| EReturn (err : option error).

Record shared := {
  mgr : Manager;
  heap : gmap nat openingViewer;
  viewerOpen : gset nat;           (* the clients whose [viewerOpen] is set *)
  afterFunc : option (nat * bool); (* the start's hook on its context, and whether it ran *)
  fresh : nat;                     (* numbers not used yet start here *)
  opened : gset nat;               (* resources made: servers, tunnels, contexts, viewers *)
  released : gset nat;             (* those closed, cancelled, ended, or turned into a viewer *)
  log : list effect
}.
#[export] Instance eta_shared : Eta shared := fun s =>
  {| mgr := mgr s; heap := heap s; viewerOpen := viewerOpen s; afterFunc := afterFunc s;
     fresh := fresh s; opened := opened s; released := released s; log := log s |}.

Definition emit (e : effect) (s : shared) : shared := s <| log := log s ++ [e] |>.
Definition release (x : nat) (s : shared) : shared := s <| released := {[ x ]} ∪ released s |>.
(** A new resource. *)
Definition make (s : shared) : nat * shared :=
  (fresh s, s <| fresh := S (fresh s) |> <| opened := {[ fresh s ]} ∪ opened s |>).

(** ** Running an instruction *)

Record outcome := {
  o_code : list instr;              (* runs next *)
  o_errs : list (option error);     (* the method's collected errors *)
  o_spawn : list (list instr);      (* new goroutines *)
  o_sh : shared
}.

Definition info (component event : bytes) : instr :=
  IDiag {| Level := !"info"; Component := component; DEvent := event; DCode := []; DPath := []; DGeometry := None |}.
Definition diag (level component event code : bytes) : instr :=
  IDiag {| Level := level; Component := component; DEvent := event; DCode := code; DPath := []; DGeometry := None |}.
Definition open_failed : instr := diag !"warn" !"viewer" !"open_failed" !"terminal_unavailable".
Definition failed (text : bytes) : instr := IReturn (Some (EText text)).

Definition with_mgr (s : shared) (m : Manager) : shared := s <| mgr := m |>.
Definition unclaim (cs : list nat) (s : shared) : shared :=
  s <| viewerOpen := viewerOpen s ∖ list_to_set cs |>.

(** [recordViewerCleanupFailure]. *)
Definition cleanup_failure (err : option error) : list instr :=
  match err with None => [] | Some _ => [ICleanupFailed] end.

Definition closeViewers (viewers : list nat) : list instr := map (fun v => ICloseViewer v CloseJoined) viewers.
Definition closeClients (clients : list nat) (s : Shutdown) : list instr := map (fun c => ICloseClient c s) clients.

(** [managerCleanup.close]. *)
Definition cleanup_code (cl : managerCleanup) (s : Shutdown) : list instr :=
  closeViewers (cl_viewers cl) ++ [ICleanupFactory] ++ closeClients (cl_clients cl) s ++
  match cl_tunnel cl with Some t => [ICloseTunnel t true] | None => [] end ++
  match cl_server cl with Some x => [ICloseServer x true] | None => [] end ++
  match cl_cancel cl with Some c => [ICancel c] | None => [] end.

(** The state a failed start leaves: a cancelled one is no failure. *)
Definition failStart (err : error) (m : Manager) : Manager :=
  if errors_is ContextCanceled err then m <| m_state := StateStopped |> <| errText := [] |>
  else m <| m_state := StateFailed |> <| errText := error_text err |>.

Definition diagnostics_lost (m : Manager) : Manager :=
  m <| diagnosticsFailed := true |> <| diagnosticsWarning := !"diagnostics unavailable" |>.

Definition join_before_last (err : option error) (es : list (option error)) : list (option error) :=
  match last es with Some e => removelast es ++ [err; e] | None => [err] end.

(** The start fails after the server and the tunnel have been made. *)
Definition undo_start (rt server tunnel : nat) (err : error) : list instr :=
  [ICloseTunnel tunnel false; ICloseServer server false; IFailStart rt err].

Section Manager.
Variables (url_parse : bytes -> result URL) (url_string : URL -> bytes) (hostname : URL -> bytes)
  (parse_ip : bytes -> bool) (qr_encode : bytes -> result bytes).
Variables (target : HostSession) (has_sink : bool).

#[local] Abbreviation pairing_url := (PairingURL url_parse url_string hostname parse_ip).
#[local] Abbreviation terminal_qr := (TerminalQR qr_encode).

(** [start]: the first section, with [opMu] held. *)
Definition start_locked (es : list (option error)) (s : shared) : outcome :=
  let m := mgr s in
  let run code s := {| o_code := code; o_errs := es; o_spawn := []; o_sh := s |} in
    if shutdown m || shutdownAsked m then run [failed !"mirror manager is shut down"] s
    else if m_state m ==b StateReady then run [IPublish (snapshotLocked m); IReturn None] s
    else
      let '(rt, s) := make s in
      let m := m <| m_state := StateStarting |> <| errText := [] |>
                 <| startup := Some {| su_cancel := rt; su_canceled := false |} |> in
      run [IPublish (snapshotLocked m); INewSecret rt]
          ((with_mgr s m) <| afterFunc := Some (rt, false) |>).

(** [Rotate]: the first section. *)
Definition rotate_locked (es : list (option error)) (s : shared) : outcome :=
  let m := mgr s in
  let run code s := {| o_code := code; o_errs := es; o_spawn := []; o_sh := s |} in
    if negb (m_state m ==b StateReady) || (m_server m ==b None) || (m_tunnel m ==b None)
    then run [failed !"mirror is not ready"] s
    else run [IRotate (publicURL m)] s.

(** [Shutdown], with [opMu] held. *)
Definition shutdown_locked (es : list (option error)) (s : shared) : outcome :=
  let m := mgr s in
  let run code s := {| o_code := code; o_errs := es; o_spawn := []; o_sh := s |} in
    if shutdown m then run [IReturn None] s else
    let '(cl, marked, m) := clearLocked (heap s) StateStopped [] (m <| shutdown := true |>) in
    run (cleanup_code cl {| Reason := !"wrap mirror stopped"; ShRetry := false |} ++
         [IPublish (snapshotLocked m); IReturnJoined])
        (unclaim marked (with_mgr s m)).

(** [watchTunnel], after the tunnel has ended. *)
Definition tunnel_exit_locked (t : nat) (err : option error) (es : list (option error)) (s : shared) : outcome :=
  let m := mgr s in
  let run code s := {| o_code := code; o_errs := es; o_spawn := []; o_sh := s |} in
    if negb (m_tunnel m ==b Some t) || shutdown m then run [] s else
    let text := !"Quick Tunnel exited: " ++
      match err with Some e => error_text e | None => !"<nil>" end in
    let '(cl, marked, m) := clearLocked (heap s) StateFailed text m in
    run (diag !"error" !"tunnel" !"exit" !"unexpected_exit" ::
         cleanup_code cl {| Reason := !"Quick Tunnel exited"; ShRetry := false |} ++
         [IPublish (snapshotLocked m)])
        (unclaim marked (with_mgr s m)).

(** The first section of a method that holds [opMu]. *)
Definition lock_section (c : locked_method) (es : list (option error)) (s : shared) : outcome :=
  match c with
  | CStart => start_locked es s
  | CRotate => rotate_locked es s
  | CShutdown => shutdown_locked es s
  | CTunnelExit t err => tunnel_exit_locked t err es s
  end.

(** The sections and calls of [Rotate] after the first, and of [Shutdown]
    before it waits for [opMu]. *)
Definition exec_rotate (i : instr) (a : answer) (s : shared) : list instr * shared :=
  let m := mgr s in
  match i with
  | IRotate url =>
      match NewSecret (Some (an_random a)) with
      | Err err => ([IReturn (Some err)], s)
      | Ok secret =>
      match pairing_url url secret with
      | Err err => ([IReturn (Some err)], s)
      | Ok pairing =>
      match terminal_qr pairing with
      | Err err => ([IReturn (Some err)], s)
      | Ok qr => ([IRotateCommit secret pairing qr], s)
      end end end
  | IRotateCommit secret pairing qr =>
      match m_server m with
      | Some server =>
          if negb (m_state m ==b StateReady)
          then ([failed !"mirror stopped during pairing rotation"], s) else
          let m := m <| m_secret := Some secret |> <| pairingURL := pairing |> <| m_qr := qr |> in
          let '(viewers, marked, m) := detachClientsLocked (heap s) m in
          ([IPublish (snapshotLocked m); info !"credential" !"rotated"] ++
           closeViewers viewers ++ [ICleanupFactory; IRotateEnd],
           unclaim marked (with_mgr (emit (ESetSecret server secret) s) m))
      | None => ([failed !"mirror stopped during pairing rotation"], s)
      end
  | IAskShutdown =>
      let m' := m <| shutdownAsked := true |>
                  <| startup := match startup m with
                                | Some su => Some {| su_cancel := su_cancel su; su_canceled := true |}
                                | None => None
                                end |> in
      (match startup m with Some su => [ICancel (su_cancel su)] | None => [] end ++ [INeedOp CShutdown],
       with_mgr s m')
  | _ => ([], s)
  end.

(** The sections and calls of [start]. *)
Definition exec_start (i : instr) (a : answer) (s : shared) : list instr * shared :=
  let m := mgr s in
  match i with
  | IStart =>
      match validateIdentity (HsID target) (HsGeneration target) with
      | Some err => ([IReturn (Some err)], s)
      | None => ([INeedOp CStart], s)
      end
  | INewSecret rt =>
      match NewSecret (Some (an_random a)) with
      | Err err => ([IFailStart rt err], s)
      | Ok secret => ([info !"server" !"starting"; IStartServer rt secret], s)
      end
  | IStartServer rt secret =>
      match an_err a with
      | Some err => ([diag !"error" !"server" !"start_failed" !"server_unavailable"; IFailStart rt err], s)
      | None => let '(server, s) := make s in
                ([info !"tunnel" !"starting"; IStartTunnel rt secret server], s)
      end
  | IStartTunnel rt secret server =>
      match an_err a with
      | Some err => ([diag !"error" !"tunnel" !"start_failed" !"tunnel_unavailable";
                      ICloseServer server false; IFailStart rt err], s)
      | None => let '(tunnel, s) := make s in ([IPair rt secret server tunnel (an_url a)], s)
      end
  | IPair rt secret server tunnel url =>
      match pairing_url url secret with
      | Err err => (undo_start rt server tunnel err, s)
      | Ok pairing =>
      match terminal_qr pairing with
      | Err err => (undo_start rt server tunnel err, s)
      | Ok qr =>
      match url_parse url with
      | Err err => (undo_start rt server tunnel err, s)
      | Ok parsed =>
          let operationCanceled := match afterFunc s with Some (_, ran) => ran | None => false end in
          ([ICommit rt secret server tunnel url pairing qr operationCanceled],
           (emit (EPublicHost server (Host parsed)) s) <| afterFunc := None |>)
      end end end
  | ICommit rt secret server tunnel url pairing qr operationCanceled =>
      if match startup m with Some su => su_canceled su | None => false end || shutdownAsked m ||
         operationCanceled || negb (an_err a ==b None) || (rt ∈b released s)
      then (undo_start rt server tunnel (default (ESentinel ContextCanceled) (an_err a)),
            with_mgr s (m <| startup := None |>))
      else
        let m := m <| m_secret := Some secret |> <| m_server := Some server |> <| m_tunnel := Some tunnel |>
                   <| runtimeCancel := Some rt |> <| startup := None |> <| publicURL := url |>
                   <| pairingURL := pairing |> <| m_qr := qr |> <| m_state := StateReady |> in
        ([IPublish (snapshotLocked m); IGoWatchTunnel tunnel; IReturn None], with_mgr s m)
  | IFailStart rt err =>
      let m := failStart err m in
      ([IPublish (snapshotLocked m); IEndStart rt; IReturn (Some err)], with_mgr s m)
  | IEndStart rt =>
      let m := match startup m with
               | Some su => if (su_cancel su =? rt)%nat then m <| startup := None |> else m
               | None => m
               end in
      ([ICancel rt], (with_mgr s m) <| afterFunc := None |>)
  | _ => exec_rotate i a s
  end.

(** The client's viewer once it is there: [Close], [Disconnected], [Input], the
    output callback and [removeOpening]. *)
Definition exec_viewer (i : instr) (a : answer) (s : shared) : list instr * shared :=
  let m := mgr s in
  match i with
  | IRemoveOpening c o =>
      ([], if opening m !! c ==b Some o then with_mgr s (m <| opening := delete c (opening m) |>) else s)
  | IUnclaim c => ([], unclaim [c] s)
  | IClose c =>
      let s' := with_mgr s (m <| active := delete c (active m) |> <| opening := delete c (opening m) |>) in
      match active m !! c with
      | Some av => ([ICloseViewer (av_viewer av) CloseActive], s')
      | None =>
          match opening m !! c ≫= fun o => heap s !! o ≫= ov_viewer with
          | Some v => ([ICloseViewer v CloseOpening], s')
          | None => ([IReturn None], s')
          end
      end
  | IDisconnected c =>
      (match active m !! c with Some av => [ICloseViewer (av_viewer av) GoneActive] | None => [] end ++
       match opening m !! c ≫= fun o => heap s !! o ≫= ov_viewer with
       | Some v => [ICloseViewer v GoneOpening]
       | None => []
       end,
       with_mgr s (m <| clients := clients m ∖ {[ c ]} |> <| active := delete c (active m) |>
                     <| opening := delete c (opening m) |>))
  | IInput c data =>
      match active m !! c with
      | Some av => ([IWrite (av_viewer av) data], s)
      | None => ([failed !"no terminal is open"], s)
      end
  | IWrite v data => ([IReturn (an_err a)], emit (EWritten v data) s)
  | IOutput c o data =>
      if negb (opening m !! c ==b Some o) &&
         negb (match active m !! c with Some av => (av_opening av =? o)%nat | None => false end)
      then ([IReturn None], s)
      else ([IReturn (an_err a)], emit (EOutput c o data) s)
  | _ => ([], s)
  end.

(** [Connected] and [open]. *)
Definition exec_client (i : instr) (a : answer) (s : shared) : list instr * shared :=
  let m := mgr s in
  let identity := {| IdID := HsID target; IdWindowID := []; IdGeneration := HsGeneration target |} in
  match i with
  | IConnected c =>
      if negb (m_state m ==b StateReady) || shutdown m
      then ([failed !"mirror target is unavailable"], s)
      else ([IClaim c], with_mgr s (m <| clients := {[ c ]} ∪ clients m |>))
  | IClaim c =>
      if c ∈b viewerOpen s then ([failed !"a terminal is already open"], s)
      else ([info !"viewer" !"preparing"; IPrepare c], s <| viewerOpen := {[ c ]} ∪ viewerOpen s |>)
  | IPrepare c =>
      match an_err a with
      | Some err => ([open_failed; IUnclaim c; IReturn (Some err)], s)
      | None =>
          let '(p, s) := make s in
          let opened := {| RdID := IdID identity; RdGeneration := IdGeneration identity;
                           Columns := an_columns a; Rows := an_rows a |} in
          match ValidateServerFrame TagReady (VReady opened) with
          | Some err => ([IClosePrepared p; open_failed; IUnclaim c; IReturn (Some err)], s)
          | None => ([IReserve c p opened], s)
          end
      end
  | IReserve c p opened =>
      let refuse text := ([IClosePrepared p; IUnclaim c; failed text], s) in
      if negb (c ∈b clients m) then refuse !"mirror client disconnected"
      else if negb (opening m !! c ==b None) then refuse !"a terminal is already opening"
      else match active m !! c with
      | Some _ => refuse !"a terminal is already open"
      | None =>
      if negb (m_state m ==b StateReady) || shutdown m then refuse !"mirrored terminal ended"
      else
        let o := fresh s in
        let s := s <| fresh := S o |>
                   <| heap := <[o := {| ov_identity := identity; ov_viewer := None |}]> (heap s) |> in
        match an_err a with     (* [SendControl], still under the lock *)
        | Some err => ([IClosePrepared p; IUnclaim c; IReturn (Some err)], s)
        | None => ([IStartViewer c p o],
                   emit (ESent c TagReady (VReady opened)) (with_mgr s (m <| opening := <[c := o]> (opening m) |>)))
        end
      end
  | IStartViewer c p o =>
      match an_err a with
      | Some err => ([IRemoveOpening c o; IClosePrepared p; open_failed; IUnclaim c; IReturn (Some err)], s)
      | None => let '(v, s) := make s in ([IHandOver c v o], release p s)
      end
  | IHandOver c v o =>
      if negb (opening m !! c ==b Some o)
      then ([ICloseViewer v CloseIgnored; IUnclaim c; failed !"viewer opening was canceled"], s)
      else ([IActivate c v o],
            s <| heap := <[o := {| ov_identity := identity; ov_viewer := Some v |}]> (heap s) |>)
  | IActivate c v o =>
      let reserved := opening m !! c ==b Some o in
      let m := if reserved then m <| opening := delete c (opening m) |> else m in
      let connected := c ∈b clients m in
      let stillMirrored := (m_state m ==b StateReady) && negb (shutdown m) in
      let refuse text := ([ICloseViewer v CloseIgnored; IUnclaim c; failed text], with_mgr s m) in
      if negb connected then refuse !"mirror client disconnected"
      else match active m !! c with
      | Some _ => refuse !"a terminal is already open"
      | None =>
      if negb stillMirrored then refuse !"mirrored terminal ended"
      else if negb reserved then refuse !"viewer opening was canceled"
      else ([info !"viewer" !"opened"; IGoWatchViewer c identity v; IReturn None],
            with_mgr s (m <| active := <[c := {| av_identity := identity; av_viewer := v; av_opening := o |}]> (active m) |>))
      end
  | _ => exec_viewer i a s
  end.

(** Any instruction: the code that runs next, the method's errors, new
    goroutines and the state. *)
Definition exec (i : instr) (a : answer) (es : list (option error)) (s : shared) : outcome :=
  let m := mgr s in
  let run code s := {| o_code := code; o_errs := es; o_spawn := []; o_sh := s |} in
  let join e s := {| o_code := []; o_errs := es ++ [e]; o_spawn := []; o_sh := s |} in
  match i with
  | IReturn err => run [] (emit (EReturn err) s)
  | IReturnJoined => run [] (emit (EReturn (errors_join es)) s)
  | IPublish sn => run [] (with_mgr s (publishSnapshot sn m))
  | IDiag r =>
      if negb has_sink || diagnosticsFailed m then run [] s
      else match an_err a with
           | None => run [] (emit (EDiagnostic r) s)
           | Some _ => run [IDiagFailed] s
           end
  | IDiagFailed =>
      if diagnosticsFailed m then run [] s else
      let m := diagnostics_lost m in
      run [IPublish (snapshotLocked m)] (with_mgr s m)
  | ICleanupFailed =>
      let m := m <| cleanupWarning := !"terminal cleanup was incomplete" |> in
      run [IPublish (snapshotLocked m); diag !"warn" !"viewer" !"closed" !"cleanup_incomplete"] (with_mgr s m)
  | ICloseViewer v mode =>
      let s := release v s in
      let err := an_err a in
      match mode with
      | CloseIgnored => run [] s
      | CloseJoined => join err s
      | CloseActive => run (info !"viewer" !"closed" :: cleanup_failure err ++ [IReturn err]) s
      | CloseOpening => run (cleanup_failure err ++ [IReturn err]) s
      | GoneActive => run (cleanup_failure err ++ [info !"viewer" !"closed"]) s
      | GoneOpening => run (cleanup_failure err) s
      end
  | IClosePrepared p => run [] (release p s)
  | ICleanupFactory => join (an_err a) s
  | ICloseClient c sh => join (an_err a) (emit (EClosedClient c sh) s)
  | ICloseTunnel t joined => if joined then join (an_err a) (release t s) else run [] (release t s)
  | ICloseServer x joined =>
      if joined then {| o_code := []; o_errs := join_before_last (an_err a) es; o_spawn := []; o_sh := release x s |}
      else run [] (release x s)
  | ICancel rt => run [] (release rt s)
  | IRotateEnd =>
      let cleanupErr := errors_join es in
      let m := m <| cleanupWarning := match cleanupErr with
                 | Some _ => !"pairing rotated, but terminal cleanup was incomplete" | None => [] end |> in
      run (IPublish (snapshotLocked m) ::
           match cleanupErr with
           | Some _ => [diag !"warn" !"credential" !"rotated" !"cleanup_incomplete"]
           | None => []
           end ++ [IReturn None]) (with_mgr s m)
  | IGoWatchTunnel t => {| o_code := []; o_errs := es; o_spawn := [[IWatchTunnel t]]; o_sh := s |}
  | IGoWatchViewer c identity v =>
      {| o_code := []; o_errs := es; o_spawn := [[IWatchViewer c identity v]]; o_sh := s |}
  | IWatchTunnel t => if an_closed a then run [] s else run [INeedOp (CTunnelExit t (an_err a))] s
  | IWatchViewer c identity v =>
      let s := release v s in
      match active m !! c with
      | Some av =>
          if (av_identity av ==b identity) && (av_viewer av =? v)%nat
          then run (cleanup_failure (an_err a) ++
                    [diag !"warn" !"viewer" !"ended" !"terminal_ended";
                     ISendError c {| PeCode := !"terminal_ended"; PeMessage := !"The terminal viewer ended.";
                                     PeRetry := true |}])
                   (unclaim [c] (with_mgr s (m <| active := delete c (active m) |>)))
          else run [] s
      | None => run [] s
      end
  | ISendError c e =>
      run [] (match an_err a with None => emit (ESent c TagError (VError e)) s | Some _ => s end)
  | INeedOp _ => run [i] s
  | IStart | INewSecret _ | IStartServer _ _ | IStartTunnel _ _ _ | IPair _ _ _ _ _
  | ICommit _ _ _ _ _ _ _ _ | IFailStart _ _ | IEndStart _ | IRotate _ | IRotateCommit _ _ _
  | IAskShutdown => let '(code, s) := exec_start i a s in run code s
  | _ => let '(code, s) := exec_client i a s in run code s
  end.

(** ** Interleaving *)

Record world := { sh : shared; op : option thread; pool : list thread }.

Definition goroutine (c : list instr) : thread := {| code := c; errs := [] |}.

(** What callers outside the manager run. *)
Definition is_call (i : instr) : bool :=
  match i with
  | IStart | INeedOp CRotate | IAskShutdown | IConnected _ | IClose _ | IDisconnected _
  | IInput _ _ | IOutput _ _ _ => true
  | _ => false
  end.
Definition needs_op (i : instr) : bool := match i with INeedOp _ => true | _ => false end.

(** The thread after its first instruction. *)
Definition continue (r : outcome) (k : list instr) : thread := {| code := o_code r ++ k; errs := o_errs r |}.

Inductive mstep : world -> world -> Prop :=
| st_call w i : is_call i = true ->
    mstep w {| sh := sh w; op := op w; pool := pool w ++ [goroutine [i]] |}
| st_exec w l1 i k es l2 a : needs_op i = false ->
    pool w = l1 ++ {| code := i :: k; errs := es |} :: l2 ->
    mstep w (let r := exec i a es (sh w) in
             {| sh := o_sh r; op := op w;
                pool := l1 ++ continue r k :: l2 ++ map goroutine (o_spawn r) |})
| st_lock w l1 c k es l2 : op w = None ->
    pool w = l1 ++ {| code := INeedOp c :: k; errs := es |} :: l2 ->
    mstep w (let r := lock_section c es (sh w) in
             {| sh := o_sh r; op := Some (continue r k); pool := l1 ++ l2 |})
| st_op w i k es a : needs_op i = false -> op w = Some {| code := i :: k; errs := es |} ->
    mstep w (let r := exec i a es (sh w) in
             {| sh := o_sh r; op := Some (continue r k); pool := pool w ++ map goroutine (o_spawn r) |})
| st_unlock w es : op w = Some {| code := []; errs := es |} ->
    mstep w {| sh := sh w; op := None; pool := pool w |}
| st_cancel w rt : afterFunc (sh w) = Some (rt, false) ->     (* the start's context is cancelled *)
    mstep w {| sh := (release rt (sh w)) <| afterFunc := Some (rt, true) |>; op := op w; pool := pool w |}
| st_event w e rest : events (mgr (sh w)) = e :: rest ->      (* somebody takes an event *)
    mstep w {| sh := with_mgr (sh w) ((mgr (sh w)) <| events := rest |>); op := op w; pool := pool w |}.

Definition start_world (m : Manager) : world :=
  {| sh := {| mgr := m; heap := ∅; viewerOpen := ∅; afterFunc := None; fresh := 0; opened := ∅;
              released := ∅; log := [] |};
     op := None; pool := [] |}.
End Manager.

(** Unfolding a method in a proof. *)
Ltac open_section :=
  cbn [lock_section]; unfold start_locked, rotate_locked, shutdown_locked, tunnel_exit_locked; cbv beta zeta.
Ltac open_method := cbn [exec_start exec_client]; cbn [exec_rotate exec_viewer]; unfold failStart.
