(* ===== verification/MirrorManagerRun.v ===== *)
(** * Concrete runs of the mirror manager

    A schedule says which call is made, which method runs its next instruction
    and what the outside world answers; [run] carries it out.  What it reaches
    is reachable, so examples and witnesses evaluate. *)

From S2P Require Import Prelude GoString GoConv GoErrors TmuxQuote MirrorProtocol MirrorPairing MirrorDiagnostics.
From S2P Require Import MirrorManager.
Open Scope Z_scope.

Inductive turn :=
| Call (i : instr)
| Pool (n : nat) (a : answer)     (* the [n]-th method of the pool *)
| Op (a : answer)                 (* the method that holds [opMu] *)
| CancelStart
| TakeEvent.

Section Run.
Variables (url_parse : bytes -> result URL) (url_string : URL -> bytes) (hostname : URL -> bytes)
  (parse_ip : bytes -> bool) (qr_encode : bytes -> result bytes).
Variables (target : HostSession) (has_sink : bool).
#[local] Abbreviation exec_ := (exec url_parse url_string hostname parse_ip qr_encode target has_sink).
#[local] Abbreviation mstep_ := (mstep url_parse url_string hostname parse_ip qr_encode target has_sink).

(** A turn that cannot be taken changes nothing. *)
Definition take_turn (t : turn) (w : world) : world :=
  match t with
  | Call i => if is_call i then {| sh := sh w; op := op w; pool := pool w ++ [goroutine [i]] |} else w
  | Pool n a =>
      match pool w !! n with
      | Some {| code := i :: k; errs := es |} =>
          if needs_op i then
            match i, op w with
            | INeedOp c, None =>
                let r := lock_section c es (sh w) in
                {| sh := o_sh r; op := Some (continue r k); pool := take n (pool w) ++ drop (S n) (pool w) |}
            | _, _ => w
            end
          else
          let r := exec_ i a es (sh w) in
          {| sh := o_sh r; op := op w;
             pool := take n (pool w) ++ continue r k :: drop (S n) (pool w) ++ map goroutine (o_spawn r) |}
      | _ => w
      end
  | Op a =>
      match op w with
      | Some {| code := []; errs := _ |} => {| sh := sh w; op := None; pool := pool w |}
      | Some {| code := i :: k; errs := es |} =>
          if needs_op i then w else
          let r := exec_ i a es (sh w) in
          {| sh := o_sh r; op := Some (continue r k); pool := pool w ++ map goroutine (o_spawn r) |}
      | None => w
      end
  | CancelStart =>
      match afterFunc (sh w) with
      | Some (rt, false) =>
          {| sh := (release rt (sh w)) <| afterFunc := Some (rt, true) |>; op := op w; pool := pool w |}
      | _ => w
      end
  | TakeEvent =>
      match events (mgr (sh w)) with
      | e :: rest => {| sh := with_mgr (sh w) ((mgr (sh w)) <| events := rest |>); op := op w; pool := pool w |}
      | [] => w
      end
  end.
Definition run_turns (ts : list turn) (w : world) : world := fold_left (fun w t => take_turn t w) ts w.

Lemma take_turn_step t w : take_turn t w = w \/ mstep_ w (take_turn t w).
Proof.
  destruct t as [i|n a|a| |]; cbn [take_turn].
  - destruct (is_call i) eqn:Hi; [right; by apply st_call|by left].
  - destruct (pool w !! n) as [[[|i k] es]|] eqn:Hn; [by left| |by left].
    apply take_drop_middle in Hn. destruct (needs_op i) eqn:Hi.
    + destruct i; try discriminate Hi. destruct (op w) eqn:Ho; [by left|right]. by eapply st_lock.
    + right. by apply st_exec.
  - destruct (op w) as [[[|i k] es]|] eqn:Ho; [right; by eapply st_unlock| |by left].
    destruct (needs_op i) eqn:Hi; [by left|right]. by apply st_op.
  - destruct (afterFunc (sh w)) as [[rt []]|] eqn:Ha; [by left|right; by apply st_cancel|by left].
  - destruct (events (mgr (sh w))) as [|e rest] eqn:He; [by left|right; by eapply st_event].
Qed.

Lemma run_turns_steps ts w : rtc mstep_ w (run_turns ts w).
Proof.
  revert w. induction ts as [|t ts IH]; intros w; [done|].
  change (run_turns (t :: ts) w) with (run_turns ts (take_turn t w)).
  destruct (take_turn_step t w) as [->|Hs]; [apply IH|]. eapply rtc_l; [exact Hs|apply IH].
Qed.
End Run.

(** ** A manager that shares [demo_host] *)

Definition demo_session : HostSession :=
  {| HsID := !"$1"; HsWindowID := !"@1"; HsGeneration := !"g1"; HsName := !"main"; HsKind := !"terminal" |}.
Definition demo_url : bytes := !"https://" ++ demo_host.
Definition demo_qr (text : bytes) : result bytes := Ok (!"qr:" ++ text).

Abbreviation demo_run := (run_turns demo_parse origin Host (fun _ => false) demo_qr demo_session false).
Abbreviation demo_step := (mstep demo_parse origin Host (fun _ => false) demo_qr demo_session false).
Abbreviation demo_reachable := (reachable (fun w => w = start_world new_manager) demo_step).

(** Every call succeeds; a viewer of 80 by 24. *)
Definition fine : answer :=
  {| an_err := None; an_random := Ok (replicate 32 x41); an_url := demo_url; an_columns := 80; an_rows := 24;
     an_closed := false |}.
Definition fails (text : bytes) : answer :=
  {| an_err := Some (EText text); an_random := Err (EText text); an_url := []; an_columns := 0; an_rows := 0;
     an_closed := false |}.

Lemma demo_run_reachable ts : demo_reachable (demo_run ts (start_world new_manager)).
Proof. eapply reachable_rtc; [by apply reachable_init|apply run_turns_steps]. Qed.

(** A start: the call, the lock, and the instructions to the end. *)
Definition start_turns : list turn :=
  Call IStart :: replicate 2 (Pool 0 fine) ++ replicate 14 (Op fine).
(** Client [c] connects, method [n] of the pool. *)
Definition connect_turns (c n : nat) : list turn :=
  Call (IConnected c) :: replicate 12 (Pool n fine).
(** A shutdown, method [n] of the pool. *)
Definition shutdown_turns (n : nat) : list turn :=
  Call IAskShutdown :: replicate 2 (Pool n fine) ++ replicate 12 (Op fine).

Definition ready_world : world := Eval vm_compute in demo_run start_turns (start_world new_manager).
Definition shared_world : world := Eval vm_compute in demo_run (connect_turns 7 1) ready_world.
