(* ===== verification/MirrorManagerProps.v ===== *)
(** * The mirror manager's state is consistent

    An invariant of the step relation [mstep], proved instruction by
    instruction: which of the manager's fields go together, and that a stopped
    manager stays stopped. *)

From S2P Require Import Prelude GoString GoConv GoErrors TmuxQuote MirrorProtocol MirrorPairing MirrorDiagnostics.
From S2P Require Import MirrorManager MirrorManagerRun.
Open Scope Z_scope.

(** ** The code that is running *)

Definition op_code (w : world) : list instr := match op w with Some t => code t | None => [] end.
Definition pool_code (w : world) : list instr := concat (map code (pool w)).

(** Instructions of [start] and of [Rotate] that only run under [opMu]. *)
Definition is_start (i : instr) : bool :=
  match i with
  | INewSecret _ | IStartServer _ _ | IStartTunnel _ _ _ | IPair _ _ _ _ _ | ICommit _ _ _ _ _ _ _ _
  | IFailStart _ _ => true
  | _ => false
  end.
Definition is_rotate (i : instr) : bool :=
  match i with IRotate _ | IRotateCommit _ _ _ => true | _ => false end.
Definition op_only (i : instr) : bool := is_start i || is_rotate i.
Definition plain_code (code : list instr) : Prop := forallb (fun i => negb (op_only i)) code = true.
Definition op_instrs (code : list instr) : list instr := List.filter op_only code.

Lemma plain_code_app a b : plain_code (a ++ b) <-> plain_code a /\ plain_code b.
Proof. unfold plain_code. rewrite forallb_app, andb_true_iff. done. Qed.
Lemma op_instrs_app a b : op_instrs (a ++ b) = op_instrs a ++ op_instrs b.
Proof. apply List.filter_app. Qed.
Lemma plain_op_instrs a : plain_code a -> op_instrs a = [].
Proof.
  unfold plain_code, op_instrs. induction a as [|i a IH]; [done|]. cbn [forallb List.filter].
  intros [Hi Ha]%andb_true_iff. apply negb_true_iff in Hi. rewrite Hi. by apply IH.
Qed.
Lemma op_instrs_plain a : op_instrs a = [] -> plain_code a.
Proof.
  unfold plain_code, op_instrs. induction a as [|i a IH]; [done|]. cbn [forallb List.filter].
  destruct (op_only i); [done|]. intros H. by apply IH.
Qed.
Lemma plain_map_close (f : nat -> instr) vs : (forall v, op_only (f v) = false) -> plain_code (map f vs).
Proof. intros Hf. unfold plain_code. apply forallb_forall. intros i (v & <- & _)%in_map_iff. by rewrite Hf. Qed.

Lemma plain_cleanup cl s : plain_code (cleanup_code cl s).
Proof.
  unfold cleanup_code. repeat (apply plain_code_app; split); try (by apply plain_map_close); try done.
  all: by case_match.
Qed.
Lemma plain_cleanup_failure e : plain_code (cleanup_failure e).
Proof. by destruct e. Qed.

(** ** Consistency of the manager's fields *)

Section Consistent.
Variables (url_parse : bytes -> result URL) (url_string : URL -> bytes) (hostname : URL -> bytes)
  (parse_ip : bytes -> bool) (qr_encode : bytes -> result bytes).
Variables (target : HostSession) (has_sink : bool).
#[local] Abbreviation pairing_url := (PairingURL url_parse url_string hostname parse_ip).
#[local] Abbreviation terminal_qr := (TerminalQR qr_encode).
#[local] Abbreviation exec_ := (exec url_parse url_string hostname parse_ip qr_encode target has_sink).
#[local] Abbreviation mstep_ := (mstep url_parse url_string hostname parse_ip qr_encode target has_sink).

Record manager_ok (m : Manager) : Prop := {
  (* a manager that is ready has a server, a tunnel and a context, and shows the
     pairing URL and the code of its secret at the tunnel's address *)
  ok_ready : m_state m = StateReady ->
    is_Some (m_server m) /\ is_Some (m_tunnel m) /\ is_Some (runtimeCancel m) /\
    exists secret, m_secret m = Some secret /\
      pairing_url (publicURL m) secret = Ok (pairingURL m) /\ terminal_qr (pairingURL m) = Ok (m_qr m);
  (* any other manager has nothing and shows nothing *)
  ok_idle : m_state m <> StateReady ->
    m_server m = None /\ m_tunnel m = None /\ runtimeCancel m = None /\ m_secret m = None /\
    publicURL m = [] /\ pairingURL m = [] /\ m_qr m = [] /\
    clients m = ∅ /\ active m = ∅ /\ opening m = ∅;
  ok_error : m_state m <> StateFailed -> errText m = [];
  ok_shutdown : shutdown m = true -> m_state m = StateStopped;
  (* only connected clients have a viewer, and not one that is open and one
     that opens *)
  ok_active : forall c, is_Some (active m !! c) -> c ∈ clients m /\ opening m !! c = None;
  ok_opening : forall c, is_Some (opening m !! c) -> c ∈ clients m;
  ok_events : (length (events m) <= maxEvents)%nat
}.

Lemma new_manager_ok : manager_ok new_manager.
Proof.
  split; cbn; try done; try lia.
  all: intros c [x H]; by rewrite lookup_empty in H.
Qed.

(** The fields only sections under [opMu] change. *)
Record same_core (m m' : Manager) : Prop := {
  sc_state : m_state m' = m_state m; sc_public : publicURL m' = publicURL m;
  sc_pairing : pairingURL m' = pairingURL m; sc_qr : m_qr m' = m_qr m; sc_err : errText m' = errText m;
  sc_secret : m_secret m' = m_secret m; sc_server : m_server m' = m_server m;
  sc_tunnel : m_tunnel m' = m_tunnel m; sc_cancel : runtimeCancel m' = runtimeCancel m;
  sc_shutdown : shutdown m' = shutdown m
}.
Lemma same_core_refl m : same_core m m.
Proof. by split. Qed.

(** A change of the clients and their viewers keeps the invariant. *)
Lemma clients_ok m m' : same_core m m' -> manager_ok m -> events m' = events m \/ (length (events m') <= maxEvents)%nat ->
  (m_state m <> StateReady -> clients m' = ∅ /\ active m' = ∅ /\ opening m' = ∅) ->
  (forall c, is_Some (active m' !! c) -> c ∈ clients m' /\ opening m' !! c = None) ->
  (forall c, is_Some (opening m' !! c) -> c ∈ clients m') ->
  manager_ok m'.
Proof.
  intros Hc Hm He Hi Ha Ho. destruct Hc. destruct Hm. split; try done.
  - intros Hr. destruct ok_ready0 as (?&?&?&secret&?&?&?); [congruence|]. split_and!; try congruence.
    exists secret. split_and!; congruence.
  - intros Hr. destruct ok_idle0 as (?&?&?&?&?&?&?&_); [congruence|]. rewrite sc_state0 in Hr.
    destruct (Hi Hr) as (?&?&?). split_and!; congruence.
  - intros Hf. rewrite sc_err0. apply ok_error0. congruence.
  - intros Hs. rewrite sc_shutdown0 in Hs. specialize (ok_shutdown0 Hs). congruence.
  - destruct He as [->|He]; done.
Qed.

(** The same when clients and viewers are untouched. *)
Lemma flags_ok m m' : same_core m m' -> manager_ok m -> events m' = events m \/ (length (events m') <= maxEvents)%nat ->
  clients m' = clients m -> active m' = active m -> opening m' = opening m -> manager_ok m'.
Proof.
  intros Hc Hm He Ec Ea Eo. eapply clients_ok; [done|done|done| | |]; rewrite ?Ec, ?Ea, ?Eo; [|apply Hm..].
  intros Hr. by destruct (ok_idle m Hm Hr) as (_&_&_&_&_&_&_&?&?&?).
Qed.

Lemma publish_ok s m : manager_ok m -> manager_ok (publishSnapshot s m).
Proof.
  intros Hm. eapply flags_ok; [|exact Hm| |done..]; [by split|right].
  unfold publishSnapshot. destruct (Nat.ltb_spec (length (events m)) maxEvents) as [E|E].
  - change (length (events m ++ [s]) <= maxEvents)%nat. rewrite length_app. cbn [length]. lia.
  - change (1 <= maxEvents)%nat. unfold maxEvents. lia.
Qed.

(** What the instructions of a client do to the manager's clients. *)
Record clients_change (m m' : Manager) : Prop := {
  cc_core : same_core m m'; cc_events : events m' = events m;
  cc_idle : m_state m <> StateReady -> clients m' = ∅ /\ active m' = ∅ /\ opening m' = ∅;
  cc_active : forall c, is_Some (active m' !! c) -> c ∈ clients m' /\ opening m' !! c = None;
  cc_opening : forall c, is_Some (opening m' !! c) -> c ∈ clients m'
}.

Lemma clients_change_ok m m' : manager_ok m -> clients_change m m' -> manager_ok m'.
Proof. intros Hm []. eapply clients_ok; eauto. Qed.

Lemma change_none m : manager_ok m -> clients_change m m.
Proof.
  intros Hm. split; [apply same_core_refl|done| |apply Hm|apply Hm].
  intros H. by destruct (ok_idle m Hm H) as (_&_&_&_&_&_&_&?&?&?).
Qed.

Lemma change_connect m c : manager_ok m -> m_state m = StateReady ->
  clients_change m (m <| clients := {[ c ]} ∪ clients m |>).
Proof.
  intros Hm Hr. split; [by split|done|congruence|..]; cbn; intros c' Hc'.
  - destruct (ok_active m Hm c' Hc'). set_solver.
  - pose proof (ok_opening m Hm c' Hc'). set_solver.
Qed.

Lemma change_reserve m c o : manager_ok m -> m_state m = StateReady -> c ∈ clients m -> active m !! c = None ->
  clients_change m (m <| opening := <[c := o]> (opening m) |>).
Proof.
  intros Hm Hr Hc Hn. split; [by split|done|congruence|..]; cbn; intros c' Hc'.
  - destruct (ok_active m Hm c' Hc') as [? ?]. split; [done|].
    rewrite lookup_insert_ne; [done|]. intros ->. destruct Hc'. congruence.
  - destruct (decide (c' = c)) as [->|]; [done|].
    rewrite lookup_insert_ne in Hc' by done. by apply (ok_opening m Hm).
Qed.

Lemma change_unreserve m c : manager_ok m -> clients_change m (m <| opening := delete c (opening m) |>).
Proof.
  intros Hm. split; [by split|done|..]; cbn.
  - intros Hi. destruct (ok_idle m Hm Hi) as (_&_&_&_&_&_&_&->&->&->). by rewrite delete_empty.
  - intros c' Hc'. destruct (ok_active m Hm c' Hc'). split; [done|]. apply lookup_delete_None. by right.
  - intros c' [x [_ Hx]%lookup_delete_Some]. apply (ok_opening m Hm). by eexists.
Qed.

(** A viewer opens: its client no longer opens one. *)
Lemma change_activate m c av : manager_ok m -> m_state m = StateReady -> c ∈ clients m -> opening m !! c = None ->
  clients_change m (m <| active := <[c := av]> (active m) |>).
Proof.
  intros Hm Hr Hc Hn. split; [by split|done|congruence|..]; cbn; intros c' Hc'.
  - destruct (decide (c' = c)) as [->|]; [done|]. rewrite lookup_insert_ne in Hc' by done. by apply (ok_active m Hm).
  - by apply (ok_opening m Hm).
Qed.

Lemma change_remove m c : manager_ok m ->
  clients_change m (m <| active := delete c (active m) |> <| opening := delete c (opening m) |>).
Proof.
  intros Hm. split; [by split|done|..]; cbn.
  - intros Hi. destruct (ok_idle m Hm Hi) as (_&_&_&_&_&_&_&->&->&->). by rewrite !delete_empty.
  - intros c' [x [_ Hx]%lookup_delete_Some]. destruct (ok_active m Hm c') as [? ?]; [by eexists|].
    split; [done|]. apply lookup_delete_None. by right.
  - intros c' [x [_ Hx]%lookup_delete_Some]. apply (ok_opening m Hm). by eexists.
Qed.

Lemma change_disconnect m c : manager_ok m ->
  clients_change m (m <| clients := clients m ∖ {[ c ]} |> <| active := delete c (active m) |>
                      <| opening := delete c (opening m) |>).
Proof.
  intros Hm. split; [by split|done|..]; cbn.
  - intros Hi. destruct (ok_idle m Hm Hi) as (_&_&_&_&_&_&_&->&->&->). rewrite !delete_empty. set_solver.
  - intros c' [x [? Hx]%lookup_delete_Some]. destruct (ok_active m Hm c') as [? ?]; [by eexists|].
    split; [set_solver|]. apply lookup_delete_None. by right.
  - intros c' [x [? Hx]%lookup_delete_Some]. assert (c' ∈ clients m) by (apply (ok_opening m Hm); by eexists). set_solver.
Qed.

Lemma change_end m c : manager_ok m -> clients_change m (m <| active := delete c (active m) |>).
Proof.
  intros Hm. split; [by split|done|..]; cbn.
  - intros Hi. destruct (ok_idle m Hm Hi) as (_&_&_&_&_&_&_&->&->&->). by rewrite delete_empty.
  - intros c' [x [_ Hx]%lookup_delete_Some]. apply (ok_active m Hm). by eexists.
  - apply (ok_opening m Hm).
Qed.

Lemma clients_change_trans m1 m2 m3 : clients_change m1 m2 -> clients_change m2 m3 -> clients_change m1 m3.
Proof.
  intros [[] E1 _ _ _] [[] E2 I2 A2 O2]. split; [split; try congruence; auto|congruence| |done|done].
  intros H. apply I2. congruence.
Qed.

Lemma client_change i a s : manager_ok (mgr s) ->
  clients_change (mgr s) (mgr (snd (exec_client target i a s))).
Proof.
  intros Hm. unfold exec_client, exec_viewer. set (m := mgr s) in *. pose proof (change_none m Hm) as Hnone.
  destruct i; try exact Hnone.
  - case_goal; [exact Hnone|]. guards. by apply change_connect.
  - case_goal; exact Hnone.
  - cbn. repeat case_goal; exact Hnone.
  - repeat case_goal; try exact Hnone. guards. by apply change_reserve.
  - case_goal; exact Hnone.
  - case_goal; exact Hnone.
  - destruct (opening m !! c ==b Some o).
    + pose proof (change_unreserve m c Hm) as H1. repeat case_goal; try exact H1. guards.
      eapply clients_change_trans; [exact H1|]. pose proof (clients_change_ok _ _ Hm H1).
      apply change_activate; try done. cbn. apply lookup_delete_eq.
    + repeat case_goal; try exact Hnone. guards. done.
  - case_goal; [by apply change_unreserve|exact Hnone].
  - assert (clients_change m (m <| active := delete c (active m) |> <| opening := delete c (opening m) |>))
      as H by (by apply change_remove).
    repeat case_goal; exact H.
  - by apply change_disconnect.
  - case_goal; exact Hnone.
  - repeat case_goal; exact Hnone.
Qed.

Lemma client_plain i a s : plain_code (fst (exec_client target i a s)).
Proof.
  unfold exec_client, exec_viewer. destruct i; try done; cbn; repeat case_goal; done.
Qed.

(** A step of an instruction outside [start] and [Rotate]. *)
Record plain_step (m : Manager) (r : outcome) : Prop := {
  ps_core : same_core m (mgr (o_sh r)); ps_ok : manager_ok (mgr (o_sh r));
  ps_code : plain_code (o_code r); ps_spawn : plain_code (concat (o_spawn r))
}.

Lemma plain_flags m r : manager_ok m -> same_core m (mgr (o_sh r)) -> events (mgr (o_sh r)) = events m ->
  clients (mgr (o_sh r)) = clients m -> active (mgr (o_sh r)) = active m ->
  opening (mgr (o_sh r)) = opening m -> plain_code (o_code r) -> plain_code (concat (o_spawn r)) ->
  plain_step m r.
Proof. intros. split; [done| |done|done]. eapply flags_ok; eauto. Qed.

Ltac plain_flags := apply plain_flags; [done|by split|done..|];
  cbn [o_code o_spawn concat]; rewrite ?plain_code_app; split_and?; try apply plain_cleanup_failure; try done.

Lemma exec_plain i a es s : op_only i = false -> manager_ok (mgr s) -> plain_step (mgr s) (exec_ i a es s).
Proof.
  intros Hi Hm.
  assert (forall j, plain_step (mgr s) (let '(code, s') := exec_client target j a s in
    {| o_code := code; o_errs := es; o_spawn := []; o_sh := s' |})) as Hclient.
  { intros j. pose proof (client_change j a s Hm) as Hc. pose proof (client_plain j a s) as Hp.
    destruct (exec_client target j a s) as [code s']. split; [apply Hc|by eapply clients_change_ok|done|done]. }
  destruct i; try discriminate Hi; cbn [exec]; try apply Hclient.
  all: try (repeat case_goal; plain_flags; fail).
  - split; [by split|by apply publish_ok|done|done].
  - destruct mode; destruct (an_err a); plain_flags.
  - cbn [exec_start]; cbn [exec_rotate]. destruct (validateIdentity _ _); plain_flags.
  - cbn [exec_start]; cbn [exec_rotate]. repeat case_goal; plain_flags.
  - cbn [exec_start]; cbn [exec_rotate]. destruct (startup (mgr s)); plain_flags.
  - pose proof (change_end (mgr s) c Hm) as Hc.
    repeat case_goal; try plain_flags. split; [apply Hc|by eapply clients_change_ok|..|done].
    cbn. apply plain_code_app. split; [apply plain_cleanup_failure|done].
Qed.

(** ** [start] and [Rotate] *)

(** What an instruction of [start] or [Rotate] relies on. *)
Definition instr_ok (m : Manager) (i : instr) : Prop :=
  match i with
  | ICommit _ secret _ _ url pairing qr _ =>
      m_state m = StateStarting /\ pairing_url url secret = Ok pairing /\ terminal_qr pairing = Ok qr
  | IRotate url => m_state m <> StateStarting /\ url = publicURL m
  | IRotateCommit secret pairing qr =>
      m_state m <> StateStarting /\ pairing_url (publicURL m) secret = Ok pairing /\ terminal_qr pairing = Ok qr
  | _ => m_state m = StateStarting
  end.

(** At most one such instruction is left in the method that holds [opMu], and
    the state says which kind. *)
Definition op_ok (m : Manager) (code : list instr) : Prop :=
  match op_instrs code with
  | [] => m_state m <> StateStarting
  | [i] => instr_ok m i
  | _ => False
  end.

Lemma op_ok_core m m' code : same_core m m' -> op_ok m code -> op_ok m' code.
Proof.
  intros [E1 E2 _ _ _ _ _ _ _ _]. unfold op_ok. destruct (op_instrs code) as [|i [|]]; [congruence| |done].
  destruct i; cbn; rewrite ?E1, ?E2; done.
Qed.

Lemma op_ok_plain m code k : plain_code code -> op_ok m k -> op_ok m (code ++ k).
Proof. intros Hp. unfold op_ok. by rewrite op_instrs_app, (plain_op_instrs code Hp). Qed.

(** The step of an instruction of [start] or [Rotate]. *)
Record op_step (r : outcome) : Prop := {
  os_ok : manager_ok (mgr (o_sh r)); os_code : op_ok (mgr (o_sh r)) (o_code r);
  os_spawn : plain_code (concat (o_spawn r))
}.

Lemma plain_done m code : plain_code code -> m_state m <> StateStarting -> op_ok m code.
Proof. intros Hp Hs. unfold op_ok. by rewrite (plain_op_instrs code Hp). Qed.

Lemma same_op_step s es code : manager_ok (mgr s) -> op_ok (mgr s) code ->
  op_step {| o_code := code; o_errs := es; o_spawn := []; o_sh := s |}.
Proof. by split. Qed.

(** A manager that is not ready takes any other state but "ready". *)
Lemma idle_ok m st text : manager_ok m -> m_state m <> StateReady -> st <> StateReady ->
  (st <> StateFailed -> text = []) -> shutdown m = false -> manager_ok (m <| m_state := st |> <| errText := text |>).
Proof.
  intros Hm Hi Hst Ht Hs. split; cbn; try done; try apply Hm; try done.
  - intros _. by apply (ok_idle m Hm).
  - congruence.
Qed.

Lemma starting_not_shut m : manager_ok m -> m_state m = StateStarting -> shutdown m = false.
Proof. intros Hm Hs. destruct (shutdown m) eqn:E; [|done]. pose proof (ok_shutdown m Hm E). congruence. Qed.

Lemma commit_ok m rt secret server tunnel url pairing qr : manager_ok m -> m_state m = StateStarting ->
  pairing_url url secret = Ok pairing -> terminal_qr pairing = Ok qr ->
  manager_ok (m <| m_secret := Some secret |> <| m_server := Some server |> <| m_tunnel := Some tunnel |>
                <| runtimeCancel := Some rt |> <| startup := None |> <| publicURL := url |>
                <| pairingURL := pairing |> <| m_qr := qr |> <| m_state := StateReady |>).
Proof.
  intros Hm Hs Hp Hq. pose proof (starting_not_shut m Hm Hs) as Hd. split; cbn; try done; try apply Hm; try congruence.
  - intros _. split_and!; try (by eexists).
  - intros _. apply (ok_error m Hm). congruence.
Qed.

Lemma rotate_ok m secret pairing qr : manager_ok m -> m_state m = StateReady ->
  pairing_url (publicURL m) secret = Ok pairing -> terminal_qr pairing = Ok qr ->
  manager_ok (m <| m_secret := Some secret |> <| pairingURL := pairing |> <| m_qr := qr |>
                <| active := ∅ |> <| opening := ∅ |> <| clients := ∅ |>).
Proof.
  intros Hm Hs Hp Hq. split; cbn; try done; try apply Hm; try congruence.
  - intros _. destruct (ok_ready m Hm Hs) as (?&?&?&_). split_and!; try done. by exists secret.
  - intros c [x Hx]. by rewrite lookup_empty in Hx.
  - intros c [x Hx]. by rewrite lookup_empty in Hx.
Qed.

Lemma exec_op i a es s : op_only i = true -> manager_ok (mgr s) -> instr_ok (mgr s) i -> op_step (exec_ i a es s).
Proof.
  intros Hi Hm Hok. destruct i; try discriminate Hi; cbn [exec]; cbn [exec_start]; cbn [exec_rotate]; cbn [instr_ok] in Hok.
  - destruct (an_random a); by apply same_op_step.
  - destruct (an_err a); by apply same_op_step.
  - destruct (an_err a); by apply same_op_step.
  - repeat case_goal; by apply same_op_step.
  - destruct Hok as (Hs & Hp & Hq). match goal with |- context [if ?b then _ else _] => destruct b end;
      split; cbn [o_sh o_code o_spawn]; try done.
    + eapply flags_ok; [|exact Hm|by left|done..]. by split.
    + by apply commit_ok.
  - pose proof (starting_not_shut _ Hm Hok). unfold failStart. case_goal; split; cbn [o_sh o_code o_spawn]; try done.
    + apply idle_ok; [done|congruence|done..].
    + apply idle_ok; [done|congruence|done..].
  - destruct Hok as [Hs ->]. repeat case_goal; apply same_op_step; try done.
  - destruct Hok as (Hs & Hp & Hq). destruct (m_server (mgr s)); [|by apply same_op_step].
    case_goal; [by apply same_op_step|]. guards. split; [by apply rotate_ok| |done].
    apply plain_done; [|done]. cbn [o_code]. repeat (apply plain_code_app; split); try done. by apply plain_map_close.
Qed.

(** ** The sections that take [opMu] *)

Lemma clear_ok m h st text : (length (events m) <= maxEvents)%nat -> st <> StateReady -> st <> StateStarting ->
  (st <> StateFailed -> text = []) -> (shutdown m = true -> st = StateStopped) ->
  manager_ok (snd (clearLocked h st text m)).
Proof.
  intros Hm H1 H2 H3 H4. unfold clearLocked, detachClientsLocked. split; cbn; try done.
  - intros c [x Hx]. by rewrite lookup_empty in Hx.
  - intros c [x Hx]. by rewrite lookup_empty in Hx.
Qed.

Lemma lock_ok c es s : manager_ok (mgr s) -> m_state (mgr s) <> StateStarting -> op_step (lock_section c es s).
Proof.
  intros Hm Hs. destruct c; open_section.
  - case_goal; [by apply same_op_step|]. case_goal; [by apply same_op_step|]. guards.
    split; cbn [o_sh o_code o_spawn]; try done. cbn [mgr make].
    apply (flags_ok ((mgr s) <| m_state := StateStarting |> <| errText := [] |>)); try done; [|by left].
    by apply idle_ok.
  - case_goal; by apply same_op_step.
  - case_goal; [by apply same_op_step|]. split; cbn [o_sh o_code o_spawn]; [|apply plain_done|done].
    + apply (clear_ok ((mgr s) <| shutdown := true |>) (heap s)); try done. apply Hm.
    + apply plain_code_app. split; [apply plain_cleanup|done].
    + done.
  - case_goal; [by apply same_op_step|]. guards.
    split; cbn [o_sh o_code o_spawn]; [|apply plain_done|done].
    + eapply (clear_ok (mgr s) (heap s)); try done; [apply Hm|congruence].
    + apply (plain_code_app [_]). split; [done|].
      apply plain_code_app. split; [apply plain_cleanup|done].
    + done.
Qed.

(** ** Every reachable world *)

Record world_ok (w : world) : Prop := {
  wo_manager : manager_ok (mgr (sh w));
  wo_op : op_ok (mgr (sh w)) (op_code w);
  wo_pool : plain_code (pool_code w)
}.

Lemma pool_code_app l1 l2 : concat (map code (l1 ++ l2)) = concat (map code l1) ++ concat (map code l2).
Proof. by rewrite map_app, concat_app. Qed.
Lemma goroutines_code cs : concat (map code (map goroutine cs)) = concat cs.
Proof. induction cs as [|c cs IH]; [done|]. cbn. by rewrite IH. Qed.

Lemma call_plain i : is_call i = true -> op_only i = false.
Proof. by destruct i. Qed.
Lemma plain_cons i k : plain_code (i :: k) <-> op_only i = false /\ plain_code k.
Proof. unfold plain_code. cbn. by rewrite andb_true_iff, negb_true_iff. Qed.

Lemma mstep_ok w w' : world_ok w -> mstep_ w w' -> world_ok w'.
Proof.
  intros [Hm Ho Hp] Hstep. destruct Hstep as [w i Hi|w l1 i k es l2 a Hn E|w l1 c k es l2 E0 E
    |w i k es a Hn E|w es E|w rt E|w e rest E]; unfold pool_code, op_code in *.
  - split; [done|done|]. unfold pool_code. cbn [pool]. rewrite pool_code_app. apply plain_code_app.
    split; [done|]. apply plain_cons. split; [by apply call_plain|done].
  - rewrite E, pool_code_app in Hp. cbn [map concat code] in Hp.
    apply plain_code_app in Hp as [H1 H2]. rewrite <- app_comm_cons in H2.
    apply plain_cons in H2 as [Hi H2]. apply plain_code_app in H2 as [Hk H2].
    destruct (exec_plain i a es (sh w) Hi Hm) as [Hc Hm' Hcode Hspawn].
    split; [done|by eapply op_ok_core|]. unfold pool_code. cbn [pool].
    rewrite pool_code_app. cbn [map concat continue code]. rewrite map_app, concat_app, goroutines_code.
    repeat (apply plain_code_app; split); done.
  - rewrite E0 in Ho. rewrite E, pool_code_app in Hp. cbn [map concat code] in Hp.
    apply plain_code_app in Hp as [H1 H2]. rewrite <- app_comm_cons in H2.
    apply plain_cons in H2 as [_ H2]. apply plain_code_app in H2 as [Hk H2].
    destruct (lock_ok c es (sh w) Hm Ho) as [Hm' Hcode _]. split; [done| |].
    + unfold op_code. cbn. unfold op_ok in *. by rewrite op_instrs_app, (plain_op_instrs k Hk), app_nil_r.
    + unfold pool_code. cbn [pool]. rewrite pool_code_app. apply plain_code_app. done.
  - rewrite E in Ho. cbn [code] in Ho.
    assert (plain_code (concat (map code (pool w ++ map goroutine (o_spawn (exec_ i a es (sh w))))))
      <-> plain_code (concat (o_spawn (exec_ i a es (sh w))))) as Hpool.
    { rewrite pool_code_app, goroutines_code, plain_code_app. tauto. }
    destruct (op_only i) eqn:Hi.
    + unfold op_ok, op_instrs in Ho. cbn [List.filter] in Ho. rewrite Hi in Ho.
      destruct (List.filter op_only k) eqn:Hk; [|done]. apply op_instrs_plain in Hk.
      destruct (exec_op i a es (sh w) Hi Hm Ho) as [Hm' Hcode Hspawn]. split; [done| |by apply Hpool].
      unfold op_code. cbn. unfold op_ok in *. by rewrite op_instrs_app, (plain_op_instrs k Hk), app_nil_r.
    + destruct (exec_plain i a es (sh w) Hi Hm) as [Hc Hm' Hcode Hspawn]. split; [done| |by apply Hpool].
      unfold op_code. cbn. apply op_ok_plain; [done|]. eapply op_ok_core; [done|].
      unfold op_ok, op_instrs in *. cbn [List.filter] in Ho. by rewrite Hi in Ho.
  - rewrite E in Ho. by split.
  - by split.
  - split; cbn; [|exact Ho|done]. eapply flags_ok; [|exact Hm|right|done..]; [by split|].
    pose proof (ok_events _ Hm) as He. rewrite E in He. cbn in *. lia.
Qed.

Lemma reachable_ok w : reachable (fun w => w = start_world new_manager) mstep_ w -> world_ok w.
Proof.
  apply (reachable_invariant _ _ world_ok); [|intros; by eapply mstep_ok].
  intros s ->. split; [apply new_manager_ok|done|done].
Qed.

(** Nothing takes a shutdown back. *)
Lemma exec_shutdown i a es s : shutdown (mgr (o_sh (exec_ i a es s))) = shutdown (mgr s).
Proof.
  destruct i; cbn [exec]; try (repeat case_goal; done).
  all: open_method; unfold make, detachClientsLocked; cbv beta iota zeta; repeat case_goal; done.
Qed.
Lemma lock_shutdown c es s : shutdown (mgr s) = true -> shutdown (mgr (o_sh (lock_section c es s))) = true.
Proof.
  intros Hs. destruct c; open_section; unfold clearLocked, detachClientsLocked;
    rewrite ?Hs; cbn [orb]; repeat case_goal; done.
Qed.

Lemma shutdown_stays w w' : rtc mstep_ w w' -> shutdown (mgr (sh w)) = true -> shutdown (mgr (sh w')) = true.
Proof.
  induction 1 as [|w1 w2 w3 Hstep _ IH]; [done|]. intros Hs. apply IH. destruct Hstep; cbn [sh]; try done.
  - by rewrite exec_shutdown.
  - by apply lock_shutdown.
  - by rewrite exec_shutdown.
Qed.

(** C32: the manager is consistent in every state any interleaving of its
    methods can reach.  When it is ready it has a server, a tunnel and a
    context, and the pairing URL and the code it shows are those of its secret
    at the tunnel's address; otherwise it has and shows nothing and no client
    has a viewer.  Only connected clients have viewers, never an open one beside
    one that opens; at most 64 events wait.  Once shut down it is stopped for
    good: no later step makes a client, a viewer or a pairing URL appear. *)
Theorem manager_consistent w :
  reachable (fun w => w = start_world new_manager) mstep_ w ->
  manager_ok (mgr (sh w)) /\
  (shutdown (mgr (sh w)) = true -> forall w', rtc mstep_ w w' ->
     let m := mgr (sh w') in
     m_state m = StateStopped /\ pairingURL m = [] /\ clients m = ∅ /\ active m = ∅ /\ opening m = ∅).
Proof.
  intros Hw. pose proof (reachable_ok w Hw) as Hok. split; [apply Hok|]. intros Hs w' Hr m.
  pose proof (shutdown_stays w w' Hr Hs) as Hs'.
  assert (reachable (fun w => w = start_world new_manager) mstep_ w') as Hw'.
  { clear Hok Hs Hs' m. induction Hr; [done|]. apply IHHr. by eapply reachable_step. }
  destruct (reachable_ok w' Hw') as [Hm _ _]. pose proof (ok_shutdown _ Hm Hs') as Hst.
  destruct (ok_idle _ Hm) as (_&_&_&_&_&?&_&?&?&?); [congruence|]. done.
Qed.
End Consistent.

(** ** A concrete run *)

Definition start0 : world := start_world new_manager.

(** A client connects and the manager shuts down: everything is released. *)
Definition full_turns : list turn := start_turns ++ connect_turns 7%nat 1 ++ shutdown_turns 3.

Lemma manager_consistent_witness :
  manager_ok demo_parse origin Host (fun _ => false) demo_qr (mgr (sh (demo_run full_turns start0))) /\
  m_state (mgr (sh (demo_run full_turns start0))) = StateStopped.
Proof.
  pose proof (manager_consistent demo_parse origin Host (fun _ => false) demo_qr demo_session false
    (demo_run full_turns start0) (demo_run_reachable full_turns)) as [H1 H2].
  split; [exact H1|]. refine (proj1 (H2 _ (demo_run full_turns start0) (rtc_refl _ _))).
  vm_compute. reflexivity.
Defined.
