(* ===== verification/MirrorManagerRelease.v ===== *)
(** * The mirror manager leaves nothing open

    Every server, tunnel, context, prepared viewer and viewer that was ever
    made is at any time released, held by the manager, or in the hands of a
    running method that will release it.  The running methods are looked at as
    one multiset of instructions, which every step rewrites.  Once a viewer is
    detached nothing it puts out is sent, whatever runs in between. *)

From S2P Require Import Prelude GoString GoConv GoErrors TmuxQuote MirrorProtocol MirrorPairing MirrorDiagnostics.
From S2P Require Import MirrorManager MirrorManagerRun MirrorManagerProps.
Open Scope Z_scope.

Definition all_code (w : world) : list instr := op_code w ++ pool_code w.

(** ** Who answers for a resource *)

(** The resources an instruction still has to release or hand on. *)
Definition owns (i : instr) : list nat :=
  match i with
  | ICloseViewer v _ => [v]
  | IClosePrepared p => [p]
  | ICloseTunnel t _ => [t]
  | ICloseServer x _ => [x]
  | ICancel c | INewSecret c | IStartServer c _ | IFailStart c _ | IEndStart c => [c]
  | IStartTunnel c _ x => [c; x]
  | IPair c _ x t _ | ICommit c _ x t _ _ _ _ => [c; x; t]
  | IReserve _ p _ | IStartViewer _ p _ => [p]
  | IHandOver _ v _ | IActivate _ v _ => [v]
  | _ => []
  end.
Abbreviation owned code := (flat_map owns code).

(** The resources the manager holds. *)
Definition viewers_of (m : gmap nat activeViewer) : list nat := map (fun '(_, a) => av_viewer a) (map_to_list m).
Definition held (s : shared) : list nat :=
  let m := mgr s in
  option_list (m_server m) ++ option_list (m_tunnel m) ++ option_list (runtimeCancel m) ++
  viewers_of (active m) ++ opening_viewers (heap s) (opening m).

Lemma elem_of_viewers m x : x ∈ viewers_of m <-> exists c av, m !! c = Some av /\ av_viewer av = x.
Proof.
  unfold viewers_of. rewrite list_elem_of_fmap. split.
  - intros ([c av] & -> & H%elem_of_map_to_list). by exists c, av.
  - intros (c & av & H & <-). exists (c, av). by rewrite elem_of_map_to_list.
Qed.
Lemma elem_of_openings h o x : x ∈ opening_viewers h o <->
  exists c p ov, o !! c = Some p /\ h !! p = Some ov /\ ov_viewer ov = Some x.
Proof.
  unfold opening_viewers. rewrite list_elem_of_omap. split.
  - intros ([c p] & H%elem_of_map_to_list & E). destruct (h !! p) as [ov|] eqn:Hp; [|done]. by exists c, p, ov.
  - intros (c & p & ov & H & Hp & E). exists (c, p). rewrite elem_of_map_to_list, Hp. done.
Qed.

(** ** The pointers to openings *)

(** The openings that have no viewer yet and that an instruction may give one
    to, or take out of the manager's map. *)
Definition ptrs (i : instr) : list nat :=
  match i with IStartViewer _ _ o | IHandOver _ _ o | IRemoveOpening _ o => [o] | _ => [] end.
Definition gives (i : instr) : list (nat * nat) := match i with IActivate _ v o => [(v, o)] | _ => [] end.

Record pointers_ok (s : shared) (code : list instr) : Prop := {
  po_fresh : forall o, is_Some (heap s !! o) -> (o < fresh s)%nat;
  po_nodup : NoDup (flat_map ptrs code);
  po_empty : forall o, o ∈ flat_map ptrs code -> heap s !! o ≫= ov_viewer = None;
  po_known : forall o, o ∈ flat_map ptrs code -> is_Some (heap s !! o);
  po_given : forall v o, (v, o) ∈ flat_map gives code -> heap s !! o ≫= ov_viewer = Some v
}.

Lemma flat_map_perm {A B} (f : A -> list B) l k : Permutation l k -> Permutation (flat_map f l) (flat_map f k).
Proof. intros H. by rewrite H. Qed.

Lemma pointers_perm s code code' : Permutation code code' -> pointers_ok s code -> pointers_ok s code'.
Proof.
  intros Hp [H1 H2 H3 H4 H5]. pose proof (flat_map_perm ptrs _ _ Hp) as P.
  split; [done|by rewrite <- P|intros o; rewrite <- P; auto..|].
  intros v o. rewrite <- (flat_map_perm gives _ _ Hp). auto.
Qed.

(** Code without pointers. *)
Definition no_ptrs (code : list instr) : Prop := flat_map ptrs code = [] /\ flat_map gives code = [].

Lemma no_ptrs_app a b : no_ptrs a -> no_ptrs b -> no_ptrs (a ++ b).
Proof. unfold no_ptrs. rewrite !flat_map_app. by intros [-> ->] [-> ->]. Qed.
Lemma no_ptrs_cons i k : ptrs i = [] -> gives i = [] -> no_ptrs k -> no_ptrs (i :: k).
Proof. unfold no_ptrs. cbn. by intros -> -> [-> ->]. Qed.
Lemma no_ptrs_map (f : nat -> instr) vs : (forall v, ptrs (f v) = [] /\ gives (f v) = []) -> no_ptrs (map f vs).
Proof.
  intros Hf. induction vs as [|v vs [IH1 IH2]]; [done|]. destruct (Hf v) as [E1 E2].
  unfold no_ptrs. cbn. by rewrite E1, E2, IH1, IH2.
Qed.
Lemma no_ptrs_cleanup cl sh : no_ptrs (cleanup_code cl sh).
Proof. unfold cleanup_code. repeat apply no_ptrs_app; try (by apply no_ptrs_map); try done; by case_match. Qed.
Lemma no_ptrs_failure e : no_ptrs (cleanup_failure e).
Proof. by destruct e. Qed.

(** The pointers of [i :: K] go on in [code ++ K]. *)
Lemma pointers_keep s s' i code K : heap s' = heap s -> (fresh s <= fresh s')%nat ->
  sublist (flat_map ptrs code) (ptrs i) -> flat_map gives code = [] ->
  pointers_ok s (i :: K) -> pointers_ok s' (code ++ K).
Proof.
  intros Eh Ef Hs Hg [H1 H2 H3 H4 H5]. cbn [flat_map] in *.
  assert (sublist (flat_map ptrs code ++ flat_map ptrs K) (ptrs i ++ flat_map ptrs K)) as Hsub by (by apply sublist_app).
  split; rewrite ?flat_map_app, ?Eh.
  - intros o Ho. specialize (H1 o Ho). lia.
  - by eapply sublist_NoDup.
  - intros o Ho. apply H3. by eapply elem_of_submseteq, sublist_submseteq.
  - intros o Ho. apply H4. by eapply elem_of_submseteq, sublist_submseteq.
  - intros v o. rewrite Hg. intros Ho. apply H5. apply elem_of_app. by right.
Qed.

Lemma pointers_plain s s' i code K : heap s' = heap s -> (fresh s <= fresh s')%nat -> no_ptrs code ->
  pointers_ok s (i :: K) -> pointers_ok s' (code ++ K).
Proof. intros ?? [E ?]. apply pointers_keep; try done. rewrite E. apply sublist_nil_l. Qed.

(** A new opening, which [code] may point to. *)
Lemma pointers_new s s' i code K ov : heap s' = <[fresh s := ov]> (heap s) -> fresh s' = S (fresh s) ->
  ov_viewer ov = None -> flat_map gives code = [] ->
  flat_map ptrs code = [] \/ flat_map ptrs code = [fresh s] ->
  pointers_ok s (i :: K) -> pointers_ok s' (code ++ K).
Proof.
  intros Eh Ef Hov Hg Hp [H1 H2 H3 H4 H5]. cbn [flat_map] in *.
  assert (forall o, is_Some (heap s !! o) -> o <> fresh s) as Hne by (intros o Ho; specialize (H1 o Ho); lia).
  assert (forall o, o ∈ flat_map ptrs K -> is_Some (heap s !! o)) as HK.
  { intros o Ho. apply H4, elem_of_app. by right. }
  assert (forall o, o ∈ flat_map ptrs code -> o = fresh s) as Hc by (destruct Hp as [-> | ->]; set_solver).
  split; rewrite ?flat_map_app, ?Eh, ?Ef.
  - intros o. destruct (decide (o = fresh s)) as [->|]; [lia|].
    rewrite lookup_insert_ne by done. intros Ho. specialize (H1 o Ho). lia.
  - apply NoDup_app in H2 as (_ & _ & H2). apply NoDup_app. split_and!; [|intros o ->%Hc Hin|done].
    + destruct Hp as [-> | ->]; [constructor|apply NoDup_singleton].
    + by apply (Hne (fresh s)); [apply HK|].
  - intros o [->%Hc|Ho]%elem_of_app; [by rewrite lookup_insert_eq|].
    rewrite lookup_insert_ne; [|by apply not_eq_sym, Hne, HK]. apply H3, elem_of_app. by right.
  - intros o [->%Hc|Ho]%elem_of_app; [rewrite lookup_insert_eq; by exists ov|].
    rewrite lookup_insert_ne; [|by apply not_eq_sym, Hne, HK]. by apply HK.
  - intros v o. rewrite Hg. intros Ho. assert (heap s !! o ≫= ov_viewer = Some v) as E.
    { apply H5, elem_of_app. by right. }
    rewrite lookup_insert_ne; [done|]. apply not_eq_sym, Hne. destruct (heap s !! o) as [q|]; [by exists q|done].
Qed.

(** An opening gets its viewer. *)
Lemma pointers_hand s s' i code K o v ov : heap s' = <[o := ov]> (heap s) -> fresh s' = fresh s ->
  ov_viewer ov = Some v -> ptrs i = [o] -> flat_map ptrs code = [] -> flat_map gives code = [(v, o)] ->
  pointers_ok s (i :: K) -> pointers_ok s' (code ++ K).
Proof.
  intros Eh Ef Hov Hi Hp Hg [H1 H2 H3 H4 H5]. cbn [flat_map] in *. rewrite Hi in *.
  apply NoDup_app in H2 as (_ & Hnin & H2).
  assert (o ∉ flat_map ptrs K) as Ho by (apply Hnin; set_solver).
  split; rewrite ?flat_map_app, ?Eh, ?Ef, ?Hp, ?Hg.
  - intros q. destruct (decide (q = o)) as [->|]; [intros _; apply H1, H4; set_solver|].
    rewrite lookup_insert_ne by done. apply H1.
  - done.
  - intros q Hq. rewrite lookup_insert_ne by (intros ->; done). apply H3. set_solver.
  - intros q Hq. rewrite lookup_insert_ne by (intros ->; done). apply H4. set_solver.
  - intros v' q [[= -> ->]%list_elem_of_singleton|Hq]%elem_of_app; [by rewrite lookup_insert_eq|].
    assert (heap s !! q ≫= ov_viewer = Some v') as E by (apply H5, elem_of_app; by right).
    rewrite lookup_insert_ne; [done|]. intros ->.
    assert (heap s !! q ≫= ov_viewer = None) by (apply H3; set_solver). congruence.
Qed.

Section Release.
Variables (url_parse : bytes -> result URL) (url_string : URL -> bytes) (hostname : URL -> bytes)
  (parse_ip : bytes -> bool) (qr_encode : bytes -> result bytes).
Variables (target : HostSession) (has_sink : bool).
#[local] Abbreviation exec_ := (exec url_parse url_string hostname parse_ip qr_encode target has_sink).
#[local] Abbreviation mstep_ := (mstep url_parse url_string hostname parse_ip qr_encode target has_sink).
#[local] Abbreviation manager_ok_ := (manager_ok url_parse url_string hostname parse_ip qr_encode).
#[local] Abbreviation instr_ok_ := (instr_ok url_parse url_string hostname parse_ip qr_encode).

Definition new_code (r : outcome) : list instr := o_code r ++ concat (o_spawn r).

Ltac no_ptrs_code :=
  first [ apply no_ptrs_cleanup | apply no_ptrs_failure | apply no_ptrs_map; done | done
        | apply no_ptrs_cons; [done|done|no_ptrs_code] | apply no_ptrs_app; [no_ptrs_code|no_ptrs_code] ].
Ltac no_ptrs := unfold new_code; cbn [o_code o_spawn concat]; no_ptrs_code.

Definition pointers_after (K : list instr) (r : outcome) : Prop := pointers_ok (o_sh r) (new_code r ++ K).

Lemma exec_pointers i a es s K : pointers_ok s (i :: K) -> pointers_after K (exec_ i a es s).
Proof.
  intros Hp. assert (forall r, heap (o_sh r) = heap s -> (fresh s <= fresh (o_sh r))%nat -> no_ptrs (new_code r) ->
    pointers_after K r) as Hplain by (intros; by eapply pointers_plain).
  destruct i; cbn [exec]; try (repeat case_goal; (apply Hplain; [done|cbn; lia|no_ptrs]); fail).
  all: open_method; unfold make, detachClientsLocked; cbv beta iota zeta.
  all: try (repeat case_goal; (apply Hplain; [done|cbn; lia|no_ptrs]); fail).
  - repeat case_goal; try (apply Hplain; [done|cbn; lia|no_ptrs]); eapply pointers_new; try exact Hp; try done;
      by (left + right).
  - case_goal; (apply (pointers_keep s _ (IStartViewer c p o)); [done|cbn; lia|cbn; reflexivity|done|exact Hp]).
  - case_goal; [by apply Hplain|]. by eapply (pointers_hand s _ (IHandOver c v o)).
Qed.

Lemma lock_pointers c es s K : pointers_ok s (INeedOp c :: K) -> pointers_after K (lock_section c es s).
Proof.
  intros Hp. assert (forall r, heap (o_sh r) = heap s -> (fresh s <= fresh (o_sh r))%nat -> no_ptrs (new_code r) ->
    pointers_after K r) as Hplain by (intros; by eapply pointers_plain).
  destruct c; open_section; unfold make, clearLocked, detachClientsLocked; cbv beta iota zeta;
    repeat case_goal; (apply Hplain; [done|cbn; lia|no_ptrs]).
Qed.

(** ** Accounts *)

Definition live (s : shared) (x : nat) : Prop := x ∈ released s \/ x ∈ held s.
Definition accounted (s : shared) (code : list instr) : Prop :=
  forall x, x ∈ opened s -> live s x \/ x ∈ owned code.

(** A step keeps account of everything: what it makes it owns, and what was
    released, held or owned is so afterwards. *)
Record keeps_account (i : instr) (s : shared) (r : outcome) : Prop := {
  ka_opened : forall x, x ∈ opened (o_sh r) -> x ∈ opened s \/ x ∈ owned (new_code r);
  ka_released : forall x, x ∈ released s -> x ∈ released (o_sh r);
  ka_held : forall x, x ∈ held s -> live (o_sh r) x \/ x ∈ owned (new_code r);
  ka_owned : forall x, x ∈ owns i -> live (o_sh r) x \/ x ∈ owned (new_code r)
}.

Lemma keeps_accounted i s r K : keeps_account i s r -> accounted s (i :: K) ->
  accounted (o_sh r) (new_code r ++ K).
Proof.
  intros [H1 H2 H3 H4] Ha x Hx. rewrite flat_map_app, elem_of_app.
  destruct (H1 x Hx) as [Ho|?]; [|tauto]. specialize (Ha x Ho). cbn [flat_map] in Ha. rewrite elem_of_app in Ha.
  destruct Ha as [[Hr|Hh]|[Hi|HK]]; [left; left; auto|..|tauto].
  - destruct (H3 x Hh); tauto.
  - destruct (H4 x Hi); tauto.
Qed.

Ltac fields := unfold new_code; cbn [o_sh o_code o_spawn concat release emit with_mgr unclaim setter eta
  mgr heap opened released fresh log viewerOpen afterFunc].

Lemma keeps_frame i s r : held (o_sh r) = held s ->
  (forall x, x ∈ opened (o_sh r) -> x ∈ opened s \/ x ∈ owned (new_code r)) ->
  (forall x, x ∈ released s -> x ∈ released (o_sh r)) ->
  (forall x, x ∈ owns i -> x ∈ released (o_sh r) \/ x ∈ owned (new_code r)) -> keeps_account i s r.
Proof.
  intros Eh H1 H2 H3. split; [done|done| |].
  - intros x Hx. left. right. by rewrite Eh.
  - intros x Hx. destruct (H3 x Hx); [left; by left|by right].
Qed.

Ltac frame := apply keeps_frame; [reflexivity|fields; intros x Hx|fields; intros x Hx|cbn [owns]; fields; intros x Hx];
  rewrite ?app_nil_r, ?flat_map_app in *; cbn [flat_map owns app] in *;
  try (by left); try set_solver.

(** A change of the clients' viewers. *)
Lemma keeps_viewers i s r : 
  (forall x, x ∈ opened (o_sh r) -> x ∈ opened s \/ x ∈ owned (new_code r)) ->
  (forall x, x ∈ released s -> x ∈ released (o_sh r)) ->
  m_server (mgr (o_sh r)) = m_server (mgr s) -> m_tunnel (mgr (o_sh r)) = m_tunnel (mgr s) ->
  runtimeCancel (mgr (o_sh r)) = runtimeCancel (mgr s) ->
  (forall x, x ∈ viewers_of (active (mgr s)) -> live (o_sh r) x \/ x ∈ owned (new_code r)) ->
  (forall x, x ∈ opening_viewers (heap s) (opening (mgr s)) -> live (o_sh r) x \/ x ∈ owned (new_code r)) ->
  (forall x, x ∈ owns i -> live (o_sh r) x \/ x ∈ owned (new_code r)) -> keeps_account i s r.
Proof.
  intros H1 H2 E1 E2 E3 Hv Ho Hi. split; [done|done| |done]. intros x Hx. unfold held in Hx.
  rewrite !elem_of_app in Hx.
  assert (forall y, y ∈ option_list (m_server (mgr s)) \/ y ∈ option_list (m_tunnel (mgr s)) \/
    y ∈ option_list (runtimeCancel (mgr s)) -> live (o_sh r) y) as Hk.
  { intros y Hy. right. unfold held. rewrite E1, E2, E3, !elem_of_app. tauto. }
  destruct Hx as [?|[?|[?|[?|?]]]]; [left; apply Hk; tauto..|auto|auto].
Qed.

Lemma live_viewer s x : x ∈ viewers_of (active (mgr s)) -> live s x.
Proof. intros H. right. unfold held. rewrite !elem_of_app. tauto. Qed.
Lemma live_opening s x : x ∈ opening_viewers (heap s) (opening (mgr s)) -> live s x.
Proof. intros H. right. unfold held. rewrite !elem_of_app. tauto. Qed.

Lemma owned_closes vs mode : owned (map (fun v => ICloseViewer v mode) vs) = vs.
Proof. induction vs as [|v vs IH]; [done|]. cbn. by rewrite IH. Qed.

Lemma viewers_delete c m x : x ∈ viewers_of m ->
  (exists av, m !! c = Some av /\ av_viewer av = x) \/ x ∈ viewers_of (delete c m).
Proof.
  rewrite !elem_of_viewers. intros (c' & av & H & <-). destruct (decide (c' = c)) as [->|]; [left; by exists av|].
  right. exists c', av. by rewrite lookup_delete_ne.
Qed.
Lemma viewers_insert c av m x : m !! c = None -> x = av_viewer av \/ x ∈ viewers_of m -> x ∈ viewers_of (<[c := av]> m).
Proof.
  rewrite !elem_of_viewers. intros Hn [->|(c' & av' & H & <-)].
  - exists c, av. by rewrite lookup_insert_eq.
  - exists c', av'. split; [|done]. rewrite lookup_insert_ne; [done|]. intros ->. congruence.
Qed.
Lemma openings_delete c h o x : x ∈ opening_viewers h o ->
  (exists p, o !! c = Some p /\ h !! p ≫= ov_viewer = Some x) \/ x ∈ opening_viewers h (delete c o).
Proof.
  rewrite !elem_of_openings. intros (c' & p & ov & H & Hp & E). destruct (decide (c' = c)) as [->|].
  - left. exists p. by rewrite Hp.
  - right. exists c', p, ov. by rewrite lookup_delete_ne.
Qed.
Lemma openings_insert c p h o x : o !! c = None -> x ∈ opening_viewers h o -> x ∈ opening_viewers h (<[c := p]> o).
Proof.
  rewrite !elem_of_openings. intros Hn (c' & q & ov & H & Hq & E). exists c', q, ov.
  rewrite lookup_insert_ne; [done|]. intros ->. congruence.
Qed.
Lemma openings_heap p ov h o x : h !! p ≫= ov_viewer = None -> x ∈ opening_viewers h o ->
  x ∈ opening_viewers (<[p := ov]> h) o.
Proof.
  rewrite !elem_of_openings. intros Hn (c & q & ov' & H & Hq & E). exists c, q, ov'.
  rewrite lookup_insert_ne; [done|]. intros ->. rewrite Hq in Hn. cbn in Hn. congruence.
Qed.
Lemma heap_fresh s code : pointers_ok s code -> heap s !! fresh s ≫= ov_viewer = None.
Proof.
  intros Hp. destruct (heap s !! fresh s) as [ov|] eqn:E; [|done].
  pose proof (po_fresh _ _ Hp (fresh s) ltac:(by exists ov)). lia.
Qed.

Lemma held_idle s : manager_ok_ (mgr s) -> m_state (mgr s) <> StateReady -> held s = [].
Proof. intros Hm Hs. unfold held. by destruct (ok_idle _ _ _ _ _ _ Hm Hs) as (->&->&->&_&_&_&_&_&->&->). Qed.

Ltac same_fields := try reflexivity; try (fields; by left); try (fields; done).

Lemma account_commit rt secret server tunnel url pairing qr canceled a es s :
  manager_ok_ (mgr s) -> m_state (mgr s) = StateStarting ->
  let i := ICommit rt secret server tunnel url pairing qr canceled in keeps_account i s (exec_ i a es s).
Proof.
  intros Hm Hs i. subst i. cbn [exec exec_start]; cbn [exec_rotate].
  match goal with |- context [if ?b then _ else _] => destruct b end; [frame|].
  split; [fields; by left|fields; by intros x Hx| |].
  - intros x. rewrite held_idle; [|done|congruence]. by intros Hx%elem_of_nil.
  - intros x Hx. left. right. unfold held. fields. cbn [m_server m_tunnel runtimeCancel option_list].
    cbn [owns] in Hx. set_solver.
Qed.

Lemma account_rotate secret pairing qr a es s :
  let i := IRotateCommit secret pairing qr in keeps_account i s (exec_ i a es s).
Proof.
  intros i. subst i. cbn [exec exec_start]; cbn [exec_rotate]. unfold detachClientsLocked. cbv beta iota zeta.
  destruct (m_server (mgr s)) as [server|] eqn:Es; [|frame]. case_goal; [frame|].
  assert (forall code, owned ([IPublish code; info !"credential" !"rotated"] ++
      closeViewers (viewers_of (active (mgr s)) ++ opening_viewers (heap s) (opening (mgr s))) ++
      [ICleanupFactory; IRotateEnd]) = viewers_of (active (mgr s)) ++ opening_viewers (heap s) (opening (mgr s))) as Ho.
  { intros code. unfold closeViewers. rewrite !flat_map_app, owned_closes. cbn [flat_map owns info app]. apply app_nil_r. }
  apply keeps_viewers; same_fields; fields; rewrite app_nil_r; cbn [active opening]; rewrite Ho; set_solver.
Qed.

Lemma account_reserve c p opened a es s K : let i := IReserve c p opened in pointers_ok s (i :: K) ->
  keeps_account i s (exec_ i a es s).
Proof.
  intros i Hp. subst i. cbn [exec exec_client]; cbn [exec_viewer]. repeat case_goal; try (frame; fail); guards.
  - apply keeps_viewers; same_fields.
    + intros x Hx. left. by apply live_viewer.
    + intros x Hx. left. apply live_opening. fields. by eapply openings_heap, Hx; apply (heap_fresh s _ Hp).
    + fields. cbn [owns]. set_solver.
  - apply keeps_viewers; same_fields.
    + intros x Hx. left. by apply live_viewer.
    + intros x Hx. left. apply live_opening. fields. cbn [opening]. apply openings_insert; [done|].
      by apply openings_heap; [apply (heap_fresh s _ Hp)|].
    + fields. cbn [owns]. set_solver.
Qed.

Lemma account_hand c v o a es s K : let i := IHandOver c v o in pointers_ok s (i :: K) ->
  keeps_account i s (exec_ i a es s).
Proof.
  intros i Hp. subst i. cbn [exec exec_client]; cbn [exec_viewer]. case_goal; [frame|]. apply keeps_viewers; same_fields.
  - intros x Hx. left. by apply live_viewer.
  - intros x Hx. left. apply live_opening. fields. apply openings_heap; [|done].
    apply (po_empty _ _ Hp). cbn [flat_map ptrs]. set_solver.
  - fields. cbn [owns]. set_solver.
Qed.

Lemma account_remove c o a es s K : let i := IRemoveOpening c o in pointers_ok s (i :: K) ->
  keeps_account i s (exec_ i a es s).
Proof.
  intros i Hp. subst i. cbn [exec exec_client]; cbn [exec_viewer]. case_bool_decide as Ho; [|frame]. apply keeps_viewers; same_fields.
  - intros x Hx. left. by apply live_viewer.
  - intros x Hx. left. apply live_opening. fields. cbn [opening].
    destruct (openings_delete c _ _ _ Hx) as [(p & Hc & E)|H]; [|done].
    assert (heap s !! o ≫= ov_viewer = None).
    { apply (po_empty _ _ Hp). cbn [flat_map ptrs]. set_solver. }
    congruence.
  - cbn [owns]. set_solver.
Qed.

Lemma account_close c a es s : manager_ok_ (mgr s) -> keeps_account (IClose c) s (exec_ (IClose c) a es s).
Proof.
  intros Hm. cbn [exec exec_client]; cbn [exec_viewer]. destruct (active (mgr s) !! c) as [av|] eqn:Ha.
  - destruct (ok_active _ _ _ _ _ _ Hm c) as [_ Hn]; [by exists av|].
    apply keeps_viewers; same_fields; [intros x Hx..|intros x Hx; by apply elem_of_nil in Hx].
    + destruct (viewers_delete c _ _ Hx) as [(av' & E & <-)|H]; [right; fields|left; by apply live_viewer].
      simplify_eq. cbn. set_solver.
    + destruct (openings_delete c _ _ _ Hx) as [(p & Hc & E)|H]; [congruence|left; by apply live_opening].
  - match goal with |- context [match ?b with Some _ => ([ICloseViewer _ CloseOpening], _) | None => _ end] =>
      destruct b as [v|] eqn:Hv end;
    (apply keeps_viewers; same_fields; [intros x Hx..|intros x Hx; by apply elem_of_nil in Hx]).
    1,3: destruct (viewers_delete c _ _ Hx) as [(av' & E & <-)|H]; [congruence|left; by apply live_viewer].
    all: destruct (openings_delete c _ _ _ Hx) as [(p & Hc & E)|H]; [|left; by apply live_opening].
    all: rewrite Hc in Hv; cbn [mbind option_bind] in Hv; rewrite E in Hv; simplify_eq.
    right. fields. cbn. set_solver.
Qed.

Lemma account_disconnect c a es s : keeps_account (IDisconnected c) s (exec_ (IDisconnected c) a es s).
Proof.
  cbn [exec exec_client]; cbn [exec_viewer]. apply keeps_viewers; same_fields; [intros x Hx..|intros x Hx; by apply elem_of_nil in Hx].
  - destruct (viewers_delete c _ _ Hx) as [(av' & E & <-)|H]; [right; fields|left; by apply live_viewer].
    rewrite E. cbn. set_solver.
  - destruct (openings_delete c _ _ _ Hx) as [(p & Hc & E)|H]; [right; fields|left; by apply live_opening].
    rewrite Hc. cbn [mbind option_bind]. rewrite E, app_nil_r, flat_map_app. cbn. set_solver.
Qed.

Lemma account_watch c identity v a es s : let i := IWatchViewer c identity v in keeps_account i s (exec_ i a es s).
Proof.
  intros i. subst i. cbn [exec]. destruct (active (mgr s) !! c) as [av|] eqn:Ha; [|frame]. case_goal; [|frame]. guards.
  apply keeps_viewers; same_fields; [fields; set_solver|intros x Hx..|intros x Hx; by apply elem_of_nil in Hx].
  - destruct (viewers_delete c _ _ Hx) as [(av' & E & <-)|Hd]; [|left; by apply live_viewer].
    left. left. fields. simplify_eq. apply elem_of_union_l, elem_of_singleton. by apply Nat.eqb_eq.
  - left. by apply live_opening.
Qed.

Lemma account_activate c v o a es s K : let i := IActivate c v o in pointers_ok s (i :: K) ->
  keeps_account i s (exec_ i a es s).
Proof.
  intros i Hp. subst i. assert (heap s !! o ≫= ov_viewer = Some v) as Hg.
  { apply (po_given _ _ Hp). cbn [flat_map gives]. set_solver. }
  cbn [exec exec_client]; cbn [exec_viewer]. set (m1 := if _ : bool then _ else mgr s).
  assert (active m1 = active (mgr s) /\ m_server m1 = m_server (mgr s) /\ m_tunnel m1 = m_tunnel (mgr s) /\
    runtimeCancel m1 = runtimeCancel (mgr s)) as (E1&E2&E3&E4) by (unfold m1; by case_match).
  assert (forall x, x ∈ opening_viewers (heap s) (opening (mgr s)) ->
    x = v \/ x ∈ opening_viewers (heap s) (opening m1)) as Ho.
  { intros x Hx. unfold m1. case_bool_decide as Hr; [|by right].
    destruct (openings_delete c _ _ _ Hx) as [(p & Hc & E)|H]; [left; congruence|by right]. }
  assert (forall text, keeps_account (IActivate c v o) s
    {| o_code := [ICloseViewer v CloseIgnored; IUnclaim c; failed text]; o_errs := es; o_spawn := [];
       o_sh := with_mgr s m1 |}) as Hrefuse.
  { intros text. apply keeps_viewers; try done; [fields; by left|intros x Hx..].
    - left. apply live_viewer. fields. by rewrite E1.
    - destruct (Ho x Hx) as [->|H]; [right; fields; cbn; set_solver|left; by apply live_opening].
    - right. fields. exact Hx. }
  destruct (negb (c ∈b clients m1)); [apply Hrefuse|]. destruct (active m1 !! c) eqn:Ha; [apply Hrefuse|].
  do 2 (case_goal; [apply Hrefuse|]).
  assert (forall x, x = v \/ x ∈ viewers_of (active m1) ->
    x ∈ viewers_of (<[c := {| av_identity := {| IdID := HsID target; IdWindowID := []; IdGeneration := HsGeneration target |};
                            av_viewer := v; av_opening := o |}]> (active m1))) as Hv.
  { intros x Hx. by apply viewers_insert. }
  apply keeps_viewers; try done; [fields; by left|intros x Hx; left..].
  - apply live_viewer. fields. cbn [active]. apply Hv. right. by rewrite E1.
  - destruct (Ho x Hx) as [->|H]; [|by apply live_opening].
    apply live_viewer. fields. cbn [active]. apply Hv. by left.
  - apply live_viewer. fields. cbn [active]. apply Hv. left. by apply list_elem_of_singleton.
Qed.

Lemma exec_account i a es s K : manager_ok_ (mgr s) -> (op_only i = true -> instr_ok_ (mgr s) i) ->
  pointers_ok s (i :: K) -> keeps_account i s (exec_ i a es s).
Proof.
  intros Hm Hop Hp. destruct i.
  all: try (cbn [exec]; repeat case_goal; frame; fail).
  all: try (cbn [exec]; open_method; unfold make; cbv beta iota zeta; repeat case_goal; frame; fail).
  - apply account_commit; [done|]. by apply Hop.
  - apply account_rotate.
  - by eapply account_reserve.
  - by eapply account_hand.
  - by eapply account_activate.
  - by eapply account_remove.
  - by apply account_close.
  - apply account_disconnect.
  - apply account_watch.
Qed.

(** Clearing hands everything the manager holds to the clean-up. *)
Lemma owned_cleanup cl sh x : x ∈ owned (cleanup_code cl sh) <->
  x ∈ cl_viewers cl \/ cl_tunnel cl = Some x \/ cl_server cl = Some x \/ cl_cancel cl = Some x.
Proof.
  unfold cleanup_code, closeViewers, closeClients. rewrite !flat_map_app, owned_closes, !elem_of_app.
  assert (owned (map (fun c => ICloseClient c sh) (cl_clients cl)) = []) as ->.
  { induction (cl_clients cl) as [|c cs IH]; [done|exact IH]. }
  cbn [flat_map owns app]. rewrite elem_of_nil.
  destruct (cl_tunnel cl), (cl_server cl), (cl_cancel cl); cbn [flat_map owns app];
    rewrite ?list_elem_of_singleton, ?elem_of_nil; naive_solver.
Qed.

Lemma elem_of_options (o : option nat) x : x ∈ option_list o <-> o = Some x.
Proof.
  destruct o as [y|]; [change (x ∈ [y] <-> Some y = Some x); rewrite list_elem_of_singleton|change (x ∈ [] <-> None = Some x); rewrite elem_of_nil];
    split; intros; by simplify_eq.
Qed.

Lemma elem_of_held s x : x ∈ held s <-> m_server (mgr s) = Some x \/ m_tunnel (mgr s) = Some x \/
  runtimeCancel (mgr s) = Some x \/ x ∈ viewers_of (active (mgr s)) ++ opening_viewers (heap s) (opening (mgr s)).
Proof. unfold held. rewrite !elem_of_app, !elem_of_options. tauto. Qed.

Lemma clear_account c s r cl sh : opened (o_sh r) = opened s -> released (o_sh r) = released s ->
  (forall x, x ∈ owned (cleanup_code cl sh) -> x ∈ owned (new_code r)) ->
  cl_server cl = m_server (mgr s) -> cl_tunnel cl = m_tunnel (mgr s) -> cl_cancel cl = runtimeCancel (mgr s) ->
  cl_viewers cl = viewers_of (active (mgr s)) ++ opening_viewers (heap s) (opening (mgr s)) ->
  keeps_account (INeedOp c) s r.
Proof.
  intros E1 E2 Hc E3 E4 E5 E6. split.
  - intros x. rewrite E1. by left.
  - intros x. by rewrite E2.
  - intros x Hx%elem_of_held. right. apply Hc, owned_cleanup. rewrite E3, E4, E5, E6. tauto.
  - by intros x Hx%elem_of_nil.
Qed.

Lemma lock_account c es s : manager_ok_ (mgr s) -> keeps_account (INeedOp c) s (lock_section c es s).
Proof.
  intros Hm. destruct c; open_section; unfold make, clearLocked, detachClientsLocked; cbv beta iota zeta.
  - repeat case_goal; frame.
  - repeat case_goal; frame.
  - case_goal; [frame|]. eapply clear_account; [reflexivity|reflexivity|intros x Hx; fields;
      rewrite app_nil_r, flat_map_app, elem_of_app; left; exact Hx|reflexivity..].
  - repeat case_goal; try (frame; fail).
    all: eapply clear_account; [reflexivity|reflexivity|intros x Hx; fields; rewrite app_nil_r;
      cbn [flat_map owns diag app]; rewrite flat_map_app, elem_of_app; left; exact Hx|reflexivity..].
Qed.

(** ** The rewriting of the code *)

Inductive rewrites (s s' : shared) (code code' : list instr) : Prop :=
| rw_exec i a es K : needs_op i = false -> (op_only i = true -> instr_ok_ (mgr s) i) ->
    code ≡ₚ i :: K -> code' ≡ₚ new_code (exec_ i a es s) ++ K -> s' = o_sh (exec_ i a es s) ->
    rewrites s s' code code'
| rw_lock c es K : code ≡ₚ INeedOp c :: K -> code' ≡ₚ new_code (lock_section c es s) ++ K ->
    s' = o_sh (lock_section c es s) -> rewrites s s' code code'
| rw_call i : is_call i = true -> code' ≡ₚ i :: code -> s' = s -> rewrites s s' code code'
| rw_quiet : code' = code -> heap s' = heap s -> fresh s' = fresh s -> opened s' = opened s ->
    released s ⊆ released s' -> held s' = held s -> log s' = log s -> opening (mgr s') = opening (mgr s) ->
    active (mgr s') = active (mgr s) -> rewrites s s' code code'.

Lemma mstep_rewrites w w' :
  world_ok url_parse url_string hostname parse_ip qr_encode w -> mstep_ w w' ->
  rewrites (sh w) (sh w') (all_code w) (all_code w').
Proof.
  intros [Hm Ho Hp] Hstep. unfold all_code. destruct Hstep as [w i Hi|w l1 i k es l2 a Hn E|w l1 c k es l2 E0 E
    |w i k es a Hn E|w es E|w rt E|w e rest E]; unfold pool_code, op_code in *; cbn [sh op pool].
  - apply (rw_call _ _ _ _ i); [done| |done]. rewrite pool_code_app. cbn. solve_Permutation.
  - rewrite E, pool_code_app in Hp |- *. cbn [map concat code] in Hp |- *. rewrite <- app_comm_cons in Hp.
    apply plain_code_app in Hp as [_ [Hi _]%plain_cons].
    set (O := match op w with Some t => code t | None => [] end).
    eapply (rw_exec _ _ _ _ i a es (O ++ concat (map code l1) ++ k ++ concat (map code l2)));
      [done|congruence| | |reflexivity].
    + solve_Permutation.
    + rewrite pool_code_app. cbn [map concat continue code]. rewrite map_app, concat_app, goroutines_code.
      unfold new_code. solve_Permutation.
  - rewrite E0, E, !pool_code_app. cbn [map concat code].
    eapply (rw_lock _ _ _ _ c es (concat (map code l1) ++ k ++ concat (map code l2))); [| |reflexivity].
    + solve_Permutation.
    + assert (o_spawn (lock_section c es (sh w)) = []) as Hs.
      { destruct c; open_section; unfold make, clearLocked, detachClientsLocked; cbv beta iota zeta;
          repeat case_goal; done. }
      unfold new_code. rewrite Hs. cbn [continue code concat]. solve_Permutation.
  - rewrite E in Ho |- *. cbn [code] in *. eapply (rw_exec _ _ _ _ i a es (k ++ concat (map code (pool w)))); [done| |reflexivity| |reflexivity].
    + intros Hi. unfold op_ok, op_instrs in Ho. cbn [List.filter] in Ho. rewrite Hi in Ho.
      by destruct (List.filter op_only k).
    + cbn [continue code]. rewrite pool_code_app, goroutines_code. unfold new_code. solve_Permutation.
  - rewrite E. by apply rw_quiet.
  - apply rw_quiet; try done. cbn. set_solver.
  - by apply rw_quiet.
Qed.

(** ** A registered opening has its method *)

(** The openings that an instruction will take out of the manager's map. *)
Definition registers (i : instr) : list (nat * nat) :=
  match i with
  | IStartViewer c _ o | IHandOver c _ o | IActivate c _ o | IRemoveOpening c o => [(c, o)]
  | _ => []
  end.
Definition attended (s : shared) (code : list instr) : Prop :=
  forall c o, opening (mgr s) !! c = Some o -> (c, o) ∈ flat_map registers code.

(** A step registers what it goes on to attend to, and what it attended to it
    takes out or goes on with. *)
Record keeps_attended (i : instr) (s : shared) (r : outcome) : Prop := {
  kt_opening : forall c o, opening (mgr (o_sh r)) !! c = Some o ->
    opening (mgr s) !! c = Some o \/ (c, o) ∈ flat_map registers (new_code r);
  kt_mine : forall c o, (c, o) ∈ registers i -> opening (mgr (o_sh r)) !! c = Some o ->
    (c, o) ∈ flat_map registers (new_code r)
}.

Lemma keeps_attends i s r K : keeps_attended i s r -> attended s (i :: K) -> attended (o_sh r) (new_code r ++ K).
Proof.
  intros [H1 H2] Ha c o Hc. rewrite flat_map_app, elem_of_app.
  destruct (H1 c o Hc) as [Ho|?]; [|by left]. specialize (Ha c o Ho). cbn [flat_map] in Ha.
  rewrite elem_of_app in Ha. destruct Ha as [Hi|?]; [left; by apply H2|by right].
Qed.

Lemma attended_frame i s r : (forall c o, opening (mgr (o_sh r)) !! c = Some o -> opening (mgr s) !! c = Some o) ->
  (forall c o, (c, o) ∈ registers i -> opening (mgr (o_sh r)) !! c <> Some o \/ (c, o) ∈ flat_map registers (new_code r)) ->
  keeps_attended i s r.
Proof.
  intros H1 H2. split; [intros c o Hc; left; auto|]. intros c o Hi Hc. by destruct (H2 c o Hi).
Qed.

Ltac attended := apply attended_frame; [by intros|intros c' o' Hco; by apply elem_of_nil in Hco].

Lemma exec_attended i a es s : keeps_attended i s (exec_ i a es s).
Proof.
  destruct i; cbn [exec]; try (repeat case_goal; attended; fail).
  all: open_method; unfold make, detachClientsLocked; cbv beta iota zeta.
  all: try (repeat case_goal; attended; fail).
  - repeat case_goal; try (attended; fail); guards. split; [|by intros c' o' Hco%elem_of_nil].
    cbn. intros c' o' [[<- <-]|[_ Ho]]%lookup_insert_Some; [right|by left].
    cbn. set_solver.
  - case_goal; (apply attended_frame; [by intros|]); intros c' o' Hco; right; exact Hco.
  - case_bool_decide as Ho; cbn [negb]; (apply attended_frame; [by intros|]);
      intros c' o' [= -> ->]%list_elem_of_singleton; [right|by left]. fields. cbn. set_solver.
  - set (m1 := if _ : bool then _ else mgr s).
    assert (forall c' o', opening m1 !! c' = Some o' -> opening (mgr s) !! c' = Some o') as Hsub.
    { intros c' o'. unfold m1. case_bool_decide; [|done]. cbn. by intros [_ Hl]%lookup_delete_Some. }
    assert (opening m1 !! c <> Some o) as Hmine.
    { unfold m1. case_bool_decide; [|done]. cbn. by rewrite lookup_delete_eq. }
    assert (forall code sh', opening (mgr sh') = opening m1 -> keeps_attended (IActivate c v o) s
      {| o_code := code; o_errs := es; o_spawn := []; o_sh := sh' |}) as Hall.
    { intros code sh' E. apply attended_frame; cbn [o_sh]; rewrite E; [done|].
      intros c' o' [= -> ->]%list_elem_of_singleton. by left. }
    destruct (negb (c ∈b clients m1)); [by apply Hall|]. destruct (active m1 !! c); [by apply Hall|].
    repeat case_goal; by apply Hall.
  - apply attended_frame.
    + intros c' o'. case_bool_decide; [|done]. cbn. by intros [_ Hl]%lookup_delete_Some.
    + intros c' o' [= -> ->]%list_elem_of_singleton. left. case_bool_decide; [|done]. cbn. by rewrite lookup_delete_eq.
  - assert (forall code, keeps_attended (IClose c) s {| o_code := code; o_errs := es; o_spawn := [];
      o_sh := with_mgr s ((mgr s) <| active := delete c (active (mgr s)) |> <| opening := delete c (opening (mgr s)) |>) |}) as Hall.
    { intros code. apply attended_frame; [|by intros c' o' Hco%elem_of_nil].
      cbn. by intros c' o' [_ Hl]%lookup_delete_Some. }
    destruct (active (mgr s) !! c); [by apply Hall|]. repeat case_goal; by apply Hall.
  - apply attended_frame; [|by intros c' o' Hco%elem_of_nil]. cbn. by intros c' o' [_ Hl]%lookup_delete_Some.
Qed.

Lemma lock_attended c es s : keeps_attended (INeedOp c) s (lock_section c es s).
Proof.
  destruct c; open_section; unfold make, clearLocked, detachClientsLocked; cbv beta iota zeta;
    repeat case_goal; attended.
Qed.

(** ** Every reachable world *)

Record released_ok (w : world) : Prop := {
  ro_world : world_ok url_parse url_string hostname parse_ip qr_encode w;
  ro_pointers : pointers_ok (sh w) (all_code w);
  ro_accounted : accounted (sh w) (all_code w);
  ro_attended : attended (sh w) (all_code w)
}.

Lemma accounted_perm s code code' : code ≡ₚ code' -> accounted s code -> accounted s code'.
Proof. intros Hp Ha x Hx. destruct (Ha x Hx) as [?|H]; [by left|right]. by rewrite <- (flat_map_perm owns _ _ Hp). Qed.
Lemma attended_perm s code code' : code ≡ₚ code' -> attended s code -> attended s code'.
Proof. intros Hp Ha c o Ho. rewrite <- (flat_map_perm registers _ _ Hp). by apply Ha. Qed.

Lemma call_owns i : is_call i = true -> owns i = [] /\ ptrs i = [] /\ gives i = [] /\ registers i = [].
Proof. by destruct i. Qed.

Lemma released_step w w' : released_ok w -> mstep_ w w' -> released_ok w'.
Proof.
  intros [Hw Hp Ha Ht] Hstep. pose proof (mstep_ok _ _ _ _ _ _ _ _ _ Hw Hstep) as Hw'.
  pose proof (wo_manager _ _ _ _ _ _ Hw) as Hm.
  destruct (mstep_rewrites w w' Hw Hstep)
    as [i a es K Hn Hop E E' Es|c es K E E' Es|i Hi E Es|E Eh Ef Eo Er Ehd El Eop Eac].
  - apply (pointers_perm _ _ _ E) in Hp. apply (accounted_perm _ _ _ E) in Ha. apply (attended_perm _ _ _ E) in Ht.
    split; [done|rewrite Es..].
    + eapply pointers_perm; [symmetry; exact E'|]. by apply exec_pointers.
    + eapply accounted_perm; [symmetry; exact E'|]. eapply keeps_accounted; [by eapply exec_account|done].
    + eapply attended_perm; [symmetry; exact E'|]. eapply keeps_attends; [apply exec_attended|done].
  - apply (pointers_perm _ _ _ E) in Hp. apply (accounted_perm _ _ _ E) in Ha. apply (attended_perm _ _ _ E) in Ht.
    split; [done|rewrite Es..].
    + eapply pointers_perm; [symmetry; exact E'|]. by apply lock_pointers.
    + eapply accounted_perm; [symmetry; exact E'|]. eapply keeps_accounted; [by apply lock_account|done].
    + eapply attended_perm; [symmetry; exact E'|]. eapply keeps_attends; [apply lock_attended|done].
  - destruct (call_owns i Hi) as (E1&E2&E3&E4). split; [done|rewrite Es..].
    + eapply pointers_perm; [symmetry; exact E|]. destruct Hp.
      split; cbn [flat_map]; rewrite ?E2, ?E3; done.
    + eapply accounted_perm; [symmetry; exact E|]. intros x Hx. cbn [flat_map]. rewrite E1. by apply Ha.
    + eapply attended_perm; [symmetry; exact E|]. intros c o Hc. cbn [flat_map]. rewrite E4. by apply Ht.
  - split; [done|..]; rewrite E.
    + destruct Hp. split; rewrite ?Eh, ?Ef; done.
    + intros x. rewrite Eo. intros Hx. destruct (Ha x Hx) as [[Hr|Hh]|?]; [left; left; auto|left; right|by right].
      by rewrite Ehd.
    + intros c o. rewrite Eop. apply Ht.
Qed.

Lemma reachable_released w : reachable (fun w => w = start_world new_manager) mstep_ w -> released_ok w.
Proof.
  apply (reachable_invariant _ _ released_ok); [|intros; by eapply released_step].
  intros s ->. split.
  - by apply reachable_ok with (target := target) (has_sink := has_sink), reachable_init.
  - split; cbn; try done; [by intros o [x Hx]|constructor|by intros o Ho%elem_of_nil..|by intros v o Ho%elem_of_nil].
  - intros x Hx. by apply elem_of_empty in Hx.
  - intros c o Hc. cbn in Hc. by rewrite lookup_empty in Hc.
Qed.

(** ** At rest *)

(** No method runs: every one is finished, or is a watcher that waits for a
    tunnel or a viewer to end. *)
Definition waits (i : instr) : bool :=
  match i with IWatchTunnel _ | IWatchViewer _ _ _ => true | _ => false end.
Definition at_rest (w : world) : Prop :=
  op w = None /\ Forall (fun t => forallb waits (code t) = true) (pool w).

Lemma at_rest_nothing {A} (f : instr -> list A) w : (forall i, waits i = true -> f i = []) ->
  at_rest w -> flat_map f (all_code w) = [].
Proof.
  intros Hf [Ho Hp]. unfold all_code, op_code, pool_code. rewrite Ho. cbn [app].
  induction Hp as [|t ts Ht _ IH]; [done|]. cbn. rewrite flat_map_app, IH, app_nil_r.
  revert Ht. generalize (code t). intros k. induction k as [|i k IHk]; [done|].
  cbn. intros [Hi Hk]%andb_true_iff. by rewrite Hf, IHk.
Qed.

(** C33: nothing is left open.  Whenever no method is running, every server,
    tunnel, context, prepared viewer and viewer that was ever made has been
    released, or the manager is ready and it is its server, its tunnel, its
    context, or the viewer of a connected client; so after a shutdown, a failed
    start or a tunnel's exit nothing is left. *)
Theorem nothing_left_open w :
  reachable (fun w => w = start_world new_manager) mstep_ w -> at_rest w ->
  let s := sh w in let m := mgr s in
  (forall x, x ∈ opened s -> x ∈ released s \/
     m_state m = StateReady /\
     (m_server m = Some x \/ m_tunnel m = Some x \/ runtimeCancel m = Some x \/
      exists c av, c ∈ clients m /\ active m !! c = Some av /\ av_viewer av = x)) /\
  opening m = ∅ /\
  (m_state m <> StateReady -> opened s ⊆ released s).
Proof.
  intros Hw Hrest s m. destruct (reachable_released w Hw) as [Hok _ Ha Ht].
  pose proof (wo_manager _ _ _ _ _ _ Hok) as Hm.
  assert (opening m = ∅) as Hop.
  { apply map_empty. intros c. destruct (opening m !! c) as [o|] eqn:E; [|done].
    pose proof (Ht c o E) as Hin. rewrite at_rest_nothing in Hin; [by apply elem_of_nil in Hin|by intros []|done]. }
  assert (forall x, x ∈ opened s -> x ∈ released s \/ x ∈ held s) as Hall.
  { intros x Hx. destruct (Ha x Hx) as [?|Hin]; [done|].
    rewrite at_rest_nothing in Hin; [by apply elem_of_nil in Hin|by intros []|done]. }
  assert (m_state m <> StateReady -> held s = []) as Hidle by (by apply held_idle).
  split; [|split; [done|]].
  - intros x Hx. destruct (Hall x Hx) as [?|Hh]; [by left|right].
    destruct (decide (m_state m = StateReady)) as [Hr|Hr]; [|rewrite Hidle in Hh by done; by apply elem_of_nil in Hh].
    split; [done|]. apply elem_of_held in Hh as [?|[?|[?|[Hv|Hv]%elem_of_app]]]; [tauto..| |].
    + apply elem_of_viewers in Hv as (c & av & Hc & Ev). do 3 right. exists c, av. split; [|done].
      apply (ok_active _ _ _ _ _ _ Hm c). by exists av.
    + apply elem_of_openings in Hv as (c & p & ov & Hc & _). fold m in Hc. rewrite Hop in Hc. by rewrite lookup_empty in Hc.
  - intros Hr x Hx. destruct (Hall x Hx) as [?|Hh]; [done|]. rewrite Hidle in Hh by done. by apply elem_of_nil in Hh.
Qed.
End Release.

(** ** A detached viewer is silent *)

Definition is_output (c o : nat) (e : effect) : bool :=
  match e with EOutput c' o' _ => (c' =? c)%nat && (o' =? o)%nat | _ => false end.
(** The output that was sent to client [c] through opening [o]. *)
Definition outputs (c o : nat) (s : shared) : list effect := List.filter (is_output c o) (log s).

(** The manager no longer knows [o] as a viewer of [c], open or opening. *)
Definition detached (c o : nat) (s : shared) : Prop :=
  opening (mgr s) !! c <> Some o /\ forall av, active (mgr s) !! c = Some av -> av_opening av <> o.

Record stays_silent (c o : nat) (s s' : shared) : Prop := {
  ss_fresh : (o < fresh s')%nat; ss_detached : detached c o s'; ss_outputs : outputs c o s' = outputs c o s
}.

Section Silent.
Variables (url_parse : bytes -> result URL) (url_string : URL -> bytes) (hostname : URL -> bytes)
  (parse_ip : bytes -> bool) (qr_encode : bytes -> result bytes).
Variables (target : HostSession) (has_sink : bool).
#[local] Abbreviation exec_ := (exec url_parse url_string hostname parse_ip qr_encode target has_sink).
#[local] Abbreviation mstep_ := (mstep url_parse url_string hostname parse_ip qr_encode target has_sink).

(** What a step that opens nothing leaves alone. *)
Lemma silent_frame c o s s' : (o < fresh s)%nat -> detached c o s -> (fresh s <= fresh s')%nat ->
  (forall p, opening (mgr s') !! c = Some p -> opening (mgr s) !! c = Some p) ->
  (forall av, active (mgr s') !! c = Some av -> active (mgr s) !! c = Some av) ->
  outputs c o s' = outputs c o s -> stays_silent c o s s'.
Proof. intros Hf [H1 H2] Hle Ho Ha Hout. split; [lia|split; auto|done]. Qed.

Ltac outputs_same := unfold outputs; cbn; rewrite ?List.filter_app; cbn; rewrite ?app_nil_r; reflexivity.
Ltac silent_step := apply silent_frame; [done|done|cbn; lia|by intros|by intros|outputs_same].

(** Taking viewers and openings out. *)
Ltac silent_delete := apply silent_frame; [done|done|cbn; lia
  |cbn; intros ? Hl; first [exact Hl | by apply lookup_delete_Some in Hl as [_ Hl] | by rewrite lookup_empty in Hl]
  |cbn; intros ? Hl; first [exact Hl | by apply lookup_delete_Some in Hl as [_ Hl] | by rewrite lookup_empty in Hl]|outputs_same].

Lemma exec_silent c o i a es s : (o < fresh s)%nat -> detached c o s ->
  stays_silent c o s (o_sh (exec_ i a es s)).
Proof.
  intros Hf Hd. destruct i; cbn [exec]; try (repeat case_goal; silent_step; fail).
  all: open_method; unfold make, detachClientsLocked; cbv beta iota zeta.
  all: try (repeat case_goal; silent_delete; fail).
  - (* a new opening is not [o] *)
    repeat case_goal; try (silent_step; fail). destruct Hd as [Hd1 Hd2]. split; [cbn; lia| |outputs_same]. split; cbn; [|exact Hd2].
    intros [[_ E]|[_ Hl]]%lookup_insert_Some; [lia|done].
  - (* only a registered opening becomes active *)
    destruct (opening (mgr s) !! c0 ==b Some o0) eqn:Ho; cbn [negb]; repeat case_goal; try silent_delete.
    guards. destruct Hd as [Hd1 Hd2]. split; [done| |outputs_same]. split; cbn.
    + intros [_ Hl]%lookup_delete_Some. done.
    + intros av [[-> <-]|[_ Hl]]%lookup_insert_Some; [cbn; congruence|by apply Hd2].
  - destruct (negb (opening (mgr s) !! c0 ==b Some o0) &&
      negb match active (mgr s) !! c0 with Some av => (av_opening av =? o0)%nat | None => false end) eqn:Hr;
      [silent_step|].
    apply silent_frame; [done|done|done|done|done|]. unfold outputs. cbn. rewrite List.filter_app. cbn.
    destruct ((c0 =? c)%nat && (o0 =? o)%nat) eqn:E; [|apply app_nil_r].
    apply andb_true_iff in E as [->%Nat.eqb_eq ->%Nat.eqb_eq]. destruct Hd as [Hd1 Hd2].
    rewrite bool_decide_false in Hr by done. cbn in Hr. apply negb_false_iff in Hr.
    destruct (active (mgr s) !! c) as [av|] eqn:Ea; [|done]. apply Nat.eqb_eq in Hr. by destruct (Hd2 av eq_refl).
Qed.

Lemma lock_silent c o m es s : (o < fresh s)%nat -> detached c o s -> stays_silent c o s (o_sh (lock_section m es s)).
Proof.
  intros Hf Hd. destruct m; open_section; unfold make, clearLocked, detachClientsLocked; cbv beta iota zeta;
    repeat case_goal; silent_step.
Qed.

Lemma steps_silent c o w w' : rtc mstep_ w w' -> (o < fresh (sh w))%nat -> detached c o (sh w) ->
  detached c o (sh w') /\ outputs c o (sh w') = outputs c o (sh w).
Proof.
  induction 1 as [|w1 w2 w3 Hstep _ IH]; intros Hf Hd; [done|].
  assert (stays_silent c o (sh w1) (sh w2)) as [Hf2 Hd2 Ho2].
  { destruct Hstep; cbn [sh]; try (apply silent_frame; done); try by apply exec_silent. by apply lock_silent. }
  destruct (IH Hf2 Hd2) as [Hd3 Ho3]. split; [done|congruence].
Qed.

(** C34: a detached viewer is silent.  When a client disconnects or closes its
    terminal, and when the pairing is rotated, the manager shuts down or the
    tunnel exits, no viewer that was opened for the client before, and none that
    was being opened, sends it another byte of output, in any later run. *)
Theorem detached_viewers_silent c (w w' : world) :
  rtc mstep_ w w' ->
  (forall o, (o < fresh (sh w))%nat -> detached c o (sh w) -> outputs c o (sh w') = outputs c o (sh w)) /\
  (forall a es s o, detached c o (o_sh (exec_ (IDisconnected c) a es s)) /\
     detached c o (o_sh (exec_ (IClose c) a es s))) /\
  (forall secret pairing qr a es s o, m_state (mgr s) = StateReady -> is_Some (m_server (mgr s)) ->
     detached c o (o_sh (exec_ (IRotateCommit secret pairing qr) a es s))) /\
  (forall st text h m o s, detached c o (with_mgr s (snd (clearLocked h st text m)))).
Proof.
  intros Hr. split_and!.
  - intros o Hf Hd. by apply steps_silent.
  - intros a es s o. split; cbn [exec exec_client]; cbn [exec_viewer]; repeat case_goal; split; cbn; rewrite ?lookup_delete_eq; done.
  - intros secret pairing qr a es s o Hs [server Hsv]. cbn [exec exec_start]; cbn [exec_rotate]. unfold detachClientsLocked.
    rewrite Hsv, (bool_decide_true _ Hs). cbn. split; cbn; rewrite ?lookup_empty; done.
  - intros st text h m o s. unfold clearLocked, detachClientsLocked. split; cbn; rewrite ?lookup_empty; done.
Qed.
End Silent.

(** ** Concrete runs *)

Lemma nothing_left_open_witness :
  opened (sh (demo_run full_turns start0)) ⊆ released (sh (demo_run full_turns start0)).
Proof.
  refine (proj2 (proj2 (nothing_left_open demo_parse origin Host (fun _ => false) demo_qr demo_session false
    (demo_run full_turns start0) (demo_run_reachable full_turns) _)) _).
  - split; [vm_compute; reflexivity|].
    replace (pool (demo_run full_turns start0)) with (map goroutine [[IWatchTunnel 2]; [];
      [IWatchViewer 7 {| IdID := !"$1"; IdWindowID := []; IdGeneration := !"g1" |} 5]])
      by (vm_compute; reflexivity).
    repeat constructor.
  - vm_compute. discriminate.
Defined.

(** Client 7 disconnects; its viewer's output after that goes nowhere. *)
Definition gone_world : world :=
  demo_run (start_turns ++ connect_turns 7%nat 1 ++ Call (IDisconnected 7%nat) :: replicate 4 (Pool 3 fine)) start0.
Definition output_turns (n : nat) : list turn := [Call (IOutput 7%nat 4%nat !"secret"); Pool n fine].

Lemma detached_viewers_silent_witness :
  outputs 7%nat 4%nat (sh (demo_run (output_turns 4) gone_world)) = outputs 7%nat 4%nat (sh gone_world).
Proof.
  refine (proj1 (detached_viewers_silent demo_parse origin Host (fun _ => false) demo_qr demo_session false 7%nat
    gone_world (demo_run (output_turns 4) gone_world) (run_turns_steps _ _ _ _ _ _ _ _ _)) 4%nat _ _).
  - vm_compute. repeat constructor.
  - split; [vm_compute; discriminate|]. intros av Hav. vm_compute in Hav. discriminate Hav.
Defined.

(** While it is connected the output is sent. *)
Example connected_output :
  outputs 7%nat 4%nat (sh (demo_run (start_turns ++ connect_turns 7%nat 1 ++ output_turns 3) start0)) = [EOutput 7%nat 4%nat !"secret"].
Proof. vm_compute. reflexivity. Qed.

(** A snapshot is published after its lock is given up: a viewer that fails to
    close takes one while the manager is ready, the manager shuts down, and only
    then the old snapshot is published.  The last event says "ready". *)
Example stale_snapshot_published_last :
  let w := demo_run (start_turns ++ connect_turns 7%nat 1 ++
    [Call (IClose 7%nat); Pool 3 fine; Pool 3 (fails !"no such window"); Pool 3 fine; Pool 3 fine] ++
    shutdown_turns 4 ++ [Pool 3 fine]) start0 in
  (m_state (mgr (sh w)), map SnState (events (mgr (sh w)))) =
  (StateStopped, [StateStarting; StateReady; StateStopped; StateReady]).
Proof. vm_compute. reflexivity. Qed.
