(* ===== verification/MirrorViewerParse.v ===== *)
(** * Window sizes as tmux reports them (internal/mirror/viewer.go)

    Before a viewer is attached the window's size, its [window-size] option and
    the height of the status line are captured; afterwards the list of tmux
    clients is searched for the viewer's own client and compared with what was
    captured.  Sizes are 16-bit integers. *)

From S2P Require Import Prelude GoString GoUnicode GoConv GoErrors TmuxQuote TmuxFormat TmuxArgs.
From S2P Require Import MirrorProtocol MirrorDiagnostics MirrorManager.
Open Scope Z_scope.

Definition tab_byte : byte := x09.
Definition newline : byte := x0a.
Definition max_uint16 : Z := 65535.
Definition uint16 (n : Z) : Z := n mod 2 ^ 16.

Record ViewerGeometry := {
  VgColumns : Z; VgRows : Z;              (* what the browser shows *)
  statusRows : Z; statusValue : bytes     (* the status line among the rows *)
}.

Record viewerClientGeometry := {
  vc_name : bytes; vc_pid : Z; vc_columns : Z; vc_rows : Z; vc_flags : bytes; vc_windowID : bytes;
  vc_windowColumns : Z; vc_windowRows : Z; vc_windowBigger : bool; vc_statusRows : Z
}.

Definition no_client : viewerClientGeometry :=
  {| vc_name := []; vc_pid := 0; vc_columns := 0; vc_rows := 0; vc_flags := []; vc_windowID := [];
     vc_windowColumns := 0; vc_windowRows := 0; vc_windowBigger := false; vc_statusRows := 0 |}.

(** An at sign and digits.  The code ranges over characters. *)
Definition validWindowID (windowID : bytes) : bool :=
  match windowID with
  | c :: (_ :: _) as rest =>
      Byte.eqb c "@"%byte &&
      forallb (fun '(value, _) => (48 <=? value) && (value <=? 57)) (runes (drop 1 windowID))
  | _ => false
  end.

Definition errViewerClientNotAttached : error := ESentinel ErrViewerClientNotAttached.

Section Parse.
Context `{UnicodeTables}.

Definition parseStatusRows (value : bytes) : result Z :=
  let value := trim_space value in
  if value ==b !"off" then Ok 0
  else if value ==b !"on" then Ok 1
  else match parse_uint 16 value with
  | Some rows => if 5 <? rows then Err (EText (!"unexpected tmux status value " ++ quote value)) else Ok rows
  | None => Err (EText (!"unexpected tmux status value " ++ quote value))
  end.

(** The captured window: its identity, geometry, mode, and whether the window
    inherits the mode. *)
Record capture := { cp_window : bytes; cp_geometry : ViewerGeometry; cp_mode : bytes; cp_inherited : bool }.

Definition parse_window_line (line status : bytes) : result (bytes * ViewerGeometry) :=
  let unexpected := EText (!"unexpected tmux window geometry " ++ quote line) in
  match split_byte tab_byte line with
  | [f0; f1; f2] =>
      let windowID := trim_space f0 in
      fail_if negb (validWindowID windowID) with EText (!"unexpected tmux window id " ++ quote windowID);;
      match parse_uint 16 f1, parse_uint 16 f2 with
      | Some columns, Some rows =>
          let? statusRows := parseStatusRows status in
          fail_if max_uint16 - statusRows <? rows
            with EText (!"tmux viewer rows overflow: " ++ format_uint rows ++ !" + " ++ format_uint statusRows);;
          Ok (windowID, {| VgColumns := columns; VgRows := uint16 (rows + statusRows);
                           statusRows := statusRows; statusValue := trim_space status |})
      | _, _ => Err unexpected
      end
  | _ => Err unexpected
  end.

Definition parse_mode_line (line : bytes) : result (bytes * bool) :=
  match fields line with
  | [source; mode] =>
      let? inherited := (if source ==b !"window-size" then Ok false
                         else if source ==b !"window-size*" then Ok true
                         else Err (EText (!"unexpected tmux window-size source " ++ quote source))) in
      fail_if negb (mode ∈b [!"largest"; !"smallest"; !"manual"; !"latest"])
        with EText (!"unexpected tmux window-size mode " ++ quote mode);;
      Ok (mode, inherited)
  | _ => Err (EText (!"unexpected tmux window-size result " ++ quote line))
  end.

Definition parseWindowPinUnchecked (result : bytes) : GoErrors.result capture :=
  match split_byte newline (trim_space result) with
  | [l0; l1; l2] =>
      let? (windowID, geometry) := parse_window_line l0 l2 in
      let? (mode, inherited) := parse_mode_line l1 in
      Ok {| cp_window := windowID; cp_geometry := geometry; cp_mode := mode; cp_inherited := inherited |}
  | _ => Err (EText (!"unexpected tmux pin result " ++ quote result))
  end.

Definition parseWindowPin (result : bytes) : GoErrors.result capture :=
  let? c := parseWindowPinUnchecked result in
  match validateDimensions (VgColumns (cp_geometry c)) (VgRows (cp_geometry c)) with
  | Some err => Err (wrapf !"invalid tmux window geometry: " err)
  | None => Ok c
  end.

(** ** The list of clients *)

(** One line of ten fields. *)
Definition parse_client_line (line : bytes) : result viewerClientGeometry :=
  match split_byte tab_byte line with
  | [f0; f1; f2; f3; f4; f5; f6; f7; f8; f9] =>
      let bad_pid := EText (!"unexpected tmux client pid " ++ quote f1) in
      match parse_int f1 with
      | None => Err bad_pid
      | Some pid =>
      fail_if pid <=? 0 with bad_pid;;
      match parse_uint 16 f2, parse_uint 16 f3, parse_uint 16 f6, parse_uint 16 f7 with
      | Some columns, Some rows, Some windowColumns, Some windowRows =>
          fail_if negb (validWindowID f5) with EText (!"unexpected tmux client window id " ++ quote f5);;
          let? windowBigger := (if f8 ==b !"0" then Ok false else if f8 ==b !"1" then Ok true
                                else Err (EText (!"unexpected tmux window-bigger value " ++ quote f8))) in
          let? statusRows := parseStatusRows f9 in
          Ok {| vc_name := f0; vc_pid := pid; vc_columns := columns; vc_rows := rows; vc_flags := f4;
                vc_windowID := f5; vc_windowColumns := windowColumns; vc_windowRows := windowRows;
                vc_windowBigger := windowBigger; vc_statusRows := statusRows |}
      | _, _, _, _ => Err (EText (!"unexpected tmux client dimensions " ++ quote line))
      end
      end
  | _ => Err (EText (!"unexpected tmux client geometry " ++ quote line))
  end.

(** The loop over the lines; [match_] is the client found so far. *)
Fixpoint find_client (targetPID : Z) (lines : list bytes) (match_ : option viewerClientGeometry)
    : result viewerClientGeometry :=
  match lines with
  | [] =>
      match match_ with
      | Some value => Ok value
      | None => Err (EWrap [] errViewerClientNotAttached (!": pid " ++ itoa targetPID))
      end
  | line :: lines =>
      if line ==b [] then find_client targetPID lines match_ else
      let? value := parse_client_line line in
      if negb (vc_pid value =? targetPID) then find_client targetPID lines match_ else
      match match_ with
      | Some _ => Err (EText (!"duplicate tmux viewer client pid " ++ itoa targetPID))
      | None => find_client targetPID lines (Some value)
      end
  end.

Definition parseViewerClientGeometry (result : bytes) (targetPID : Z) : GoErrors.result viewerClientGeometry :=
  fail_if targetPID <=? 0 with EText (!"invalid viewer client pid " ++ itoa targetPID);;
  find_client targetPID (split_byte newline (trim_space result)) None.
End Parse.

Definition viewerClientHasFlag (flags want : bytes) : bool :=
  existsb (fun flag => trim_space flag ==b want) (split_byte ","%byte flags).

(** The sums are 32-bit and cannot overflow. *)
Definition viewerGeometryMatches (captured : ViewerGeometry) (windowID : bytes) (client : viewerClientGeometry)
    : bool :=
  (vc_windowID client ==b windowID) && viewerClientHasFlag (vc_flags client) !"ignore-size" &&
  (vc_columns client =? VgColumns captured) && (vc_rows client =? VgRows captured) &&
  (vc_windowColumns client =? VgColumns captured) && negb (vc_windowBigger client) &&
  (vc_statusRows client =? statusRows captured) &&
  (vc_windowRows client + statusRows captured =? VgRows captured).

Definition viewerGeometryDiagnostic (captured : ViewerGeometry) (client : viewerClientGeometry) (corrected : bool)
    : ViewerGeometryDiagnostic :=
  {| CapturedColumns := VgColumns captured; CapturedRows := VgRows captured;
     ClientColumns := vc_columns client; ClientRows := vc_rows client;
     WindowColumns := vc_windowColumns client; WindowRows := vc_windowRows client;
     StatusRows := statusRows captured; Corrected := corrected |}.
