(* ===== verification/MirrorViewerParseProps.v ===== *)
(** * What is read from tmux about a window and its clients

    The captured window comes out as tmux printed it and fits its types; the
    search among the clients finds the one with the right process or none. *)

From S2P Require Import Prelude GoString GoUnicode GoConv GoErrors TmuxQuote TmuxFormat TmuxArgs.
From S2P Require Import MirrorProtocol MirrorDiagnostics MirrorManager MirrorViewerParse.
Open Scope Z_scope.

(** ** Identifiers and status lines *)

Lemma digit_runes s :
  forallb (fun '(value, _) => (48 <=? value) && (value <=? 57)) (runes s) = forallb is_digit s.
Proof.
  induction s as [|c r s Hc Hr IH] using runes_ind; [done|].
  rewrite Hr, forallb_app. cbn [forallb]. rewrite IH. f_equal.
  destruct Hc as [b Hb|c r Hne Hhigh Hge]; [by cbn; rewrite andb_true_r|].
  destruct c as [|b c]; [done|]. apply Forall_cons in Hhigh as [Hb _]. unfold high in Hb.
  cbn [forallb]. unfold is_digit. lia.
Qed.

Lemma validWindowID_isWindowID windowID : validWindowID windowID = isWindowID windowID.
Proof. destruct windowID as [|c [|d s]]; [done..|]. cbn [validWindowID drop]. by rewrite digit_runes. Qed.

Lemma digits_solid s : forallb is_digit s = true -> forallb solid s = true.
Proof.
  rewrite !forallb_forall. intros Hs x Hx. specialize (Hs x Hx). revert Hs.
  unfold is_digit, solid, is_space. intros Hs. lia.
Qed.

Lemma digits_acc_digits s : forall acc n, digits_acc acc s = Some n -> forallb is_digit s = true.
Proof. induction s as [|c s IH]; simpl; intros acc n Hs; [done|]. destruct (is_digit c); [by eapply IH|done]. Qed.

Lemma parse_uint_digits bits s n : parse_uint bits s = Some n -> s <> [] /\ forallb is_digit s = true.
Proof.
  destruct s as [|c s]; [done|]. cbn [parse_uint]. intros Hs. split; [done|].
  destruct (digits_acc 0 (c :: s)) eqn:Hd; [|done]. by eapply digits_acc_digits.
Qed.

Lemma solid_not s c : forallb solid s = true -> solid c = false -> c ∉ s.
Proof. rewrite forallb_forall. intros Hs Hc Hin%list_elem_of_In. specialize (Hs _ Hin). congruence. Qed.

Section Parse.
Context `{UnicodeTables}.

Lemma parseStatusRows_ok value n : parseStatusRows value = Ok n ->
  0 <= n <= 5 /\ trim_space value <> [] /\ forallb solid (trim_space value) = true /\
  valid_status (trim_space value) = true.
Proof.
  unfold parseStatusRows, valid_status.
  case_bool_decide as Hoff; [intros ?; simplify_eq; rewrite Hoff; by split_and!|].
  case_bool_decide as Hon; [intros ?; simplify_eq; rewrite Hon; by split_and!|].
  destruct (parse_uint 16 (trim_space value)) as [rows|] eqn:Hp; [|done].
  destruct (5 <? rows) eqn:H5; [done|]. intros ?; simplify_eq. guards.
  pose proof (parse_uint_range _ _ _ Hp). destruct (parse_uint_digits _ _ _ Hp) as [Hne Hd].
  split_and!; [lia|lia|done|by apply digits_solid|]. cbn [orb]. by apply Z.leb_le.
Qed.

(** ** The capture *)

(** A capture the rest of the code can rely on. *)
Record capture_wf (c : capture) : Prop := {
  cw_window : isWindowID (cp_window c) = true;
  cw_columns : 2 <= VgColumns (cp_geometry c) <= 500;
  cw_rows : 2 <= VgRows (cp_geometry c) <= 300;
  cw_status : 0 <= statusRows (cp_geometry c) <= 5;
  cw_inside : statusRows (cp_geometry c) <= VgRows (cp_geometry c);
  cw_value : parseStatusRows (statusValue (cp_geometry c)) = Ok (statusRows (cp_geometry c));
  cw_trimmed : trim_space (statusValue (cp_geometry c)) = statusValue (cp_geometry c);
  cw_mode : is_window_size_mode (cp_mode c) = true
}.

Definition mode_line (mode : bytes) (inherited : bool) : bytes :=
  (if inherited then !"window-size*" else !"window-size") ++ !" " ++ mode.

(** The three lines tmux prints for it. *)
Definition print_capture (c : capture) : bytes :=
  let g := cp_geometry c in
  join [newline]
    [join [tab_byte] [cp_window c; format_uint (VgColumns g); format_uint (VgRows g - statusRows g)];
     mode_line (cp_mode c) (cp_inherited c); statusValue g] ++ [newline].

Lemma trim_newline b s c : solid b = true -> solid c = true ->
  trim_space ((b :: s ++ [c]) ++ [newline]) = b :: s ++ [c].
Proof.
  intros Hb Hc. unfold trim_space. change ((b :: s ++ [c]) ++ [newline]) with (b :: (s ++ [c]) ++ [newline]).
  rewrite trim_left_solid by done. rewrite app_comm_cons, rev_app_distr.
  rewrite app_comm_cons, rev_app_distr. cbn [rev app].
  change (trim_right_space_rev (newline :: c :: rev s ++ [b])) with (trim_right_space_rev (c :: rev s ++ [b])).
  rewrite trim_right_solid by done. cbn [rev]. by rewrite rev_app_distr, rev_involutive.
Qed.

Lemma trim_line s : s <> [] -> forallb solid s = true -> forall b t, solid b = true ->
  trim_space ((b :: t ++ s) ++ [newline]) = b :: t ++ s.
Proof.
  intros Hne Hs b t Hb. destruct (exists_last Hne) as (s' & c & ->).
  rewrite forallb_app in Hs. cbn in Hs. guards. rewrite app_assoc. by apply trim_newline.
Qed.

Lemma format_solid n : 0 <= n -> format_uint n <> [] /\ forallb solid (format_uint n) = true.
Proof.
  intros Hn. destruct (format_uint_cons n) as (h & t & E & Hall). split; [by rewrite E|].
  apply digits_solid. rewrite E. apply forallb_forall. intros x Hx%list_elem_of_In.
  rewrite Forall_forall in Hall. by apply Hall.
Qed.

Lemma window_solid w : isWindowID w = true -> exists t, w = "@"%byte :: t /\ forallb solid w = true.
Proof.
  destruct w as [|c [|d t]]; [done..|]. unfold isWindowID, is_tagged_id. intros Hw. guards.
  assert (c = "@"%byte) as -> by (by apply byte_eqb_true). exists (d :: t). split; [done|].
  change (solid "@"%byte && forallb solid (d :: t) = true). by rewrite (digits_solid (d :: t)).
Qed.

Lemma modes_ind (P : bytes -> Prop) : P !"largest" -> P !"smallest" -> P !"manual" -> P !"latest" ->
  forall mode, is_window_size_mode mode = true -> P mode.
Proof.
  intros H1 H2 H3 H4 mode Hm%bool_decide_eq_true. rewrite !elem_of_cons in Hm.
  destruct Hm as [->|[->|[->|[->|Hm]]]]; [done..|by apply elem_of_nil in Hm].
Qed.

Lemma mode_line_print mode inherited : is_window_size_mode mode = true ->
  parse_mode_line (mode_line mode inherited) = Ok (mode, inherited).
Proof. revert mode. apply modes_ind; by destruct inherited. Qed.

Lemma mode_line_plain mode inherited : is_window_size_mode mode = true -> newline ∉ mode_line mode inherited.
Proof.
  revert mode. apply modes_ind; destruct inherited; apply (bool_decide_eq_false_1 _); vm_compute; reflexivity.
Qed.

Lemma window_line_print c : capture_wf c ->
  let g := cp_geometry c in
  parse_window_line (join [tab_byte] [cp_window c; format_uint (VgColumns g); format_uint (VgRows g - statusRows g)])
    (statusValue g) = Ok (cp_window c, g).
Proof.
  intros [Hw Hc Hr Hs Hi Hv Ht Hm] g. subst g. destruct (window_solid _ Hw) as (t & Ewin & Hsw).
  assert (solid tab_byte = false) as Htab by reflexivity.
  unfold parse_window_line. rewrite split_join; [|done|].
  2: { rewrite !Forall_cons. split_and!; [..|apply Forall_nil_2];
       (apply solid_not; [|exact Htab]); [done|apply format_solid; lia..]. }
  rewrite (trim_space_solid_all _ Hsw), validWindowID_isWindowID, Hw. cbn [negb].
  rewrite !parse_format_uint by lia. rewrite Hv. cbn [rbind].
  rewrite (proj2 (Z.ltb_ge _ _)) by (unfold max_uint16; lia). rewrite Ht. do 2 f_equal.
  unfold uint16. rewrite Z.mod_small by lia. destruct (cp_geometry c); cbn. f_equal. lia.
Qed.

Lemma print_trimmed c : capture_wf c ->
  split_byte newline (trim_space (print_capture c)) =
  [join [tab_byte] [cp_window c; format_uint (VgColumns (cp_geometry c));
                    format_uint (VgRows (cp_geometry c) - statusRows (cp_geometry c))];
   mode_line (cp_mode c) (cp_inherited c); statusValue (cp_geometry c)].
Proof.
  intros [Hw Hc Hr Hs Hi Hv Ht Hm]. destruct (window_solid _ Hw) as (t & Ewin & Hsw).
  destruct (parseStatusRows_ok _ _ Hv) as (_ & Hne & Hsv & _). rewrite Ht in Hne, Hsv.
  assert (solid newline = false) as Hnl by reflexivity.
  unfold print_capture. set (l0 := join [tab_byte] _). set (l1 := mode_line _ _).
  set (v := statusValue (cp_geometry c)) in *.
  assert (trim_space (join [newline] [l0; l1; v] ++ [newline]) = join [newline] [l0; l1; v]) as ->.
  { assert (exists t0, l0 = "@"%byte :: t0) as [t0 ->] by (unfold l0; rewrite Ewin; by eexists).
    assert (join [newline] ["@"%byte :: t0; l1; v] = "@"%byte :: (t0 ++ [newline] ++ l1 ++ [newline]) ++ v) as ->.
    { cbn [join app]. rewrite <- !app_assoc. cbn [app]. by rewrite <- ?app_assoc. }
    by apply trim_line. }
  apply split_join; [done|]. rewrite !Forall_cons. split_and!; [..|apply Forall_nil_2].
  - assert (forall s, forallb solid s = true -> newline ∉ s) as Hno by (intros; by apply solid_not).
    unfold l0. cbn [join]. rewrite !elem_of_app. intros [Hx|[Hx|[Hx|[Hx|Hx]]]]; revert Hx;
      [by apply Hno|by intros ?%list_elem_of_singleton|apply Hno, format_solid; lia
      |by intros ?%list_elem_of_singleton|apply Hno, format_solid; lia].
  - by apply mode_line_plain.
  - by eapply solid_not.
Qed.

Lemma parse_window_line_wf l v w g : parse_window_line l v = Ok (w, g) ->
  isWindowID w = true /\ parseStatusRows v = Ok (statusRows g) /\ statusValue g = trim_space v /\
  statusRows g <= VgRows g.
Proof.
  unfold parse_window_line. intros Hp. branches Hp. apply rbind_Ok in Hp as (n & Hn & Hp). branches Hp.
  rewrite <- validWindowID_isWindowID. cbn [statusRows statusValue VgRows].
  destruct (parseStatusRows_ok _ _ Hn) as (Hr & _).
  match goal with H : parse_uint 16 _ = Some ?r |- context [uint16 (?r + n)] =>
    pose proof (parse_uint_range _ _ _ H) end.
  unfold max_uint16, uint16 in *. rewrite Z.mod_small by lia. split_and!; try done. lia.
Qed.

Lemma parse_mode_line_wf l m i : parse_mode_line l = Ok (m, i) -> is_window_size_mode m = true.
Proof.
  unfold parse_mode_line. intros Hp. branches Hp; apply rbind_Ok in Hp as (b & _ & Hp); simplify_eq; by apply bool_decide_eq_true.
Qed.

Lemma trim_space_trimmed value n : parseStatusRows value = Ok n ->
  trim_space (trim_space value) = trim_space value /\ parseStatusRows (trim_space value) = Ok n.
Proof.
  intros Hv. destruct (parseStatusRows_ok _ _ Hv) as (_&_&Hs&_). pose proof (trim_space_solid_all _ Hs) as E.
  split; [done|]. revert Hv. unfold parseStatusRows. by rewrite E.
Qed.

Lemma validateDimensions_ok columns rows : validateDimensions columns rows = None <->
  2 <= columns <= 500 /\ 2 <= rows <= 300.
Proof.
  unfold validateDimensions. split.
  - intros Hv. repeat case_hyp Hv; try done. guards. lia.
  - intros [??]. rewrite !(proj2 (Z.ltb_ge _ _)) by lia. done.
Qed.

Lemma parsed_wf r c : parseWindowPin r = Ok c -> capture_wf c.
Proof.
  unfold parseWindowPin. intros (c' & Hc & Hp)%rbind_Ok. branches Hp.
  unfold parseWindowPinUnchecked in Hc. branches Hc.
  apply rbind_Ok in Hc as ([w g] & Hw & Hc). apply rbind_Ok in Hc as ([m i] & Hm & Hc). simplify_eq.
  apply parse_window_line_wf in Hw as (Hw & Hs & Hv & Hi). apply parse_mode_line_wf in Hm.
  match goal with H : validateDimensions _ _ = None |- _ => apply validateDimensions_ok in H end.
  cbn [cp_window cp_geometry cp_mode] in *.
  destruct (trim_space_trimmed _ _ Hs) as [Ht Hs']. destruct (parseStatusRows_ok _ _ Hs) as (?&_).
  split; cbn [cp_window cp_geometry cp_mode]; rewrite ?Hv; try done; lia.
Qed.

Lemma print_parses c : capture_wf c -> parseWindowPin (print_capture c) = Ok c.
Proof.
  intros Hc. unfold parseWindowPin, parseWindowPinUnchecked. rewrite print_trimmed by done.
  rewrite window_line_print by done. cbn [rbind]. rewrite mode_line_print by apply Hc. cbn [rbind cp_geometry].
  rewrite (proj2 (validateDimensions_ok _ _)); [by destruct c|]. split; apply Hc.
Qed.

(** C35: what tmux reports about a window is read exactly.  Whatever is read has
    a tmux window identity, sizes within the protocol's limits, a status line of
    at most five rows that lies inside the geometry, and one of the four modes:
    no 16-bit sum wraps.  Every such capture is read back from the three lines
    tmux prints for it.  And the pin command accepts it, unless the status line
    leaves no row for the window. *)
Theorem capture_exact :
  (forall r c, parseWindowPin r = Ok c -> capture_wf c) /\
  (forall c, capture_wf c -> parseWindowPin (print_capture c) = Ok c) /\
  (forall c id generation owner hookIndex, capture_wf c -> isSessionID id = true -> isGeneration generation = true ->
     pin_owner_error (cp_inherited c) owner hookIndex = None ->
     let g := cp_geometry c in
     let windowRows := uint16 (VgRows g - statusRows g) in
     windowRows = VgRows g - statusRows g /\
     (windowRows <> 0 <-> exists args, PinWindowSizeIfGenerationArgs id generation (cp_window c) (VgColumns g)
       windowRows (cp_mode c) (cp_inherited c) (statusValue g) owner hookIndex = Ok args)).
Proof.
  split_and!; [exact parsed_wf|exact print_parses|].
  intros c id generation owner hookIndex Hwf Hid Hg Ho g windowRows.
  assert (windowRows = VgRows g - statusRows g) as E.
  { destruct Hwf. subst windowRows g. unfold uint16. rewrite Z.mod_small by lia. done. }
  split; [done|]. destruct Hwf as [Hw Hc Hr Hs Hi Hv Ht Hm].
  destruct (parseStatusRows_ok _ _ Hv) as (_ & _ & _ & Hval). rewrite Ht in Hval.
  unfold PinWindowSizeIfGenerationArgs. subst g. rewrite Hid, Hw, Hg, Hm, Hval, Ho. cbn [negb].
  rewrite (proj2 (Z.eqb_neq (VgColumns _) 0)) by lia. cbn [orb].
  destruct (windowRows =? 0) eqn:E0; guards; split; try done; [by intros [? ?]|by eexists].
Qed.

(** ** The clients *)

Definition parsed_lines (lines : list bytes) (rows : list viewerClientGeometry) : Prop :=
  Forall2 (fun line row => parse_client_line line = Ok row) (filter (fun line => line <> []) lines) rows.

(** The reference: read the whole table, then select the rows of the process. *)
Definition select (pid : Z) (rows : list viewerClientGeometry) : list viewerClientGeometry :=
  filter (fun row => vc_pid row = pid) rows.

Lemma parsed_cons line lines rows : line <> [] -> parsed_lines (line :: lines) rows <->
  exists row rows', parse_client_line line = Ok row /\ rows = row :: rows' /\ parsed_lines lines rows'.
Proof.
  intros Hl. unfold parsed_lines. rewrite filter_cons_True by done. split.
  - intros (row & rows' & Hrow & Hr & ->)%Forall2_cons_inv_l. by exists row, rows'.
  - intros (row & rows' & Hrow & -> & Hr). by constructor.
Qed.

(** A row of another process changes nothing. *)
Lemma select_other pid line lines value found out : line <> [] -> parse_client_line line = Ok value ->
  vc_pid value <> pid ->
  (exists rows, parsed_lines lines rows /\ option_list found ++ select pid rows = out) <->
  (exists rows, parsed_lines (line :: lines) rows /\ option_list found ++ select pid rows = out).
Proof.
  intros Hl Hv Hpid. split.
  - intros (rows & Hr & E). exists (value :: rows). split; [by apply parsed_cons; [|exists value, rows]|].
    unfold select. by rewrite filter_cons_False.
  - intros (rows & Hr & E). apply (parsed_cons _ _ _ Hl) in Hr as (row & rows' & Hrow & -> & Hr).
    assert (row = value) as -> by congruence. exists rows'. split; [done|].
    revert E. unfold select. by rewrite filter_cons_False.
Qed.

Lemma find_client_ok pid lines found c : find_client pid lines found = Ok c <->
  exists rows, parsed_lines lines rows /\ option_list found ++ select pid rows = [c].
Proof.
  revert found. induction lines as [|line lines IH]; intros found; cbn [find_client].
  - split.
    + destruct found; [|done]. intros ?; simplify_eq. exists []. split; [constructor|done].
    + intros (rows & Hr & E). apply Forall2_nil_inv_l in Hr as ->. destruct found; cbn in E; by simplify_eq.
  - case_bool_decide as Hl.
    { rewrite IH. unfold parsed_lines. by rewrite filter_cons_False by (by intros []). }
    destruct (parse_client_line line) as [value|e] eqn:Hp; cbn [rbind].
    2: { split; [done|]. intros (rows & Hr & _).
         apply (parsed_cons _ _ _ Hl) in Hr as (row & rows' & Hrow & _). congruence. }
    destruct (vc_pid value =? pid) eqn:Hpid; guards; cbn [negb].
    + destruct found as [found|].
      * split; [done|]. intros (rows & Hr & E). apply (parsed_cons _ _ _ Hl) in Hr as (row & rows' & Hrow & -> & _).
        assert (row = value) as -> by congruence. unfold select in E. by rewrite filter_cons_True in E.
      * rewrite IH. cbn [option_list app]. split.
        -- intros (rows & Hr & E). exists (value :: rows). split; [by apply parsed_cons; [|exists value, rows]|].
           unfold select. by rewrite filter_cons_True.
        -- intros (rows & Hr & E). apply (parsed_cons _ _ _ Hl) in Hr as (row & rows' & Hrow & -> & Hr).
           assert (row = value) as -> by congruence. exists rows'. split; [done|].
           revert E. unfold select. by rewrite filter_cons_True.
    + rewrite IH. by apply (select_other _ _ _ value).
Qed.

Lemma parse_client_line_wf line c : parse_client_line line = Ok c ->
  0 < vc_pid c /\ isWindowID (vc_windowID c) = true /\ 0 <= vc_statusRows c <= 5 /\
  Forall (fun n => 0 <= n <= max_uint16) [vc_columns c; vc_rows c; vc_windowColumns c; vc_windowRows c].
Proof.
  unfold parse_client_line. intros Hp. branches Hp; apply rbind_Ok in Hp as (b & _ & Hp);
    apply rbind_Ok in Hp as (n & Hn & Hp); simplify_eq; rewrite <- validWindowID_isWindowID;
    cbn [vc_pid vc_windowID vc_statusRows vc_columns vc_rows vc_windowColumns vc_windowRows];
    destruct (parseStatusRows_ok _ _ Hn) as (? & _); split_and!; try done; try lia;
    rewrite !Forall_cons; unfold max_uint16; split_and!; try apply Forall_nil_2;
    match goal with H : parse_uint 16 _ = Some ?n |- _ <= ?n => apply (parse_uint_range _ _ _ H)
                  | H : parse_uint 16 _ = Some ?n |- ?n <= _ => pose proof (parse_uint_range _ _ _ H); lia end.
Qed.

Lemma parse_client_line_plain line e : parse_client_line line = Err e -> errors_is ErrViewerClientNotAttached e = false.
Proof.
  unfold parse_client_line, parseStatusRows, rbind. intros Hp. repeat (case_hyp Hp; simplify_eq; try done).
Qed.

Lemma find_client_missing pid lines found :
  (exists e, find_client pid lines found = Err e /\ errors_is ErrViewerClientNotAttached e = true) <->
  exists rows, parsed_lines lines rows /\ option_list found ++ select pid rows = [].
Proof.
  revert found. induction lines as [|line lines IH]; intros found; cbn [find_client].
  - split.
    + intros (e & He & Hs). destruct found; [done|]. exists []. split; [constructor|done].
    + intros (rows & Hr & E). destruct found; [done|]. by eexists.
  - case_bool_decide as Hl.
    { rewrite IH. unfold parsed_lines. by rewrite filter_cons_False by (by intros []). }
    destruct (parse_client_line line) as [value|e] eqn:Hp; cbn [rbind].
    2: { split; [intros (e' & He & Hs); simplify_eq; by rewrite (parse_client_line_plain _ _ Hp) in Hs|].
         intros (rows & Hr & _). apply (parsed_cons _ _ _ Hl) in Hr as (row & rows' & Hrow & _). congruence. }
    destruct (vc_pid value =? pid) eqn:Hpid; guards; cbn [negb].
    + destruct found as [found|].
      * split; [intros (e & He & Hs); by simplify_eq|]. by intros (rows & Hr & E).
      * rewrite IH. split; [by intros (rows & Hr & E)|]. intros (rows & Hr & E).
        apply (parsed_cons _ _ _ Hl) in Hr as (row & rows' & Hrow & -> & _).
        assert (row = value) as -> by congruence. unfold select in E. by rewrite filter_cons_True in E.
    + rewrite IH. by apply (select_other _ _ _ value).
Qed.

(** The search for the viewer's client is exact.  It finds [c] when every
    line of the listing is a client and exactly one of them, [c], belongs to the
    viewer's process; it says that the viewer is not attached when every line is
    a client and none is the viewer's.  A client that is found has sizes of 16
    bits, a tmux window and a status line of at most five rows. *)
Theorem client_found_exactly (listing : bytes) (pid : Z) :
  let lines := split_byte newline (trim_space listing) in
  (forall c, parseViewerClientGeometry listing pid = Ok c <->
     0 < pid /\ exists rows, parsed_lines lines rows /\ select pid rows = [c]) /\
  ((exists e, parseViewerClientGeometry listing pid = Err e /\ errors_is ErrViewerClientNotAttached e = true) <->
     0 < pid /\ exists rows, parsed_lines lines rows /\ select pid rows = []) /\
  (forall c, parseViewerClientGeometry listing pid = Ok c ->
     vc_pid c = pid /\ isWindowID (vc_windowID c) = true /\ 0 <= vc_statusRows c <= 5 /\
     Forall (fun n => 0 <= n <= max_uint16) [vc_columns c; vc_rows c; vc_windowColumns c; vc_windowRows c]).
Proof.
  intros lines. unfold parseViewerClientGeometry. destruct (pid <=? 0) eqn:Hpid; guards.
  - split_and!; [intros c; split; [done|lia]|split; [by intros (e & ? & Hs); simplify_eq|lia]|done].
  - assert (0 < pid) by lia. split_and!.
    + intros c. rewrite find_client_ok. by split; [|intros [_ ?]].
    + rewrite find_client_missing. by split; [|intros [_ ?]].
    + intros c (rows & Hr & E)%find_client_ok. change (select pid rows = [c]) in E.
      assert (c ∈ select pid rows) as Hc by (rewrite E; by apply list_elem_of_singleton).
      unfold select in Hc. apply list_elem_of_filter in Hc as [Hp Hc].
      destruct (proj1 (list_elem_of_lookup _ _) Hc) as [n Hn].
      destruct (Forall2_lookup_r _ _ _ n c Hr Hn) as (line & _ & Hline).
      destruct (parse_client_line_wf _ _ Hline) as (_ & ?). done.
Qed.
End Parse.

(** ** Examples *)

Definition demo_capture : capture :=
  {| cp_window := !"@9"; cp_mode := !"latest"; cp_inherited := true;
     cp_geometry := {| VgColumns := 132; VgRows := 42; statusRows := 1; statusValue := !"on" |} |}.
Definition lines_of (ls : list bytes) : bytes := join [newline] ls.
Definition fields_of (fs : list bytes) : bytes := join [tab_byte] fs.

Definition demo_listing : bytes :=
  lines_of [fields_of [!"/dev/pts/7"; !"4242"; !"160"; !"50"; !"attached,ignore-size"; !"@4"; !"160"; !"49"; !"0"; !"on"];
            fields_of [!"/dev/pts/8"; !"5151"; !"80"; !"24"; []; !"@9"; !"80"; !"23"; !"0"; !"on"]] ++ [newline].

Lemma demo_capture_wf : capture_wf demo_capture.
Proof. split; done. Qed.

Lemma capture_exact_witness :
  parseWindowPin (lines_of [fields_of [!"@9"; !"132"; !"41"]; !"window-size* latest"; !"on"; []]) = Ok demo_capture.
Proof. exact (proj1 (proj2 capture_exact) demo_capture demo_capture_wf). Defined.

Lemma client_found_exactly_witness :
  exists c, parseViewerClientGeometry demo_listing 4242 = Ok c /\ vc_pid c = 4242 /\
    viewerGeometryMatches {| VgColumns := 160; VgRows := 50; statusRows := 1; statusValue := !"on" |} !"@4" c = true.
Proof.
  set (r := parseViewerClientGeometry demo_listing 4242). destruct r as [c|e] eqn:E; [|vm_compute in E; discriminate].
  exists c. split; [done|]. split; [apply (client_found_exactly demo_listing 4242); exact E|].
  vm_compute in E. injection E as <-. reflexivity.
Defined.

Example client_missing : exists e, parseViewerClientGeometry demo_listing 7 = Err e /\
  errors_is ErrViewerClientNotAttached e = true.
Proof. eexists. split; vm_compute; reflexivity. Qed.

(** A status line of two rows on a window of no rows is read, but not pinned. *)
Example no_row_left :
  exists c, parseWindowPin (lines_of [fields_of [!"@9"; !"80"; !"0"]; !"window-size latest"; !"2"]) = Ok c /\
    uint16 (VgRows (cp_geometry c) - statusRows (cp_geometry c)) = 0.
Proof. eexists. split; vm_compute; reflexivity. Qed.
