(* ===== verification/MirrorViewer.v ===== *)
(** * The viewer of the shared window (internal/mirror/viewer.go)

    A viewer is a tmux client that runs in a pseudo terminal and ignores its own
    size.  Before it is attached the window's size is pinned; viewers of one
    window share the pin, and the last one to leave restores the window.

    A method is a program of calls of tmux, of the terminal and of the clock
    ([vm]); an environment, any function of the calls so far, answers them.  The
    state behind [pinMu] is passed along.  The hooks the tests replace
    ([run], [queryClient], ...) are nil. *)

From S2P Require Import Prelude GoString GoUnicode GoConv GoErrors TmuxQuote TmuxFormat TmuxArgs TmuxServer.
From S2P Require Import MirrorProtocol MirrorDiagnostics MirrorManager MirrorViewerParse.
Open Scope Z_scope.

Record viewerWindowKey := { wk_generation : bytes; wk_windowID : bytes }.
#[export] Instance window_key_eq_dec : EqDecision viewerWindowKey.
Proof. solve_decision. Defined.
#[export] Instance window_key_countable : Countable viewerWindowKey.
Proof.
  refine (inj_countable' (fun k => (wk_generation k, wk_windowID k))
    (fun '(g, w) => {| wk_generation := g; wk_windowID := w |}) _). by intros [].
Defined.

(** ** Programs *)

(** What a tmux command is for; tmux does not see it. *)
Inductive purpose :=
| ForCapture | ForPin (key : viewerWindowKey) | ForRestore (key : viewerWindowKey)
| ForQuery | ForRefresh | ForProbe.

Inductive vcall :=
| CLookPath
| CTmux (why : purpose) (path : bytes) (args environment : list bytes)
| CRandom                                             (* 16 random bytes *)
| CRecord (r : DiagnosticRecord)
| CSleep                                              (* the poll interval, or the context's error *)
| CStartPTY (path : bytes) (args environment : list bytes) (columns rows : Z)
| CResize (columns rows : Z)
| CKill | CClosePTY | CWait
| COutput (data : bytes).                             (* the output callback *)

(** Output and error; Go's calls may return both. *)
Record vanswer := { va_out : bytes; va_err : option error }.

Inductive vm (A : Type) :=
| VRet (a : A)
| VDo (c : vcall) (k : vanswer -> vm A).
Arguments VRet {A} a.
Arguments VDo {A} c k.

Fixpoint vbind {A B} (m : vm A) (f : A -> vm B) : vm B :=
  match m with
  | VRet a => f a
  | VDo c k => VDo c (fun r => vbind (k r) f)
  end.
Notation "'do!' x := m 'in' k" := (vbind m (fun x => k))
  (at level 10, x pattern, m at level 100, k at level 200) : go_scope.

Definition venv := list vcall -> vcall -> vanswer.

(** The calls, newest first, and the result. *)
Fixpoint v_exec {A} (h : venv) (past : list vcall) (m : vm A) : list vcall * A :=
  match m with
  | VRet a => (past, a)
  | VDo c k => v_exec h (c :: past) (k (h past c))
  end.

Definition call (c : vcall) : vm vanswer := VDo c VRet.
(** A call of which only the error counts. *)
Definition attempt (c : vcall) : vm (option error) := do! a := call c in VRet (va_err a).

(** [emitDiagnostic]. *)
Definition record (level event : bytes) (report : ViewerGeometryDiagnostic) : vm vanswer :=
  call (CRecord {| Level := level; Component := !"viewer"; DEvent := event; DCode := []; DPath := [];
                   DGeometry := Some report |}).

(** ** The factory *)

Record PTYViewerFactory := {
  SessionSocket : bytes; FEndpoint : Endpoint; TmuxPath : bytes; Environment : option (list bytes)
}.

Definition viewerGeometryAttempts : nat := 200.      (* two seconds of ten milliseconds *)
Definition viewerWindowPinAttempts : nat := 3.

Record viewerWindowPin := {
  references : Z; originalMode : bytes; originalInherited : bool; restore : bool; owner : bytes; hookIndex : Z
}.
#[export] Instance eta_pin : Eta viewerWindowPin := fun p =>
  {| references := references p; originalMode := originalMode p; originalInherited := originalInherited p;
     restore := restore p; owner := owner p; hookIndex := hookIndex p |}.

Abbreviation pin_table := (gmap viewerWindowKey viewerWindowPin).

Definition cleanViewerEnvironment (environment : list bytes) : list bytes :=
  filter (fun value => let '(key, _, ok) := cut_byte "="%byte value in
                       ok = true /\ key <> !"TMUX" /\ key <> !"TMUX_PANE" /\ key <> !"TERM") environment ++
  [!"TERM=xterm-256color"].

(** [binary.BigEndian.Uint32], then the sign bit is cleared and zero avoided. *)
Definition hook_index (value : bytes) : Z :=
  match value with
  | a :: b :: c :: d :: _ =>
      let n := Z.land (((bz a * 256 + bz b) * 256 + bz c) * 256 + bz d) 0x7fffffff in
      if n =? 0 then 1 else n
  | _ => 1
  end.

Definition newViewerWindowPinOwner : vm (result (bytes * Z)) :=
  do! a := call CRandom in
  match va_err a with
  | Some err => VRet (Err (wrapf !"create tmux window pin owner: " err))
  | None => VRet (Ok (hex_encode (va_out a), hook_index (va_out a)))
  end.

Section Viewer.
Context `{UnicodeTables}.
Variables (f : PTYViewerFactory) (os_environ : list bytes).

Definition cleanEnvironment : list bytes := cleanViewerEnvironment (default os_environ (Environment f)).

Definition commandSettings : vm (result (bytes * Endpoint)) :=
  do! path := (if TmuxPath f ==b []
               then do! a := call CLookPath in
                    match va_err a with
                    | Some err => VRet (Err (wrapf !"tmux not found in PATH: " err))
                    | None => VRet (Ok (va_out a))
                    end
               else VRet (Ok (TmuxPath f))) in
  match path with
  | Err err => VRet (Err err)
  | Ok tmuxPath =>
      let endpoint := FEndpoint f in
      let endpoint :=
        if (SocketName endpoint ==b []) && (SocketPath endpoint ==b [])
        then {| SocketName := if SessionSocket f ==b [] then SocketSessions else SessionSocket f;
                SocketPath := SocketPath endpoint |}
        else endpoint in
      match Endpoint_Args endpoint with
      | Err err => VRet (Err err)
      | Ok _ => VRet (Ok (tmuxPath, endpoint))
      end
  end.

Definition runTmux (why : purpose) (args : list bytes) : vm (result bytes) :=
  do! settings := commandSettings in
  match settings with
  | Err err => VRet (Err err)
  | Ok (tmuxPath, endpoint) =>
      match Endpoint_Args endpoint with
      | Err err => VRet (Err err)
      | Ok prefix =>
          do! a := call (CTmux why tmuxPath (prefix ++ args) cleanEnvironment) in
          match va_err a with
          | Some err => VRet (Err (EWrap (trim_space (va_out a) ++ !": ") err []))
          | None => if IsGenerationMismatchOutput (va_out a)
                    then VRet (Err (ESentinel ErrServerGenerationChanged)) else VRet (Ok (va_out a))
          end
      end
  end.

(** ** Pins *)

Definition restoreWindowPin (key : viewerWindowKey) (mode : bytes) (inherited : bool) (owner : bytes)
    (hookIndex : Z) : vm (option error) :=
  match RestoreWindowSizeIfGenerationArgs (wk_generation key) (wk_windowID key) mode inherited owner hookIndex with
  | Err err => VRet (Some err)
  | Ok args =>
      do! r := runTmux (ForRestore key) args in
      match r with
      | Ok _ => VRet None
      | Err err =>
          if errors_is ErrServerGenerationChanged err then VRet None
          else if IsMissingTargetError (Some err) then VRet None
          else if contains !"server exited unexpectedly" (to_lower (error_text err)) then VRet None
          else VRet (Some (wrapf !"restore mirrored tmux window size: " err))
      end
  end.

Definition restore_pin (key : viewerWindowKey) (pin : viewerWindowPin) : vm (option error) :=
  restoreWindowPin key (originalMode pin) (originalInherited pin) (owner pin) (hookIndex pin).

(** The roll-back of a pin that may have been set in part; [next] goes on. *)
Definition roll_back {A} (key : viewerWindowKey) (mode : bytes) (inherited : bool) (owner : bytes) (hookIndex : Z)
    (pinErr : error) (fail : error -> vm A) (next : vm A) : vm A :=
  if inherited then
    do! rollbackErr := restoreWindowPin key mode inherited owner hookIndex in
    match rollbackErr with
    | Some rollbackErr =>
        fail (EJoin [pinErr; wrapf !"roll back partial mirrored tmux window pin: " rollbackErr])
    | None => next
    end
  else next.

Definition pinned := (bytes * ViewerGeometry * viewerWindowKey)%type.

(** One attempt; [next] is the rest of the loop. *)
Definition pin_attempt (identity : Identity) (pins : pin_table) (next : vm (pin_table * result pinned))
    : vm (pin_table * result pinned) :=
  let fail err := VRet (pins, Err err) in
  match CaptureWindowSizeIfGenerationArgs (IdID identity) (IdGeneration identity) with
  | Err err => fail err
  | Ok args =>
  do! captured := runTmux ForCapture args in
  match captured with
  | Err err => fail (wrapf !"capture mirrored tmux window size: " err)
  | Ok out =>
  match parseWindowPin out with
  | Err err => fail (wrapf !"capture mirrored tmux window size: " err)
  | Ok c =>
  let windowID := cp_window c in
  let geometry := cp_geometry c in
  if negb (IdWindowID identity ==b []) && negb (windowID ==b IdWindowID identity)
  then fail (EText (!"mirrored target window changed from " ++ IdWindowID identity ++ !" to " ++ windowID)) else
  let key := {| wk_generation := IdGeneration identity; wk_windowID := windowID |} in
  match pins !! key with
  | Some pin => VRet (<[key := pin <| references := references pin + 1 |>]> pins, Ok (windowID, geometry, key))
  | None =>
  let windowRows := uint16 (VgRows geometry - statusRows geometry) in
  do! claim := (if cp_inherited c then newViewerWindowPinOwner else VRet (Ok ([], 0))) in
  match claim with
  | Err err => fail err
  | Ok (owner, hookIndex) =>
  match PinWindowSizeIfGenerationArgs (IdID identity) (IdGeneration identity) windowID (VgColumns geometry)
          windowRows (cp_mode c) (cp_inherited c) (statusValue geometry) owner hookIndex with
  | Err err => fail err
  | Ok pinArgs =>
  do! pinResult := runTmux (ForPin key) pinArgs in
  match pinResult with
  | Err err =>
      let pinErr := wrapf !"pin mirrored tmux window size: " err in
      roll_back key (cp_mode c) (cp_inherited c) owner hookIndex pinErr fail
        (if IsWindowPinConflictError (Some err) then next else fail pinErr)
  | Ok pinResult =>
      if IsWindowPinMismatchOutput pinResult then next
      else if negb (trim_space pinResult ==b []) then
        let pinErr := EText (!"unexpected tmux window pin result " ++ quote pinResult) in
        roll_back key (cp_mode c) (cp_inherited c) owner hookIndex pinErr fail (fail pinErr)
      else VRet (<[key := {| references := 1; originalMode := cp_mode c; originalInherited := cp_inherited c;
                             restore := cp_inherited c; owner := owner; hookIndex := hookIndex |}]> pins,
                 Ok (windowID, geometry, key))
  end end end end end end end.

Fixpoint pin_loop (n : nat) (identity : Identity) (pins : pin_table) : vm (pin_table * result pinned) :=
  match n with
  | O => VRet (pins, Err (EText !"tmux window state did not stabilize for mirroring"))
  | S n => pin_attempt identity pins (pin_loop n identity pins)
  end.
Definition pinWindow (identity : Identity) (pins : pin_table) : vm (pin_table * result pinned) :=
  pin_loop viewerWindowPinAttempts identity pins.

Definition releaseWindow (key : viewerWindowKey) (decrement : bool) (pins : pin_table)
    : vm (pin_table * option error) :=
  match pins !! key with
  | None => VRet (pins, None)
  | Some pin =>
      let pin := if decrement then pin <| references := references pin - 1 |> else pin in
      let pins := <[key := pin]> pins in
      if 0 <? references pin then VRet (pins, None)
      else if negb (restore pin) then VRet (delete key pins, None)
      else do! err := restore_pin key pin in
           match err with
           | Some err => VRet (pins, Some err)
           | None => VRet (delete key pins, None)
           end
  end.

(** The loop of [Cleanup] over the table, in the order [keys]. *)
Fixpoint cleanup_loop (keys : list viewerWindowKey) (pins : pin_table) (errs : list (option error))
    : vm (pin_table * option error) :=
  match keys with
  | [] => VRet (pins, errors_join errs)
  | key :: keys =>
      match pins !! key with
      | None => cleanup_loop keys pins errs
      | Some pin =>
          if 0 <? references pin then cleanup_loop keys pins errs
          else if negb (restore pin) then cleanup_loop keys (delete key pins) errs
          else do! err := restore_pin key pin in
               match err with
               | Some err => cleanup_loop keys pins (errs ++ [Some err])
               | None => cleanup_loop keys (delete key pins) errs
               end
      end
  end.
Definition Cleanup (keys : list viewerWindowKey) (pins : pin_table) : vm (pin_table * option error) :=
  cleanup_loop keys pins [].

(** ** Verifying the geometry of the attached client *)

Definition client_format : bytes :=
  join tab [!"#{client_name}"; !"#{client_pid}"; !"#{client_width}"; !"#{client_height}"; !"#{client_flags}";
            !"#{window_id}"; !"#{window_width}"; !"#{window_height}"; !"#{window_bigger}"; !"#{status}"].

Definition query_client (pid : Z) : vm (result viewerClientGeometry) :=
  do! r := runTmux ForQuery [!"list-clients"; !"-F"; client_format] in
  VRet match r with
       | Err err => Err (wrapf !"query tmux viewer client geometry: " err)
       | Ok out => parseViewerClientGeometry out pid
       end.

Definition resizeViewerPTY (geometry : ViewerGeometry) : vm (option error) :=
  do! err := attempt (CResize (VgColumns geometry) (VgRows geometry)) in
  VRet (match err with Some err => Some (wrapf !"correct viewer PTY geometry: " err) | None => None end).

Definition refreshViewerClient (name : bytes) : vm (option error) :=
  if name ==b [] then VRet (Some (EText !"tmux viewer client name is empty")) else
  do! r := runTmux ForRefresh [!"refresh-client"; !"-t"; name] in
  VRet match r with Err err => Some (wrapf !"refresh tmux viewer client: " err) | Ok _ => None end.

Definition waitForViewerGeometry : vm (option error) := attempt CSleep.

Definition verified := (ViewerGeometryDiagnostic * option error)%type.

Definition failViewerGeometry (report : ViewerGeometryDiagnostic) (err : error) : vm verified :=
  do! _ := record !"warn" !"geometry_failed" report in VRet (report, Some err).

Definition set_corrected (r : ViewerGeometryDiagnostic) : ViewerGeometryDiagnostic :=
  {| CapturedColumns := CapturedColumns r; CapturedRows := CapturedRows r; ClientColumns := ClientColumns r;
     ClientRows := ClientRows r; WindowColumns := WindowColumns r; WindowRows := WindowRows r;
     StatusRows := StatusRows r; Corrected := true |}.

(** The end of a round: wait, then go on with [next]. *)
Definition poll_again (report : ViewerGeometryDiagnostic) (next : ViewerGeometryDiagnostic -> vm verified)
    : vm verified :=
  do! err := waitForViewerGeometry in
  match err with Some err => failViewerGeometry report err | None => next report end.

(** One round of the loop: [next] is the next round, [again] starts the count
    anew after the correction. *)
Definition verify_round (pid : Z) (windowID : bytes) (captured : ViewerGeometry) (corrected : bool)
    (next again : ViewerGeometryDiagnostic -> vm verified) (report : ViewerGeometryDiagnostic) : vm verified :=
  do! r := query_client pid in
  match r with
  | Err err =>
      if errors_is ErrViewerClientNotAttached err then poll_again report next
      else failViewerGeometry report err
  | Ok client =>
      let report := viewerGeometryDiagnostic captured client corrected in
      if negb (vc_windowID client ==b windowID)
      then failViewerGeometry report (EText (!"tmux viewer attached to window " ++ vc_windowID client ++
             !" instead of pinned window"))
      else if viewerGeometryMatches captured windowID client then
        do! _ := record !"info" !"geometry_verified" report in VRet (report, None)
      else if negb corrected then
        do! err := resizeViewerPTY captured in
        match err with
        | Some err => failViewerGeometry report err
        | None =>
        do! err := refreshViewerClient (vc_name client) in
        match err with
        | Some err => failViewerGeometry report err
        | None =>
            let report := set_corrected report in
            do! _ := record !"info" !"geometry_corrected" report in
            poll_again report again
        end end
      else poll_again report next
  end.

Fixpoint verify_phase (pid : Z) (windowID : bytes) (captured : ViewerGeometry) (corrected : bool)
    (again : ViewerGeometryDiagnostic -> vm verified) (attempts : nat) (report : ViewerGeometryDiagnostic)
    : vm verified :=
  match attempts with
  | O => failViewerGeometry report (EText !"tmux viewer geometry did not converge")
  | S n => verify_round pid windowID captured corrected
             (verify_phase pid windowID captured corrected again n) again report
  end.

(** After the correction no second one is made, so the second phase never
    starts a third. *)
Definition verifyViewerGeometry (pid : Z) (windowID : bytes) (captured : ViewerGeometry) : vm verified :=
  let report := viewerGeometryDiagnostic captured no_client false in
  do! _ := record !"info" !"geometry_preparing" report in
  let converge := verify_phase pid windowID captured true (fun r => VRet (r, None)) viewerGeometryAttempts in
  verify_phase pid windowID captured false converge viewerGeometryAttempts report.

(** ** Preparing and starting a viewer *)

Record ptyViewerPreparation := {
  pp_identity : Identity; pp_windowID : bytes; pp_geometry : ViewerGeometry; pp_key : viewerWindowKey;
  pp_started : bool; pp_closed : bool;
  pp_released : bool                     (* in the closure [releaseWindowFunc] *)
}.
#[export] Instance eta_preparation : Eta ptyViewerPreparation := fun p =>
  {| pp_identity := pp_identity p; pp_windowID := pp_windowID p; pp_geometry := pp_geometry p;
     pp_key := pp_key p; pp_started := pp_started p; pp_closed := pp_closed p; pp_released := pp_released p |}.

Definition Prepare (identity : Identity) (pins : pin_table) : vm (pin_table * result ptyViewerPreparation) :=
  do! (pins, r) := pinWindow identity pins in
  VRet (pins, match r with
              | Err err => Err err
              | Ok (windowID, geometry, key) =>
                  Ok {| pp_identity := identity; pp_windowID := windowID; pp_geometry := geometry; pp_key := key;
                        pp_started := false; pp_closed := false; pp_released := false |}
              end).

(** The function [releaseWindowFunc] returns. *)
Definition releasePin (p : ptyViewerPreparation) (pins : pin_table)
    : vm (ptyViewerPreparation * pin_table * option error) :=
  do! (pins, err) := releaseWindow (pp_key p) (negb (pp_released p)) pins in
  VRet (p <| pp_released := true |>, pins, err).

Definition preparation_Close (p : ptyViewerPreparation) (pins : pin_table)
    : vm (ptyViewerPreparation * pin_table * option error) :=
  if pp_started p || pp_closed p then VRet (p, pins, None)
  else releasePin (p <| pp_closed := true |>) pins.

Definition buildCommand (identity : Identity) (windowID : bytes) : vm (result (bytes * list bytes)) :=
  match validateIdentity (IdID identity) (IdGeneration identity) with
  | Some err => VRet (Err err)
  | None =>
  do! settings := commandSettings in
  match settings with
  | Err err => VRet (Err err)
  | Ok (tmuxPath, endpoint) =>
      VRet (let? prefix := Endpoint_Args endpoint in
            match AttachWindowIgnoringSizeIfGenerationArgs (IdID identity) (IdGeneration identity) windowID with
            | Err err => Err (wrapf !"build generation-guarded viewer attach: " err)
            | Ok attach => Ok (tmuxPath, prefix ++ attach)
            end)
  end end.

Definition viewerWaitError (err : option error) (intentional : bool) : option error :=
  match err with
  | Some e => if intentional && errors_as_exit e then None else err
  | None => None
  end.

(** An error that a call gives unless it is the one expected. *)
Definition unless (expected : sentinel) (before : bytes) (err : option error) : option error :=
  match err with
  | Some e => if errors_is expected e then None else Some (wrapf before e)
  | None => None
  end.

(** [errors.Join(result, err)] when there is an error. *)
Definition join_if (result err : option error) : option error :=
  match err with Some _ => errors_join [result; err] | None => result end.

Definition stopUnverifiedViewer (has_process : bool) : vm (option error) :=
  let with_process m := if has_process then m else VRet None in
  do! e1 := with_process (attempt CKill) in
  do! e2 := attempt CClosePTY in
  do! e3 := with_process (attempt CWait) in
  let result := join_if None (unless OsErrProcessDone !"stop unverified tmux viewer: " e1) in
  let result := join_if result (unless OsErrClosed !"close unverified viewer PTY: " e2) in
  VRet (join_if result (match viewerWaitError e3 true with
                        | Some e => Some (wrapf !"wait for unverified tmux viewer: " e)
                        | None => None
                        end)).

(** [Start] up to the verification; [pid] identifies the process, if the command
    has one.  A failure comes with the errors of its clean-up. *)
Definition launch (pid : option Z) (p : ptyViewerPreparation) : vm (option (error * list (option error))) :=
  let stop_after has_process err :=
    do! e := stopUnverifiedViewer has_process in VRet (Some (err, [e])) in
  do! command := buildCommand (pp_identity p) (pp_windowID p) in
  match command with
  | Err err => VRet (Some (err, []))
  | Ok (path, args) =>
      do! err := attempt (CStartPTY path args cleanEnvironment (VgColumns (pp_geometry p)) (VgRows (pp_geometry p))) in
      match err with
      | Some err => VRet (Some (wrapf !"start tmux viewer PTY: " err, []))
      | None =>
      match pid with
      | None => stop_after false (EText !"start tmux viewer PTY: process is unavailable")
      | Some pid =>
          do! (_, err) := verifyViewerGeometry pid (pp_windowID p) (pp_geometry p) in
          match err with
          | Some err => stop_after true (wrapf !"verify tmux viewer geometry: " err)
          | None => VRet None
          end
      end end
  end.

Definition Start (pid : option Z) (p : ptyViewerPreparation) (pins : pin_table)
    : vm (ptyViewerPreparation * pin_table * option error) :=
  if pp_closed p then VRet (p, pins, Some (EText !"prepared viewer is closed"))
  else if pp_started p then VRet (p, pins, Some (EText !"prepared viewer is already started")) else
  do! failure := launch pid p in
  match failure with
  | Some (err, errs) =>
      do! (p, pins, rel) := releasePin (p <| pp_closed := true |>) pins in
      VRet (p, pins, errors_join (Some err :: errs ++ [rel]))
  | None => VRet (p <| pp_started := true |>, pins, None)
  end.

(** ** A running viewer *)

Definition viewerTerminalEnded (identity : Identity) : vm (result bool) :=
  do! r := runTmux ForProbe [!"display-message"; !"-p"; !"-t"; IdID identity;
                             !"#{" ++ ServerGenerationOption ++ !"}"] in
  VRet match r with
       | Ok out => Ok (negb (trim_space out ==b IdGeneration identity))
       | Err err =>
           if errors_is ErrServerGenerationChanged err || IsMissingTargetError (Some err) then Ok true
           else Err (wrapf !"check mirrored terminal identity: " err)
       end.

Definition viewerExitResult (waitErr : option error) (intentional : bool) (identity : Identity)
    : vm (option error) :=
  match waitErr with
  | Some _ =>
      if intentional then VRet (viewerWaitError waitErr intentional) else
      do! r := viewerTerminalEnded identity in
      VRet match r with
           | Ok ended => errors_join [viewerWaitError waitErr ended; None]
           | Err probeErr => errors_join [viewerWaitError waitErr false; Some probeErr]
           end
  | None => VRet None
  end.

(** What a read of the terminal gives: bytes, an error, or both. *)
Record pty_read := { pr_data : bytes; pr_err : option error }.

Definition expected_read_error (err : error) : bool :=
  errors_is IoEOF err || errors_is OsErrClosed err || errors_is_sys EIO err.

(** The loop of [run] over what the terminal delivers: [None] when it waits
    for more, else the error of the output and whether the loop has
    terminated the viewer itself. *)
Fixpoint output_loop (reads : list pty_read) : vm (option (option error * bool)) :=
  match reads with
  | [] => VRet None
  | r :: reads =>
      do! err := (if pr_data r ==b [] then VRet None else attempt (COutput (pr_data r))) in
      match err with
      | Some err => VRet (Some (Some (wrapf !"deliver viewer output: " err), true))
      | None =>
          match pr_err r with
          | None => output_loop reads
          | Some err => VRet (Some (if expected_read_error err then None
                                    else Some (wrapf !"read viewer PTY: " err), false))
          end
      end
  end.

Definition terminate : vm (option error) :=
  do! _ := attempt CClosePTY in
  do! _ := attempt CKill in VRet None.

(** [run] after the loop: [stopped] says that [terminate] was called from
    elsewhere (a [Close], or the end of the context) before the process was
    waited for. *)
Definition finish (outputErr : option error) (failed stopped : bool) (p : ptyViewerPreparation) (pins : pin_table)
    : vm (ptyViewerPreparation * pin_table * option error) :=
  do! _ := (if failed && negb stopped then terminate else VRet None) in
  do! waitErr := attempt CWait in
  let intentional := failed || stopped in
  do! _ := (if negb intentional then terminate else VRet None) in
  do! waitErr := viewerExitResult waitErr intentional (pp_identity p) in
  do! (p, pins, releaseErr) := releasePin p pins in
  VRet (p, pins, errors_join [outputErr; waitErr; releaseErr]).

Definition viewer_run (reads : list pty_read) (stopped : bool) (p : ptyViewerPreparation) (pins : pin_table)
    : vm (option (ptyViewerPreparation * pin_table * option error)) :=
  do! r := output_loop reads in
  match r with
  | None => VRet None
  | Some (outputErr, failed) => do! out := finish outputErr failed stopped p pins in VRet (Some out)
  end.
End Viewer.
