(* ===== verification/MirrorViewerProps.v ===== *)
(** * Programs of the viewer, and the verification of its geometry

    What holds of a program under every environment ([always]), and how the
    calls of a program add up; then the polling loop that decides whether the
    attached client shows exactly the captured window. *)

From S2P Require Import Prelude GoString GoUnicode GoConv GoErrors TmuxQuote TmuxFormat TmuxArgs TmuxServer.
From S2P Require Import MirrorProtocol MirrorDiagnostics MirrorManager MirrorViewerParse MirrorViewerParseProps MirrorViewer.
Open Scope Z_scope.

(** ** Every environment *)

(** Every call satisfies [P] and every result [Q]. *)
Fixpoint always {A} (P : vcall -> Prop) (Q : A -> Prop) (m : vm A) : Prop :=
  match m with
  | VRet a => Q a
  | VDo c k => P c /\ forall r, always P Q (k r)
  end.

Lemma always_bind {A B} P (Q : A -> Prop) (R : B -> Prop) (m : vm A) (f : A -> vm B) :
  always P Q m -> (forall a, Q a -> always P R (f a)) -> always P R (vbind m f).
Proof.
  intros Hm Hf. induction m as [a|c k IH]; cbn in *; [by apply Hf|].
  destruct Hm as [Hc Hk]. split; [done|]. intros r. by apply IH.
Qed.

Lemma always_weaken {A} (P P' : vcall -> Prop) (Q Q' : A -> Prop) m :
  (forall c, P c -> P' c) -> (forall a, Q a -> Q' a) -> always P Q m -> always P' Q' m.
Proof.
  intros HP HQ. induction m as [a|c k IH]; cbn; [apply HQ|]. intros [Hc Hk]. split; [by apply HP|].
  intros r. by apply IH.
Qed.

Lemma always_run {A} P (Q : A -> Prop) h (m : vm A) past past' a : always P Q m -> v_exec h past m = (past', a) ->
  Q a /\ exists calls, past' = calls ++ past /\ Forall P calls.
Proof.
  revert past. induction m as [b|c k IH]; intros past Hm Hr; cbn in *.
  - simplify_eq. split; [done|]. by exists [].
  - destruct Hm as [Hc Hk]. destruct (IH _ _ (Hk _) Hr) as (HQ & calls & -> & Hall). split; [done|].
    exists (calls ++ [c]). split; [by rewrite <- app_assoc|]. apply Forall_app. split; [done|]. by repeat constructor.
Qed.

Lemma always_call P c : P c -> always P (fun _ => True) (call c).
Proof. done. Qed.
Lemma always_attempt P c : P c -> always P (fun _ => True) (attempt c).
Proof. done. Qed.

Lemma v_exec_bind {A B} h (m : vm A) (f : A -> vm B) past :
  v_exec h past (vbind m f) = let '(past', a) := v_exec h past m in v_exec h past' (f a).
Proof. revert past. induction m as [a|c k IH]; intros past; cbn; [done|]. apply IH. Qed.

Section Props.
Context `{UnicodeTables}.
Variables (f : PTYViewerFactory) (os_environ : list bytes).
#[local] Abbreviation run_tmux := (runTmux f os_environ).

(** A tmux command is at most one search for the program and one run of it. *)
Lemma exec_settings h past past' r : v_exec h past (commandSettings f) = (past', r) ->
  past' = past \/ past' = CLookPath :: past.
Proof.
  unfold commandSettings. rewrite v_exec_bind. destruct (TmuxPath f ==b []).
  - unfold call, vbind. cbn. destruct (va_err _); cbn; intros E; [by simplify_eq; right|].
    destruct (Endpoint_Args _); cbn in E; simplify_eq; by right.
  - cbn. destruct (Endpoint_Args _); cbn; intros; simplify_eq; by left.
Qed.

Lemma exec_runTmux h past why args past' r : v_exec h past (run_tmux why args) = (past', r) ->
  exists past1, (past1 = past \/ past1 = CLookPath :: past) /\
  ((past' = past1 /\ exists err, r = Err err) \/
   exists path vec, let c := CTmux why path vec (cleanEnvironment f os_environ) in
     past' = c :: past1 /\
     r = match va_err (h past1 c) with
         | Some err => Err (EWrap (trim_space (va_out (h past1 c)) ++ !": ") err [])
         | None => if IsGenerationMismatchOutput (va_out (h past1 c))
                   then Err (ESentinel ErrServerGenerationChanged) else Ok (va_out (h past1 c))
         end).
Proof.
  unfold runTmux. rewrite v_exec_bind. destruct (v_exec h past (commandSettings f)) as [past1 s] eqn:E.
  apply exec_settings in E. intros Hr. exists past1. split; [done|].
  destruct s as [[path endpoint]|err]; [|cbn in Hr; simplify_eq; left; by split; [|eexists]].
  destruct (Endpoint_Args endpoint) as [prefix|err]; [|cbn in Hr; simplify_eq; left; by split; [|eexists]].
  right. exists path, (prefix ++ args). unfold call in Hr. cbn in Hr.
  destruct (va_err _); [cbn in Hr; by simplify_eq|]. destruct (IsGenerationMismatchOutput _); cbn in Hr; by simplify_eq.
Qed.

Lemma always_settings (P : vcall -> Prop) : P CLookPath -> always P (fun _ => True) (commandSettings f).
Proof.
  intros HP. unfold commandSettings. apply (always_bind _ (fun _ => True)).
  - destruct (TmuxPath f ==b []); [|done]. split; [done|]. intros r. cbn. by destruct (va_err r).
  - intros [?|?] _; [|done]. by destruct (Endpoint_Args _).
Qed.

Lemma always_runTmux (P : vcall -> Prop) why args :
  P CLookPath -> (forall path vec env, P (CTmux why path vec env)) -> always P (fun _ => True) (run_tmux why args).
Proof.
  intros HL HT. unfold runTmux. apply (always_bind _ (fun _ => True)); [by apply always_settings|].
  intros [[path e]|?] _; [|done]. destruct (Endpoint_Args e); [|done]. split; [apply HT|]. intros r. cbn.
  destruct (va_err r); [done|]. by destruct (IsGenerationMismatchOutput _).
Qed.

(** ** Counting queries *)

Definition is_query (c : vcall) : bool := match c with CTmux ForQuery _ _ _ => true | _ => false end.
Definition is_resize (c : vcall) : bool := match c with CResize _ _ => true | _ => false end.
Definition queries (calls : list vcall) : nat := length (List.filter is_query calls).
Definition resizes (calls : list vcall) : nat := length (List.filter is_resize calls).

Ltac counting := unfold queries, resizes in *; cbn [List.filter is_query is_resize length] in *; lia.

(** The last thing recorded. *)
Definition ends_with (event : bytes) (report : ViewerGeometryDiagnostic) (past : list vcall) : Prop :=
  exists level rest, past =
    CRecord {| Level := level; Component := !"viewer"; DEvent := event; DCode := []; DPath := [];
               DGeometry := Some report |} :: rest.

(** The client a query found, when it is the last call but for a record. *)
Definition last_query (h : venv) (pid : Z) (c : viewerClientGeometry) (past : list vcall) : Prop :=
  exists r path vec env rest, past = r :: CTmux ForQuery path vec env :: rest /\
    let a := h rest (CTmux ForQuery path vec env) in
    va_err a = None /\ parseViewerClientGeometry (va_out a) pid = Ok c.

Section Verify.
Variables (h : venv) (pid : Z) (windowID : bytes) (captured : ViewerGeometry).
#[local] Abbreviation round := (verify_round f os_environ pid windowID captured).
#[local] Abbreviation phase := (verify_phase f os_environ pid windowID captured).

(** What a verification that started after [past] has done when it ends: at
    most [q] queries and [s] resizes more, and an honest answer. *)
Definition verdict (q s : nat) (past past' : list vcall) (out : verified) : Prop :=
  (queries past' <= queries past + q)%nat /\ (resizes past' <= resizes past + s)%nat /\
  match out with
  | (report, None) => exists c corrected, last_query h pid c past' /\ ends_with !"geometry_verified" report past' /\
      viewerGeometryMatches captured windowID c = true /\ report = viewerGeometryDiagnostic captured c corrected
  | (report, Some _) => ends_with !"geometry_failed" report past'
  end.

Definition verdict_of (q s : nat) (m : ViewerGeometryDiagnostic -> vm verified) : Prop :=
  forall past past' report out, v_exec h past (m report) = (past', out) -> verdict q s past past' out.

Lemma verdict_later q s q' s' past0 past past' out : verdict q s past past' out ->
  (queries past + q <= queries past0 + q')%nat -> (resizes past + s <= resizes past0 + s')%nat ->
  verdict q' s' past0 past' out.
Proof. intros (Hq & Hs & Ho) ??. split_and!; [lia|lia|done]. Qed.

Lemma fail_verdict err : verdict_of 0 0 (fun report => failViewerGeometry report err).
Proof.
  intros past past' report out Hr. cbn in Hr. simplify_eq. split_and!; [counting|counting|].
  by eexists _, past.
Qed.

Lemma poll_verdict q s next : verdict_of q s next -> verdict_of q s (fun report => poll_again report next).
Proof.
  intros Hn past past' report out Hr. unfold poll_again, waitForViewerGeometry, attempt, call in Hr. cbn in Hr.
  destruct (va_err _); [apply fail_verdict in Hr|apply Hn in Hr];
    (eapply verdict_later; [exact Hr|counting|counting]).
Qed.

(** One query: at most two calls, and what it answers. *)
Lemma exec_query past past' r : v_exec h past (query_client f os_environ pid) = (past', r) ->
  (queries past' <= queries past + 1)%nat /\ resizes past' = resizes past /\
  (forall c x, r = Ok c -> last_query h pid c (x :: past')).
Proof.
  unfold query_client. rewrite v_exec_bind. destruct (v_exec h past (run_tmux _ _)) as [past2 r2] eqn:E.
  intros Hr. cbn in Hr. simplify_eq.
  destruct (exec_runTmux _ _ _ _ _ _ E) as (past1 & Hp & [[-> [err ->]]|(path & vec & -> & ->)]).
  - split_and!; [destruct Hp as [->| ->]; counting|by destruct Hp as [->| ->]|done].
  - split_and!; [destruct Hp as [->| ->]; counting|by destruct Hp as [->| ->]|].
    intros c x Hc. exists x, path, vec, (cleanEnvironment f os_environ), past1. split; [done|].
    cbv zeta. destruct (va_err _); [done|]. split; [done|].
    destruct (IsGenerationMismatchOutput _); [done|exact Hc].
Qed.

Lemma exec_refresh past past' name r : v_exec h past (refreshViewerClient f os_environ name) = (past', r) ->
  queries past' = queries past /\ resizes past' = resizes past.
Proof.
  unfold refreshViewerClient. destruct (name ==b []); [intros E; cbn in E; by simplify_eq|].
  rewrite v_exec_bind. destruct (v_exec h past (run_tmux _ _)) as [past2 r2] eqn:E. intros Hr. cbn in Hr. simplify_eq.
  destruct (exec_runTmux _ _ _ _ _ _ E) as (past1 & Hp & [[-> _]|(path & vec & -> & _)]);
    by destruct Hp as [->| ->].
Qed.

Lemma round_verdict (q q' : nat) (corrected : bool) next again : verdict_of q (if corrected then 0 else 1)%nat next ->
  (corrected = false -> verdict_of q' 0 again) -> (q' <= q)%nat ->
  verdict_of (S q) (if corrected then 0 else 1)%nat (round corrected next again).
Proof.
  intros Hn Ha Hq past past' report out. unfold verify_round. rewrite v_exec_bind.
  destruct (v_exec h past (query_client f os_environ pid)) as [past1 r] eqn:E.
  destruct (exec_query _ _ _ E) as (Hq1 & Hs1 & Hlast). intros Hr.
  assert (forall m q2 s2, verdict_of q2 s2 m -> (q2 <= q)%nat -> (s2 <= (if corrected then 0 else 1))%nat ->
    forall report', v_exec h past1 (m report') = (past', out) -> verdict (S q) (if corrected then 0 else 1)%nat past past' out)
    as Hafter.
  { intros m q2 s2 Hm ?? report' Hm'. apply Hm in Hm'. eapply verdict_later; [exact Hm'|lia|lia]. }
  destruct r as [client|err].
  2: { destruct (errors_is _ err).
       - revert Hr. by apply (Hafter (fun r => poll_again r next) q _ (poll_verdict _ _ _ Hn)).
       - revert Hr. apply (Hafter _ _ _ (fail_verdict err)); lia. }
  destruct (vc_windowID client ==b windowID); cbn [negb] in Hr.
  2: { revert Hr. apply (Hafter _ _ _ (fail_verdict _)); lia. }
  destruct (viewerGeometryMatches captured windowID client) eqn:Hm.
  { cbn in Hr. simplify_eq. split_and!; [counting|counting|].
    exists client, corrected. split_and!; [by apply Hlast|by eexists _, past1|done|done]. }
  destruct corrected; cbn [negb] in Hr.
  { revert Hr. apply (Hafter (fun r => poll_again r next) q 0%nat (poll_verdict _ _ _ Hn)); lia. }
  rewrite v_exec_bind in Hr. unfold resizeViewerPTY, attempt, call in Hr. cbn in Hr.
  destruct (va_err _) as [err|].
  { apply fail_verdict in Hr. eapply verdict_later; [exact Hr|counting|counting]. }
  rewrite v_exec_bind in Hr. destruct (v_exec h _ (refreshViewerClient _ _ _)) as [past2 r2] eqn:E2.
  destruct (exec_refresh _ _ _ _ E2) as [Hq2 Hs2]. destruct r2 as [err|].
  { apply fail_verdict in Hr. eapply verdict_later; [exact Hr|counting|counting]. }
  cbn in Hr. apply (poll_verdict _ _ _ (Ha eq_refl)) in Hr. eapply verdict_later; [exact Hr|counting|counting].
Qed.

Lemma phase_corrected n again : verdict_of n 0 (phase true again n).
Proof.
  induction n as [|n IH]; [apply fail_verdict|].
  apply (round_verdict n 0 true); [exact IH|done|lia].
Qed.

Lemma phase_verdict n again q : verdict_of q 0 again -> verdict_of (n + q) 1 (phase false again n).
Proof.
  intros Ha. induction n as [|n IH].
  - intros past past' report out Hr. apply fail_verdict in Hr. eapply verdict_later; [exact Hr|lia|lia].
  - apply (round_verdict (n + q) q false); [exact IH|done|lia].
Qed.

Lemma verify_verdict past past' out :
  v_exec h past (verifyViewerGeometry f os_environ pid windowID captured) = (past', out) ->
  verdict 400 1 past past' out.
Proof.
  unfold verifyViewerGeometry. intros Hr. cbn [v_exec vbind record call] in Hr.
  apply (phase_verdict 200 _ 200 (phase_corrected 200 _)) in Hr.
  eapply verdict_later; [exact Hr|counting|counting].
Qed.

(** ** A client that attaches and converges is accepted *)

(** Every call succeeds; the viewer's client appears after [k] queries, in the
    right window; it has the captured geometry at the latest from the [j]-th
    query after the correction on. *)
Record converges (k j : nat) : Prop := {
  cv_path : TmuxPath f <> [] /\ exists e prefix, FEndpoint f = e /\ Endpoint_Args e = Ok prefix /\
    ((SocketName e ==b []) && (SocketPath e ==b []) = false);
  cv_calls : forall past c, match c with CTmux ForRefresh _ _ _ | CSleep | CResize _ _ =>
    va_err (h past c) = None | _ => True end;
  cv_refresh : forall past path vec env, IsGenerationMismatchOutput (va_out (h past (CTmux ForRefresh path vec env))) = false;
  cv_query : forall past path vec env, let out := va_out (h past (CTmux ForQuery path vec env)) in
    va_err (h past (CTmux ForQuery path vec env)) = None /\ IsGenerationMismatchOutput out = false /\
    if (queries past <? k)%nat
    then exists err, parseViewerClientGeometry out pid = Err err /\ errors_is ErrViewerClientNotAttached err = true
    else exists c, parseViewerClientGeometry out pid = Ok c /\ vc_windowID c = windowID /\ vc_name c <> [] /\
         (resizes past = 1%nat -> (k + 1 + j <= queries past)%nat -> viewerGeometryMatches captured windowID c = true)
}.

Section Converges.
Variables (k j : nat).
Hypothesis (Hcv : converges k j).

Lemma run_ok past why args : let path := TmuxPath f in
  exists vec, v_exec h past (run_tmux why args) =
    let c := CTmux why path vec (cleanEnvironment f os_environ) in
    (c :: past, match va_err (h past c) with
                | Some err => Err (EWrap (trim_space (va_out (h past c)) ++ !": ") err [])
                | None => if IsGenerationMismatchOutput (va_out (h past c))
                          then Err (ESentinel ErrServerGenerationChanged) else Ok (va_out (h past c))
                end).
Proof.
  intros path. destruct (cv_path _ _ Hcv) as (Hpath & e & prefix & He & Hargs & Hs). exists (prefix ++ args).
  unfold runTmux, commandSettings. rewrite (bool_decide_false _ Hpath). cbn [vbind]. rewrite He, Hs, Hargs.
  cbn [vbind]. rewrite Hargs. unfold call. cbn [vbind v_exec]. destruct (va_err _); [done|].
  by destruct (IsGenerationMismatchOutput _).
Qed.

Lemma query_ok past : exists path vec env, let c := CTmux ForQuery path vec env in
  v_exec h past (query_client f os_environ pid) = (c :: past, parseViewerClientGeometry (va_out (h past c)) pid).
Proof.
  destruct (run_ok past ForQuery [!"list-clients"; !"-F"; client_format]) as [vec E].
  exists (TmuxPath f), vec, (cleanEnvironment f os_environ). cbv zeta.
  unfold query_client. rewrite v_exec_bind, E. cbv zeta.
  destruct (cv_query _ _ Hcv past (TmuxPath f) vec (cleanEnvironment f os_environ)) as (-> & -> & _). done.
Qed.

Lemma poll_ok past report next : v_exec h past (poll_again report next) = v_exec h (CSleep :: past) (next report).
Proof.
  unfold poll_again, waitForViewerGeometry, attempt, call. cbn.
  by rewrite (cv_calls _ _ Hcv past CSleep).
Qed.

Lemma refresh_ok past name : name <> [] ->
  exists c, v_exec h past (refreshViewerClient f os_environ name) = (c :: past, None) /\ is_query c = false /\
    is_resize c = false.
Proof.
  intros Hn. destruct (run_ok past ForRefresh [!"refresh-client"; !"-t"; name]) as [vec E].
  exists (CTmux ForRefresh (TmuxPath f) vec (cleanEnvironment f os_environ)). split_and!; [|done|done].
  unfold refreshViewerClient. rewrite (bool_decide_false _ Hn), v_exec_bind, E. cbv zeta.
  rewrite (cv_calls _ _ Hcv past (CTmux ForRefresh _ _ _)), (cv_refresh _ _ Hcv). done.
Qed.

Definition accepted (m : vm verified) (past : list vcall) : Prop :=
  exists past' report, v_exec h past m = (past', (report, None)).

Lemma verified_ok past report : accepted (do! _ := record !"info" !"geometry_verified" report in VRet (report, None)) past.
Proof. by eexists _, _. Qed.

Lemma converge_phase n past report again : resizes past = 1%nat -> (k + 1 <= queries past <= k + 1 + j)%nat ->
  (k + 1 + j < queries past + n)%nat -> accepted (phase true again n report) past.
Proof.
  revert past report. induction n as [|n IH]; intros past report Hs Hk Hn; [lia|].
  cbn [verify_phase]. unfold accepted, verify_round. rewrite v_exec_bind.
  destruct (query_ok past) as (path & vec & env & ->).
  destruct (cv_query _ _ Hcv past path vec env) as (_ & _ & Hq).
  rewrite (proj2 (Nat.ltb_ge _ _)) in Hq by lia. destruct Hq as (c & -> & Hw & _ & Hm).
  rewrite (bool_decide_true _ Hw). cbn [negb].
  destruct (viewerGeometryMatches captured windowID c) eqn:E; [apply verified_ok|].
  assert (~ (k + 1 + j <= queries past)%nat) by (intros Hle; discriminate (Hm Hs Hle)).
  rewrite poll_ok. apply IH; [done|counting|counting].
Qed.

Lemma attach_phase m n past report : resizes past = 0%nat -> (queries past <= k)%nat -> (k < queries past + n)%nat ->
  (j < m)%nat -> accepted (phase false (phase true (fun r => VRet (r, None)) m) n report) past.
Proof.
  revert past report. induction n as [|n IH]; intros past report Hs Hk Hn Hj; [lia|].
  cbn [verify_phase]. unfold accepted, verify_round. rewrite v_exec_bind.
  destruct (query_ok past) as (path & vec & env & ->).
  destruct (cv_query _ _ Hcv past path vec env) as (_ & _ & Hq).
  destruct (Nat.ltb_spec (queries past) k).
  - destruct Hq as (err & -> & ->). rewrite poll_ok. apply IH; [done|counting|counting|done].
  - destruct Hq as (c & -> & Hw & Hname & _). rewrite (bool_decide_true _ Hw). cbn [negb].
    destruct (viewerGeometryMatches captured windowID c); [apply verified_ok|].
    rewrite v_exec_bind. unfold resizeViewerPTY, attempt, call. cbn [vbind v_exec].
    rewrite (cv_calls _ _ Hcv _ (CResize _ _)). rewrite v_exec_bind.
    destruct (refresh_ok (CResize (VgColumns captured) (VgRows captured) :: CTmux ForQuery path vec env :: past) _ Hname)
      as (rc & -> & Hrc1 & Hrc2).
    rewrite v_exec_bind. unfold record, call. cbn [vbind v_exec]. rewrite poll_ok.
    apply converge_phase; unfold queries, resizes in *;
      cbn [List.filter is_query is_resize length]; rewrite ?Hrc1, ?Hrc2; cbn [List.filter is_query is_resize length]; lia.
Qed.
End Converges.
End Verify.

(** C37: a viewer is accepted exactly when its client shows the captured window.
    Whatever tmux, the terminal and the clock answer, the verification ends
    after at most 400 queries and one resize; if it reports success, the last
    query found the viewer's client in the pinned window, ignoring its own size,
    with the captured geometry, and the report is about that client; every
    failure is recorded.  And it is not too strict: a client that attaches
    within 200 queries, and has the captured geometry within 200 queries after
    the one correction, is accepted, be it the very last of each. *)
Theorem geometry_verified_exactly (h : venv) (pid : Z) (windowID : bytes) (captured : ViewerGeometry) :
  (forall past past' out, v_exec h past (verifyViewerGeometry f os_environ pid windowID captured) = (past', out) ->
     verdict h pid windowID captured 400 1 past past' out) /\
  (forall k j, (k < 200)%nat -> (j < 200)%nat -> converges h pid windowID captured k j ->
     exists past' report,
       v_exec h [] (verifyViewerGeometry f os_environ pid windowID captured) = (past', (report, None))).
Proof.
  split; [apply verify_verdict|]. intros k j Hk Hj Hcv.
  unfold verifyViewerGeometry. cbn [v_exec vbind record call].
  apply (attach_phase h pid windowID captured k j Hcv); unfold queries, resizes, viewerGeometryAttempts;
    cbn [List.filter is_query is_resize length]; lia.
Qed.
End Props.

(** ** A client that needs the correction *)

Definition demo_factory : PTYViewerFactory :=
  {| SessionSocket := []; FEndpoint := {| SocketName := !"wrap"; SocketPath := [] |}; TmuxPath := !"/bin/tmux";
     Environment := Some [!"HOME=/h"; !"TMUX=/s,1,0"; !"TERM=dumb"] |}.
Definition demo_geometry : ViewerGeometry :=
  {| VgColumns := 160; VgRows := 50; statusRows := 1; statusValue := !"on" |}.
Definition client_listing (columns : bytes) : bytes :=
  fields_of [!"/dev/pts/7"; !"4242"; columns; !"50"; !"ignore-size"; !"@4"; !"160"; !"49"; !"0"; !"on"] ++ [newline].

(** The client shows up after one query and has the right width from the second
    query after the correction on. *)
Definition slow_client : venv := fun past c =>
  {| va_err := None;
     va_out := match c with
               | CTmux ForQuery _ _ _ =>
                   if (queries past <? 1)%nat then []
                   else if (3 <=? queries past)%nat && (resizes past =? 1)%nat
                   then client_listing !"160" else client_listing !"80"
               | _ => []
               end |}.

Lemma slow_client_converges : converges demo_factory slow_client 4242 !"@4" demo_geometry 1 1.
Proof.
  split.
  - split; [done|]. exists {| SocketName := !"wrap"; SocketPath := [] |}, [!"-L"; !"wrap"]. split_and!; reflexivity.
  - intros past []; try done. by destruct why.
  - done.
  - intros past path vec env. cbn [slow_client va_out va_err].
    destruct (Nat.ltb_spec (queries past) 1).
    + split_and!; [done|done|]. eexists. split; vm_compute; reflexivity.
    + destruct (_ && _) eqn:E.
      * split_and!; [done|vm_compute; reflexivity|]. eexists. split_and!; [vm_compute; reflexivity|done|done|].
        intros _ _. vm_compute. reflexivity.
      * split_and!; [done|vm_compute; reflexivity|]. eexists. split_and!; [vm_compute; reflexivity|done|done|].
        intros Hs Hq. rewrite Hs, andb_true_r in E. apply Nat.leb_gt in E. lia.
Qed.

Lemma geometry_verified_exactly_witness : exists past' report,
  v_exec slow_client [] (verifyViewerGeometry demo_factory [] 4242 !"@4" demo_geometry) = (past', (report, None)).
Proof.
  refine (proj2 (geometry_verified_exactly demo_factory [] slow_client 4242 !"@4" demo_geometry) 1%nat 1%nat _ _
            slow_client_converges); lia.
Defined.

(** The correction made it into the report, and four queries were needed. *)
Example slow_client_report :
  let '(past, (report, _)) := v_exec slow_client [] (verifyViewerGeometry demo_factory [] 4242 !"@4" demo_geometry) in
  (queries past, resizes past, Corrected report) = (4, 1, true)%nat.
Proof. vm_compute. reflexivity. Qed.

(** The viewer's environment hides the surrounding tmux and terminal. *)
Example demo_environment : cleanEnvironment demo_factory [] = [!"HOME=/h"; !"TERM=xterm-256color"].
Proof. vm_compute. reflexivity. Qed.
