(* ===== verification/MirrorViewerPins.v ===== *)
(** * Viewers share the pin of a window

    Prepared and running viewers, the factory's table of pins, and the steps
    that change them; [pinMu] makes each access to the table one step, and the
    lock of a preparation keeps its [Start] and [Close] apart.  The table counts
    exactly the viewers that hold a window, and tmux is told to restore a window
    only when nobody holds it. *)

From S2P Require Import Prelude GoString GoUnicode GoConv GoErrors TmuxQuote TmuxFormat TmuxArgs TmuxServer.
From S2P Require Import MirrorProtocol MirrorDiagnostics MirrorManager MirrorViewerParse MirrorViewer MirrorViewerProps.
Open Scope Z_scope.

(** A preparation and the viewer it may have become. *)
Record entry := { en_prep : ptyViewerPreparation; en_ended : bool }.
Record viewers := { pins : pin_table; entries : list entry }.

Definition running (e : entry) : Prop := pp_started (en_prep e) = true /\ en_ended e = false.
Definition prepared (e : entry) : Prop := pp_started (en_prep e) = false /\ pp_closed (en_prep e) = false.

Definition set_entry (i : nat) (e : entry) (t : pin_table) (w : viewers) : viewers :=
  {| pins := t; entries := <[i := e]> (entries w) |}.

Section Pins.
Context `{UnicodeTables}.
Variables (f : PTYViewerFactory) (os_environ : list bytes).

(** One operation with the calls it makes, newest first, under any environment. *)
Inductive vstep : viewers -> list vcall -> viewers -> Prop :=
| vs_prepare w identity h past calls t p :
    v_exec h past (Prepare f os_environ identity (pins w)) = (calls ++ past, (t, Ok p)) ->
    vstep w calls {| pins := t; entries := entries w ++ [{| en_prep := p; en_ended := false |}] |}
| vs_prepare_failed w identity h past calls t err :
    v_exec h past (Prepare f os_environ identity (pins w)) = (calls ++ past, (t, Err err)) ->
    vstep w calls {| pins := t; entries := entries w |}
| vs_start w i e pid h past calls p t err :
    entries w !! i = Some e ->
    v_exec h past (Start f os_environ pid (en_prep e) (pins w)) = (calls ++ past, (p, t, err)) ->
    vstep w calls (set_entry i {| en_prep := p; en_ended := en_ended e |} t w)
| vs_close w i e h past calls p t err :
    entries w !! i = Some e ->
    v_exec h past (preparation_Close f os_environ (en_prep e) (pins w)) = (calls ++ past, (p, t, err)) ->
    vstep w calls (set_entry i {| en_prep := p; en_ended := en_ended e |} t w)
| vs_end w i e reads stopped h past calls p t err :        (* [run] of a viewer returns *)
    entries w !! i = Some e -> running e ->
    v_exec h past (viewer_run f os_environ reads stopped (en_prep e) (pins w)) = (calls ++ past, Some (p, t, err)) ->
    vstep w calls (set_entry i {| en_prep := p; en_ended := true |} t w)
| vs_cleanup w keys h past calls t err :                   (* a map is visited in any order *)
    keys ≡ₚ (map_to_list (pins w)).*1 ->
    v_exec h past (Cleanup f os_environ keys (pins w)) = (calls ++ past, (t, err)) ->
    vstep w calls {| pins := t; entries := entries w |}.

Definition no_viewers : viewers := {| pins := ∅; entries := [] |}.
Definition vreach : viewers -> Prop := reachable (fun w => w = no_viewers) (fun w w' => exists calls, vstep w calls w').

(** ** Who holds a window *)

Definition holds (k : viewerWindowKey) (e : entry) : bool :=
  (pp_key (en_prep e) ==b k) && negb (pp_released (en_prep e)).
Definition holders (k : viewerWindowKey) (es : list entry) : Z := count (holds k) es.

Lemma holders_app k es e : holders k (es ++ [e]) = holders k es + (if holds k e then 1 else 0).
Proof. apply count_snoc. Qed.
Lemma holders_insert k es i e e' : es !! i = Some e ->
  holders k (<[i := e']> es) = holders k es - (if holds k e then 1 else 0) + (if holds k e' then 1 else 0).
Proof. apply count_insert. Qed.
Lemma holders_nonneg k es : 0 <= holders k es.
Proof. apply count_nonneg. Qed.
Lemma holders_pos k es i e : es !! i = Some e -> holds k e = true -> 0 < holders k es.
Proof. apply count_pos. Qed.

(** The table [t] counts the holders [n]. *)
Definition counts (t : pin_table) (n : viewerWindowKey -> Z) : Prop :=
  forall k, match t !! k with
            | Some pin => references pin = n k /\ restore pin = originalInherited pin
            | None => n k = 0
            end.

(** An entry has let go exactly when it was closed or its viewer has ended. *)
Record entry_ok (e : entry) : Prop := {
  eo_released : pp_released (en_prep e) = pp_closed (en_prep e) || en_ended e;
  eo_started : pp_started (en_prep e) = true -> pp_closed (en_prep e) = false;
  eo_ended : en_ended e = true -> pp_started (en_prep e) = true
}.

(** ** What the programs do to the table *)

Definition restores (k : viewerWindowKey) (c : vcall) : bool :=
  match c with CTmux (ForRestore k') _ _ _ => k' ==b k | _ => false end.
Definition pins_key (k : viewerWindowKey) (c : vcall) : bool :=
  match c with CTmux (ForPin k') _ _ _ => k' ==b k | _ => false end.

(** Only windows in [R] are restored, only windows in [P] are pinned. *)
Definition touches (R P : viewerWindowKey -> Prop) (c : vcall) : Prop :=
  forall k, (restores k c = true -> R k) /\ (pins_key k c = true -> P k).

Definition nothing (k : viewerWindowKey) : Prop := False.
Definition add1 (k : viewerWindowKey) (d : Z) (n : viewerWindowKey -> Z) : viewerWindowKey -> Z :=
  fun k' => if k' ==b k then n k' + d else n k'.

Lemma touches_run R P why args :
  (forall k, why = ForRestore k -> R k) -> (forall k, why = ForPin k -> P k) ->
  always (touches R P) (fun _ => True) (runTmux f os_environ why args).
Proof.
  intros HR HP. apply always_runTmux; [by intros k|]. intros path vec env k.
  split; cbn; destruct why; try done; intros E%bool_decide_eq_true; subst; auto.
Qed.

Lemma touches_plain R P c : (forall k, restores k c = false) -> (forall k, pins_key k c = false) -> touches R P c.
Proof. intros HR HP k. rewrite HR, HP. done. Qed.

Lemma always_restore R P k mode inherited owner hookIndex : R k ->
  always (touches R P) (fun _ => True) (restoreWindowPin f os_environ k mode inherited owner hookIndex).
Proof.
  intros HR. unfold restoreWindowPin. destruct (RestoreWindowSizeIfGenerationArgs _ _ _ _ _ _); [|done].
  apply (always_bind _ (fun _ => True)).
  - apply touches_run; [|done]. intros k' E. by simplify_eq.
  - intros r _. repeat case_goal; done.
Qed.

Lemma counts_insert t n k pin : counts t n -> references pin = n k -> restore pin = originalInherited pin ->
  counts (<[k := pin]> t) n.
Proof.
  intros Hc Hp Hr k'. destruct (decide (k' = k)) as [->|Hne]; [by rewrite lookup_insert_eq|].
  rewrite lookup_insert_ne by done. apply Hc.
Qed.

Lemma counts_delete t n k : counts t n -> n k = 0 -> counts (delete k t) n.
Proof.
  intros Hc Hk k'. destruct (decide (k' = k)) as [->|Hne]; [by rewrite lookup_delete_eq|].
  rewrite lookup_delete_ne by done. apply Hc.
Qed.

Lemma counts_add t n k d pin : counts t n -> references pin = n k + d -> restore pin = originalInherited pin ->
  counts (<[k := pin]> t) (add1 k d n).
Proof.
  intros Hc Hp Hr k'. unfold add1. destruct (decide (k' = k)) as [->|Hne].
  - rewrite lookup_insert_eq, bool_decide_true by done. done.
  - rewrite lookup_insert_ne, bool_decide_false by done. apply Hc.
Qed.

Lemma counts_ext t n n' : counts t n -> (forall k, n k = n' k) -> counts t n'.
Proof. intros Hc He k. specialize (Hc k). rewrite <- He. exact Hc. Qed.

Lemma pin_attempt_counts t n identity next : counts t n ->
  let post := fun '(t', r) => match r with Ok (_, _, k) => counts t' (add1 k 1 n) | Err _ => counts t' n end in
  always (touches (fun k => n k = 0) (fun k => n k = 0)) post next ->
  always (touches (fun k => n k = 0) (fun k => n k = 0)) post (pin_attempt f os_environ identity t next).
Proof.
  intros Hc post Hnext. unfold pin_attempt. destruct (CaptureWindowSizeIfGenerationArgs _ _); [|done].
  apply (always_bind _ (fun _ => True)); [by apply touches_run|]. intros [out|err] _; [|done].
  destruct (parseWindowPin out) as [c|err]; [|done]. destruct (_ && _); [done|].
  set (key := {| wk_generation := _; wk_windowID := _ |}). pose proof (Hc key) as Hk.
  destruct (t !! key) as [pin|] eqn:Hpin; [apply (counts_add _ _ _ _ _ Hc); cbn; [lia|by apply Hk]|].
  assert (forall k mode inherited owner hookIndex pinErr, k = key ->
    forall m, always (touches (fun k => n k = 0) (fun k => n k = 0)) post m ->
    always (touches (fun k => n k = 0) (fun k => n k = 0)) post
      (roll_back f os_environ k mode inherited owner hookIndex pinErr (fun err => VRet (t, Err err)) m)) as Hroll.
  { intros k mode inherited owner hookIndex pinErr -> m Hm. unfold roll_back. destruct inherited; [|done].
    apply (always_bind _ (fun _ => True)); [by apply always_restore|]. by intros [e|] _. }
  apply (always_bind _ (fun _ => True)).
  { destruct (cp_inherited c); [|done]. split; [by apply touches_plain|]. intros r. cbn. by destruct (va_err r). }
  intros [[owner hookIndex]|err] _; [|done].
  destruct (PinWindowSizeIfGenerationArgs _ _ _ _ _ _ _ _ _ _); [|done].
  apply (always_bind _ (fun _ => True)); [apply touches_run; [done|]; intros k E; by simplify_eq|].
  intros [out'|err] _; [|apply Hroll; [done|]; by destruct (IsWindowPinConflictError _)].
  destruct (IsWindowPinMismatchOutput out'); [done|].
  destruct (negb _); [by apply Hroll|]. apply (counts_add _ _ _ _ _ Hc); cbn; [lia|done].
Qed.

Lemma pinWindow_counts t n identity : counts t n ->
  always (touches (fun k => n k = 0) (fun k => n k = 0))
    (fun '(t', r) => match r with Ok (_, _, k) => counts t' (add1 k 1 n) | Err _ => counts t' n end)
    (pinWindow f os_environ identity t).
Proof.
  intros Hc. unfold pinWindow. generalize viewerWindowPinAttempts. intros m.
  induction m as [|m IH]; [done|]. by apply pin_attempt_counts.
Qed.

(** The count after a release. *)
Definition after (k : viewerWindowKey) (decrement : bool) (n : viewerWindowKey -> Z) : viewerWindowKey -> Z :=
  if decrement then add1 k (-1) n else n.

Lemma after_same k d n : after k d n k = n k - (if d then 1 else 0).
Proof. unfold after, add1. destruct d; [rewrite bool_decide_true by done|]; lia. Qed.

Lemma releaseWindow_counts t n k decrement : counts t n -> (forall k', 0 <= n k') -> (decrement = true -> 0 < n k) ->
  always (touches (fun k' => k' = k /\ after k decrement n k = 0) nothing)
    (fun '(t', err) => counts t' (after k decrement n) /\
       (err = None -> after k decrement n k = 0 -> t' !! k = None))
    (releaseWindow f os_environ k decrement t).
Proof.
  intros Hc Hn Hd. unfold releaseWindow. pose proof (Hc k) as Hk. pose proof (Hn k).
  destruct (t !! k) as [pin|] eqn:Hpin.
  2: { destruct decrement; [exfalso; specialize (Hd eq_refl); lia|]. by split. }
  destruct Hk as [Hr Hi].
  set (pin' := if decrement then _ else _).
  assert (references pin' = after k decrement n k) as Hp'.
  { rewrite after_same. subst pin'. destruct decrement; cbn; lia. }
  assert (counts (<[k := pin']> t) (after k decrement n)) as Hc'.
  { unfold after in *. subst pin'. destruct decrement.
    - apply (counts_add _ _ _ _ _ Hc); [cbn; lia|done].
    - by apply counts_insert. }
  assert (0 <= after k decrement n k) by (rewrite after_same; destruct decrement; [specialize (Hd eq_refl)|]; lia).
  destruct (Z.ltb_spec 0 (references pin')); [split; [done|intros _ E; lia]|].
  assert (after k decrement n k = 0) as Hz by lia.
  assert (counts (delete k (<[k := pin']> t)) (after k decrement n) /\
          (@None error = None -> after k decrement n k = 0 -> delete k (<[k := pin']> t) !! k = None)) as Hdel.
  { split; [by apply counts_delete|]. intros _ _. by rewrite lookup_delete_eq. }
  destruct (negb (restore pin')); [exact Hdel|].
  apply (always_bind _ (fun _ => True)); [by apply always_restore|]. by intros [e|] _.
Qed.

(** What the loop of [Cleanup] has done when it started with the errors [errs]. *)
Definition cleaned (n : viewerWindowKey -> Z) (keys : list viewerWindowKey) (t : pin_table)
    (errs : list (option error)) (r : pin_table * option error) : Prop :=
  let '(t', err) := r in
  counts t' n /\ (forall k, t' !! k = None \/ t' !! k = t !! k) /\
  (err = None -> Forall (fun e => e = None) errs /\
     forall k pin, k ∈ keys -> t' !! k = Some pin -> 0 < references pin).

Lemma cleaned_cons n keys t errs r key t' errs' : cleaned n keys t' errs' r ->
  t' = t \/ t' = delete key t -> (exists more, errs' = errs ++ more) ->
  (forall pin, t' !! key = Some pin -> 0 < references pin) \/ ~ Forall (fun e => e = None) errs' ->
  cleaned n (key :: keys) t errs r.
Proof.
  destruct r as [t'' err]. intros (Hc & Hsub & Herr) Ht' [more ->] Hkey. split_and!; [done| |].
  - intros k. destruct (Hsub k) as [->| ->]; [by left|].
    destruct Ht' as [->| ->]; [by right|]. destruct (decide (k = key)) as [->|Hne].
    + left. by rewrite lookup_delete_eq.
    + right. by rewrite lookup_delete_ne.
  - intros He. destruct (Herr He) as [Hall Hkeys]. split; [by apply Forall_app in Hall as [? _]|].
    intros k pin Hk Hpin. apply elem_of_cons in Hk as [->|Hk]; [|by eapply Hkeys].
    destruct Hkey as [Hkey|Hkey]; [|done]. destruct (Hsub key) as [E|E]; rewrite E in Hpin; [done|by apply Hkey].
Qed.

Lemma cleanup_counts keys t n errs : counts t n -> (forall k, 0 <= n k) ->
  always (touches (fun k => n k = 0) nothing) (cleaned n keys t errs) (cleanup_loop f os_environ keys t errs).
Proof.
  intros Hc Hn. revert t errs Hc. induction keys as [|key keys IH]; intros t errs Hc; cbn [cleanup_loop].
  { split_and!; [done|by right|]. intros He. split; [by apply errors_join_None|]. by intros k pin []%elem_of_nil. }
  pose proof (Hc key) as Hk. specialize (Hn key).
  assert (forall t' errs', counts t' n -> t' = t \/ t' = delete key t -> (exists more, errs' = errs ++ more) ->
    (forall pin, t' !! key = Some pin -> 0 < references pin) \/ ~ Forall (fun e => e = None) errs' ->
    always (touches (fun k => n k = 0) nothing) (cleaned n (key :: keys) t errs)
      (cleanup_loop f os_environ keys t' errs')) as Hgo.
  { intros t' errs' Hc' Ht' He Hkey. eapply always_weaken; [done| |apply (IH t' errs' Hc')].
    intros r Hr. by eapply cleaned_cons. }
  assert (exists more, errs = errs ++ more) as Hsame by (exists []; by rewrite app_nil_r).
  destruct (t !! key) as [pin|] eqn:Hpin; [|apply Hgo; [done|by left|done|left; congruence]].
  destruct (Z.ltb_spec 0 (references pin)); [apply Hgo; [done|by left|done|left; congruence]|].
  destruct Hk as [Hr Hi]. assert (counts (delete key t) n) by (apply counts_delete; [done|lia]).
  assert (forall pin, delete key t !! key = Some pin -> 0 < references pin) by (intros ?; by rewrite lookup_delete_eq).
  destruct (negb (restore pin)); [apply Hgo; [done|by right|done|by left]|].
  apply (always_bind _ (fun _ => True)); [apply always_restore; lia|]. intros [e|] _.
  - apply Hgo; [done|by left|by eexists|]. right. rewrite Forall_app, Forall_singleton. by intros [_ ?].
  - apply Hgo; [done|by right|done|by left].
Qed.

(** ** A refused restoration *)

(** What the program that ran from [past] to [past'] has done with [pin] when it
    was to let go of it, and the error it returned: a pin that is still held
    stays, one that needs no restoration is forgotten, and tmux is asked to
    restore any other within the run; when that fails the pin is kept as it is
    and the failure is in the error. *)
Definition settled (h : venv) (past past' : list vcall) (k : viewerWindowKey) (pin : viewerWindowPin)
    (t' : pin_table) (err : option error) : Prop :=
  if 0 <? references pin then t' !! k = Some pin
  else if negb (restore pin) then t' !! k = None
  else exists before after outcome,
    v_exec h before (restore_pin f os_environ k pin) = (after, outcome) /\
    past `suffix_of` before /\ after `suffix_of` past' /\
    match outcome with
    | None => t' !! k = None
    | Some e => t' !! k = Some pin /\ reported e err
    end.

(** The pin after [decrement] of its references. *)
Definition one_less (decrement : bool) (pin : viewerWindowPin) : viewerWindowPin :=
  if decrement then pin <| references := references pin - 1 |> else pin.

Lemma v_exec_grows {A} h (m : vm A) past past' a : v_exec h past m = (past', a) -> past `suffix_of` past'.
Proof.
  revert past. induction m as [b|c m IH]; intros past Hr; cbn in Hr; [by simplify_eq|].
  etrans; [|by apply IH in Hr]. by exists [c].
Qed.

Lemma release_settles h past past' k decrement t pin t' err : t !! k = Some pin ->
  v_exec h past (releaseWindow f os_environ k decrement t) = (past', (t', err)) ->
  settled h past past' k (one_less decrement pin) t' err.
Proof.
  intros Hpin. unfold releaseWindow, settled. rewrite Hpin. fold (one_less decrement pin).
  destruct (0 <? _); [intros Hr; cbn in Hr; simplify_eq; apply lookup_insert_eq|].
  destruct (negb _); [intros Hr; cbn in Hr; simplify_eq; apply lookup_delete_eq|].
  rewrite v_exec_bind. destruct (v_exec h past _) as [after outcome] eqn:E.
  intros Hr. exists past, after, outcome. split; [done|]. split; [done|].
  destruct outcome as [e|]; cbn in Hr; simplify_eq; (split; [done|]).
  - split; [apply lookup_insert_eq|apply reported_self].
  - apply lookup_delete_eq.
Qed.

Lemma settled_later h past1 past2 past' k pin t' err :
  past1 `suffix_of` past2 -> settled h past2 past' k pin t' err -> settled h past1 past' k pin t' err.
Proof.
  intros Hs. unfold settled. destruct (0 <? _); [done|]. destruct (negb _); [done|].
  intros (before & after & outcome & Hr & Hb & Ha). exists before, after, outcome.
  split; [done|]. split; [by etrans|done].
Qed.

Lemma cleanup_settles h keys : NoDup keys -> forall t errs past past' t' err,
  v_exec h past (cleanup_loop f os_environ keys t errs) = (past', (t', err)) ->
  (forall e, e ∈ errs -> forall e', reported e' e -> reported e' err) /\
  (forall k, k ∉ keys -> t' !! k = t !! k) /\
  (forall k pin, k ∈ keys -> t !! k = Some pin -> settled h past past' k pin t' err).
Proof.
  induction 1 as [|key keys Hnew _ IH]; intros t errs past past' t' err Hr; cbn [cleanup_loop] in Hr.
  { cbn in Hr. simplify_eq. split_and!; [|done|by intros k pin []%elem_of_nil].
    intros e He e'. by apply reported_in. }
  (* the rest of the loop, from the table [t1] it is given for [key] *)
  assert (forall t1 more past1, past `suffix_of` past1 -> (t1 = t \/ t1 = delete key t) ->
    v_exec h past1 (cleanup_loop f os_environ keys t1 (errs ++ more)) = (past', (t', err)) ->
    (forall pin, t !! key = Some pin -> t' !! key = t1 !! key ->
       (forall e, Some e ∈ more -> reported e err) -> past1 `suffix_of` past' -> settled h past past' key pin t' err) ->
    (forall e, e ∈ errs -> forall e', reported e' e -> reported e' err) /\
    (forall k, k ∉ key :: keys -> t' !! k = t !! k) /\
    (forall k pin, k ∈ key :: keys -> t !! k = Some pin -> settled h past past' k pin t' err)) as Hgo.
  { intros t1 more past1 Hs Ht1 Hr1 Hkey. destruct (IH _ _ _ _ _ _ Hr1) as (Herr & Hout & Hin).
    assert (forall k, k <> key -> t1 !! k = t !! k) as Hother.
    { intros k Hk. destruct Ht1 as [->| ->]; [done|]. by rewrite lookup_delete_ne. }
    split_and!.
    - intros e He. apply Herr, elem_of_app. by left.
    - intros k [Hk Hks]%not_elem_of_cons. rewrite Hout by done. by apply Hother.
    - intros k pin Hk Hpin. destruct (decide (k = key)) as [->|Hne].
      + apply Hkey; [done|by apply Hout| |by eapply v_exec_grows]. intros e He.
        apply (Herr (Some e)); [apply elem_of_app; by right|apply reported_self].
      + apply elem_of_cons in Hk as [->|Hk]; [done|]. apply (settled_later _ _ past1); [done|].
        apply Hin; [done|]. by rewrite Hother. }
  destruct (t !! key) as [pin|] eqn:Hpin;
    [|apply (Hgo t [] past); [done|by left|by rewrite app_nil_r|congruence]].
  destruct (0 <? references pin) eqn:Href.
  { apply (Hgo t [] past); [done|by left|by rewrite app_nil_r|]. intros pin' Hp Hk _ _. simplify_eq.
    unfold settled. rewrite Href. congruence. }
  destruct (negb (restore pin)) eqn:Hres.
  { apply (Hgo (delete key t) [] past); [done|by right|by rewrite app_nil_r|]. intros pin' Hp Hk _ _. simplify_eq.
    unfold settled. rewrite Href, Hres, Hk. apply lookup_delete_eq. }
  rewrite v_exec_bind in Hr. destruct (v_exec h past (restore_pin _ _ _ _)) as [after outcome] eqn:E.
  pose proof (v_exec_grows _ _ _ _ _ E) as Hafter.
  destruct outcome as [e|]; [apply (Hgo t [Some e] after)|apply (Hgo (delete key t) [] after)];
    rewrite ?app_nil_r; try done; [by left| |by right|];
    intros pin' Hp Hk Hmore Hend; simplify_eq; unfold settled; rewrite Href, Hres;
    eexists past, after, _; (split; [exact E|]); (split; [done|]); (split; [done|]); cbn.
  - split; [congruence|]. apply Hmore. by left.
  - rewrite Hk. apply lookup_delete_eq.
Qed.

(** ** Programs that leave the pins alone *)

Definition harmless_call : vcall -> Prop := touches nothing nothing.
Abbreviation harmless m := (always harmless_call (fun _ => True) m).

Lemma harmless_run why args : (forall k, why <> ForRestore k) -> (forall k, why <> ForPin k) ->
  harmless (runTmux f os_environ why args).
Proof. intros H1 H2. apply touches_run; intros k E; [by apply (H1 k)|by apply (H2 k)]. Qed.

Lemma harmless_attempt c : match c with CTmux _ _ _ _ => False | _ => True end -> harmless (attempt c).
Proof. intros Hc. apply always_attempt, touches_plain; by destruct c. Qed.

Lemma harmless_record level event report : harmless (record level event report).
Proof. apply always_call. by apply touches_plain. Qed.

Ltac harmless_bind := apply (always_bind _ (fun _ => True)); [|intros ? _].

Lemma harmless_fail report err : harmless (failViewerGeometry report err).
Proof. harmless_bind; [apply harmless_record|done]. Qed.

Lemma harmless_poll report next : (forall r, harmless (next r)) -> harmless (poll_again report next).
Proof.
  intros Hn. unfold poll_again. harmless_bind; [by apply harmless_attempt|].
  destruct a; [apply harmless_fail|apply Hn].
Qed.

Lemma harmless_round pid windowID captured corrected next again report :
  (forall r, harmless (next r)) -> (forall r, harmless (again r)) ->
  harmless (verify_round f os_environ pid windowID captured corrected next again report).
Proof.
  intros Hn Ha. unfold verify_round. harmless_bind.
  { unfold query_client. harmless_bind; [by apply harmless_run|done]. }
  destruct a as [client|err]; [|destruct (errors_is _ _); [by apply harmless_poll|apply harmless_fail]].
  destruct (negb (_ ==b _)); [apply harmless_fail|].
  destruct (viewerGeometryMatches _ _ _); [harmless_bind; [apply harmless_record|done]|].
  destruct (negb corrected); [|by apply harmless_poll].
  harmless_bind. { unfold resizeViewerPTY. harmless_bind; [by apply harmless_attempt|done]. }
  destruct a as [err|]; [apply harmless_fail|]. harmless_bind.
  { unfold refreshViewerClient. destruct (_ ==b _); [done|]. harmless_bind; [by apply harmless_run|done]. }
  destruct a as [err|]; [apply harmless_fail|]. harmless_bind; [apply harmless_record|by apply harmless_poll].
Qed.

Lemma harmless_phase pid windowID captured corrected again n report : (forall r, harmless (again r)) ->
  harmless (verify_phase f os_environ pid windowID captured corrected again n report).
Proof.
  intros Ha. revert report. induction n as [|n IH]; intros report; [apply harmless_fail|]. by apply harmless_round.
Qed.

Lemma harmless_verify pid windowID captured : harmless (verifyViewerGeometry f os_environ pid windowID captured).
Proof.
  unfold verifyViewerGeometry. harmless_bind; [apply harmless_record|].
  apply harmless_phase. intros r. by apply harmless_phase.
Qed.

Lemma harmless_stop b : harmless (stopUnverifiedViewer b).
Proof.
  unfold stopUnverifiedViewer.
  repeat (harmless_bind; [try (destruct b; [|done]); by apply harmless_attempt|]). done.
Qed.

(** ** Preparations *)

(** The table after the entry's function has released: [p'] is [p] that has let
    go, and only its own window may have been restored. *)
Definition let_go (n : viewerWindowKey -> Z) (p : ptyViewerPreparation)
    (r : ptyViewerPreparation * pin_table * option error) : Prop :=
  let '(p', t', err) := r in
  pp_key p' = pp_key p /\ pp_released p' = true /\ pp_started p' = pp_started p /\ pp_closed p' = pp_closed p /\
  counts t' (after (pp_key p) (negb (pp_released p)) n) /\
  (err = None -> after (pp_key p) (negb (pp_released p)) n (pp_key p) = 0 -> t' !! pp_key p = None).

Definition own_last (n : viewerWindowKey -> Z) (p : ptyViewerPreparation) (k : viewerWindowKey) : Prop :=
  k = pp_key p /\ after (pp_key p) (negb (pp_released p)) n k = 0.

Lemma releasePin_counts t n p : counts t n -> (forall k, 0 <= n k) -> (pp_released p = false -> 0 < n (pp_key p)) ->
  always (touches (own_last n p) nothing) (let_go n p) (releasePin f os_environ p t).
Proof.
  intros Hc Hn Hp. unfold releasePin. eapply always_bind.
  - eapply always_weaken; [| |apply (releaseWindow_counts t n (pp_key p) (negb (pp_released p)) Hc Hn)].
    + intros c Hcall k. destruct (Hcall k) as [H1 H2]. split; [|done]. intros Hk.
      destruct (H1 Hk) as [-> ?]. by split.
    + intros r Hr. exact Hr.
    + intros Hb%negb_true_iff. by apply Hp.
  - intros [t' err] [Hc' He]. by split_and!.
Qed.

Lemma own_last_closed n p : own_last n (p <| pp_closed := true |>) = own_last n p.
Proof. done. Qed.

Lemma harmless_weaken {A} R P (Q : A -> Prop) m : always harmless_call Q m -> always (touches R P) Q m.
Proof.
  apply always_weaken; [|done]. intros c Hc k. destruct (Hc k) as [H1 H2].
  split; intros Hk; [destruct (H1 Hk)|destruct (H2 Hk)].
Qed.

(** The same with the preparation closed first. *)
Definition let_go_closed n p (r : ptyViewerPreparation * pin_table * option error) : Prop :=
  let_go n (p <| pp_closed := true |>) r.

Lemma harmless_launch pid p : harmless (launch f os_environ pid p).
Proof.
  unfold launch. harmless_bind.
  { unfold buildCommand. destruct (validateIdentity _ _); [done|].
    harmless_bind; [by apply always_settings|]. by destruct a as [[]|]. }
  destruct a as [[path args]|err]; [|done]. harmless_bind; [by apply harmless_attempt|]. destruct a as [err|]; [done|].
  destruct pid as [pid|]; [|harmless_bind; [apply harmless_stop|done]].
  harmless_bind; [apply harmless_verify|]. destruct a as [report [err|]]; [|done].
  harmless_bind; [apply harmless_stop|done].
Qed.

Lemma closed_counts t n p : counts t n -> (forall k, 0 <= n k) -> (pp_released p = false -> 0 < n (pp_key p)) ->
  always (touches (own_last n p) nothing) (let_go_closed n p) (releasePin f os_environ (p <| pp_closed := true |>) t).
Proof. intros Hc Hn Hp. rewrite <- own_last_closed. by apply releasePin_counts. Qed.

Lemma harmless_loop reads : harmless (output_loop reads).
Proof.
  induction reads as [|r reads IH]; [done|]. cbn [output_loop]. harmless_bind.
  { destruct (_ ==b _); [done|by apply harmless_attempt]. }
  destruct a; [done|]. by destruct (pr_err r).
Qed.

Lemma finish_counts outputErr failed stopped t n p : counts t n -> (forall k, 0 <= n k) ->
  (pp_released p = false -> 0 < n (pp_key p)) ->
  always (touches (own_last n p) nothing) (fun '(p', t', _) => exists rel, let_go n p (p', t', rel))
    (finish f os_environ outputErr failed stopped p t).
Proof.
  intros Hc Hn Hp. unfold finish.
  assert (forall b : bool, harmless (if b then terminate else VRet None)) as Hterm.
  { intros []; [|done]. harmless_bind; [by apply harmless_attempt|]. harmless_bind; [by apply harmless_attempt|done]. }
  apply (always_bind _ (fun _ => True)); [apply harmless_weaken, Hterm|]. intros _ _.
  apply (always_bind _ (fun _ => True)); [by apply harmless_weaken, harmless_attempt|]. intros waitErr _.
  apply (always_bind _ (fun _ => True)); [apply harmless_weaken, Hterm|]. intros _ _.
  apply (always_bind _ (fun _ => True)).
  { apply harmless_weaken. unfold viewerExitResult. destruct waitErr; [|done]. destruct (failed || stopped); [done|].
    harmless_bind; [|done]. unfold viewerTerminalEnded. harmless_bind; [by apply harmless_run|done]. }
  intros waitErr' _. eapply always_bind; [by apply (releasePin_counts t n p)|].
  intros [[p' t'] rel] Hl. by exists rel.
Qed.

Lemma run_counts reads stopped t n p : counts t n -> (forall k, 0 <= n k) ->
  (pp_released p = false -> 0 < n (pp_key p)) ->
  always (touches (own_last n p) nothing)
    (fun r => match r with Some (p', t', _) => exists rel, let_go n p (p', t', rel) | None => True end)
    (viewer_run f os_environ reads stopped p t).
Proof.
  intros Hc Hn Hp. unfold viewer_run.
  apply (always_bind _ (fun _ => True)); [apply harmless_weaken, harmless_loop|].
  intros [[outputErr failed]|] _; [|done].
  eapply always_bind; [by apply finish_counts|]. by intros [[p' t'] err] Hl.
Qed.

(** ** Every reachable state *)

Record viewers_ok (w : viewers) : Prop := {
  vo_counts : counts (pins w) (fun k => holders k (entries w));
  vo_entries : forall i e, entries w !! i = Some e -> entry_ok e
}.

Lemma holds_key k e : holds k e = true -> k = pp_key (en_prep e) /\ pp_released (en_prep e) = false.
Proof. unfold holds. intros Hh. guards. done. Qed.

Lemma holds_own e : holds (pp_key (en_prep e)) e = negb (pp_released (en_prep e)).
Proof. unfold holds. by rewrite bool_decide_true. Qed.

(** An entry that keeps its key and lets go. *)
Lemma after_entry es i e e' k : es !! i = Some e -> pp_key (en_prep e') = pp_key (en_prep e) ->
  pp_released (en_prep e') = true ->
  after (pp_key (en_prep e)) (negb (pp_released (en_prep e))) (fun k => holders k es) k = holders k (<[i := e']> es).
Proof.
  intros Hi Hk Hr. rewrite (holders_insert k es i e e' Hi). unfold holds. rewrite Hk, Hr, andb_false_r.
  unfold after, add1. destruct (negb (pp_released (en_prep e))); rewrite ?andb_true_r, ?andb_false_r; [|lia].
  destruct (decide (k = pp_key (en_prep e))) as [->|Hne].
  - rewrite bool_decide_true by done. lia.
  - rewrite bool_decide_false by done. rewrite (bool_decide_false _ (not_eq_sym Hne)). lia.
Qed.

Lemma step_same w i e : viewers_ok w -> entries w !! i = Some e ->
  viewers_ok (set_entry i {| en_prep := en_prep e; en_ended := en_ended e |} (pins w) w).
Proof.
  intros Hw Hi. unfold set_entry. destruct e as [p b]. cbn. rewrite list_insert_id by done. by destruct w.
Qed.

Lemma holder_counted w i e : viewers_ok w -> entries w !! i = Some e ->
  pp_released (en_prep e) = false -> 0 < holders (pp_key (en_prep e)) (entries w).
Proof. intros Hw Hi Hr. apply (holders_pos _ _ i e Hi). by rewrite holds_own, Hr. Qed.

(** ** One step *)

(** Whether somebody holds the window before and after. *)
Definition kept (w w' : viewers) (k : viewerWindowKey) : Prop :=
  exists i e e', entries w !! i = Some e /\ entries w' !! i = Some e' /\ holds k e = true /\ holds k e' = true.

Lemma unheld_before w w' k : holders k (entries w) = 0 -> ~ kept w w' k.
Proof.
  intros Hz (i & e & e' & Hi & _ & Hh & _). pose proof (holders_pos _ _ _ _ Hi Hh). lia.
Qed.
Lemma unheld_after w w' k : holders k (entries w') = 0 -> ~ kept w w' k.
Proof.
  intros Hz (i & e & e' & _ & Hi & _ & Hh). pose proof (holders_pos _ _ _ _ Hi Hh). lia.
Qed.

Definition step_calls_ok (w : viewers) (calls : list vcall) (w' : viewers) : Prop :=
  Forall (touches (fun k => ~ kept w w' k) (fun k => holders k (entries w) = 0)) calls.

Lemma calls_weaken (R R' P P' : viewerWindowKey -> Prop) calls :
  Forall (touches R P) calls -> (forall k, R k -> R' k) -> (forall k, P k -> P' k) -> Forall (touches R' P') calls.
Proof.
  intros Hall HR HP. eapply Forall_impl; [exact Hall|]. intros c Hc k. destruct (Hc k) as [H1 H2].
  split; intros Hk; [by apply HR, H1|by apply HP, H2].
Qed.

Lemma run_always {A} P (Q : A -> Prop) h (m : vm A) past calls a :
  always P Q m -> v_exec h past m = (calls ++ past, a) -> Q a /\ Forall P calls.
Proof.
  intros Hm Hr. destruct (always_run _ _ _ _ _ _ _ Hm Hr) as (HQ & calls' & E & Hall). split; [done|].
  apply app_inv_tail in E. by subst.
Qed.

Lemma own_last_after w i e p t ended k : entries w !! i = Some e -> pp_key p = pp_key (en_prep e) -> pp_released p = true ->
  own_last (fun k => holders k (entries w)) (en_prep e) k ->
  ~ kept w (set_entry i {| en_prep := p; en_ended := ended |} t w) k.
Proof.
  intros Hi Hk Hr [-> Hz]. apply unheld_after. cbn. rewrite <- Hz. symmetry. by apply (after_entry _ i e).
Qed.

Definition step_ok (w : viewers) (calls : list vcall) (w' : viewers) : Prop :=
  viewers_ok w' /\ step_calls_ok w calls w'.

Lemma prepare_counts identity t n : counts t n ->
  always (touches (fun k => n k = 0) (fun k => n k = 0))
    (fun '(t', r) => match r with
                     | Ok p => counts t' (add1 (pp_key p) 1 n) /\
                         pp_started p = false /\ pp_closed p = false /\ pp_released p = false
                     | Err _ => counts t' n
                     end) (Prepare f os_environ identity t).
Proof.
  intros Hc. unfold Prepare. eapply always_bind; [by apply pinWindow_counts|].
  by intros [t' [[[windowID geometry] key]|err]] Hpost.
Qed.

Lemma prepare_step w identity h past calls t r : viewers_ok w ->
  v_exec h past (Prepare f os_environ identity (pins w)) = (calls ++ past, (t, r)) ->
  step_ok w calls {| pins := t; entries := entries w ++
    match r with Ok p => [{| en_prep := p; en_ended := false |}] | Err _ => [] end |}.
Proof.
  intros [Hc He] Hr. destruct (run_always _ _ _ _ _ _ _ (prepare_counts identity _ _ Hc) Hr) as [Hpost Hcalls].
  split; [|eapply (calls_weaken _ _ _ _ _ Hcalls)]; [|intros k Hk; by apply unheld_before|done].
  destruct r as [p|err]; [|rewrite app_nil_r; by split].
  destruct Hpost as (Hc' & Hs & Hcl & Hrel). split.
  - cbn. eapply counts_ext; [exact Hc'|]. intros k. rewrite holders_app. unfold add1, holds. cbn [en_prep].
    rewrite Hrel, andb_true_r. destruct (decide (k = pp_key p)) as [->|Hne].
    + by rewrite !bool_decide_true.
    + rewrite !bool_decide_false by congruence. lia.
  - cbn. intros i e Hi. apply lookup_snoc_Some in Hi as [[_ Hi]|[_ <-]]; [by eapply He|].
    split; cbn; rewrite ?Hs, ?Hcl, ?Hrel; done.
Qed.

(** A step of the entry [i] that makes it let go. *)
Lemma lets_go_step w i e p t ended calls : viewers_ok w -> entries w !! i = Some e ->
  pp_key p = pp_key (en_prep e) -> pp_released p = true ->
  counts t (after (pp_key (en_prep e)) (negb (pp_released (en_prep e))) (fun k => holders k (entries w))) ->
  entry_ok {| en_prep := p; en_ended := ended |} ->
  Forall (touches (own_last (fun k => holders k (entries w)) (en_prep e)) nothing) calls ->
  step_ok w calls (set_entry i {| en_prep := p; en_ended := ended |} t w).
Proof.
  intros Hw Hi Hk Hr Hc' Hok Hcalls. split.
  - split; cbn.
    + eapply counts_ext; [exact Hc'|]. intros k. by apply (after_entry _ i e).
    + intros j e' Hj. apply list_lookup_insert_Some in Hj as [(-> & <- & _)|[_ Hj]]; [done|].
      by eapply (vo_entries _ Hw).
  - apply (calls_weaken _ _ _ _ _ Hcalls); [|by intros k []]. intros k. by apply (own_last_after w i e).
Qed.

Lemma unchanged_step w i e calls R : viewers_ok w -> entries w !! i = Some e ->
  Forall (touches R nothing) calls -> (forall k, R k -> holders k (entries w) = 0) ->
  step_ok w calls (set_entry i {| en_prep := en_prep e; en_ended := en_ended e |} (pins w) w).
Proof.
  intros Hw Hi Hcalls HR. split; [by apply step_same|].
  apply (calls_weaken _ _ _ _ _ Hcalls); [|by intros k []]. intros k Hk. by apply unheld_before, HR.
Qed.

Section OneEntry.
Variables (w : viewers) (i : nat) (e : entry).
Hypotheses (Hw : viewers_ok w) (Hi : entries w !! i = Some e).

Let n : viewerWindowKey -> Z := fun k => holders k (entries w).

Lemma entry_counts : counts (pins w) n /\ (forall k, 0 <= n k) /\
  (pp_released (en_prep e) = false -> 0 < n (pp_key (en_prep e))).
Proof. split_and!; [apply Hw|intros; apply holders_nonneg|]. by apply (holder_counted _ i e). Qed.

Lemma closed_lets_go p t rel calls : pp_closed (en_prep e) = false -> pp_started (en_prep e) = false ->
  let_go_closed n (en_prep e) (p, t, rel) -> Forall (touches (own_last n (en_prep e)) nothing) calls ->
  step_ok w calls (set_entry i {| en_prep := p; en_ended := en_ended e |} t w).
Proof.
  intros Hcl Hst (Hk & Hr & Hs & Hc & H1 & _) Hcalls. cbn in Hk, Hs, Hc, H1.
  apply (lets_go_step w i e); try done. destruct (vo_entries _ Hw _ _ Hi) as [E1 E2 E3].
  split; cbn; rewrite ?Hr, ?Hc, ?Hs, ?Hst; try done. intros He. rewrite Hst in E3. by apply E3.
Qed.

Lemma refused h past calls p t (err err' : option error) :
  v_exec h past (VRet (en_prep e, pins w, err')) = (calls ++ past, (p, t, err)) ->
  step_ok w calls (set_entry i {| en_prep := p; en_ended := en_ended e |} t w).
Proof.
  cbn. intros Hr. injection Hr as E <- <- <-. apply (app_inv_tail past [] calls) in E as <-.
  by apply (unchanged_step w i e [] nothing).
Qed.

Lemma started_step calls : pp_closed (en_prep e) = false -> pp_started (en_prep e) = false ->
  Forall harmless_call calls ->
  step_ok w calls (set_entry i {| en_prep := (en_prep e) <| pp_started := true |>; en_ended := en_ended e |} (pins w) w).
Proof.
  intros Hcl Hst Hcalls. split; [|apply (calls_weaken _ _ _ _ _ Hcalls); by intros k []].
  destruct (vo_entries _ Hw _ _ Hi) as [E1 E2 E3]. split; cbn.
  - eapply counts_ext; [apply Hw|]. intros k. cbn. rewrite (holders_insert k _ i e _ Hi). unfold holds. cbn. lia.
  - intros j e' Hj. apply list_lookup_insert_Some in Hj as [(-> & <- & _)|[_ Hj]]; [|by eapply (vo_entries _ Hw)].
    split; cbn; [done|done|done].
Qed.

Lemma start_step pid h past calls p t err :
  v_exec h past (Start f os_environ pid (en_prep e) (pins w)) = (calls ++ past, (p, t, err)) ->
  step_ok w calls (set_entry i {| en_prep := p; en_ended := en_ended e |} t w).
Proof.
  destruct entry_counts as (Hc & Hn & Hp). unfold Start.
  destruct (pp_closed (en_prep e)) eqn:Hcl; [apply refused|]. destruct (pp_started (en_prep e)) eqn:Hst; [apply refused|].
  rewrite v_exec_bind. destruct (v_exec h past (launch f os_environ pid (en_prep e))) as [past1 failure] eqn:E.
  destruct (always_run _ _ _ _ _ _ _ (harmless_launch _ _) E) as (_ & calls1 & -> & Hcalls1).
  destruct failure as [[err' errs]|].
  - intros Hr. set (m := vbind _ _) in Hr.
    assert (always (touches (own_last n (en_prep e)) nothing)
      (fun r => exists rel, let_go_closed n (en_prep e) (r.1, rel)) m) as Hm.
    { eapply always_bind; [by apply closed_counts|]. intros [[p' t'] rel] Hl. by exists rel. }
    destruct (always_run _ _ _ _ _ _ _ Hm Hr) as ([rel Hl] & calls2 & E2 & Hcalls2).
    rewrite app_assoc in E2. apply app_inv_tail in E2 as ->. apply (closed_lets_go p t rel); try done.
    apply Forall_app. split; [done|]. by apply (calls_weaken _ _ _ _ _ Hcalls1).
  - intros Hr. cbn in Hr. injection Hr as E1 <- <- <-. apply app_inv_tail in E1 as <-.
    apply started_step; [done..|]. exact Hcalls1.
Qed.

Lemma close_step h past calls p t err :
  v_exec h past (preparation_Close f os_environ (en_prep e) (pins w)) = (calls ++ past, (p, t, err)) ->
  step_ok w calls (set_entry i {| en_prep := p; en_ended := en_ended e |} t w).
Proof.
  destruct entry_counts as (Hc & Hn & Hp). unfold preparation_Close.
  destruct (pp_started (en_prep e)) eqn:Hst; [apply refused|]. destruct (pp_closed (en_prep e)) eqn:Hcl; [apply refused|].
  cbn [orb]. intros Hr.
  destruct (run_always _ (let_go_closed n (en_prep e)) _ _ _ _ _ (closed_counts _ _ _ Hc Hn Hp) Hr) as [Hl Hcalls].
  by apply (closed_lets_go p t err).
Qed.

Lemma end_step reads stopped h past calls p t err : running e ->
  v_exec h past (viewer_run f os_environ reads stopped (en_prep e) (pins w)) = (calls ++ past, Some (p, t, err)) ->
  step_ok w calls (set_entry i {| en_prep := p; en_ended := true |} t w).
Proof.
  intros [Hst Hen] Hr. destruct entry_counts as (Hc & Hn & Hp).
  destruct (run_always _ _ _ _ _ _ _ (run_counts reads stopped _ _ _ Hc Hn Hp) Hr) as [[rel Hl] Hcalls].
  destruct Hl as (Hk & Hrel & Hs & Hcl & H1 & _). apply (lets_go_step w i e); try done.
  destruct (vo_entries _ Hw _ _ Hi) as [E1 E2 E3]. split; cbn; rewrite ?Hrel, ?Hcl, ?Hs, ?orb_true_r; done.
Qed.
End OneEntry.

Lemma cleanup_step w keys h past calls t err : viewers_ok w ->
  v_exec h past (Cleanup f os_environ keys (pins w)) = (calls ++ past, (t, err)) ->
  step_ok w calls {| pins := t; entries := entries w |}.
Proof.
  intros [Hc He] Hr.
  assert (forall k, 0 <= holders k (entries w)) as Hn by (intros; apply holders_nonneg).
  destruct (run_always _ _ _ _ _ _ _ (cleanup_counts keys _ _ [] Hc Hn) Hr) as [(Hc' & _ & _) Hcalls].
  split; [by split|]. apply (calls_weaken _ _ _ _ _ Hcalls); [|by intros k []]. intros k. by apply unheld_before.
Qed.

Lemma vstep_ok w calls w' : viewers_ok w -> vstep w calls w' -> step_ok w calls w'.
Proof.
  intros Hw Hstep. destruct Hstep.
  - by eapply (prepare_step w _ _ _ _ _ (Ok p)).
  - pose proof (prepare_step w identity h past calls t (Err err) Hw) as Hs. cbn in Hs. rewrite app_nil_r in Hs. by apply Hs.
  - by eapply start_step.
  - by eapply close_step.
  - by eapply end_step.
  - by eapply cleanup_step.
Qed.

Lemma reachable_viewers_ok w : vreach w -> viewers_ok w.
Proof.
  apply reachable_invariant.
  - intros ? ->. split; [by intros k|]. intros i e Hi. by destruct i.
  - intros w1 w2 _ Hw [calls Hstep]. by destruct (vstep_ok _ _ _ Hw Hstep).
Qed.

Lemma started_or_prepared w i e : viewers_ok w -> entries w !! i = Some e -> running e \/ prepared e ->
  holds (pp_key (en_prep e)) e = true.
Proof.
  intros Hw Hi Hrun. destruct (vo_entries _ Hw _ _ Hi) as [E1 E2 E3]. rewrite holds_own, E1.
  destruct Hrun as [[Hs He]|[Hs Hc]].
  - by rewrite (E2 Hs), He.
  - rewrite Hc. destruct (en_ended e); [|done]. by rewrite E3 in Hs.
Qed.

Lemma releasePin_settles h past past' p t pin p' t' err : t !! pp_key p = Some pin ->
  v_exec h past (releasePin f os_environ p t) = (past', (p', t', err)) ->
  settled h past past' (pp_key p) (one_less (negb (pp_released p)) pin) t' err.
Proof.
  intros Hpin Hr. unfold releasePin in Hr. rewrite v_exec_bind in Hr.
  destruct (v_exec h past _) as [past1 [t1 err1]] eqn:E. cbn in Hr. simplify_eq. by eapply release_settles.
Qed.

Lemma Cleanup_settles h past past' keys t t' err : keys ≡ₚ (map_to_list t).*1 ->
  v_exec h past (Cleanup f os_environ keys t) = (past', (t', err)) ->
  forall k pin, t !! k = Some pin -> settled h past past' k pin t' err.
Proof.
  intros Hkeys Hr k pin Hpin. unfold Cleanup in Hr.
  assert (NoDup keys) as Hnd by (rewrite Hkeys; apply NoDup_fst_map_to_list).
  destruct (cleanup_settles h keys Hnd _ _ _ _ _ _ Hr) as (_ & _ & Hin). apply Hin; [|done].
  rewrite Hkeys. apply list_elem_of_fmap. exists (k, pin). split; [done|]. by apply elem_of_map_to_list.
Qed.

(** C38: the pin of a window lives exactly as long as its viewers.  In every
    reachable state the table counts, for each window, the prepared and running
    viewers that hold it, and a viewer that is prepared or running has its
    window pinned.  No step, however tmux answers, tells tmux to restore a
    window that some viewer holds before and after it, or to pin one that is
    held already: only the first viewer pins and only the last one restores.  A
    release that leaves no holder and reports no error has forgotten the pin,
    and a clean-up that reports no error leaves only pins that are held.  A pin
    whose restoration fails, in a release or in a clean-up, is kept as it is for
    the next clean-up, and the failure is in the error; one whose restoration
    succeeds is forgotten. *)
Theorem pins_follow_viewers w : vreach w ->
  (forall k, match pins w !! k with
             | Some pin => references pin = holders k (entries w)
             | None => holders k (entries w) = 0
             end) /\
  (forall i e, entries w !! i = Some e -> running e \/ prepared e ->
     exists pin, pins w !! pp_key (en_prep e) = Some pin /\ 0 < references pin) /\
  (forall calls w', vstep w calls w' -> forall k,
     (existsb (restores k) calls = true -> ~ kept w w' k) /\
     (existsb (pins_key k) calls = true -> holders k (entries w) = 0)) /\
  (forall h past i e, entries w !! i = Some e ->
     let '(past', (p, t, err)) := v_exec h past (releasePin f os_environ (en_prep e) (pins w)) in
     let k := pp_key (en_prep e) in
     (err = None ->
        holders k (<[i := {| en_prep := p; en_ended := en_ended e |}]> (entries w)) = 0 -> t !! k = None) /\
     (forall pin, pins w !! k = Some pin ->
        settled h past past' k (one_less (negb (pp_released (en_prep e))) pin) t err)) /\
  (forall h past keys, keys ≡ₚ (map_to_list (pins w)).*1 ->
     let '(past', (t, err)) := v_exec h past (Cleanup f os_environ keys (pins w)) in
     (err = None -> forall k pin, t !! k = Some pin -> 0 < references pin) /\
     (forall k pin, pins w !! k = Some pin -> settled h past past' k pin t err)).
Proof.
  intros Hreach. pose proof (reachable_viewers_ok w Hreach) as Hw. pose proof Hw as [Hc He].
  assert (forall k, 0 <= holders k (entries w)) as Hn by (intros; apply holders_nonneg).
  split_and!.
  - intros k. specialize (Hc k). destruct (pins w !! k); [apply Hc|done].
  - intros i e Hi Hrun. pose proof (started_or_prepared w i e Hw Hi Hrun) as Hh.
    pose proof (holders_pos _ _ _ _ Hi Hh) as Hpos. pose proof (Hc (pp_key (en_prep e))) as Hk.
    destruct (pins w !! _) as [pin|]; [|lia]. exists pin. split; [done|]. destruct Hk. lia.
  - intros calls w' Hstep k. destruct (vstep_ok _ _ _ Hw Hstep) as [_ Hcalls].
    split; intros (c & Hin & Hk)%existsb_exists; apply list_elem_of_In in Hin;
      unfold step_calls_ok in Hcalls; rewrite Forall_forall in Hcalls; by apply (Hcalls _ Hin k).
  - intros h past i e Hi. destruct (v_exec h past _) as [past' [[p t] err]] eqn:Hr. cbv zeta.
    split; [|by intros pin Hpin; apply (releasePin_settles _ _ _ _ _ _ _ _ _ Hpin Hr)]. intros -> Hz.
    destruct (entry_counts w i e Hw Hi) as (_ & _ & Hp).
    destruct (always_run _ _ _ _ _ _ _ (releasePin_counts _ _ _ Hc Hn Hp) Hr) as [(Hk & Hrel & _ & _ & _ & Hgone) _].
    apply Hgone; [done|]. rewrite <- Hz. by apply (after_entry _ i e).
  - intros h past keys Hkeys. destruct (v_exec h past _) as [past' [t err]] eqn:Hr. split.
    2: { apply (Cleanup_settles _ _ _ _ _ _ _ Hkeys Hr). }
    intros -> k pin Hpin.
    destruct (always_run _ _ _ _ _ _ _ (cleanup_counts keys _ _ [] Hc Hn) Hr) as [(_ & Hsub & Hdone) _].
    apply (proj2 (Hdone eq_refl) k); [|done]. rewrite Hkeys. apply list_elem_of_fmap.
    destruct (Hsub k) as [E|E]; rewrite E in Hpin; [done|]. exists (k, pin). split; [done|]. by apply elem_of_map_to_list.
Qed.
End Pins.

(** ** Two viewers of one window *)

Definition shared_target : Identity :=
  {| IdID := !"$1"; IdWindowID := []; IdGeneration := !"0123456789abcdef0123456789abcdef" |}.
Definition shared_key : viewerWindowKey := {| wk_generation := IdGeneration shared_target; wk_windowID := !"@9" |}.

(** tmux reports a window that inherits its size and accepts every command;
    [broken] makes it refuse to restore. *)
Definition window_server (broken : bool) : venv := fun past c =>
  match c with
  | CTmux ForCapture _ _ _ =>
      {| va_out := !"@9" ++ tab ++ !"132" ++ tab ++ !"41" ++ [newline] ++ !"window-size* latest" ++ [newline] ++ !"on";
         va_err := None |}
  | CTmux (ForRestore _) _ _ _ =>
      {| va_out := []; va_err := if broken then Some (EText !"exit status 1") else None |}
  | CRandom => {| va_out := replicate 16 x41; va_err := None |}
  | _ => {| va_out := []; va_err := None |}
  end.

Definition prepare_one (w : viewers) : viewers :=
  match snd (v_exec (window_server false) [] (Prepare demo_factory [] shared_target (pins w))) with
  | (t, Ok p) => {| pins := t; entries := entries w ++ [{| en_prep := p; en_ended := false |}] |}
  | (t, Err _) => {| pins := t; entries := entries w |}
  end.
Definition close_one (broken : bool) (i : nat) (w : viewers) : list vcall * viewers :=
  match entries w !! i with
  | Some e =>
      let '(calls, (p, t, _)) :=
        v_exec (window_server broken) [] (preparation_Close demo_factory [] (en_prep e) (pins w)) in
      (calls, set_entry i {| en_prep := p; en_ended := en_ended e |} t w)
  | None => ([], w)
  end.

Lemma prepare_one_reach w : vreach demo_factory [] w -> vreach demo_factory [] (prepare_one w).
Proof.
  intros Hw. unfold prepare_one.
  destruct (v_exec _ _ (Prepare _ _ _ _)) as [calls [t [p|err]]] eqn:E; cbn [snd];
    (eapply reachable_step; [exact Hw|]); exists calls.
  - eapply vs_prepare. rewrite app_nil_r. exact E.
  - eapply vs_prepare_failed. rewrite app_nil_r. exact E.
Qed.

Definition two_viewers : viewers := prepare_one (prepare_one no_viewers).
Lemma two_viewers_reach : vreach demo_factory [] two_viewers.
Proof. apply prepare_one_reach, prepare_one_reach. by apply reachable_init. Qed.

Lemma pins_follow_viewers_witness : option_map references (pins two_viewers !! shared_key) = Some 2.
Proof.
  pose proof (proj1 (pins_follow_viewers demo_factory [] two_viewers two_viewers_reach) shared_key) as Hk.
  assert (holders shared_key (entries two_viewers) = 2) as Hh by (vm_compute; reflexivity).
  destruct (pins two_viewers !! shared_key) as [pin|]; [|rewrite Hh in Hk; discriminate Hk].
  cbn [option_map]. rewrite Hk, Hh. reflexivity.
Defined.

(** The first to leave restores nothing, the last one does; when tmux refuses
    the pin is kept for the next clean-up. *)
Example last_viewer_restores :
  let '(calls1, w1) := close_one false 0 two_viewers in
  let '(calls2, w2) := close_one false 1 w1 in
  let '(_, w3) := close_one true 1 w1 in
  (existsb (restores shared_key) calls1, existsb (restores shared_key) calls2,
   option_map references (pins w2 !! shared_key), option_map references (pins w3 !! shared_key)) =
  (false, true, None, Some 0).
Proof. vm_compute. reflexivity. Qed.
