(* ===== verification/MirrorViewerRun.v ===== *)
(** * A running viewer hands on what the terminal delivers, and says how it ended

    About [run] of viewer.go: the loop over the terminal's output, the wait for
    the process, and the error that [Close] and [Done] report. *)

From S2P Require Import Prelude GoString GoUnicode GoConv GoErrors TmuxQuote TmuxFormat TmuxArgs TmuxServer.
From S2P Require Import MirrorProtocol MirrorDiagnostics MirrorManager MirrorViewerParse MirrorViewer MirrorViewerProps.
From S2P Require Import MirrorViewerPins.
Open Scope Z_scope.

(** What was handed to the output callback, oldest first. *)
Definition outputs_of (calls : list vcall) : list bytes :=
  omap (fun c => match c with COutput data => Some data | _ => None end) (rev calls).
Definition chunks (reads : list pty_read) : list bytes :=
  List.filter (fun data => negb (data ==b [])) (map pr_data reads).

(** Every output of [calls], newest first and made after [past], was accepted. *)
Fixpoint all_accepted (h : venv) (past calls : list vcall) : Prop :=
  match calls with
  | [] => True
  | c :: rest => match c with COutput _ => va_err (h (rest ++ past) c) = None | _ => True end /\
                 all_accepted h past rest
  end.

Definition count_waits (calls : list vcall) : nat :=
  length (List.filter (fun c => match c with CWait => true | _ => false end) calls).

(** The terminal ended as expected with read [n]: the reads before it carry no
    error. *)
Definition ended_at (reads : list pty_read) (n : nat) (err : error) : Prop :=
  exists before r after, reads = before ++ r :: after /\ n = S (length before) /\
    Forall (fun r => pr_err r = None) before /\ pr_err r = Some err.

Lemma outputs_app l1 l2 : outputs_of (l1 ++ l2) = outputs_of l2 ++ outputs_of l1.
Proof. unfold outputs_of. by rewrite rev_app_distr, omap_app. Qed.
Lemma waits_app l1 l2 : count_waits (l1 ++ l2) = (count_waits l1 + count_waits l2)%nat.
Proof. unfold count_waits. by rewrite List.filter_app, length_app. Qed.

Definition not_output (c : vcall) : Prop := match c with COutput _ => False | _ => True end.
Definition not_wait (c : vcall) : Prop := match c with CWait => False | _ => True end.
Definition quiet (c : vcall) : Prop := not_output c /\ not_wait c.

Lemma quiet_outputs calls : Forall not_output calls -> outputs_of calls = [].
Proof.
  induction 1 as [|c calls Hc _ IH]; [done|]. change (c :: calls) with ([c] ++ calls).
  rewrite outputs_app, IH. by destruct c.
Qed.
Lemma quiet_waits calls : Forall not_wait calls -> count_waits calls = 0%nat.
Proof. induction 1 as [|c calls Hc _ IH]; [done|]. unfold count_waits in *. cbn. by destruct c. Qed.

Lemma accepted_app h past l1 l2 :
  all_accepted h past (l1 ++ l2) <-> all_accepted h (l2 ++ past) l1 /\ all_accepted h past l2.
Proof. induction l1 as [|c l1 IH]; cbn; [tauto|]. rewrite IH, <- app_assoc. tauto. Qed.
Lemma quiet_accepted h past calls : Forall not_output calls -> all_accepted h past calls.
Proof. induction 1 as [|c calls Hc _ IH]; [done|]. split; [by destruct c|done]. Qed.

Lemma always_any {A} (m : vm A) : always (fun _ => True) (fun _ => True) m.
Proof. induction m as [a|c k IH]; [done|]. split; [done|]. intros r. apply IH. Qed.

(** ** The loop *)

Record loop_done (h : venv) (past calls : list vcall) (reads : list pty_read) (r : option (option error * bool)) : Prop := {
  ld_quiet : Forall not_wait calls;
  ld_outputs : exists n, outputs_of calls = chunks (take n reads);
  ld_result : match r with
              | None => Forall (fun r => pr_err r = None) reads
              | Some (err, true) => is_Some err /\ ~ all_accepted h past calls
              | Some (err, false) => all_accepted h past calls /\ exists n e, ended_at reads n e /\
                  outputs_of calls = chunks (take n reads) /\ (err = None <-> expected_read_error e = true)
              end
}.

Lemma output_loop_spec h reads : forall past calls r,
  v_exec h past (output_loop reads) = (calls ++ past, r) -> loop_done h past calls reads r.
Proof.
  induction reads as [|rd reads IH]; intros past calls r Hr.
  { cbn in Hr. injection Hr as E <-. apply (app_inv_tail past [] calls) in E as <-.
    split; [done|by exists 0%nat|done]. }
  cbn [output_loop] in Hr. rewrite v_exec_bind in Hr.
  set (c1 := if pr_data rd ==b [] then [] else [COutput (pr_data rd)]).
  assert (v_exec h past (if pr_data rd ==b [] then VRet None else attempt (COutput (pr_data rd))) =
    (c1 ++ past, if pr_data rd ==b [] then None else va_err (h past (COutput (pr_data rd))))) as E1.
  { subst c1. by destruct (pr_data rd ==b []). }
  rewrite E1 in Hr. clear E1.
  assert (outputs_of c1 = chunks [rd]) as Ho1.
  { subst c1. unfold chunks. cbn. by destruct (pr_data rd ==b []). }
  assert (Forall not_wait c1) as Hw1 by (subst c1; destruct (pr_data rd ==b []); repeat constructor).
  destruct (if pr_data rd ==b [] then None else _) as [err|] eqn:Herr.
  - cbn in Hr. injection Hr as E <-. apply app_inv_tail in E as <-.
    destruct (pr_data rd ==b []) eqn:Hd; [done|].
    split; [done|by exists 1%nat|]. split; [done|]. intros [Ha _]. cbn in Ha. congruence.
  - assert (all_accepted h past c1) as Ha1.
    { subst c1. destruct (pr_data rd ==b []); [done|]. by split. }
    destruct (pr_err rd) as [e|] eqn:He.
    + cbn in Hr. injection Hr as E <-. apply app_inv_tail in E as <-.
      split; [done|by exists 1%nat|]. split; [done|]. exists 1%nat, e. split_and!; [|done|].
      * exists [], rd, reads. by split_and!.
      * by destruct (expected_read_error e).
    + destruct (v_exec h (c1 ++ past) (output_loop reads)) as [past2 r2] eqn:E2.
      destruct (always_run _ _ _ _ _ _ _ (always_any _) E2) as (_ & calls2 & -> & _).
      injection Hr as E <-. rewrite app_assoc in E. apply app_inv_tail in E as <-.
      destruct (IH _ _ _ E2) as [Hq (n & Ho) Hres].
      assert (forall m, outputs_of calls2 = chunks (take m reads) ->
        outputs_of (calls2 ++ c1) = chunks (take (S m) (rd :: reads))) as Hstep.
      { intros m E. rewrite outputs_app, Ho1, E. unfold chunks. cbn [take map]. cbn [List.filter].
        by destruct (negb (pr_data rd ==b [])). }
      split; [by apply Forall_app|exists (S n); by apply Hstep|].
      destruct r2 as [[err []]|].
      * destruct Hres as [Herr2 Hna]. split; [done|]. rewrite accepted_app. by intros [? _].
      * destruct Hres as (Ha & m & e & (before & r & after & -> & -> & Hb & Hre) & Hom & Hx).
        rewrite accepted_app. split; [done|]. exists (S (S (length before))), e. split_and!; [|by apply Hstep|done].
        exists (rd :: before), r, after. split_and!; try done. by constructor.
      * by constructor.
Qed.

(** The first read that carries an error is one read. *)
Lemma first_error b1 r1 (a1 : list pty_read) b2 r2 a2 e1 e2 :
  Forall (fun r => pr_err r = None) b1 -> Forall (fun r => pr_err r = None) b2 ->
  pr_err r1 = Some e1 -> pr_err r2 = Some e2 -> b1 ++ r1 :: a1 = b2 ++ r2 :: a2 -> e2 = e1.
Proof.
  intros H1. revert b2. induction H1 as [|r b1 Hr H1 IH]; intros b2 H2 Hr1 Hr2 E.
  - destruct H2 as [|r b2 Hr H2]; cbn in E; injection E as -> _; congruence.
  - destruct H2 as [|r' b2 Hr' H2]; cbn in E; injection E as -> E; [congruence|]. by eapply IH.
Qed.

(** ** The whole run *)

Section Run.
Context `{UnicodeTables}.
Variables (f : PTYViewerFactory) (os_environ : list bytes).

(** How the process may end without an error; [asked] are the calls made when
    tmux is asked whether the target is still there. *)
Definition exit_fine (h : venv) (asked : list vcall) (identity : Identity) (stopped : bool)
    (waitErr : option error) : Prop :=
  match waitErr with
  | None => True
  | Some e => errors_as_exit e = true /\
      (stopped = true \/ snd (v_exec h asked (viewerTerminalEnded f os_environ identity)) = Ok true)
  end.

Lemma quiet_always {A} (m : vm A) Q :
  always (fun c => not_output c /\ not_wait c) Q m -> always quiet Q m.
Proof. done. Qed.

Lemma quiet_run why args : always quiet (fun _ => True) (runTmux f os_environ why args).
Proof. by apply always_runTmux. Qed.

Lemma quiet_restore k mode inherited owner hookIndex :
  always quiet (fun _ => True) (restoreWindowPin f os_environ k mode inherited owner hookIndex).
Proof.
  unfold restoreWindowPin. destruct (RestoreWindowSizeIfGenerationArgs _ _ _ _ _ _); [|done].
  apply (always_bind _ (fun _ => True)); [apply quiet_run|]. intros r _. repeat case_goal; done.
Qed.

Lemma quiet_release p t : always quiet (fun '(p', _, _) => pp_released p' = true) (releasePin f os_environ p t).
Proof.
  unfold releasePin. apply (always_bind _ (fun _ => True)); [|by intros [t' err] _].
  unfold releaseWindow. destruct (t !! pp_key p) as [pin|]; [|done].
  set (pin' := if negb _ then _ else _). destruct (0 <? references pin'); [done|].
  destruct (negb (restore pin')); [done|]. apply (always_bind _ (fun _ => True)); [apply quiet_restore|]. by intros [e|] _.
Qed.

Lemma quiet_exit waitErr intentional identity :
  always quiet (fun _ => True) (viewerExitResult f os_environ waitErr intentional identity).
Proof.
  unfold viewerExitResult. destruct waitErr; [|done]. destruct intentional; [done|].
  apply (always_bind _ (fun _ => True)); [|done]. unfold viewerTerminalEnded.
  apply (always_bind _ (fun _ => True)); [apply quiet_run|done].
Qed.

Lemma exec_exit h past past' identity waitErr stopped r :
  v_exec h past (viewerExitResult f os_environ waitErr stopped identity) = (past', r) ->
  r = None <-> exit_fine h past identity stopped waitErr.
Proof.
  unfold viewerExitResult, exit_fine. destruct waitErr as [e|]; [|intros E; cbn in E; by simplify_eq].
  destruct stopped.
  - intros E. cbn in E. destruct (errors_as_exit e); simplify_eq; split; try done; [by intros; split; [|left]|].
    by intros [? _].
  - rewrite v_exec_bind. destruct (v_exec h past (viewerTerminalEnded _ _ _)) as [past1 probe] eqn:E. cbn.
    intros Hr. simplify_eq. destruct probe as [[]|perr]; cbn; destruct (errors_as_exit e); cbn;
      (split; [intros En; first [discriminate En|split; [done|by right]]|intros [? []]; done]).
Qed.

Lemma quiet_terminate (b : bool) : always quiet (fun _ => True) (if b then terminate else VRet None).
Proof. by destruct b. Qed.

(** What happens after the loop. *)
Lemma finish_spec h past past' outputErr failed stopped p pins out :
  v_exec h past (finish f os_environ outputErr failed stopped p pins) = (past', out) ->
  exists l1 l2 l3 l4 waitErr p' pins' releaseErr,
    past' = (l4 ++ l3 ++ l2) ++ CWait :: l1 ++ past /\ Forall quiet l1 /\ Forall quiet (l4 ++ l3 ++ l2) /\ pp_released p' = true /\
    snd (v_exec h (l3 ++ l2 ++ CWait :: l1 ++ past) (releasePin f os_environ p pins)) = (p', pins', releaseErr) /\
    out = (p', pins', errors_join [outputErr; waitErr; releaseErr]) /\
    (waitErr = None <-> exit_fine h (l2 ++ CWait :: l1 ++ past) (pp_identity p) (failed || stopped)
       (va_err (h (l1 ++ past) CWait))).
Proof.
  unfold finish. rewrite v_exec_bind.
  destruct (v_exec h past _) as [past1 u] eqn:E1.
  destruct (always_run _ _ _ _ _ _ _ (quiet_terminate _) E1) as (_ & l1 & -> & Hl1).
  rewrite v_exec_bind. unfold attempt, call at 1. cbn [vbind v_exec].
  rewrite v_exec_bind. set (status := va_err _).
  destruct (v_exec h (CWait :: l1 ++ past) _) as [past2 u2] eqn:E2.
  destruct (always_run _ _ _ _ _ _ _ (quiet_terminate _) E2) as (_ & l2 & -> & Hl2).
  rewrite v_exec_bind. destruct (v_exec h _ (viewerExitResult _ _ _ _ _)) as [past3 waitErr] eqn:E3.
  destruct (always_run _ _ _ _ _ _ _ (quiet_exit _ _ _) E3) as (_ & l3 & -> & Hl3).
  pose proof (exec_exit _ _ _ _ _ _ _ E3) as Hfine.
  rewrite v_exec_bind. destruct (v_exec h _ (releasePin _ _ _ _)) as [past4 [[p' pins'] rel]] eqn:E4.
  destruct (always_run _ _ _ _ _ _ _ (quiet_release _ _) E4) as (Hrel & l4 & -> & Hl4).
  intros E. cbn in E. simplify_eq.
  exists l1, l2, l3, l4, waitErr, p', pins', rel.
  split_and!; [by rewrite <- !app_assoc|done|by rewrite !Forall_app|done|by rewrite E4|done|apply Hfine..].
Qed.

(** C39: a viewer hands on exactly what its terminal delivers and reports
    exactly what went wrong.  The output callback gets the non-empty pieces the
    terminal delivered, in order, up to some point; the process is waited for
    once and the window's pin is let go, whatever fails.  The viewer reports no
    error exactly when everything up to the expected end of the terminal was
    handed on and accepted, the pin was released without an error, and the
    process ended well, or with an exit status after it was told to stop or when
    tmux, asked after the wait, said that its target has gone.  And it does end,
    as soon as the terminal reports an end. *)
Theorem viewer_reports_exactly h past reads stopped p pins :
  (Exists (fun r => pr_err r <> None) reads ->
     exists past' out, v_exec h past (viewer_run f os_environ reads stopped p pins) = (past', Some out)) /\
  (forall calls p' pins' result,
     v_exec h past (viewer_run f os_environ reads stopped p pins) = (calls ++ past, Some (p', pins', result)) ->
     (exists n, outputs_of calls = chunks (take n reads)) /\ count_waits calls = 1%nat /\ pp_released p' = true /\
     exists waited asked before releaseErr,
     CWait :: waited `suffix_of` asked /\ asked `suffix_of` before /\ before `suffix_of` calls ++ past /\
     snd (v_exec h before (releasePin f os_environ p pins)) = (p', pins', releaseErr) /\
     let delivered := all_accepted h past calls /\ exists n err, ended_at reads n err /\
       outputs_of calls = chunks (take n reads) /\ expected_read_error err = true in
     (result = None <->
        delivered /\ exit_fine h asked (pp_identity p) stopped (va_err (h waited CWait)) /\ releaseErr = None)).
Proof.
  unfold viewer_run. rewrite v_exec_bind. destruct (v_exec h past (output_loop reads)) as [past1 r] eqn:E.
  destruct (always_run _ _ _ _ _ _ _ (always_any _) E) as (_ & loop & -> & _).
  destruct (output_loop_spec _ _ _ _ _ E) as [Hq Hn Hres]. split.
  - intros Hend. destruct r as [[outputErr failed]|].
    + rewrite v_exec_bind. destruct (v_exec h _ (finish _ _ _ _ _ _ _)) as [past' out]. by exists past', out.
    + exfalso. rewrite Exists_exists in Hend. destruct Hend as (rd & Hin & Hrd).
      rewrite Forall_forall in Hres. by apply Hrd, Hres.
  - intros calls p' pins' result. destruct r as [[outputErr failed]|]; [|done].
    rewrite v_exec_bind. destruct (v_exec h _ (finish _ _ _ _ _ _ _)) as [past' out] eqn:Ef.
    destruct (finish_spec _ _ _ _ _ _ _ _ _ Ef)
      as (l1 & l2 & l3 & l4 & waitErr & q & pins1 & rel & -> & Hl1 & Hl2 & Hrel & Hrun & -> & Hfine).
    intros Hr. cbn in Hr. injection Hr as Ec <- <- <-.
    set (rest := l4 ++ l3 ++ l2) in *.
    assert (calls = (rest ++ CWait :: l1) ++ loop) as ->.
    { apply (app_inv_tail past). rewrite <- Ec. by rewrite <- !app_assoc. }
    assert (forall l, Forall quiet l -> Forall not_output l /\ Forall not_wait l) as Hsplit.
    { intros l Hl. split; (eapply Forall_impl; [exact Hl|]); by intros c []. }
    destruct (Hsplit _ Hl1) as [Ho1 Hw1], (Hsplit _ Hl2) as [Ho2 Hw2].
    assert (outputs_of ((rest ++ CWait :: l1) ++ loop) = outputs_of loop) as Hout.
    { rewrite outputs_app. rewrite (quiet_outputs (rest ++ CWait :: l1)); [apply app_nil_r|].
      apply Forall_app. split; [done|]. by constructor. }
    rewrite Hout. split_and!; [done| |done|].
    { rewrite !waits_app. change (CWait :: l1) with ([CWait] ++ l1). rewrite waits_app.
      by rewrite (quiet_waits rest Hw2), (quiet_waits l1 Hw1), (quiet_waits loop Hq). }
    exists (l1 ++ loop ++ past), (l2 ++ CWait :: l1 ++ loop ++ past), (l3 ++ l2 ++ CWait :: l1 ++ loop ++ past), rel.
    split_and!; [by exists l2|by exists l3| |done|].
    { exists l4. subst rest. by rewrite <- !app_assoc. }
    cbv zeta.
    assert (all_accepted h past ((rest ++ CWait :: l1) ++ loop) <-> all_accepted h past loop) as Hacc.
    { rewrite accepted_app. split; [by intros [_ ?]|]. intros Ha. split; [|done]. apply quiet_accepted.
      apply Forall_app. split; [done|]. by constructor. }
    rewrite Hacc. split.
    + intros Hnone. apply errors_join_None in Hnone. rewrite !Forall_cons in Hnone. destruct Hnone as (-> & -> & -> & _).
      destruct failed; [by destruct Hres as [[? ?] _]|]. cbn [orb] in Hfine. split; [|split; [by apply Hfine|done]].
      destruct Hres as (Ha & n & e & He & Ho & Hx). split; [done|]. exists n, e. split_and!; try done. by apply Hx.
    + intros ((Ha & n & e & He & Ho & Hx) & Hstatus & ->). apply errors_join_None. rewrite !Forall_cons.
      destruct failed; [by destruct Hres as [_ []]|]. cbn [orb] in Hfine. split_and!; [|by apply Hfine|done|apply Forall_nil_2].
      destruct Hres as (_ & n' & e' & He' & _ & Hx'). apply Hx'.
      destruct He as (b1 & r1 & a1 & E1 & _ & Hb1 & Hr1), He' as (b2 & r2 & a2 & E2 & _ & Hb2 & Hr2).
      assert (e' = e) as ->; [|done]. rewrite E1 in E2. exact (first_error _ _ _ _ _ _ _ _ Hb1 Hb2 Hr1 Hr2 E2).
Qed.
End Run.

(** ** A viewer whose session is killed *)

Definition demo_preparation : ptyViewerPreparation :=
  {| pp_identity := shared_target; pp_windowID := !"@9"; pp_geometry := demo_geometry; pp_key := shared_key;
     pp_started := true; pp_closed := false; pp_released := false |}.
Definition demo_pins : pin_table := {[ shared_key := {| references := 1; originalMode := !"latest";
  originalInherited := true; restore := true; owner := hex_encode (replicate 16 x41); hookIndex := 1094795585 |} ]}.
Definition last_reads (end_ : errno) : list pty_read :=
  [{| pr_data := !"bye"; pr_err := None |}; {| pr_data := []; pr_err := None |};
   {| pr_data := !"!"; pr_err := Some (EErrno end_) |}].

(** The process exits with status 1; the probe finds the session, or not. *)
Definition killed (probe : vanswer) : venv := fun past c =>
  match c with
  | CWait => {| va_out := []; va_err := Some (EExit !"exit status 1") |}
  | CTmux ForProbe _ _ _ => probe
  | _ => {| va_out := []; va_err := None |}
  end.
Definition session_gone : vanswer :=
  {| va_out := !"can't find session: $1"; va_err := Some (EExit !"exit status 1") |}.
Definition session_there : vanswer := {| va_out := IdGeneration shared_target; va_err := None |}.

Definition reported (probe : vanswer) (end_ : errno) (stopped : bool) : option (option (option error)) :=
  option_map (fun '(_, _, err) => Some err)
    (snd (v_exec (killed probe) [] (viewer_run demo_factory [] (last_reads end_) stopped demo_preparation demo_pins))).

Lemma viewer_reports_exactly_witness : exists past' out,
  v_exec (killed session_gone) [] (viewer_run demo_factory [] (last_reads EIO) false demo_preparation demo_pins) =
  (past', Some out).
Proof.
  refine (proj1 (viewer_reports_exactly demo_factory [] (killed session_gone) [] (last_reads EIO) false
    demo_preparation demo_pins) _).
  apply Exists_cons_tl, Exists_cons_tl, Exists_cons_hd. discriminate.
Defined.

Example session_gone_is_no_error : reported session_gone EIO false = Some (Some None).
Proof. vm_compute. reflexivity. Qed.
Example stopped_is_no_error : reported session_there EIO true = Some (Some None).
Proof. vm_compute. reflexivity. Qed.
Example crash_is_an_error : reported session_there EIO false =
  Some (Some (Some (EJoin [EJoin [EExit !"exit status 1"]]))).
Proof. vm_compute. reflexivity. Qed.
Example read_error_is_an_error :
  reported session_gone EACCES false = Some (Some (Some (EJoin [wrapf !"read viewer PTY: " (EErrno EACCES)]))).
Proof. vm_compute. reflexivity. Qed.
