(* ===== verification/MirrorViewerClose.v ===== *)
(** * The goroutines of a running viewer (internal/mirror/viewer.go)

    [run], the goroutine that waits for the end of the context, and any number
    of calls of [Close] and [Write], as programs on the fields of [ptyViewer],
    the terminal and the process ([Program.pool_step]).  What is done under [ioMu]
    or [resultMu] is one call.  [alone_run]: by itself [run] is the [viewer_run]
    of [MirrorViewer]. *)

From S2P Require Import Prelude Program GoString GoUnicode GoConv GoErrors TmuxQuote TmuxFormat TmuxArgs TmuxServer.
From S2P Require Import MirrorProtocol MirrorViewerParse MirrorViewer MirrorViewerProps.
Open Scope Z_scope.

(** ** The model *)

(** [terminateOnce]: the goroutine [i] is inside, at its step [n]. *)
Inductive once := Fresh | Running (i n : nat) | Done.

Record ptyViewer := {
  terminateOnce : once;
  v_closing : bool;
  v_result : option error;
  buffer : list (option error);        (* the channel [done], of capacity one *)
  v_sent : list (option error);        (* every value sent on it *)
  doneCloses : nat; finishedCloses : nat;
  (* the terminal, the process, the pin and the context *)
  opened : bool; closes : nat; kills : nat;
  exited : option (option error);      (* what [Wait] reports of the process that has ended *)
  askedToEnd : bool;                   (* [closing] when it ended *)
  waits : nat;
  released : list (option error);      (* what [releasePin] returned *)
  received : list bytes;               (* the pieces read from the terminal *)
  handed : list bytes;                 (* the pieces given to the output callback *)
  trouble : bool;                      (* an output was refused, or a read failed unexpectedly *)
  ctxDone : bool
}.
#[export] Instance eta_ptyViewer : Eta ptyViewer := fun v =>
  {| terminateOnce := terminateOnce v; v_closing := v_closing v; v_result := v_result v; buffer := buffer v;
     v_sent := v_sent v; doneCloses := doneCloses v; finishedCloses := finishedCloses v; opened := opened v;
     closes := closes v; kills := kills v; exited := exited v; askedToEnd := askedToEnd v; waits := waits v;
     released := released v; received := received v; handed := handed v; trouble := trouble v; ctxDone := ctxDone v |}.

Inductive pcall :=
| PRead | POutput (data : bytes)
| POnce                              (* entering [terminateOnce.Do]: whether it is the first *)
| PStoreClosing | PClosePTY | PKill | POnceDone
| PWait | PIntentional | PProbe | PRelease
| PResult (err : option error) | PSend (err : option error) | PCloseDone | PFinish
| PFinished | PLoad                  (* of [Close] *)
| PSelect                            (* of the other goroutine: whether the context has ended *)
| PWrite (data : bytes).
Definition panswer (c : pcall) : Type :=
  match c with
  | PRead => pty_read
  | POutput _ | PWait | PRelease | PLoad | PWrite _ => option error
  | POnce | PIntentional | PSelect => bool
  | PProbe => result bool
  | _ => unit
  end.

(** How a goroutine has ended; [StillReading] is a [run] that has used up its
    fuel. *)
Inductive outcome := StillReading | Ran (result : option error) | Watched | Closed (err : option error)
  | Wrote (err : option error).

#[local] Abbreviation pprog := (prog pcall panswer).

Definition terminate : pprog () :=
  first ← ask POnce;
  if (first : bool) then _ ← ask PStoreClosing; _ ← ask PClosePTY; _ ← ask PKill; ask POnceDone
  else mret tt.

Fixpoint read_loop (fuel : nat) : pprog (option (option error)) :=
  match fuel with
  | O => mret None
  | S fuel =>
      r ← ask PRead;
      let data := pr_data (r : pty_read) in
      refused ← (if data ==b [] then mret None else ask (POutput data) : pprog (option error));
      match refused with
      | Some err => _ ← terminate; mret (Some (Some (wrapf !"deliver viewer output: " err)))
      | None =>
          match pr_err (r : pty_read) with
          | None => read_loop fuel
          | Some err => mret (Some (if expected_read_error err then None
                                    else Some (wrapf !"read viewer PTY: " err)))
          end
      end
  end.

Definition exitResult (waitErr : option error) (intentional : bool) : pprog (option error) :=
  if (waitErr ==b None) || intentional then mret (viewerWaitError waitErr intentional) else
  probe ← ask PProbe;
  mret match (probe : result bool) with
       | Ok ended => errors_join [viewerWaitError waitErr ended; None]
       | Err probeErr => errors_join [viewerWaitError waitErr false; Some probeErr]
       end.

(** What follows the loop. *)
Definition reap (looped : option (option error)) : pprog outcome :=
  match looped with
  | None => mret StillReading
  | Some outputErr =>
      waitErr ← ask PWait;
      intentional ← ask PIntentional;
      _ ← terminate;
      waitErr ← exitResult waitErr intentional;
      releaseErr ← ask PRelease;
      let result := errors_join [outputErr; waitErr; releaseErr] in
      _ ← ask (PResult result);
      _ ← ask (PSend result);
      _ ← ask PCloseDone;
      _ ← ask PFinish;
      mret (Ran result)
  end.
Definition run (fuel : nat) : pprog outcome := looped ← read_loop fuel; reap looped.

(** The goroutine that [Start] adds. *)
Definition watch : pprog outcome :=
  ended ← ask PSelect;
  if (ended : bool) then _ ← terminate; mret Watched else mret Watched.

Definition Close : pprog outcome :=
  _ ← terminate;
  _ ← ask PFinished;
  err ← ask PLoad;
  mret (Closed err).

Definition Write (data : bytes) : pprog outcome :=
  err ← ask (PWrite data);
  mret (Wrote (option_map (wrapf !"write viewer PTY: ") err)).

(** What the manager may start. *)
Inductive called : pprog outcome -> Prop :=
| called_Close : called Close
| called_Write data : called (Write data).

(** A read that failed in a way [run] reports. *)
Definition bad_read (r : pty_read) : bool :=
  match pr_err r with Some e => negb (expected_read_error e) | None => false end.
Definition piece (data : bytes) : list bytes := if data ==b [] then [] else [data].

(** What a call makes of the viewer; a call without an answer blocks.  A read
    of a terminal that has been closed, even while it waits, fails. *)
Definition vcalls (i : nat) (c : pcall) : panswer c -> ptyViewer -> ptyViewer -> Prop :=
  match c with
  | PRead => fun r v v' =>
      (opened v = false -> pr_data r = [] /\ exists e, pr_err r = Some e /\ errors_is OsErrClosed e = true) /\
      v' = v <| received := received v ++ piece (pr_data r) |> <| trouble := trouble v || bad_read r |>
  | POutput data => fun r v v' =>
      v' = v <| handed := handed v ++ [data] |> <| trouble := trouble v || negb (r ==b None) |>
  | POnce => fun first v v' =>
      if first then terminateOnce v = Fresh /\ v' = v <| terminateOnce := Running i 1 |>
      else terminateOnce v = Done /\ v' = v
  | PStoreClosing => fun _ v v' => v' = v <| v_closing := true |> <| terminateOnce := Running i 2 |>
  | PClosePTY => fun _ v v' =>
      v' = v <| opened := false |> <| closes := S (closes v) |> <| terminateOnce := Running i 3 |>
  | PKill => fun _ v v' => v' = v <| kills := S (kills v) |> <| terminateOnce := Running i 4 |>
  | POnceDone => fun _ v v' => v' = v <| terminateOnce := Done |>
  | PWait => fun status v v' => exited v = Some status /\ v' = v <| waits := S (waits v) |>
  | PIntentional => fun r v v' => r = v_closing v /\ v' = v
  | PProbe => fun _ v v' => v' = v
  | PRelease => fun r v v' => v' = v <| released := released v ++ [r] |>
  | PResult err => fun _ v v' => v' = v <| v_result := err |>
  | PSend err => fun _ v v' => buffer v = [] /\ v' = v <| buffer := [err] |> <| v_sent := v_sent v ++ [err] |>
  | PCloseDone => fun _ v v' => v' = v <| doneCloses := S (doneCloses v) |>
  | PFinish => fun _ v v' => v' = v <| finishedCloses := S (finishedCloses v) |>
  | PFinished => fun _ v v' => (0 < finishedCloses v)%nat /\ v' = v
  | PLoad => fun r v v' => r = v_result v /\ v' = v
  | PSelect => fun ended v v' => (if ended then ctxDone v = true else (0 < finishedCloses v)%nat) /\ v' = v
  | PWrite data => fun r v v' => (opened v = false -> r <> None) /\ v' = v
  end.

(** What happens besides: the process ends, the context ends, and the manager
    takes the value from [done]. *)
Inductive around : ptyViewer -> ptyViewer -> Prop :=
| ar_exit v status : exited v = None -> around v (v <| exited := Some status |> <| askedToEnd := v_closing v |>)
| ar_context v : around v (v <| ctxDone := true |>)
| ar_receive v err : buffer v = [err] -> around v (v <| buffer := [] |>).

(** What [Start] leaves. *)
Definition new_viewer : ptyViewer :=
  {| terminateOnce := Fresh; v_closing := false; v_result := None; buffer := []; v_sent := [];
     doneCloses := 0; finishedCloses := 0; opened := true; closes := 0; kills := 0; exited := None;
     askedToEnd := false; waits := 0; released := []; received := []; handed := []; trouble := false; ctxDone := false |}.
Definition started (fuel : nat) (x : Program.pool (C := pcall) (answer := panswer) (W := ptyViewer) (A := outcome)) : Prop :=
  x = {| p_shared := new_viewer; p_all := [run fuel; watch] |}.
Abbreviation viewer_step := (pool_step vcalls around called).

(** ** Alone, [run] is what is said of it elsewhere

    [alone] gives the calls of one goroutine their meaning as calls of [vm];
    [stopped] says that somebody else has terminated the viewer already. *)
Section Alone.
Context `{UnicodeTables}.
Variables (f : PTYViewerFactory) (os_environ : list bytes).

Fixpoint alone {A} (m : pprog A) (reads : list pty_read) (stopped : bool) (p : ptyViewerPreparation) (pins : pin_table)
    : vm (option (A * ptyViewerPreparation * pin_table)) :=
  match m with
  | Ret a => VRet (Some (a, p, pins))
  | Do c k =>
      match c return (panswer c -> pprog A) -> vm (option (A * ptyViewerPreparation * pin_table)) with
      | PRead => fun k => match reads with [] => VRet None | r :: reads => alone (k r) reads stopped p pins end
      | POutput data => fun k => do! err := attempt (COutput data) in alone (k err) reads stopped p pins
      | POnce => fun k => alone (k (negb stopped)) reads true p pins
      | PClosePTY => fun k => do! _ := attempt CClosePTY in alone (k tt) reads stopped p pins
      | PKill => fun k => do! _ := attempt CKill in alone (k tt) reads stopped p pins
      | PWait => fun k => do! err := attempt CWait in alone (k err) reads stopped p pins
      | PIntentional | PSelect => fun k => alone (k stopped) reads stopped p pins
      | PProbe => fun k => do! r := viewerTerminalEnded f os_environ (pp_identity p) in alone (k r) reads stopped p pins
      | PRelease => fun k => do! (p, pins, err) := releasePin f os_environ p pins in alone (k err) reads stopped p pins
      | PLoad | PWrite _ => fun k => alone (k None) reads stopped p pins
      | PStoreClosing | POnceDone | PResult _ | PSend _ | PCloseDone | PFinish | PFinished =>
          fun k => alone (k tt) reads stopped p pins
      end k
  end.

(** [finish] from the wait on. *)
Definition after_loop (outputErr : option error) (stopped : bool) (p : ptyViewerPreparation) (pins : pin_table)
    : vm (ptyViewerPreparation * pin_table * option error) :=
  do! waitErr := attempt CWait in
  do! _ := (if negb stopped then MirrorViewer.terminate else VRet None) in
  do! waitErr := viewerExitResult f os_environ waitErr stopped (pp_identity p) in
  do! (p, pins, releaseErr) := releasePin f os_environ p pins in
  VRet (p, pins, errors_join [outputErr; waitErr; releaseErr]).

Lemma finish_after outputErr failed stopped p pins :
  finish f os_environ outputErr failed stopped p pins =
  do! _ := (if failed && negb stopped then MirrorViewer.terminate else VRet None) in
  after_loop outputErr (failed || stopped) p pins.
Proof. done. Qed.

Definition as_ran (r : list vcall * (ptyViewerPreparation * pin_table * option error))
    : list vcall * option (outcome * ptyViewerPreparation * pin_table) :=
  let '(past, (p, pins, err)) := r in (past, Some (Ran err, p, pins)).

Lemma alone_rest h past outputErr reads stopped p pins :
  v_exec h past (alone (reap (Some outputErr)) reads stopped p pins) =
  as_ran (v_exec h past (after_loop outputErr stopped p pins)).
Proof.
  unfold reap, after_loop, terminate, exitResult, viewerExitResult.
  assert (Hrel : forall past status,
    v_exec h past (do! (p, pins, err) := releasePin f os_environ p pins in
      VRet (Some (Ran (errors_join [outputErr; status; err]), p, pins))) =
    as_ran (v_exec h past (do! (p, pins, err) := releasePin f os_environ p pins in
      VRet (p, pins, errors_join [outputErr; status; err])))).
  { intros past1 status. rewrite !v_exec_bind.
    by destruct (v_exec h past1 (releasePin _ _ _ _)) as [past2 [[p2 pins2] rel]]. }
  destruct stopped; cbn; destruct (va_err (h past CWait)) as [e|]; cbn; try apply Hrel.
  rewrite !v_exec_bind. destruct (v_exec h _ (viewerTerminalEnded _ _ _)) as [past2 probe]. apply Hrel.
Qed.

Definition ran (r : list vcall * option (ptyViewerPreparation * pin_table * option error))
    : list vcall * option (outcome * ptyViewerPreparation * pin_table) :=
  let '(past, out) := r in (past, option_map (fun '(p, pins, err) => (Ran err, p, pins)) out).

#[local] Arguments reap : simpl never.
#[local] Arguments after_loop : simpl never.
#[local] Arguments finish : simpl never.

Lemma alone_end h past outputErr (failed : bool) reads stopped p pins :
  v_exec h past (alone (_ ← (if failed then terminate else mret tt); reap (Some outputErr)) reads stopped p pins) =
  ran (v_exec h past (do! out := finish f os_environ outputErr failed stopped p pins in VRet (Some out))).
Proof.
  rewrite finish_after. destruct failed, stopped; cbn [andb orb negb]; cbn; rewrite ?alone_rest, ?v_exec_bind;
    by destruct (v_exec h _ (after_loop _ _ _ _)) as [past2 [[p2 pins2] err]].
Qed.

(** Under the same environment, [run] makes the calls of [viewer_run] in the
    same order, and ends with the same result. *)
Lemma alone_run h p pins : forall fuel reads past stopped, (length reads < fuel)%nat ->
  v_exec h past (alone (run fuel) reads stopped p pins) =
  ran (v_exec h past (viewer_run f os_environ reads stopped p pins)).
Proof.
  intros fuel. unfold run, viewer_run.
  induction fuel as [|fuel IH]; intros reads past stopped Hl; [lia|]. destruct reads as [|r reads]; [done|]. cbn in Hl.
  cbn [read_loop output_loop].
  assert (Hnext : forall past, v_exec h past (alone (looped ← match pr_err r with
        | None => read_loop fuel
        | Some err => mret (Some (if expected_read_error err then None else Some (wrapf !"read viewer PTY: " err)))
        end; reap looped) reads stopped p pins) =
    ran (v_exec h past (do! r := match pr_err r with
        | None => output_loop reads
        | Some err => VRet (Some (if expected_read_error err then None else Some (wrapf !"read viewer PTY: " err), false))
        end in match r with
               | None => VRet None
               | Some (outputErr, failed) => do! out := finish f os_environ outputErr failed stopped p pins in VRet (Some out)
               end))).
  { intros past1. destruct (pr_err r) as [err|]; [|apply IH; lia].
    exact (alone_end h past1 _ false reads stopped p pins). }
  destruct (pr_data r ==b []) eqn:Hd; cbn; rewrite Hd; cbn; [apply Hnext|].
  destruct (va_err (h past (COutput (pr_data r)))) as [err|]; [|apply Hnext].
  pose proof (alone_end h (COutput (pr_data r) :: past) (Some (wrapf !"deliver viewer output: " err)) true reads stopped
    p pins) as E. by destruct stopped.
Qed.
End Alone.
