(* ===== verification/MirrorViewerCloseProps.v ===== *)
(** * The goroutines of a running viewer end together

    Each goroutine has a monitor ([Program.twp]) that the others respect; what
    the monitors and the fields of the viewer say of each other holds in every
    interleaving ([Program.pool_monitored]). *)

From S2P Require Import Prelude Program GoString GoUnicode GoConv GoErrors MirrorViewer MirrorViewerClose.
Open Scope Z_scope.

(** ** The monitors *)

Inductive role := RoleRun | RoleWatch | RoleClose | RoleWrite.
#[export] Instance role_eq_dec : EqDecision role.
Proof. solve_decision. Defined.

(** [s_term] is the step inside [terminate]: 0 before it, 5 after it.
    [s_stage] counts the other calls of note; [s_last] says that the loop of
    [run] must end. *)
Record vstate := {
  s_role : role; s_term : nat; s_stage : nat; s_last : bool; s_piece : option bytes; s_trouble : bool;
  s_status : option error; s_int : bool; s_rel : option error; s_value : option error
}.
#[export] Instance eta_vstate : Eta vstate := fun s =>
  {| s_role := s_role s; s_term := s_term s; s_stage := s_stage s; s_last := s_last s; s_piece := s_piece s;
     s_trouble := s_trouble s; s_status := s_status s; s_int := s_int s; s_rel := s_rel s; s_value := s_value s |}.
Definition begins (r : role) : vstate :=
  {| s_role := r; s_term := 0; s_stage := 0; s_last := false; s_piece := None; s_trouble := false;
     s_status := None; s_int := false; s_rel := None; s_value := None |}.

Abbreviation pevent := (event pcall panswer).

Definition vnext (s : vstate) (e : pevent) : vstate :=
  match e with
  | existT PRead r =>
      s <| s_piece := if pr_data r ==b [] then None else Some (pr_data r) |>
        <| s_last := negb (pr_err r ==b None) |> <| s_trouble := s_trouble s || bad_read r |>
  | existT (POutput _) r =>
      s <| s_piece := None |> <| s_last := s_last s || negb (r ==b None) |>
        <| s_trouble := s_trouble s || negb (r ==b None) |>
  | existT POnce first => s <| s_term := if first : bool then 1%nat else 5%nat |>
  | existT PStoreClosing _ => s <| s_term := 2%nat |>
  | existT PClosePTY _ => s <| s_term := 3%nat |>
  | existT PKill _ => s <| s_term := 4%nat |>
  | existT POnceDone _ => s <| s_term := 5%nat |>
  | existT PWait r => s <| s_stage := 1%nat |> <| s_status := r |>
  | existT PIntentional r => s <| s_stage := 2%nat |> <| s_int := r |>
  | existT PProbe _ => s
  | existT PRelease r => s <| s_stage := 3%nat |> <| s_rel := r |>
  | existT (PResult err) _ => s <| s_stage := 4%nat |> <| s_value := err |>
  | existT (PSend _) _ => s <| s_stage := 5%nat |>
  | existT PCloseDone _ => s <| s_stage := 6%nat |>
  | existT PFinish _ => s <| s_stage := 7%nat |>
  | existT PFinished _ => s <| s_stage := 1%nat |>
  | existT PLoad r => s <| s_stage := 2%nat |> <| s_value := r |>
  | existT PSelect _ | existT (PWrite _) _ => s <| s_stage := 1%nat |>
  end.

(** What [run] may report: [out] is the error of the loop, [status] that of the
    process. *)
Definition reports (s : vstate) (err : option error) : Prop :=
  exists out status, (out = None <-> s_trouble s = false) /\
    (s_status s = None -> status = None) /\ (s_int s = true -> status = viewerWaitError (s_status s) true) /\
    err = errors_join [out; status; s_rel s].

Definition at_stage (s : vstate) (r : role) (n : nat) : Prop := s_role s = r /\ s_stage s = n.
Definition outside (s : vstate) : Prop := s_term s = 0%nat \/ s_term s = 5%nat.

Definition vallowed (s : vstate) (c : pcall) : Prop :=
  match c with
  | PStoreClosing => s_term s = 1%nat
  | PClosePTY => s_term s = 2%nat
  | PKill => s_term s = 3%nat
  | POnceDone => s_term s = 4%nat
  | POnce => outside s /\ s_role s <> RoleWrite /\ (s_role s = RoleRun -> s_last s = true /\ s_piece s = None)
  | PRead => s_term s = 0%nat /\ at_stage s RoleRun 0 /\ s_last s = false /\ s_piece s = None
  | POutput data => s_term s = 0%nat /\ at_stage s RoleRun 0 /\ s_piece s = Some data
  | PWait => outside s /\ at_stage s RoleRun 0 /\ s_last s = true /\ s_piece s = None
  | PIntentional => outside s /\ at_stage s RoleRun 1
  | PProbe | PRelease => s_term s = 5%nat /\ at_stage s RoleRun 2
  | PResult err => s_term s = 5%nat /\ at_stage s RoleRun 3 /\ reports s err
  | PSend err => s_term s = 5%nat /\ at_stage s RoleRun 4 /\ err = s_value s
  | PCloseDone => s_term s = 5%nat /\ at_stage s RoleRun 5
  | PFinish => s_term s = 5%nat /\ at_stage s RoleRun 6
  | PFinished => s_term s = 5%nat /\ at_stage s RoleClose 0
  | PLoad => s_term s = 5%nat /\ at_stage s RoleClose 1
  | PSelect => s_term s = 0%nat /\ at_stage s RoleWatch 0
  | PWrite _ => s_term s = 0%nat /\ at_stage s RoleWrite 0
  end.
Definition vsees (s : vstate) (c : pcall) (r : panswer c) : Prop := True.

Definition vends (o : outcome) (s : vstate) : Prop :=
  outside s /\
  match o with
  | StillReading => at_stage s RoleRun 0 /\ s_last s = false
  | Ran err => at_stage s RoleRun 7 /\ err = s_value s
  | Watched => s_role s = RoleWatch
  | Closed err => at_stage s RoleClose 2 /\ err = s_value s
  | Wrote _ => s_role s = RoleWrite
  end.

#[local] Abbreviation vwp := (twp vallowed vnext vsees).

(** ** The programs follow their monitors *)

Lemma vwp_terminate (s : vstate) Q : outside s -> s_role s <> RoleWrite ->
  (s_role s = RoleRun -> s_last s = true /\ s_piece s = None) ->
  Q tt (s <| s_term := 5%nat |>) -> vwp terminate s Q.
Proof.
  intros Ho Hr Hl HQ. split; [done|]. intros [] _; cbn; [|exact HQ].
  repeat (split; [done|]; intros [] _; cbn). exact HQ.
Qed.

Lemma vwp_loop fuel : forall s, s_term s = 0%nat -> at_stage s RoleRun 0 -> s_last s = false -> s_piece s = None ->
  s_trouble s = false ->
  vwp (read_loop fuel) s (fun looped s => outside s /\ at_stage s RoleRun 0 /\
    match looped with
    | None => s_last s = false
    | Some outputErr => s_last s = true /\ s_piece s = None /\ (outputErr = None <-> s_trouble s = false)
    end).
Proof.
  induction fuel as [|fuel IH]; intros s Ht Hst Hl Hp Htr.
  { split_and!; try done. by left. }
  cbn [read_loop]. apply twp_ask. split; [done|]. intros r _. cbv zeta.
  set (s1 := vnext s (ev PRead r)). destruct Hst as [Hro Hst].
  assert (Hnext : forall s2, s_term s2 = 0%nat -> at_stage s2 RoleRun 0 -> s_piece s2 = None ->
    s_last s2 = negb (pr_err r ==b None) -> s_trouble s2 = bad_read r ->
    vwp (match pr_err r with
         | None => read_loop fuel
         | Some err => mret (Some (if expected_read_error err then None else Some (wrapf !"read viewer PTY: " err)))
         end) s2 (fun looped s => outside s /\ at_stage s RoleRun 0 /\
      match looped with
      | None => s_last s = false
      | Some outputErr => s_last s = true /\ s_piece s = None /\ (outputErr = None <-> s_trouble s = false)
      end)).
  { intros s2 H1 H2 H3 H4 H5. unfold bad_read in H5. destruct (pr_err r) as [err|]; cbn in H4, H5; [|by apply IH].
    split_and!; try done; [by left|]. rewrite H5. by destruct (expected_read_error err). }
  destruct (pr_data r ==b []) eqn:Hd.
  - apply Hnext; subst s1; cbn; try done; [by rewrite Hd|by rewrite Htr].
  - apply twp_ask. split; [by subst s1; cbn; rewrite Hd|]. intros [err|] _.
    + apply twp_bind, vwp_terminate; [by left|cbn; by rewrite Hro|..].
      * intros _. subst s1. cbn. by rewrite orb_true_r.
      * subst s1. cbn. split_and!; try done; [by right|by rewrite orb_true_r|by rewrite orb_true_r].
    + apply Hnext; subst s1; cbn; try done; by rewrite ?Htr, ?orb_false_r.
Qed.

Lemma vwp_exit s waitErr intentional Q : outside s -> s_term s = 5%nat -> at_stage s RoleRun 2 ->
  (forall status, (waitErr = None -> status = None) -> (intentional = true -> status = viewerWaitError waitErr true) ->
     Q status s) ->
  vwp (exitResult waitErr intentional) s Q.
Proof.
  intros Ho Ht Hst HQ. unfold exitResult. destruct waitErr as [err|]; cbn [orb bool_decide].
  - rewrite bool_decide_false by done. destruct intentional; cbn [orb].
    + by apply HQ.
    + apply twp_ask. split; [done|]. intros [ended|err'] _; by apply HQ.
  - rewrite bool_decide_true by done. cbn [orb]. by apply HQ; [|destruct intentional].
Qed.

Lemma vwp_run fuel : vwp (run fuel) (begins RoleRun) vends.
Proof.
  unfold run. apply twp_bind. eapply twp_mono; [|by apply vwp_loop]. intros [outputErr|] s (Ho & [Hr Hst] & Hl).
  2: { by split_and!. }
  destruct Hl as (Hl & Hp & Hout). unfold reap.
  apply twp_ask. split; [by split_and!|]. intros status _. apply twp_ask. split; [by split_and!|]. intros int _.
  apply twp_bind, vwp_terminate; [done|cbn; by rewrite Hr|by cbn|].
  apply twp_bind, vwp_exit; [by right|done|done|]. intros waited Hnone Hint.
  apply twp_ask. split; [done|]. intros rel _. cbv zeta.
  apply twp_ask. split; [split_and!; try done; by exists outputErr, waited|]. intros [] _.
  repeat (apply twp_ask; split; [done|]; intros [] _). split_and!; try done. by right.
Qed.

Lemma vwp_watch : vwp watch (begins RoleWatch) vends.
Proof.
  apply twp_ask. split; [done|]. intros [] _; [|by split; [left|]].
  apply twp_bind, vwp_terminate; [by left|done|done|]. by split; [right|].
Qed.

Lemma vwp_called m : called m -> exists r, r <> RoleRun /\ vwp m (begins r) vends.
Proof.
  intros [|data].
  - exists RoleClose. split; [done|]. apply twp_bind, vwp_terminate; [by left|done|done|].
    apply twp_ask. split; [done|]. intros [] _. apply twp_ask. split; [done|]. intros err _. split_and!; try done. by right.
  - exists RoleWrite. split; [done|]. apply twp_ask. split; [done|]. intros err _. by split; [left|].
Qed.

(** ** What the viewer is like *)

Definition b2n (b : bool) : nat := if b then 1 else 0.
Definition from (n m : nat) : bool := (n <=? m)%nat.

(** How far [terminate] has come. *)
Record terminated (n : nat) (v : ptyViewer) : Prop := {
  te_closing : v_closing v = from 2 n;
  te_opened : opened v = negb (from 3 n);
  te_closes : closes v = b2n (from 3 n);
  te_kills : kills v = b2n (from 4 n)
}.
Definition position (o : once) : nat := match o with Fresh => 0 | Running _ n => n | Done => 5 end.
Record sane (goroutines : nat) (v : ptyViewer) : Prop := {
  sa_once : terminated (position (terminateOnce v)) v;
  sa_inside : forall i n, terminateOnce v = Running i n -> (i < goroutines)%nat /\ (1 <= n <= 4)%nat;
  sa_asked : askedToEnd v = true -> v_closing v = true;
  sa_exited : exited v = None -> askedToEnd v = false;
  sa_buffer : v_sent v = [] -> buffer v = []
}.

(** How far [run] has come. *)
Record follows (s : vstate) (v : ptyViewer) : Prop := {
  fo_waits : waits v = b2n (from 1 (s_stage s));
  fo_released : released v = if from 3 (s_stage s) then [s_rel s] else [];
  fo_sent : v_sent v = if from 5 (s_stage s) then [s_value s] else [];
  fo_closed : doneCloses v = b2n (from 6 (s_stage s));
  fo_finished : finishedCloses v = b2n (from 7 (s_stage s));
  fo_received : received v = handed v ++ match s_piece s with Some data => [data] | None => [] end;
  fo_trouble : trouble v = s_trouble s;
  fo_last : (1 <= s_stage s)%nat \/ s_term s <> 0%nat -> s_last s = true /\ s_piece s = None;
  fo_exited : (1 <= s_stage s)%nat -> exited v = Some (s_status s);
  fo_asked : (2 <= s_stage s)%nat -> askedToEnd v = true -> s_int s = true;
  fo_term : (3 <= s_stage s)%nat -> s_term s = 5%nat;
  fo_result : (4 <= s_stage s)%nat -> v_result v = s_value s /\ reports s (s_value s)
}.

(** What the monitor of the goroutine [i] says of it. *)
Record fits (i : nat) (s : vstate) (v : ptyViewer) : Prop := {
  fi_role : s_role s = RoleRun <-> i = 0%nat;
  fi_mine : forall n, terminateOnce v = Running i n <-> s_term s = n /\ (1 <= n <= 4)%nat;
  fi_term : (s_term s <= 5)%nat;
  fi_done : s_term s = 5%nat -> terminateOnce v = Done;
  fi_run : s_role s = RoleRun -> follows s v;
  fi_close : s_role s = RoleClose -> (1 <= s_stage s)%nat -> (0 < finishedCloses v)%nat /\
    (s_stage s = 2%nat -> s_value s = v_result v)
}.

Lemma around_keeps k v v' : sane k v -> around v v' -> sane k v' /\ forall i s, fits i s v -> fits i s v'.
Proof.
  intros [[T1 T2 T3 T4] S2 S3 S4 S5] Ha. destruct Ha as [v status He|v|v err Hb]; (split; [by split|]);
    intros i s [F1 F2 F3 F4 F5 F6]; split; try done; intros Hr; destruct (F5 Hr); split; cbn; try done.
  - intros Hs. rewrite fo_exited0 in He by done. congruence.
  - intros Hs. rewrite fo_exited0 in He by lia. congruence.
Qed.

(** ** The calls of [terminate] *)

Definition with_term (o : once) (c op : bool) (cl k : nat) (v : ptyViewer) : ptyViewer :=
  v <| terminateOnce := o |> <| v_closing := c |> <| opened := op |> <| closes := cl |> <| kills := k |>.

(** The goroutine [i] goes on from its step in [terminate] to the next one. *)
Lemma term_keeps i s o c op cl k v N : sane N v -> (i < N)%nat -> fits i s v ->
  (terminateOnce v = Fresh \/ exists n, terminateOnce v = Running i n) ->
  (exists n, o = Running i n /\ (1 <= n <= 4)%nat) \/ o = Done ->
  (v_closing v = true -> c = true) -> terminated (position o) (with_term o c op cl k v) ->
  (s_role s = RoleRun -> s_last s = true /\ s_piece s = None) ->
  sane N (with_term o c op cl k v) /\ fits i (s <| s_term := position o |>) (with_term o c op cl k v) /\
  forall j s', j <> i -> fits j s' v -> fits j s' (with_term o c op cl k v).
Proof.
  intros [S1 S2 S3 S4 S5] Hi [F1 F2 F3 F4 F5 F6] Hold Hnew Hcl Ht Hrun. split_and!.
  - split; cbn; try done; [|by intros Hasked; apply Hcl, S3].
    intros j n E. destruct Hnew as [(m & -> & Hm)| ->]; [|done]. by injection E as <- <-.
  - split; cbn; try done.
    + intros n. destruct Hnew as [(m & -> & Hm)| ->]; cbn; [|by split; [|intros [<- ?]; lia]].
      split; [by intros [= ->]|]. by intros [-> _].
    + destruct Hnew as [(m & -> & Hm)| ->]; cbn; lia.
    + destruct Hnew as [(m & -> & Hm)| ->]; cbn; [lia|done].
    + intros Hr. destruct (F5 Hr). split; cbn; try done; [by intros _; apply Hrun|].
      intros Hs%fo_term0. destruct Hold as [E|[n E]]; [by rewrite F4 in E|]. by rewrite F4 in E.
  - intros j s' Hj [G1 G2 G3 G4 G5 G6]. split; cbn; try done.
    + intros n. split.
      * destruct Hnew as [(m & -> & Hm)| ->]; [|done]. by intros [= <- _].
      * intros Hn. exfalso. apply G2 in Hn. destruct Hold as [E|[m E]]; rewrite E in Hn; [done|]. by injection Hn as -> _.
    + intros E%G4. destruct Hold as [E'|[n E']]; congruence.
    + intros Hr. by destruct (G5 Hr).
Qed.

(** ** The calls of [run] *)

Definition same_term (v v' : ptyViewer) : Prop :=
  terminateOnce v' = terminateOnce v /\ v_closing v' = v_closing v /\ opened v' = opened v /\
  closes v' = closes v /\ kills v' = kills v /\ exited v' = exited v /\ askedToEnd v' = askedToEnd v.

Lemma run_keeps N i s s' v v' : sane N v -> fits i s v -> s_role s = RoleRun -> s_role s' = RoleRun -> s_term s' = s_term s ->
  same_term v v' -> (v_sent v' = [] -> buffer v' = []) -> follows s' v' ->
  (0 < finishedCloses v -> 0 < finishedCloses v' /\ v_result v' = v_result v)%nat ->
  sane N v' /\ fits i s' v' /\ forall j t, j <> i -> fits j t v -> fits j t v'.
Proof.
  intros [[T1 T2 T3 T4] S2 S3 S4 S5] [F1 F2 F3 F4 F5 F6] Hr Hr' Ht (E1 & E2 & E3 & E4 & E5 & E6 & E7) Hb Hf Hres.
  split_and!.
  - split; rewrite ?E1, ?E2, ?E6, ?E7; try done. split; congruence.
  - split; rewrite ?E1, ?Ht, ?Hr' in *; try done. by rewrite Hr in F1.
  - intros j t Hj [G1 G2 G3 G4 G5 G6]. split; rewrite ?E1; try done.
    + intros Hrt. destruct Hj. apply G1 in Hrt as ->. symmetry. by apply F1.
    + intros Hrt Hst. destruct (G6 Hrt Hst) as [H1 H2]. destruct (Hres H1) as [H3 H4]. by rewrite H4.
Qed.

(** The next step of [terminate] is its [n]-th. *)
Ltac inside n := left; exists n; split; [done|lia].

Lemma in_terminate N i s n v : sane N v -> fits i s v -> s_term s = n -> (1 <= n <= 4)%nat ->
  terminated n v /\ (exists m, terminateOnce v = Running i m) /\ (s_role s = RoleRun -> s_last s = true /\ s_piece s = None).
Proof.
  intros [S1 _ _ _ _] [_ F2 _ _ F5 _] Ht Hn. assert (E : terminateOnce v = Running i n) by (apply F2; by split).
  rewrite E in S1. split_and!; [done|by exists n|]. intros Hr. destruct (F5 Hr). apply fo_last0. right. lia.
Qed.

Lemma terminate_call_keeps N i s c r v v' : sane N v -> (i < N)%nat -> fits i s v -> vallowed s c -> vcalls i c r v v' ->
  match c with POnce | PStoreClosing | PClosePTY | PKill | POnceDone => True | _ => False end ->
  sane N v' /\ fits i (vnext s (ev c r)) v' /\ forall j s', j <> i -> fits j s' v -> fits j s' v'.
Proof.
  intros Hv Hi Hs Hal Hc Hwhich. destruct c; try done; cbn in Hal, Hc.
  - destruct Hal as (Ho & Hr & Hrun). destruct r; destruct Hc as [Hf ->].
    + pose proof (sa_once _ _ Hv) as Ht. rewrite Hf in Ht. destruct Ht as [T1 T2 T3 T4].
      apply (term_keeps i s (Running i 1) (v_closing v) (opened v) (closes v) (kills v)); try done; [by left|inside 1%nat].
    + split_and!; try done. destruct Hs as [F1 F2 F3 F4 F5 F6]. split; cbn; try done.
      * intros n. rewrite Hf. split; [done|]. intros [<- ?]. lia.
      * intros Hr'. destruct (F5 Hr'). split; cbn; try done. intros _. by apply Hrun.
  - destruct (in_terminate N i s 1 v Hv Hs Hal) as ([T1 T2 T3 T4] & Hm & Hrun); [lia|]. subst v'.
    apply (term_keeps i s (Running i 2) true (opened v) (closes v) (kills v)); try done; [by right|inside 2%nat].
  - destruct (in_terminate N i s 2 v Hv Hs Hal) as ([T1 T2 T3 T4] & Hm & Hrun); [lia|]. subst v'.
    apply (term_keeps i s (Running i 3) (v_closing v) false (S (closes v)) (kills v)); try done;
      [by right|inside 3%nat|]. split; cbn; by rewrite ?T1, ?T3, ?T4.
  - destruct (in_terminate N i s 3 v Hv Hs Hal) as ([T1 T2 T3 T4] & Hm & Hrun); [lia|]. subst v'.
    apply (term_keeps i s (Running i 4) (v_closing v) (opened v) (closes v) (S (kills v))); try done;
      [by right|inside 4%nat|]. split; cbn; by rewrite ?T1, ?T3, ?T4.
  - destruct (in_terminate N i s 4 v Hv Hs Hal) as ([T1 T2 T3 T4] & Hm & Hrun); [lia|]. subst v'.
    apply (term_keeps i s Done (v_closing v) (opened v) (closes v) (kills v)); try done; by right.
Qed.

Lemma run_call_keeps N i s c r v v' : sane N v -> fits i s v -> vallowed s c -> vcalls i c r v v' ->
  match c with PRead | POutput _ | PWait | PIntentional | PProbe | PRelease | PResult _ | PSend _ | PCloseDone | PFinish => True
             | _ => False end ->
  sane N v' /\ fits i (vnext s (ev c r)) v' /\ forall j s', j <> i -> fits j s' v -> fits j s' v'.
Proof.
  intros Hv Hs Hal Hc Hwhich.
  assert (Hr : s_role s = RoleRun) by (destruct c; try done; apply Hal).
  pose proof (fi_run _ _ _ Hs Hr) as [W1 W2 W3 W4 W5 W6 W7 W8 W9 W10 W11 W12].
  destruct c; try done; cbn in Hal, Hc; unfold at_stage in Hal;
    repeat match goal with H : _ /\ _ |- _ => destruct H end; subst;
    (eapply run_keeps; [exact Hv|exact Hs|done..| | |]); cbn; try apply Hv; try (by split);
    match goal with H : s_stage s = _ |- _ => rename H into Hst end.
  all: try (split; cbn; rewrite ?Hst, ?W1, ?W2, ?W3, ?W4, ?W5, ?W7; cbn; try done; try (intros; lia)).
  all: try (intros _; first [apply W8|apply W9|apply W10|apply W12]; rewrite Hst; lia).
  all: rewrite ?Hst in *; cbn in *; rewrite ?W2, ?W3; try done; try lia.
  all: try match goal with H : s_piece _ = _ |- _ => rewrite W6, H, app_nil_r end.
  - unfold piece. by destruct (pr_data r ==b []).
  - done.
  - intros _ Hasked. by apply (sa_asked _ _ Hv).
Qed.

(** A call of the goroutine [i] keeps what is known of it, and of the others. *)
Lemma vcall_keeps N i s c r v v' : sane N v -> (i < N)%nat -> fits i s v -> vallowed s c -> vcalls i c r v v' ->
  vsees s c r /\ sane N v' /\ fits i (vnext s (ev c r)) v' /\ forall j s', j <> i -> fits j s' v -> fits j s' v'.
Proof.
  intros Hv Hi Hs Hal Hc. split; [done|].
  destruct c; try by eapply terminate_call_keeps. all: try by eapply run_call_keeps.
  all: destruct Hs as [F1 F2 F3 F4 F5 F6]; cbn in Hal, Hc; unfold at_stage in Hal;
    repeat match goal with H : _ /\ _ |- _ => destruct H end; subst;
    (split; [done|split; [split; cbn; try done; try congruence|done]]); intros; try lia.
  split; [apply F6; [done|lia]|done].
Qed.

Lemma begins_fits r i v : (r = RoleRun <-> i = 0%nat) -> (forall n, terminateOnce v <> Running i n) ->
  (r = RoleRun -> follows (begins r) v) -> fits i (begins r) v.
Proof.
  intros Hr Hout Hrun. split; cbn; try done; [|lia|by intros _ ?%Nat.nle_succ_0].
  intros n. split; [by intros ?%Hout|intros [<- ?]; lia].
Qed.

Lemma called_fits m n v : called m -> sane n v -> (0 < n)%nat -> sane (1 + n) v /\ exists s, fits n s v /\ vwp m s vends.
Proof.
  intros (r & Hr & Hm)%vwp_called [S1 S2 S3 S4 S5] Hn. split; [split; try done; intros i k E%S2; lia|].
  exists (begins r). split; [|done]. apply begins_fits; [by split; [|lia]| |done]. intros k E%S2. lia.
Qed.

#[local] Abbreviation vpooled := (pooled vallowed vnext vsees sane fits vends).

Lemma started_pooled fuel x : started fuel x -> vpooled x.
Proof.
  intros ->. split; cbn; [by split|lia|]. intros [|[|i]] m Hi; cbn in Hi; simplify_eq/=.
  - exists (begins RoleRun). split; [|apply vwp_run]. apply begins_fits; [done..|]. intros _. split; cbn; done || lia || by intros [|].
  - exists (begins RoleWatch). split; [|apply vwp_watch]. by apply begins_fits.
Qed.

#[local] Abbreviation vreach fuel := (reachable (started fuel) viewer_step).

Lemma reach_pooled fuel x : vreach fuel x -> vpooled x.
Proof.
  apply (pool_monitored vallowed vnext vsees vcalls around called sane fits vends around_keeps vcall_keeps called_fits).
  apply started_pooled.
Qed.

(** ** Going on *)

(** No other goroutine is inside [terminate]. *)
Definition clear_for (i : nat) (v : ptyViewer) : Prop := forall j n, terminateOnce v = Running j n -> j = i.

Definition closed_read : pty_read := {| pr_data := []; pr_err := Some (ESentinel OsErrClosed) |}.

Lemma can_call N i s c v : sane N v -> fits i s v -> vallowed s c -> clear_for i v ->
  (c = PFinished -> 0 < finishedCloses v)%nat ->
  exists v1 r v2, rtc around v v1 /\ vcalls i c r v1 v2 /\ clear_for i v2 /\
    (s_role s = RoleRun -> s_last (vnext s (ev c r)) = true).
Proof.
  intros Hv Hs Hal Hclear Hfin.
  assert (Hrun : s_role s = RoleRun -> (1 <= s_stage s)%nat \/ s_term s <> 0%nat -> s_last s = true).
  { intros Hr Hlate. by apply (fo_last _ _ (fi_run _ _ _ Hs Hr)). }
  destruct c; cbn in Hal; unfold at_stage in Hal.
  - exists v, closed_read. eexists. split_and!; [done|split; [|done]|exact Hclear|done]. intros _. split; [done|].
    by exists (ESentinel OsErrClosed).
  - exists v, (Some (ESentinel OsErrClosed)). eexists. split_and!; [done|done|exact Hclear|].
    intros _. cbn. by rewrite orb_true_r.
  - destruct Hal as (Ho & _ & Hl). destruct (terminateOnce v) eqn:E.
    + exists v, true. eexists. split_and!; [done|by split|by intros j n [= -> _]|by intros [? _]%Hl].
    + pose proof (Hclear _ _ E) as ->. apply (fi_mine _ _ _ Hs) in E. destruct Ho; lia.
    + exists v, false, v. split_and!; [done|by split|done|by intros [? _]%Hl].
  - exists v, tt. eexists. split_and!; [done|done|by intros j n [= -> _]|]. intros Hr. apply Hrun; [done|right; lia].
  - exists v, tt. eexists. split_and!; [done|done|by intros j n [= -> _]|]. intros Hr. apply Hrun; [done|right; lia].
  - exists v, tt. eexists. split_and!; [done|done|by intros j n [= -> _]|]. intros Hr. apply Hrun; [done|right; lia].
  - exists v, tt. eexists. split_and!; [done|done|done|]. intros Hr. apply Hrun; [done|right; lia].
  - destruct (exited v) as [status|] eqn:E.
    + exists v, status. eexists. split_and!; [done|by split|exact Hclear|]. intros _. apply Hal.
    + exists (v <| exited := Some None |> <| askedToEnd := v_closing v |>), None. eexists.
      split_and!; [by apply rtc_once, ar_exit|by split|exact Hclear|]. intros _. apply Hal.
  - exists v, (v_closing v), v. split_and!; [done|by split|done|]. intros Hr. apply Hrun; [done|left; lia].
  - exists v, (Ok true), v. split_and!; [done|by split|done|]. intros Hr. apply Hrun; [done|left; lia].
  - exists v, None. eexists. split_and!; [done|done|exact Hclear|]. intros Hr. apply Hrun; [done|left; lia].
  - exists v, tt. eexists. split_and!; [done|done|exact Hclear|]. intros Hr. apply Hrun; [done|left; lia].
  - exists v, tt. eexists. split_and!; [done|split; [|done]|exact Hclear|].
    + destruct Hal as (_ & [Hr Hst] & _). apply (sa_buffer _ _ Hv). rewrite (fo_sent _ _ (fi_run _ _ _ Hs Hr)). by rewrite Hst.
    + intros Hr. apply Hrun; [done|left; lia].
  - exists v, tt. eexists. split_and!; [done|done|exact Hclear|]. intros Hr. apply Hrun; [done|left; lia].
  - exists v, tt. eexists. split_and!; [done|done|exact Hclear|]. intros Hr. apply Hrun; [done|left; lia].
  - exists v, tt, v. split_and!; [done|split; [by apply Hfin|done]|done|]. intros Hr. destruct Hal as (_ & Hr' & _). congruence.
  - exists v, (v_result v), v. split_and!; [done|done|done|]. intros Hr. destruct Hal as (_ & Hr' & _). congruence.
  - exists (v <| ctxDone := true |>), true. eexists. split_and!; [apply rtc_once, ar_context|by split|exact Hclear|].
    intros Hr. destruct Hal as (_ & Hr' & _). congruence.
  - exists v, (Some (ESentinel OsErrClosed)), v. split_and!; [done|done|done|]. intros Hr. destruct Hal as (_ & Hr' & _). congruence.
Qed.

Lemma rtc_around_keeps N v v' : sane N v -> rtc around v v' -> sane N v' /\ forall i s, fits i s v -> fits i s v'.
Proof.
  intros Hv Hr. induction Hr as [|v v1 v2 Hs _ IH]; [done|]. destruct (around_keeps N v v1 Hv Hs) as [Hv1 Hf].
  destruct (IH Hv1) as [Hv2 Hf2]. split; [done|]. intros i s H. by apply Hf2, Hf.
Qed.

#[local] Abbreviation advance :=
  (pool_can_advance vallowed vnext vsees vcalls around called sane fits vends around_keeps vcall_keeps called_fits).

(** The goroutine inside [terminate] can leave it. *)
Lemma once_left x : vpooled x -> exists x', rtc viewer_step x x' /\ vpooled x' /\ length (p_all x') = length (p_all x) /\
  (forall i n, terminateOnce (p_shared x') <> Running i n) /\
  (p_all x' !! 0%nat = Some (Ret StillReading) -> p_all x !! 0%nat = Some (Ret StillReading)).
Proof.
  intros Hx. destruct (terminateOnce (p_shared x)) as [|j n|] eqn:E; [by exists x; rewrite E| |by exists x; rewrite E].
  destruct (sa_inside _ _ (po_inv _ _ _ _ _ _ _ Hx) _ _ E) as [Hj Hn].
  destruct (lookup_lt_is_Some_2 _ _ Hj) as [m Hm]. destruct (po_all _ _ _ _ _ _ _ Hx j m Hm) as (s & Hs & Hw).
  destruct (advance j (fun s v => exists n, terminateOnce v = Running j n)
    (fun s v => terminateOnce v = Done /\ s_term s = 5%nat)) with (m := m) (s := s) (x := x)
    as (x' & m' & s' & Hr & Hx' & Hl & Hs' & Hw' & Hend); try done; [|by exists n|].
  - intros N t c v [k Hk] Hv _ Ht Hal. apply (fi_mine _ _ _ Ht) in Hk as [Hk Hk'].
    destruct c; cbn in Hal; unfold outside in Hal; try lia; exists v, tt; eexists;
      (split; [done|split; [done|]]); [left; by eexists..|by right].
  - exists x'. destruct Hend as [[Hd Ht]|[[k Hk] [a ->]]].
    + split_and!; [done|done|by rewrite Hl, length_insert|by intros i k; rewrite Hd|]. rewrite Hl.
      intros [(<- & -> & _)|[_ H0]]%list_lookup_insert_Some; [|done]. cbn in Hw'; destruct Hw' as (_ & [Hro _] & Hlast).
      destruct (fo_last _ _ (fi_run _ _ _ Hs' Hro)) as [Hlast' _]; [right; lia|congruence].
    + apply (fi_mine _ _ _ Hs') in Hk as [Hk Hk']. destruct Hw' as [[?|?] _]; lia.
Qed.

(** [run] can end. *)
Definition run_over (s : vstate) (v : ptyViewer) : Prop := fits 0 s v /\ (7 <= s_stage s)%nat.
Lemma run_over_facts s v : run_over s v -> terminateOnce v = Done /\ (0 < finishedCloses v)%nat.
Proof.
  intros [Hs Hst]. assert (Hr : s_role s = RoleRun) by (by apply (fi_role _ _ _ Hs)).
  pose proof (fi_run _ _ _ Hs Hr) as Hf. split; [apply (fi_done _ _ _ Hs), (fo_term _ _ Hf); lia|].
  rewrite (fo_finished _ _ Hf). unfold from. rewrite (proj2 (Nat.leb_le _ _) Hst). cbn. lia.
Qed.

Definition ended (m : prog pcall panswer outcome) : Prop := exists a, m = Ret a /\ a <> StillReading.

Lemma run_ends x : vpooled x -> (forall i n, terminateOnce (p_shared x) <> Running i n) ->
  p_all x !! 0%nat <> Some (Ret StillReading) ->
  exists x' m s, rtc viewer_step x x' /\ vpooled x' /\ length (p_all x') = length (p_all x) /\
    p_all x' !! 0%nat = Some m /\ ended m /\ run_over s (p_shared x').
Proof.
  intros Hx Hout Hreading. destruct (lookup_lt_is_Some_2 _ _ (po_first _ _ _ _ _ _ _ Hx)) as [m Hm].
  destruct (po_all _ _ _ _ _ _ _ Hx 0%nat m Hm) as (s & Hs & Hw).
  assert (Hrole : forall s v, fits 0 s v -> s_role s = RoleRun) by (intros s' v Hs'; by apply (fi_role _ _ _ Hs')).
  assert (Hends : forall a s v, a <> StillReading -> fits 0 s v -> vends a s -> run_over s v).
  { intros a s' v Ha Hs' [_ Ho]. split; [done|]. apply Hrole in Hs'.
    destruct a; try done; try congruence; destruct Ho as [[? Hst] _]; [lia|congruence]. }
  destruct m as [a|c k].
  { exists x, (Ret a), s. assert (a <> StillReading) by congruence. split_and!; try done; [by exists a|by eapply Hends]. }
  destruct (can_call _ 0 s c _ (po_inv _ _ _ _ _ _ _ Hx) Hs (proj1 Hw)) as (v1 & r & v2 & He & Hc & Hclear & Hlast).
  { by intros i n ?%Hout. }
  { intros ->. destruct Hw as [(_ & Hr' & _) _]. apply Hrole in Hs. congruence. }
  destruct (pool_can_call vallowed vnext vsees vcalls around called sane fits vends around_keeps vcall_keeps called_fits
    x 0 c k s v1 r v2 Hx Hm Hs Hw He Hc) as (Hr1 & Hx1 & Hs1 & Hw1).
  destruct (advance 0%nat (fun s v => clear_for 0 v /\ s_last s = true) (fun _ _ => False)) with
    (m := k r) (s := vnext s (ev c r)) (x := {| p_shared := v2; p_all := <[0%nat := k r]> (p_all x) |})
    as (x' & m' & s' & Hr & Hx' & Hl & Hs' & Hw' & [[]|[[_ Hlast'] [a ->]]]); try done.
  - intros N t c' v [Hcl _] Hv _ Ht Hal. destruct (can_call N 0 t c' v) as (w1 & r' & w2 & H1 & H2 & H3 & H4); try done.
    { intros ->. destruct Hal as (_ & Hr' & _). apply Hrole in Ht. congruence. }
    exists w1, r', w2. split_and!; try done. left. split; [done|]. by apply H4, (Hrole t v).
  - cbn. by rewrite list_lookup_insert_eq by (by eapply lookup_lt_Some).
  - split; [done|]. by apply Hlast, (Hrole s _ Hs).
  - exists x', (Ret a), s'. assert (Ha : a <> StillReading) by (intros ->; destruct Hw' as [_ [_ Hf]]; congruence).
    split_and!; [by etrans|done|by rewrite Hl; cbn; rewrite !length_insert| |by exists a|by eapply Hends].
    rewrite Hl. cbn. rewrite list_insert_insert_eq. apply list_lookup_insert_eq. by eapply lookup_lt_Some.
Qed.

(** When [run] is over, the others can end one after the other. *)
Lemma others_end s n : forall x, vpooled x -> run_over s (p_shared x) -> (forall m, p_all x !! 0%nat = Some m -> ended m) ->
  (n <= length (p_all x))%nat ->
  exists x', rtc viewer_step x x' /\ vpooled x' /\ run_over s (p_shared x') /\ length (p_all x') = length (p_all x) /\
    forall i m, ((i < n)%nat \/ i = 0%nat) -> p_all x' !! i = Some m -> ended m.
Proof.
  induction n as [|n IH]; intros x Hx Ho H0 Hn.
  { exists x. split_and!; try done. intros i m [?| ->]; [lia|by apply H0]. }
  destruct (IH x Hx Ho H0) as (x1 & Hr1 & Hx1 & Ho1 & Hl1 & He1); [lia|].
  destruct (decide (n = 0%nat)) as [->|Hne].
  { exists x1. split_and!; try done. intros i m Hi. apply He1. right. lia. }
  destruct (lookup_lt_is_Some_2 (p_all x1) n) as [m Hm]; [lia|].
  destruct (po_all _ _ _ _ _ _ _ Hx1 n m Hm) as (t & Ht & Hw).
  destruct (advance n (fun _ v => run_over s v) (fun _ _ => False)) with (m := m) (s := t) (x := x1)
    as (x2 & m2 & t2 & Hr2 & Hx2 & Hl2 & Ht2 & Hw2 & [[]|[Ho2 [a ->]]]); try done.
  - intros N u c v Hov Hv Hlt Hu Hal. destruct (run_over_facts s v Hov) as [Hd Hf].
    destruct (can_call N n u c v) as (w1 & r & w2 & H1 & H2 & _); try done; [intros i k; congruence|].
    destruct (rtc_around_keeps N v w1 Hv H1) as [Hv1 Hkeep].
    exists w1, r, w2. split_and!; try done. left. destruct Hov as [Hov Hst]. split; [|done].
    destruct (vcall_keeps N n u c r w1 w2 Hv1 Hlt (Hkeep _ _ Hu) Hal H2) as (_ & _ & _ & Hj). by apply Hj, Hkeep.
  - exists x2. split_and!; [by etrans|done|done|by rewrite Hl2, length_insert|].
    rewrite Hl2. intros i m' Hi [(<- & <- & _)|[Hni Hm']]%list_lookup_insert_Some; [|apply (He1 i); [lia|done]].
    exists a. split; [done|]. intros ->. destruct Hw2 as (_ & [Hro _] & _). by apply (fi_role _ _ _ Ht2) in Hro.
Qed.

(** ** The theorem *)

(** What is true of a viewer whose [run] has ended with [result]. *)
Record over (result : option error) (v : ptyViewer) : Prop := {
  ov_result : v_result v = result;
  ov_sent : v_sent v = [result] /\ doneCloses v = 1%nat /\ finishedCloses v = 1%nat;
  ov_process : closes v = 1%nat /\ kills v = 1%nat /\ waits v = 1%nat;
  ov_output : handed v = received v;
  ov_report : exists releaseErr, released v = [releaseErr] /\
    (result = None -> trouble v = false /\ releaseErr = None) /\
    (trouble v = false -> releaseErr = None -> askedToEnd v = true ->
       (forall e, exited v = Some (Some e) -> errors_as_exit e = true) -> result = None)
}.

Lemma run_over_over N s v : sane N v -> run_over s v -> over (s_value s) v.
Proof.
  intros Hv [Hs Hst]. assert (Hr : s_role s = RoleRun) by (by apply (fi_role _ _ _ Hs)).
  destruct (fi_run _ _ _ Hs Hr) as [W1 W2 W3 W4 W5 W6 W7 W8 W9 W10 W11 W12].
  assert (Hfrom : forall n, (n <= 7)%nat -> from n (s_stage s) = true) by (intros n Hn; apply Nat.leb_le; lia).
  rewrite !Hfrom in * by lia. pose proof (sa_once _ _ Hv) as Ht.
  rewrite (fi_done _ _ _ Hs) in Ht by (apply W11; lia). destruct Ht as [_ _ T3 T4].
  destruct W12 as [E (out & status & Hout & Hnone & Hint & Hval)]; [lia|].
  destruct W8 as [_ Hp]; [left; lia|]. rewrite Hp, app_nil_r in W6.
  split; try done. exists (s_rel s). split; [done|]. rewrite W7, Hval. split.
  - intros Hn. apply errors_join_None in Hn. rewrite !Forall_cons in Hn. destruct Hn as (Ho & _ & Hrel & _). by apply Hout in Ho.
  - intros Htr Hrel Hasked Hexit. apply errors_join_None. rewrite !Forall_cons. split_and!; [by apply Hout| |done|by apply Forall_nil_2].
    rewrite (Hint (W10 ltac:(lia) Hasked)). destruct (s_status s) as [e|] eqn:Hse; [|done]. cbn. rewrite (Hexit e); [done|].
    exact (W9 ltac:(lia)).
Qed.

(** A goroutine that has returned a result saw the end of [run]. *)
Lemma result_over x s i result : vpooled x -> fits 0 s (p_shared x) ->
  p_all x !! i = Some (Ret (Closed result)) \/ p_all x !! i = Some (Ret (Ran result)) -> over result (p_shared x).
Proof.
  intros Hx Hs Hi. pose proof (po_inv _ _ _ _ _ _ _ Hx) as Hv.
  assert (Hr : s_role s = RoleRun) by (by apply (fi_role _ _ _ Hs)). pose proof (fi_run _ _ _ Hs Hr) as Hf.
  destruct Hi as [Hi|Hi]; destruct (po_all _ _ _ _ _ _ _ Hx i _ Hi) as (t & Ht & _ & [Hro Hst] & ->).
  - destruct (fi_close _ _ _ Ht Hro) as [Hfin Hval]; [lia|]. rewrite Hval by done.
    assert (Hlate : (7 <= s_stage s)%nat).
    { rewrite (fo_finished _ _ Hf) in Hfin. unfold from in Hfin. destruct (_ <=? _)%nat eqn:E; [by apply Nat.leb_le|cbn in Hfin; lia]. }
    destruct (fo_result _ _ Hf) as [-> _]; [lia|]. by eapply run_over_over.
  - apply (run_over_over (length (p_all x))); [done|]. split; [|lia]. by apply (fi_role _ _ _ Ht) in Hro as ->.
Qed.

(** C21: a viewer is ended once, by whoever comes first, and everybody learns
    how.  In every interleaving of [run], the goroutine that waits for the
    context and any calls of [Close] and [Write], however the terminal, the
    process and the context behave: the terminal is closed, the process killed
    and waited for, the pin released, a result sent on [done] and each channel
    closed at most once; what the output callback got is what was read, but
    for the last piece.  A [Close] that has returned reports what [run] stored
    and sent, and then all of this has happened; the result is no error only if
    no output failed and the pin was released without an error, and it is none
    then if the process had been told to end.  Nobody blocks for ever: unless
    the model's bound on reads was reached, all of them can end. *)
Theorem viewer_close_completes fuel x : reachable (started fuel) viewer_step x ->
  let v := p_shared x in
  (closes v <= 1 /\ kills v <= 1 /\ waits v <= 1 /\ length (released v) <= 1 /\ length (v_sent v) <= 1 /\
   doneCloses v <= 1 /\ finishedCloses v <= 1)%nat /\
  (exists rest, received v = handed v ++ rest /\ (length rest <= 1)%nat) /\
  (forall i result, p_all x !! i = Some (Ret (Closed result)) \/ p_all x !! i = Some (Ret (Ran result)) -> over result v) /\
  (p_all x !! 0%nat <> Some (Ret StillReading) ->
     exists x', rtc viewer_step x x' /\ length (p_all x') = length (p_all x) /\ Forall ended (p_all x')).
Proof.
  intros Hreach%reach_pooled. cbv zeta. destruct (lookup_lt_is_Some_2 _ _ (po_first _ _ _ _ _ _ _ Hreach)) as [m Hm].
  destruct (po_all _ _ _ _ _ _ _ Hreach 0%nat m Hm) as (s & Hs & _).
  assert (Hr : s_role s = RoleRun) by (by apply (fi_role _ _ _ Hs)). pose proof (fi_run _ _ _ Hs Hr) as [].
  pose proof (po_inv _ _ _ _ _ _ _ Hreach) as Hv. pose proof (sa_once _ _ Hv) as [_ _ T3 T4].
  assert (Hb : forall b, (b2n b <= 1)%nat) by (intros []; cbn; lia).
  split_and!.
  - by rewrite T3. - by rewrite T4. - by rewrite fo_waits0.
  - rewrite fo_released0. destruct (from 3 _); cbn; lia.
  - rewrite fo_sent0. destruct (from 5 _); cbn; lia.
  - by rewrite fo_closed0. - by rewrite fo_finished0.
  - eexists. split; [exact fo_received0|]. destruct (s_piece s); cbn; lia.
  - intros i result. by apply (result_over x s).
  - intros Hread. destruct (once_left x Hreach) as (x1 & Hr1 & Hx1 & Hl1 & Hout & Hback).
    destruct (run_ends x1 Hx1 Hout) as (x2 & m2 & s2 & Hr2 & Hx2 & Hl2 & Hm2 & He2 & Ho2); [by intros ?%Hback|].
    destruct (others_end s2 (length (p_all x2)) x2 Hx2 Ho2) as (x3 & Hr3 & _ & _ & Hl3 & He3); [|done|].
    { intros m3. rewrite Hm2. by intros [= <-]. }
    exists x3. split; [by etrans; [|etrans]|]. split; [congruence|]. apply Forall_lookup. intros i m3 Hi.
    apply (He3 i m3); [|done]. left. rewrite <- Hl3. by eapply lookup_lt_Some.
Qed.

(** ** A viewer that is closed while its terminal still writes *)

Lemma goes_on fuel x i c k (r : panswer c) v : reachable (started fuel) viewer_step x ->
  p_all x !! i = Some (Do c k) -> vcalls i c r (p_shared x) v ->
  reachable (started fuel) viewer_step {| p_shared := v; p_all := <[i := k r]> (p_all x) |}.
Proof. intros Hx Hi Hc. eapply reachable_step; [exact Hx|]. by eapply ps_call. Qed.

Lemma meanwhile fuel x v : reachable (started fuel) viewer_step x -> around (p_shared x) v ->
  reachable (started fuel) viewer_step {| p_shared := v; p_all := p_all x |}.
Proof. intros Hx Ha. eapply reachable_step; [exact Hx|]. by apply ps_env. Qed.

(** The goroutine [i] calls [c] and is answered [r]. *)
Tactic Notation "goes" constr(i) constr(c) constr(r) hyp(H) :=
  eapply (goes_on _ _ i c _ r) in H; [|reflexivity|cbn; repeat (split || reflexivity || done || lia || (by exists (ESentinel OsErrClosed)))]; cbn in H.

Definition killed_status : option error := Some (EExit !"signal: killed").
Definition last_words : pty_read := {| pr_data := !"bye"; pr_err := None |}.

Lemma closed_viewer : exists x, reachable (started 2) viewer_step x /\
  p_all x !! 2%nat = Some (Ret (Closed None)) /\
  received (p_shared x) = [!"bye"] /\ exited (p_shared x) = Some killed_status.
Proof.
  assert (H : reachable (started 2) viewer_step {| p_shared := new_viewer; p_all := [run 2; watch] |}) by (by apply reachable_init).
  pose proof (reachable_step _ _ _ _ H (ps_spawn vcalls around called _ Close called_Close)) as H1. clear H. cbn in H1.
  goes 0%nat PRead last_words H1. goes 2%nat POnce true H1. goes 2%nat PStoreClosing tt H1.
  goes 0%nat (POutput !"bye") (None : option error) H1. goes 2%nat PClosePTY tt H1. goes 2%nat PKill tt H1.
  goes 2%nat POnceDone tt H1. goes 0%nat PRead closed_read H1.
  eapply meanwhile in H1; [|apply (ar_exit _ killed_status); reflexivity]. cbn in H1.
  goes 0%nat PWait killed_status H1. goes 0%nat PIntentional true H1. goes 0%nat POnce false H1.
  goes 0%nat PRelease (None : option error) H1. goes 0%nat (PResult None) tt H1. goes 0%nat (PSend None) tt H1.
  goes 0%nat PCloseDone tt H1. goes 0%nat PFinish tt H1. goes 2%nat PFinished tt H1. goes 2%nat PLoad (None : option error) H1.
  eexists. split; [exact H1|]. cbn. done.
Qed.

Lemma viewer_close_completes_witness : exists x, reachable (started 2) viewer_step x /\
  p_all x !! 2%nat = Some (Ret (Closed None)) /\ over None (p_shared x) /\ handed (p_shared x) = [!"bye"].
Proof.
  destruct closed_viewer as (x & Hx & Hclose & Hread & _). exists x.
  destruct (viewer_close_completes 2 x Hx) as (_ & _ & Hover & _).
  pose proof (Hover 2%nat None (or_introl Hclose)) as Ho. split_and!; [done|done|done|]. by rewrite (ov_output _ _ Ho).
Defined.
