(* ===== verification/MirrorServer.v ===== *)
(** * The mirror's local server (internal/mirror/server.go)

    One handler runs for every web socket request, concurrently with the others
    and with the manager's calls; each section under a lock and each operation
    of a channel is one step of [server_step].  What a handler does outside the
    program (the upgrade, the encrypted handshake, the handler's [Connected],
    the connection's life) is answered by the step's [ws_answer].

    [issued], [hosts], [accepted] and [emitted] record what has happened; the
    program does not look at them. *)

From S2P Require Import Prelude GoString GoUnicode GoConv GoErrors GoPath MirrorProtocol MirrorDiagnostics.
Open Scope Z_scope.

(** ** Requests and assets *)

Definition remoteDiagnosticQueueSize : nat := 8.
Definition remoteDiagnosticInterval : Z := 60000000000.      (* a minute *)

Definition requiredMirrorAsset (name : bytes) : bool :=
  name ∈b [!"assets/index.html"; !"assets/wrap-mirror.css"; !"assets/wrap-mirror-bootstrap.js";
           !"assets/wrap-mirror.js"; !"assets/wrap-mirror-viewport.js"; !"assets/third_party/xterm/xterm.mjs";
           !"assets/third_party/xterm/xterm.css"; !"assets/third_party/xterm/addon-fit.mjs";
           !"assets/third_party/xterm/addon-web-links.mjs"].

(** [path.Ext]: the suffix from the last dot of the last element. *)
Fixpoint ext_rev (suffix s : bytes) : bytes :=
  match s with
  | [] => []
  | c :: s => if Byte.eqb c slash then [] else if Byte.eqb c "."%byte then c :: suffix else ext_rev (c :: suffix) s
  end.
Definition path_ext (path : bytes) : bytes := ext_rev [] (rev path).

Definition assetContentType (name : bytes) : bytes :=
  let ext := path_ext name in
  if ext ==b !".html" then !"text/html; charset=utf-8"
  else if ext ==b !".css" then !"text/css; charset=utf-8"
  else if (ext ==b !".js") || (ext ==b !".mjs") then !"text/javascript; charset=utf-8"
  else [].

Definition securityHeaders : list (bytes * bytes) :=
  [(!"Cache-Control", !"no-store");
   (!"Content-Security-Policy",
    !"default-src 'none'; script-src 'self'; style-src 'self' 'unsafe-inline'; connect-src 'self'; " ++
    !"img-src 'self'; font-src 'self'; object-src 'none'; base-uri 'none'; " ++
    !"frame-ancestors 'none'; form-action 'none'");
   (!"Permissions-Policy", !"accelerometer=(), camera=(), geolocation=(), gyroscope=(), microphone=(), payment=(), usb=()");
   (!"Referrer-Policy", !"no-referrer");
   (!"Strict-Transport-Security", !"max-age=31536000; includeSubDomains");
   (!"X-Content-Type-Options", !"nosniff");
   (!"X-Frame-Options", !"DENY")].

(** What a request gets: an answer with its headers, or the web socket handler.
    [RsMissing] is a 404 for an asset that should be there. *)
Inductive response :=
| RsAnswer (status : Z) (headers : list (bytes * bytes)) (body : bytes)
| RsMissing (headers : list (bytes * bytes)) (name : bytes)
| RsWebSocket (headers : list (bytes * bytes)).

Section Serving.
(** The embedded file system. *)
Variable asset : bytes -> option bytes.

Definition not_found (headers : list (bytes * bytes)) : response := RsAnswer 404 headers !"404 page not found".

Definition serveAsset (headers : list (bytes * bytes)) (name contentType : bytes) : response :=
  match asset name with
  | None => RsMissing headers name
  | Some data => RsAnswer 200 (headers ++ [(!"Content-Type", contentType)]) data
  end.

Definition ServeHTTP (method path : bytes) : response :=
  let headers := securityHeaders in
  if negb (method ==b !"GET")
  then RsAnswer 405 (headers ++ [(!"Allow", !"GET")]) !"method not allowed"
  else if path ==b !"/" then serveAsset headers !"assets/index.html" !"text/html; charset=utf-8"
  else if path ==b !"/ws" then RsWebSocket headers
  else if has_prefix !"/assets/" path then
    let name := path_clean (trim_prefix !"/" path) in
    if (name ==b !"assets") || has_suffix !"/" path then not_found headers
    else let contentType := assetContentType name in
         if contentType ==b [] then not_found headers
         else serveAsset headers name contentType
  else not_found headers.
End Serving.

(** ** The server's state *)

Record LocalServer := {
  s_secret : bytes; s_publicHost : bytes;
  secretVersion : Z;                    (* a uint64 *)
  connections : gmap nat Z;             (* of each registered client, the version it has *)
  handshakes : Z; s_clients : Z;        (* tokens in the two channels *)
  closedNow : gset nat;                 (* the clients [closeNow] was called on *)
  remoteDiagnostics : list DiagnosticRecord;
  remoteDiagnosticLast : gmap bytes Z;
  remoteStopped : bool;
  issued : list bytes; hosts : list bytes;           (* newest first *)
  accepted : list (bytes * Z);                       (* keys and times of accepted records, newest first *)
  emitted : list DiagnosticRecord
}.
#[export] Instance eta_server : Eta LocalServer := fun s =>
  {| s_secret := s_secret s; s_publicHost := s_publicHost s; secretVersion := secretVersion s;
     connections := connections s; handshakes := handshakes s; s_clients := s_clients s; closedNow := closedNow s;
     remoteDiagnostics := remoteDiagnostics s; remoteDiagnosticLast := remoteDiagnosticLast s;
     remoteStopped := remoteStopped s; issued := issued s; hosts := hosts s; accepted := accepted s;
     emitted := emitted s |}.

Definition StartLocalServer (secret publicHost : bytes) : LocalServer :=
  {| s_secret := secret; s_publicHost := publicHost; secretVersion := 1; connections := ∅; handshakes := 0;
     s_clients := 0; closedNow := ∅; remoteDiagnostics := []; remoteDiagnosticLast := ∅; remoteStopped := false;
     issued := [secret]; hosts := [publicHost]; accepted := []; emitted := [] |}.

Definition recordRemoteDiagnostic (has_sink : bool) (now : Z) (key : bytes) (r : DiagnosticRecord) (s : LocalServer)
    : LocalServer :=
  if negb has_sink then s else
  if remoteStopped s then s else
  if match remoteDiagnosticLast s !! key with Some last => now - last <? remoteDiagnosticInterval | None => false end
  then s else
  if (length (remoteDiagnostics s) <? remoteDiagnosticQueueSize)%nat
  then s <| remoteDiagnostics := remoteDiagnostics s ++ [r] |>
         <| remoteDiagnosticLast := <[key := now]> (remoteDiagnosticLast s) |>
         <| accepted := (key, now) :: accepted s |>
  else s.

Definition recordHandshakeRejection (has_sink : bool) (now : Z) (code : bytes) (s : LocalServer) : LocalServer :=
  recordRemoteDiagnostic has_sink now (!"handshake:" ++ code)
    {| Level := !"warn"; Component := !"handshake"; DEvent := !"rejected"; DCode := code; DPath := []; DGeometry := None |} s.

Definition recordMissingAsset (has_sink : bool) (now : Z) (name : bytes) (s : LocalServer) : LocalServer :=
  if negb (requiredMirrorAsset name) then s else
  recordRemoteDiagnostic has_sink now (!"asset:" ++ name)
    {| Level := !"error"; Component := !"server"; DEvent := !"asset_missing"; DCode := !"client_asset_unavailable";
       DPath := name; DGeometry := None |} s.

Definition SetPublicHost (host : bytes) (s : LocalServer) : LocalServer :=
  s <| s_publicHost := host |> <| hosts := host :: hosts s |>.

(** The section of [SetSecret]; the clients it returns are closed afterwards. *)
Definition SetSecret (secret : bytes) (s : LocalServer) : list nat * LocalServer :=
  (map fst (map_to_list (connections s)),
   s <| s_secret := secret |> <| secretVersion := (secretVersion s + 1) mod 2 ^ 64 |>
     <| issued := secret :: issued s |>).

(** ** A web socket handler *)

(** Where [handleWebSocket] is.  A credential is the secret and its version as
    they were read. *)
Record credential := { cr_secret : bytes; cr_version : Z }.

Inductive phase :=
| Arrived
| Holding                              (* a place among the handshakes is held *)
| Upgrading (c : credential) | Authenticating (c : credential)
| ReturningHandshake
| Authenticated (c : credential)       (* the place has been given back *)
| GivenPlace (c : credential)            (* a place among the clients is held *)
| Registered (c : credential)          (* in [connections]; [Connected] is called next *)
| Refused (c : credential)
| Serving (c : credential)             (* [client.run] *)
| Unregister (c : credential)
| ReturningClient
| Finished
| Recording (code : bytes) (next : phase).

(** A handler: the request's origins, whether [Connected] and [Disconnected]
    were called, and where it is. *)
Record ws_handler := { origins : list bytes; wasConnected : bool; wasDisconnected : bool; at_ : phase }.
#[export] Instance eta_handler : Eta ws_handler := fun h =>
  {| origins := origins h; wasConnected := wasConnected h; wasDisconnected := wasDisconnected h; at_ := at_ h |}.

(** Whether the outside call succeeds, and the time. *)
Record ws_answer := { wa_ok : bool; wa_now : Z }.

Definition close_client (i : nat) (s : LocalServer) : LocalServer := s <| closedNow := {[ i ]} ∪ closedNow s |>.

(** The next step of handler [i]. *)
Definition handleWebSocket (has_sink : bool) (i : nat) (a : ws_answer) (h : ws_handler) (s : LocalServer)
    : ws_handler * LocalServer :=
  let go p := h <| at_ := p |> in
  match at_ h with
  | Arrived =>
      if handshakes s <? MaxHandshakes then (go Holding, s <| handshakes := handshakes s + 1 |>)
      else (go (Recording !"server_busy" Finished), s)
  | Holding =>
      if s_publicHost s ==b [] then (go (Recording !"server_starting" ReturningHandshake), s)
      else if negb (origins h ==b [!"https://" ++ s_publicHost s])
      then (go (Recording !"origin_rejected" ReturningHandshake), s)
      else (go (Upgrading {| cr_secret := s_secret s; cr_version := secretVersion s |}), s)
  | Upgrading c =>
      if wa_ok a then (go (Authenticating c), s) else (go (Recording !"upgrade_failed" ReturningHandshake), s)
  | Authenticating c =>      (* [authenticateClient], then the place is given back *)
      (go (if wa_ok a then Authenticated c else Recording !"authentication_failed" Finished),
       s <| handshakes := handshakes s - 1 |>)
  | ReturningHandshake => (go Finished, s <| handshakes := handshakes s - 1 |>)
  | Authenticated c =>
      if s_clients s <? MaxClients then (go (GivenPlace c), s <| s_clients := s_clients s + 1 |>)
      else (go (Recording !"client_capacity" Finished), s)
  | GivenPlace c =>
      if negb (cr_version c =? secretVersion s) then (go (Recording !"credential_expired" ReturningClient), s)
      else (go (Registered c), s <| connections := <[i := cr_version c]> (connections s) |>)
  | Registered c =>
      ((if wa_ok a then go (Serving c) else go (Refused c)) <| wasConnected := true |>, s)
  | Refused c =>
      ((go (Recording !"automatic_target_unavailable" (Unregister c))) <| wasDisconnected := true |>, close_client i s)
  | Serving c =>             (* the connection ends: [closeNow], then [Disconnected] *)
      ((go (Unregister c)) <| wasDisconnected := true |>, close_client i s)
  | Unregister c => (go ReturningClient, s <| connections := delete i (connections s) |>)
  | ReturningClient => (go Finished, s <| s_clients := s_clients s - 1 |>)
  | Finished => (h, s)
  | Recording code next => (go next, recordHandshakeRejection has_sink (wa_now a) code s)
  end.

(** ** All handlers and calls *)

Record server_world := {
  srv : LocalServer;
  handlers : list ws_handler;
  setters : list (list nat)            (* running [SetSecret]s: the clients still to be closed *)
}.

Section Steps.
Variable has_sink : bool.

Inductive server_step : server_world -> server_world -> Prop :=
| ss_request w os :
    server_step w {| srv := srv w;
      handlers := handlers w ++ [{| origins := os; wasConnected := false; wasDisconnected := false; at_ := Arrived |}];
      setters := setters w |}
| ss_handler w i h a : handlers w !! i = Some h ->
    server_step w (let '(h', s') := handleWebSocket has_sink i a h (srv w) in
      {| srv := s'; handlers := <[i := h']> (handlers w); setters := setters w |})
| ss_host w host :
    server_step w {| srv := SetPublicHost host (srv w); handlers := handlers w; setters := setters w |}
| ss_secret w secret :
    server_step w (let '(cs, s') := SetSecret secret (srv w) in
      {| srv := s'; handlers := handlers w; setters := setters w ++ [cs] |})
| ss_close w l1 c cs l2 : setters w = l1 ++ (c :: cs) :: l2 ->     (* the loop after the section *)
    server_step w {| srv := close_client c (srv w); handlers := handlers w; setters := l1 ++ cs :: l2 |}
| ss_missing w now name :
    server_step w {| srv := recordMissingAsset has_sink now name (srv w); handlers := handlers w; setters := setters w |}
| ss_emit w r rest : remoteDiagnostics (srv w) = r :: rest ->      (* [runRemoteDiagnostics] *)
    server_step w {| srv := (srv w) <| remoteDiagnostics := rest |> <| emitted := emitted (srv w) ++ [r] |>;
                     handlers := handlers w; setters := setters w |}
| ss_stop w :                                                      (* [stopRemoteDiagnostics] *)
    server_step w {| srv := (srv w) <| remoteStopped := true |>; handlers := handlers w; setters := setters w |}.
End Steps.

Definition started (secret publicHost : bytes) : server_world :=
  {| srv := StartLocalServer secret publicHost; handlers := []; setters := [] |}.
