(* ===== verification/MirrorServerProps.v ===== *)
(** * What the local server guarantees

    Invariants of [server_step]: the two channels count the handlers that hold
    a place; a registered client has the current secret or is being closed;
    only a request from the public host gets as far as the terminal; every
    client that was announced is taken back; and remote diagnostics are bounded
    in number and in rate. *)

From S2P Require Import Prelude GoString GoUnicode GoConv GoErrors GoPath MirrorProtocol MirrorDiagnostics MirrorServer.
Open Scope Z_scope.

(** ** Where a handler is *)

Fixpoint holds_handshake (p : phase) : bool :=
  match p with
  | Holding | Upgrading _ | Authenticating _ | ReturningHandshake => true
  | Recording _ next => holds_handshake next
  | _ => false
  end.
Fixpoint holds_client (p : phase) : bool :=
  match p with
  | GivenPlace _ | Registered _ | Refused _ | Serving _ | Unregister _ | ReturningClient => true
  | Recording _ next => holds_client next
  | _ => false
  end.
(** The credential a handler has read, and the one it is registered with. *)
Fixpoint credential_of (p : phase) : option credential :=
  match p with
  | Upgrading c | Authenticating c | Authenticated c | GivenPlace c | Registered c | Refused c | Serving c
  | Unregister c => Some c
  | Recording _ next => credential_of next
  | _ => None
  end.
Fixpoint registered (p : phase) : option credential :=
  match p with
  | Registered c | Refused c | Serving c | Unregister c => Some c
  | Recording _ next => registered next
  | _ => None
  end.
(** Whether [Connected] and [Disconnected] have been called. *)
Fixpoint calls_ok (p : phase) (con dis : bool) : Prop :=
  match p with
  | Refused _ | Serving _ => con = true /\ dis = false
  | Unregister _ => con = true /\ dis = true
  | ReturningClient | Finished => con = dis
  | Recording _ next => calls_ok next con dis
  | _ => con = false /\ dis = false
  end.

Lemma registered_credential p c : registered p = Some c -> credential_of p = Some c.
Proof. induction p; cbn; try done. Qed.

Section Server.
Variables (has_sink : bool) (secret0 host0 : bytes).
#[local] Abbreviation step := (server_step has_sink).
#[local] Abbreviation sreach := (reachable (fun w => w = started secret0 host0) step).

(** The parts of the server the diagnostics leave alone. *)
Record frame (s s' : LocalServer) : Prop := {
  fr_secret : s_secret s' = s_secret s; fr_host : s_publicHost s' = s_publicHost s;
  fr_version : secretVersion s' = secretVersion s; fr_connections : connections s' = connections s;
  fr_handshakes : handshakes s' = handshakes s; fr_clients : s_clients s' = s_clients s;
  fr_closed : closedNow s' = closedNow s; fr_issued : issued s' = issued s; fr_hosts : hosts s' = hosts s
}.

Lemma record_frame now key r s : frame s (recordRemoteDiagnostic has_sink now key r s).
Proof. unfold recordRemoteDiagnostic. repeat case_goal; by split. Qed.
Lemma rejection_frame now code s : frame s (recordHandshakeRejection has_sink now code s).
Proof. apply record_frame. Qed.
Lemma missing_frame now name s : frame s (recordMissingAsset has_sink now name s).
Proof. unfold recordMissingAsset. destruct (negb _); [by split|apply record_frame]. Qed.

(** ** Places *)

Record places_ok (w : server_world) : Prop := {
  pl_handshakes : handshakes (srv w) = count (fun h => holds_handshake (at_ h)) (handlers w);
  pl_clients : s_clients (srv w) = count (fun h => holds_client (at_ h)) (handlers w);
  pl_max : handshakes (srv w) <= MaxHandshakes /\ s_clients (srv w) <= MaxClients
}.

Lemma places_handler w i h a : places_ok w -> handlers w !! i = Some h ->
  places_ok (let '(h', s') := handleWebSocket has_sink i a h (srv w) in
    {| srv := s'; handlers := <[i := h']> (handlers w); setters := setters w |}).
Proof.
  intros [H1 H2 [H3 H4]] Hi.
  assert (forall h', count (fun h => holds_handshake (at_ h)) (<[i := h']> (handlers w)) =
    handshakes (srv w) - (if holds_handshake (at_ h) then 1 else 0) + (if holds_handshake (at_ h') then 1 else 0)) as C1.
  { intros h'. rewrite (count_insert _ _ i h h' Hi). lia. }
  assert (forall h', count (fun h => holds_client (at_ h)) (<[i := h']> (handlers w)) =
    s_clients (srv w) - (if holds_client (at_ h) then 1 else 0) + (if holds_client (at_ h') then 1 else 0)) as C2.
  { intros h'. rewrite (count_insert _ _ i h h' Hi). lia. }
  unfold handleWebSocket. destruct h as [os con dis p]. cbn [at_] in *.
  destruct p; cbv zeta; cbn [origins];
    try (repeat case_goal; guards; split; cbn [srv handlers]; rewrite ?C1, ?C2; cbn; try lia; done).
  destruct (rejection_frame (wa_now a) code (srv w)) as [E1 E2 E3 E4 E5 E6 E7 E8 E9].
  split; cbn [srv handlers]; rewrite ?C1, ?C2, ?E5, ?E6; cbn; lia.
Qed.

Lemma places_reachable w : sreach w -> places_ok w.
Proof.
  revert w. apply reachable_invariant; [intros ? ->; split; done|].
  intros w1 w2 _ Hw Hstep. destruct Hstep; try (destruct Hw as [H1 H2 H3]; by split).
  - destruct Hw as [H1 H2 H3]. split; cbn [srv handlers]; [rewrite count_snoc; cbn; lia..|done].
  - by apply places_handler.
  - destruct Hw as [H1 H2 H3]. destruct (missing_frame now name (srv w)) as [E1 E2 E3 E4 E5 E6 E7 E8 E9]. split; cbn [srv handlers]; rewrite ?E5, ?E6; done.
Qed.

(** ** Credentials *)

Definition uint64 (n : Z) : Z := n mod 2 ^ 64.

(** The credential was the current one after [k] secrets had been issued, and
    the request came from a public host. *)
Definition credible (w : server_world) (h : ws_handler) (c : credential) : Prop :=
  (exists k, 0 < k <= len (issued (srv w)) /\ cr_version c = uint64 k /\
     issued (srv w) !! Z.to_nat (len (issued (srv w)) - k) = Some (cr_secret c)) /\
  exists host, host ∈ hosts (srv w) /\ host <> [] /\ origins h = [!"https://" ++ host].

Record credentials_ok (w : server_world) : Prop := {
  cd_version : secretVersion (srv w) = uint64 (len (issued (srv w)));
  cd_secret : head (issued (srv w)) = Some (s_secret (srv w));
  cd_host : head (hosts (srv w)) = Some (s_publicHost (srv w));
  cd_handlers : forall i h c, handlers w !! i = Some h -> credential_of (at_ h) = Some c -> credible w h c;
  cd_connected : forall i h, handlers w !! i = Some h -> calls_ok (at_ h) (wasConnected h) (wasDisconnected h) /\
    (wasConnected h = true -> exists host, host ∈ hosts (srv w) /\ host <> [] /\ origins h = [!"https://" ++ host])
}.

Lemma head_lookup {A} (l : list A) : head l = l !! 0%nat.
Proof. by destruct l. Qed.

(** Credentials stay credible when secrets and hosts are added. *)
Lemma credible_more w w' h c :
  (exists newer, issued (srv w') = newer ++ issued (srv w)) -> (exists newer, hosts (srv w') = newer ++ hosts (srv w)) ->
  credible w h c -> credible w' h c.
Proof.
  intros [n1 E1] [n2 E2] [(k & Hk & Hv & Hs) (host & Hh & Hne & Ho)]. split.
  - exists k. rewrite E1, len_app. pose proof (len_nonneg n1). split_and!; [lia|lia|done|].
    rewrite lookup_app_r by (unfold len in *; lia). rewrite <- Hs. f_equal. unfold len. lia.
  - exists host. split_and!; [|done|done]. rewrite E2. apply elem_of_app. by right.
Qed.

(** What a handler's step leaves alone. *)
Lemma handler_frame i a h s : let '(h', s') := handleWebSocket has_sink i a h s in
  origins h' = origins h /\ s_secret s' = s_secret s /\ s_publicHost s' = s_publicHost s /\
  secretVersion s' = secretVersion s /\ issued s' = issued s /\ hosts s' = hosts s.
Proof.
  unfold handleWebSocket. destruct h as [os con dis p]. cbn [at_].
  destruct p; cbv zeta; try (repeat case_goal; done).
  destruct (rejection_frame (wa_now a) code s). cbn [origins at_]. by split_and!.
Qed.

(** A handler that has a credential had it before, or has just passed the check
    of the origin. *)
Lemma handler_credential i a h s c : credential_of (at_ (handleWebSocket has_sink i a h s).1) = Some c ->
  credential_of (at_ h) = Some c \/
  c = {| cr_secret := s_secret s; cr_version := secretVersion s |} /\ s_publicHost s <> [] /\
  origins h = [!"https://" ++ s_publicHost s].
Proof.
  unfold handleWebSocket. destruct h as [os con dis p]. cbn [at_].
  destruct p; cbv zeta; cbn [origins]; repeat case_goal; guards; cbn; intros E; simplify_eq; auto.
Qed.

Lemma handler_calls i a h s : calls_ok (at_ h) (wasConnected h) (wasDisconnected h) ->
  let h' := (handleWebSocket has_sink i a h s).1 in
  calls_ok (at_ h') (wasConnected h') (wasDisconnected h') /\
  (wasConnected h' = true -> wasConnected h = true \/ is_Some (credential_of (at_ h))).
Proof.
  unfold handleWebSocket. destruct h as [os con dis p]. cbn [at_ wasConnected wasDisconnected].
  destruct p; cbv zeta; cbn [calls_ok]; intros Hc; repeat case_goal; cbn; try (by split; [|by left]);
    try (destruct Hc as [-> ->]; by split; [|by left]); destruct Hc; (split; [by split|right; by eexists]).
Qed.

Lemma credentials_handler w i h a : credentials_ok w -> handlers w !! i = Some h ->
  credentials_ok (let '(h', s') := handleWebSocket has_sink i a h (srv w) in
    {| srv := s'; handlers := <[i := h']> (handlers w); setters := setters w |}).
Proof.
  intros Hw Hi. pose proof (handler_frame i a h (srv w)) as Hf. pose proof (handler_credential i a h (srv w)) as Hcr.
  destruct (cd_connected _ Hw i h Hi) as [Hcalls Hcon].
  destruct (handler_calls i a h (srv w) Hcalls) as [Hcalls' Hcon'].
  destruct (handleWebSocket has_sink i a h (srv w)) as [h' s']. cbn [fst] in *.
  destruct Hf as (Ho & E1 & E2 & E3 & E4 & E5). destruct Hw as [H1 H2 H3 H4 H5].
  assert (forall h c, credible w h c -> origins h' = origins h ->
    credible {| srv := s'; handlers := <[i := h']> (handlers w); setters := setters w |} h' c) as Hsame.
  { intros h0 c (Hk & Hh) Ho'. unfold credible. cbn [srv]. rewrite E4, E5, Ho'. by split. }
  split; cbn [srv handlers]; rewrite ?E1, ?E2, ?E3, ?E4, ?E5; try done.
  - intros j hj c Hj Hc. apply list_lookup_insert_Some in Hj as [(-> & <- & _)|[_ Hj]].
    + destruct (Hcr c Hc) as [Hold|(-> & Hne & Hor)].
      * exact (Hsame h c (H4 _ h c Hi Hold) Ho).
      * split; cbn [srv cr_secret cr_version]; rewrite ?E4, ?E5.
        -- assert (0 < len (issued (srv w))).
           { destruct (issued (srv w)) as [|x more]; [done|]. rewrite len_cons. pose proof (len_nonneg more). lia. }
           exists (len (issued (srv w))). split_and!; [lia|lia|done|]. rewrite Z.sub_diag. by rewrite <- head_lookup.
        -- exists (s_publicHost (srv w)). split_and!; [|done|by rewrite Ho].
           destruct (hosts (srv w)); [done|]. injection H3 as ->. by left.
    + destruct (H4 j hj c Hj Hc) as [Hk Hh]. unfold credible. cbn [srv]. rewrite E4, E5. by split.
  - intros j hj Hj. apply list_lookup_insert_Some in Hj as [(-> & <- & _)|[_ Hj]]; [|by apply H5 in Hj].
    split; [done|]. rewrite Ho. intros Ht. destruct (Hcon' Ht) as [Ht'|[c Hc]]; [by apply Hcon|].
    destruct (H4 j h c Hi Hc) as [_ Hh]. exact Hh.
Qed.

Lemma credentials_reachable w : sreach w -> credentials_ok w.
Proof.
  revert w. apply reachable_invariant.
  { intros ? ->. split; try done; intros i h; by rewrite lookup_nil. }
  intros w1 w2 _ Hw Hstep. destruct Hstep; try (destruct Hw as [H1 H2 H3 H4 H5]; by split).
  - destruct Hw as [H1 H2 H3 H4 H5]. split; cbn [srv handlers]; try done.
    + intros i h c Hi Hc. apply lookup_snoc_Some in Hi as [[_ Hi]|[_ <-]]; [by eapply H4|done].
    + intros i h Hi. apply lookup_snoc_Some in Hi as [[_ Hi]|[_ <-]]; [by eapply H5|done].
  - by apply credentials_handler.
  - destruct Hw as [H1 H2 H3 H4 H5]. split; cbn; try done.
    + intros i h c Hi Hc. eapply (credible_more w); [by exists []|by exists [host]|by eapply H4].
    + intros i h Hi. destruct (H5 i h Hi) as [Hc Hcon]. split; [done|]. intros Ht.
      destruct (Hcon Ht) as (host' & Hin & ?). exists host'. split; [by right|done].
  - destruct Hw as [H1 H2 H3 H4 H5]. cbn [SetSecret]. split; cbn [srv handlers]; try done.
    + cbn. rewrite H1, len_cons. unfold uint64. rewrite Z.add_mod_idemp_l by lia. f_equal. lia.
    + intros i h c Hi Hc. eapply (credible_more w); [by exists [secret]|by exists []|by eapply H4].
  - destruct Hw as [H1 H2 H3 H4 H5]. destruct (missing_frame now name (srv w)) as [E1 E2 E3 E4 E5 E6 E7 E8 E9].
    split; cbn [srv handlers]; rewrite ?E1, ?E2, ?E3, ?E8, ?E9; try done.
    intros i h c Hi Hc. unfold credible. cbn [srv]. rewrite E8, E9. by apply (H4 i h).
Qed.

(** ** Registered clients *)

Definition current (w : server_world) : credential :=
  {| cr_secret := s_secret (srv w); cr_version := secretVersion (srv w) |}.

(** A client that is closed, or that a running [SetSecret] is about to close. *)
Definition cut_off (w : server_world) (i : nat) : Prop :=
  i ∈ closedNow (srv w) \/ exists cs, cs ∈ setters w /\ i ∈ cs.

Record clients_ok (w : server_world) : Prop := {
  cl_connections : forall i v, connections (srv w) !! i = Some v <->
    exists h c, handlers w !! i = Some h /\ registered (at_ h) = Some c /\ cr_version c = v;
  cl_current : len (issued (srv w)) < 2 ^ 64 -> forall i h c,
    handlers w !! i = Some h -> registered (at_ h) = Some c -> c = current w \/ cut_off w i
}.

(** With fewer than [2 ^ 64] secrets a version stands for one secret. *)
Lemma version_secret w h c : credentials_ok w -> len (issued (srv w)) < 2 ^ 64 ->
  credible w h c -> cr_version c = secretVersion (srv w) -> c = current w.
Proof.
  intros Hw Hlen [(k & Hk & Hv & Hs) _] E. rewrite (cd_version _ Hw), Hv in E. unfold uint64 in E.
  rewrite !Z.mod_small in E by lia. subst k. rewrite Z.sub_diag in Hs. cbn in Hs.
  rewrite <- head_lookup, (cd_secret _ Hw) in Hs. simplify_eq. unfold current.
  rewrite (cd_version _ Hw). destruct c. cbn in *. by subst.
Qed.

(** How a step of handler [i] changes who is registered. *)
Inductive registration (i : nat) (h h' : ws_handler) (s s' : LocalServer) : Prop :=
| rg_same : registered (at_ h') = registered (at_ h) -> connections s' = connections s -> registration i h h' s s'
| rg_new c : credential_of (at_ h) = Some c -> cr_version c = secretVersion s -> registered (at_ h') = Some c ->
    connections s' = <[i := cr_version c]> (connections s) -> registration i h h' s s'
| rg_gone : registered (at_ h') = None -> connections s' = delete i (connections s) -> registration i h h' s s'.

Lemma handler_registration i a h s : let '(h', s') := handleWebSocket has_sink i a h s in
  registration i h h' s s' /\ closedNow s ⊆ closedNow s'.
Proof.
  unfold handleWebSocket. destruct h as [os con dis p]. cbn [at_].
  destruct p; cbv zeta; cbn [origins]; repeat case_goal; guards; cbn [close_client closedNow connections];
    try (split; [by apply rg_same|done]); try (split; [by apply rg_gone|done]).
  - split; [by eapply rg_new|done].
  - split; [by apply rg_same|]. cbn. set_solver.
  - split; [by apply rg_same|]. cbn. set_solver.
  - destruct (rejection_frame (wa_now a) code s). split; [by apply rg_same|]. by rewrite fr_closed0.
Qed.

Lemma cut_off_more w w' i : closedNow (srv w) ⊆ closedNow (srv w') ->
  (forall cs, cs ∈ setters w -> i ∈ cs -> i ∈ closedNow (srv w') \/ exists cs', cs' ∈ setters w' /\ i ∈ cs') ->
  cut_off w i -> cut_off w' i.
Proof. intros Hc Hs [Hi|(cs & Hcs & Hi)]; [left; by apply Hc|by eapply Hs]. Qed.

Lemma clients_handler w i h a : credentials_ok w -> clients_ok w -> handlers w !! i = Some h ->
  clients_ok (let '(h', s') := handleWebSocket has_sink i a h (srv w) in
    {| srv := s'; handlers := <[i := h']> (handlers w); setters := setters w |}).
Proof.
  intros Hcr [Hc Hst] Hi. pose proof (handler_frame i a h (srv w)) as Hf.
  pose proof (handler_registration i a h (srv w)) as Hr. destruct (handleWebSocket has_sink i a h (srv w)) as [h' s'].
  destruct Hf as (_ & E1 & _ & E3 & E4 & _). destruct Hr as [Hr Hclosed].
  assert (<[i := h']> (handlers w) !! i = Some h') as Hi' by (apply list_lookup_insert_eq; by eapply lookup_lt_Some).
  split; cbn [srv handlers].
  - intros j v. destruct (decide (j = i)) as [->|Hne].
    + assert (connections s' !! i = Some v <-> exists c, registered (at_ h') = Some c /\ cr_version c = v) as ->.
      { destruct Hr as [Hreg ->|c _ _ Hreg ->|Hreg ->].
        - rewrite Hc, Hreg. split; [intros (h0 & c & ? & ? & ?); simplify_eq; by exists c|].
          intros (c & ? & ?). by exists h, c.
        - rewrite lookup_insert_eq, Hreg. split; [intros [= <-]; by exists c|by intros (? & [= ->] & ->)].
        - rewrite lookup_delete_eq, Hreg. split; [done|by intros (? & ? & _)]. }
      split; [intros (c & ? & ?); by exists h', c|]. intros (h0 & c & ? & ? & ?). simplify_eq. by exists c.
    + rewrite list_lookup_insert_ne by done. rewrite <- Hc.
      destruct Hr as [_ ->|c _ _ _ ->|_ ->]; rewrite ?lookup_insert_ne, ?lookup_delete_ne by done; done.
  - rewrite E4. intros Hlen j hj c Hj Hreg.
    assert (current {| srv := s'; handlers := <[i := h']> (handlers w); setters := setters w |} = current w) as ->
      by (unfold current; cbn; by rewrite E1, E3).
    assert (forall h0, handlers w !! j = Some h0 -> registered (at_ h0) = Some c -> c = current w \/
      cut_off {| srv := s'; handlers := <[i := h']> (handlers w); setters := setters w |} j) as Hold.
    { intros h0 Hj0 Hreg0. destruct (Hst Hlen j h0 c Hj0 Hreg0) as [?|Hcut]; [by left|right].
      apply (cut_off_more w); [done| |done]. intros cs Hcs Hin. right. by exists cs. }
    apply list_lookup_insert_Some in Hj as [(<- & <- & _)|[_ Hj]]; [|by apply (Hold hj)].
    destruct Hr as [Hreg' _|c' Hcred Hver Hreg' _|Hreg' _].
    + apply (Hold h); [done|congruence].
    + left. assert (c' = c) as -> by congruence. by apply (version_secret w h c Hcr Hlen (cd_handlers _ Hcr _ h c Hi Hcred)).
    + congruence.
Qed.

Lemma clients_reachable w : sreach w -> clients_ok w.
Proof.
  revert w. apply reachable_invariant.
  { intros ? ->. split; cbn; [|intros _ i h c; by rewrite lookup_nil].
    intros i v. rewrite lookup_empty. split; [done|]. intros (h & c & Hi & _). by rewrite lookup_nil in Hi. }
  intros w1 w2 Hreach Hw Hstep. pose proof (credentials_reachable _ Hreach) as Hcr.
  destruct Hstep; try (by apply clients_handler); destruct Hw as [Hc Hst]; try (by split).
  - split; cbn [srv handlers].
    + intros i v. rewrite Hc. split; intros (h & c & Hi & Hreg & Hv).
      * exists h, c. split_and!; [by apply lookup_app_l_Some|done|done].
      * apply lookup_snoc_Some in Hi as [[_ Hi]|[_ <-]]; [by exists h, c|done].
    + intros Hlen i h c Hi Hreg. apply lookup_snoc_Some in Hi as [[_ Hi]|[_ <-]]; [by apply (Hst Hlen i h c)|done].
  - cbn [SetSecret]. split; cbn [srv handlers]; [done|]. intros Hlen i h c Hi Hreg. right. right.
    exists (map fst (map_to_list (connections (srv w)))). cbn [setters]. split; [set_solver|].
    assert (connections (srv w) !! i = Some (cr_version c)) as Hi' by (apply Hc; by exists h, c).
    apply list_elem_of_In, in_map_iff. exists (i, cr_version c). split; [done|].
    apply list_elem_of_In. by apply elem_of_map_to_list.
  - split; cbn [srv handlers]; [done|]. intros Hlen i h k Hi Hreg.
    destruct (Hst Hlen i h k Hi Hreg) as [?|Hcut]; [by left|right].
    apply (cut_off_more w); cbn; [set_solver| |done]. intros cs' Hcs' Hin. rewrite H in Hcs'.
    apply elem_of_app in Hcs' as [Hcs'|Hcs'].
    + right. exists cs'. split; [set_solver|done].
    + apply elem_of_cons in Hcs' as [->|Hcs'].
      * apply elem_of_cons in Hin as [->|Hin]; [left; set_solver|]. right. exists cs. split; [set_solver|done].
      * right. exists cs'. split; [set_solver|done].
  - destruct (missing_frame now name (srv w)) as [E1 E2 E3 E4 E5 E6 E7 E8 E9].
    split; cbn [srv handlers]; rewrite ?E4, ?E8; [done|]. intros Hlen i h c Hi Hreg.
    unfold current, cut_off. cbn [srv setters]. rewrite E1, E3, E7. by apply (Hst Hlen i h c).
Qed.

(** When every handler has finished, everything has been given back. *)
Lemma finished_free w : sreach w -> Forall (fun h => at_ h = Finished) (handlers w) ->
  handshakes (srv w) = 0 /\ s_clients (srv w) = 0 /\ connections (srv w) = ∅.
Proof.
  intros Hw Hall. destruct (places_reachable w Hw) as [-> -> _]. destruct (clients_reachable w Hw) as [C1 _].
  assert (Hz : forall p, p Finished = false -> count (fun h => p (at_ h)) (handlers w) = 0).
  { intros p Hp. apply count_zero. eapply Forall_impl; [exact Hall|]. intros h Hh. cbn. by rewrite Hh. }
  split_and!; [by apply Hz..|]. apply map_empty. intros i. destruct (connections (srv w) !! i) as [v|] eqn:E; [|done].
  apply C1 in E as (h & c & Hi & Hreg & _). rewrite Forall_forall in Hall.
  rewrite (Hall h) in Hreg; [done|]. by eapply list_elem_of_lookup_2.
Qed.

(** ** Remote diagnostics *)

(** The latest time a key was accepted, in a list with the newest first. *)
Fixpoint latest (key : bytes) (l : list (bytes * Z)) : option Z :=
  match l with
  | [] => None
  | (k, t) :: l => if k ==b key then Some t else latest key l
  end.

(** Records of one key are a minute apart. *)
Fixpoint spaced (l : list (bytes * Z)) : Prop :=
  match l with
  | [] => True
  | (k, t) :: l => match latest k l with Some t' => remoteDiagnosticInterval <= t - t' | None => True end /\ spaced l
  end.

Record rate_ok (s : LocalServer) : Prop := {
  rt_queue : (length (remoteDiagnostics s) <= remoteDiagnosticQueueSize)%nat;
  rt_last : forall key, remoteDiagnosticLast s !! key = latest key (accepted s);
  rt_spaced : spaced (accepted s)
}.

Lemma rate_record now key r s : rate_ok s -> rate_ok (recordRemoteDiagnostic has_sink now key r s).
Proof.
  intros Hs. unfold recordRemoteDiagnostic. destruct (negb has_sink); [done|]. destruct (remoteStopped s); [done|].
  destruct (match remoteDiagnosticLast s !! key with Some last => _ | None => _ end) eqn:Hlast; [done|].
  destruct (Nat.ltb_spec (length (remoteDiagnostics s)) remoteDiagnosticQueueSize); [|done].
  destruct Hs as [H1 H2 H3]. split; cbn.
  - rewrite length_app. cbn. lia.
  - intros k. case_bool_decide as Hk; [subst; by rewrite lookup_insert_eq|]. by rewrite lookup_insert_ne.
  - split; [|done]. rewrite <- H2. destruct (remoteDiagnosticLast s !! key); [|done]. guards. lia.
Qed.

Lemma rate_handler i a h s : rate_ok s -> rate_ok (handleWebSocket has_sink i a h s).2.
Proof.
  intros Hs. unfold handleWebSocket. destruct h as [os con dis p]. cbn [at_].
  destruct p; cbv zeta; repeat case_goal; try done; try (destruct Hs; by split). by apply rate_record.
Qed.

Lemma rate_reachable w : sreach w -> rate_ok (srv w).
Proof.
  revert w. apply reachable_invariant; [intros ? ->; split; cbn; [lia|by intros k; rewrite lookup_empty|done]|].
  intros w1 w2 _ Hw Hstep. destruct Hstep; cbn [srv SetSecret]; try (destruct Hw; by split); try done.
  - pose proof (rate_handler i a h (srv w) Hw) as Hr. by destruct (handleWebSocket has_sink i a h (srv w)).
  - unfold recordMissingAsset. destruct (negb _); [done|by apply rate_record].
  - destruct Hw as [H1 H2 H3]. rewrite H in H1. split; cbn in *; [lia|done|done].
Qed.

(** C40: the server lets in only who may come, and only so many.  In every state
    that its concurrent handlers and the manager's calls reach: at most 16
    handshakes and 8 clients are under way, and the channels count exactly the
    handlers that hold a place, so that none is lost; a client is announced to
    the handler only when its request had one origin, that of a public host the
    server was given, and each announced client is taken back when its handler
    returns; a registered client proved the current secret, or it is closed, or
    the running [SetSecret] closes it next, so that when no [SetSecret] runs
    every open client has the current secret (fewer than [2 ^ 64] secrets
    assumed); and of each kind of remote diagnostic at most one a minute is
    accepted, at most eight waiting. *)
Theorem server_admits_only_current w : sreach w ->
  (handshakes (srv w) = count (fun h => holds_handshake (at_ h)) (handlers w) /\ handshakes (srv w) <= MaxHandshakes /\
   s_clients (srv w) = count (fun h => holds_client (at_ h)) (handlers w) /\ s_clients (srv w) <= MaxClients) /\
  (forall i h, handlers w !! i = Some h ->
     (wasConnected h = true -> exists host, host ∈ hosts (srv w) /\ host <> [] /\ origins h = [!"https://" ++ host]) /\
     (at_ h = Finished -> wasDisconnected h = wasConnected h)) /\
  (Forall (fun h => at_ h = Finished) (handlers w) ->
     handshakes (srv w) = 0 /\ s_clients (srv w) = 0 /\ connections (srv w) = ∅) /\
  (len (issued (srv w)) < 2 ^ 64 -> forall i v, connections (srv w) !! i = Some v ->
     (exists h, handlers w !! i = Some h /\ registered (at_ h) = Some (current w)) \/ cut_off w i) /\
  ((length (remoteDiagnostics (srv w)) <= remoteDiagnosticQueueSize)%nat /\ spaced (accepted (srv w))).
Proof.
  intros Hw. destruct (places_reachable w Hw) as [P1 P2 [P3 P4]]. pose proof (credentials_reachable w Hw) as Hcr.
  destruct (clients_reachable w Hw) as [C1 C2]. destruct (rate_reachable w Hw) as [R1 R2 R3]. split_and!; try done.
  - intros i h Hi. destruct (cd_connected _ Hcr i h Hi) as [Hcalls Hcon]. split; [done|].
    intros Hf. by rewrite Hf in Hcalls.
  - by apply finished_free.
  - intros Hlen i v Hv. apply C1 in Hv as (h & c & Hi & Hreg & _).
    destruct (C2 Hlen i h c Hi Hreg) as [->|?]; [left; by exists h|by right].
Qed.
End Server.

(** ** A rotation while a client is connected *)

Fixpoint run_handler (n i : nat) (a : ws_answer) (w : server_world) : server_world :=
  match n, handlers w !! i with
  | S n, Some h =>
      let '(h', s') := handleWebSocket true i a h (srv w) in
      run_handler n i a {| srv := s'; handlers := <[i := h']> (handlers w); setters := setters w |}
  | _, _ => w
  end.
Definition yes (now : Z) : ws_answer := {| wa_ok := true; wa_now := now |}.
Definition request (os : list bytes) (w : server_world) : server_world :=
  {| srv := srv w;
     handlers := handlers w ++ [{| origins := os; wasConnected := false; wasDisconnected := false; at_ := Arrived |}];
     setters := setters w |}.
Definition rotate (secret : bytes) (w : server_world) : server_world :=
  let '(cs, s') := SetSecret secret (srv w) in {| srv := s'; handlers := handlers w; setters := setters w ++ [cs] |}.

Abbreviation demo_reach := (reachable (fun w => w = started !"s1" !"a.example") (server_step true)).

Lemma run_handler_reach n i a : forall w, demo_reach w -> demo_reach (run_handler n i a w).
Proof.
  induction n as [|n IH]; intros w Hw; [done|]. cbn [run_handler]. destruct (handlers w !! i) as [h|] eqn:Hi; [|done].
  pose proof (ss_handler true w i h a Hi) as Hs. destruct (handleWebSocket true i a h (srv w)) as [h' s'].
  apply IH. eapply reachable_step; [exact Hw|exact Hs].
Qed.
Lemma request_reach os w : demo_reach w -> demo_reach (request os w).
Proof. intros Hw. eapply reachable_step; [exact Hw|]. apply ss_request. Qed.
Lemma rotate_reach secret w : demo_reach w -> demo_reach (rotate secret w).
Proof. intros Hw. eapply reachable_step; [exact Hw|]. apply (ss_secret true w secret). Qed.

(** One client is served; another has proved the old secret but is not yet
    registered when the secret is rotated; a third has a foreign origin. *)
Definition rotated_world : server_world :=
  run_handler 9 2 (yes 5) (request [!"https://evil.example"]
    (run_handler 9 1 (yes 4) (rotate !"s2"
      (run_handler 5 1 (yes 3) (request [!"https://a.example"]
        (run_handler 7 0 (yes 2) (request [!"https://a.example"] (started !"s1" !"a.example")))))))).

Lemma rotated_world_reach : demo_reach rotated_world.
Proof.
  apply run_handler_reach, request_reach, run_handler_reach, rotate_reach, run_handler_reach, request_reach,
    run_handler_reach, request_reach. by apply reachable_init.
Qed.

Lemma server_admits_only_current_witness : cut_off rotated_world 0.
Proof.
  destruct (proj1 (proj2 (proj2 (proj2 (server_admits_only_current true !"s1" !"a.example" rotated_world
    rotated_world_reach)))) ltac:(vm_compute; reflexivity) 0%nat 1 ltac:(vm_compute; reflexivity)) as [(h & Hi & Hr)|Hc];
    [exfalso; vm_compute in Hi; injection Hi as <-; vm_compute in Hr; discriminate Hr|exact Hc].
Defined.

(** The second client is turned away with the old credential, the third at once. *)
Example rejections : map fst (accepted (srv rotated_world)) =
  [!"handshake:origin_rejected"; !"handshake:credential_expired"] /\
  map wasConnected (handlers rotated_world) = [true; false; false] /\ setters rotated_world = [[0%nat]].
Proof. vm_compute. auto. Qed.

(** Only embedded assets of a known type are served, and only for GET. *)
Definition demo_asset (name : bytes) : option bytes :=
  if name ==b !"assets/wrap-mirror.js" then Some !"js" else None.
Definition status (r : response) : Z :=
  match r with RsAnswer code _ _ => code | RsMissing _ _ => 404 | RsWebSocket _ => 101 end.
Example routes :
  map status (map (ServeHTTP demo_asset !"GET")
    [!"/assets/wrap-mirror.js"; !"/assets/x/../wrap-mirror.js"; !"/assets/../wrap-mirror.js"; !"/assets/"; !"/ws"; !"/x"]) =
  [200; 200; 404; 404; 101; 404] /\ status (ServeHTTP demo_asset !"POST" !"/") = 405.
Proof. vm_compute. auto. Qed.
