(* ===== verification/MirrorServerClose.v ===== *)
(** * Closing the local server (internal/mirror/server.go)

    [Close] is a program that runs beside the handlers, the manager's calls,
    the goroutine that hands on remote diagnostics ([runRemoteDiagnostics]) and
    other calls of [Close]; [StartLocalServer] itself starts one when its
    context ends. *)

From S2P Require Import Prelude Program GoString GoErrors MirrorProtocol MirrorDiagnostics MirrorServer MirrorServerProps.
Open Scope Z_scope.

(** ** The model *)

(** Where [runRemoteDiagnostics] is. *)
Inductive collector := Collecting | Draining | Drained.

Record closing := {
  cw : server_world;
  cancelled : bool;            (* the server's context *)
  shutDown : bool;             (* some [http.Server.Shutdown] has returned without an error *)
  handlersDone : bool;         (* the channel of the closer that is modelled *)
  collects : collector;
  stops : nat                  (* how often "stopped" was recorded, under [stopOnce] *)
}.
#[export] Instance eta_closing : Eta closing := fun w =>
  {| cw := cw w; cancelled := cancelled w; shutDown := shutDown w; handlersDone := handlersDone w;
     collects := collects w; stops := stops w |}.

Definition all_finished (w : server_world) : Prop := Forall (fun h => at_ h = Finished) (handlers w).
Definition stop_remote (w : server_world) : server_world :=
  {| srv := (srv w) <| remoteStopped := true |>; handlers := handlers w; setters := setters w |}.

Inductive kcall :=
| KCancel
| KShutdown                    (* [s.server.Shutdown(ctx)] *)
| KGoWait                      (* the goroutine that waits for the handlers *)
| KHandlers                    (* the first select; an error is that of the context *)
| KStop                        (* [stopRemoteDiagnostics] *)
| KDrained                     (* the second select *)
| KStopped.                    (* [stopOnce] *)
Definition kanswer (c : kcall) : Type :=
  match c with KShutdown | KHandlers | KDrained => option error | _ => unit end.

Definition Close : prog kcall kanswer (option error) :=
  _ ← ask KCancel;
  err ← ask KShutdown;
  _ ← ask KGoWait;
  waited ← ask KHandlers;
  match (waited : option error) with
  | Some ctxErr => mret (errors_join [err; Some (wrapf !"wait for mirror WebSocket handlers: " ctxErr)])
  | None =>
      _ ← ask KStop;
      drained ← ask KDrained;
      match (drained : option error) with
      | Some ctxErr => mret (errors_join [err; Some (wrapf !"drain mirror diagnostics: " ctxErr)])
      | None => _ ← ask KStopped; mret err
      end
  end.

Abbreviation closer := (thread (C := kcall) (answer := kanswer) (W := closing) (A := option error)).

Section Closing.
Variables (has_sink : bool) (secret0 host0 : bytes).

(** What the others do.  When [Shutdown] has returned without an error no
    request comes any more. *)
Inductive others : closing -> closing -> Prop :=
| ot_server w w' : server_step has_sink (cw w) w' ->
    (shutDown w = true -> length (handlers w') = length (handlers (cw w))) -> others w (w <| cw := w' |>)
| ot_cancel w : others w (w <| cancelled := true |>)
| ot_shut w : others w (w <| shutDown := true |>)                              (* in another [Close] *)
| ot_waited w : all_finished (cw w) -> others w (w <| handlersDone := true |>)
| ot_drain w : remoteStopped (srv (cw w)) = true -> collects w = Collecting -> others w (w <| collects := Draining |>)
| ot_drained w : remoteDiagnostics (srv (cw w)) = [] -> collects w = Draining -> others w (w <| collects := Drained |>)
| ot_stopped w : collects w = Drained -> others w (w <| stops := 1%nat |>).

Definition kdoes (c : kcall) : kanswer c -> closing -> closing -> Prop :=
  match c with
  | KCancel => fun _ w w' => w' = w <| cancelled := true |>
  | KShutdown => fun r w w' => w' = match r with None => w <| shutDown := true |> | Some _ => w end
  | KGoWait => fun _ w w' => w' = w <| handlersDone := false |>
  | KHandlers => fun r w w' => w' = w /\ (r = None -> handlersDone w = true)
  | KStop => fun _ w w' => w' = w <| cw := stop_remote (cw w) |>
  | KDrained => fun r w w' => w' = w /\ (r = None -> collects w = Drained)
  | KStopped => fun _ w w' => w' = w <| stops := 1%nat |>
  end.

Definition serving (w : closing) : Prop :=
  w = {| cw := started secret0 host0; cancelled := false; shutDown := false; handlersDone := false;
         collects := Collecting; stops := 0 |}.

(** ** The monitor: how far [Close] is, whether a call has failed, and whether
    the second select saw the end *)

Record kstate := { k_stage : nat; k_failed : bool; k_drained : bool }.
Definition kindex (c : kcall) : nat :=
  match c with
  | KCancel => 0 | KShutdown => 1 | KGoWait => 2 | KHandlers => 3 | KStop => 4 | KDrained => 5 | KStopped => 6
  end.
Definition kfails (e : event kcall kanswer) : bool :=
  match e with
  | existT KShutdown (Some _) | existT KHandlers (Some _) | existT KDrained (Some _) => true
  | _ => false
  end.
Definition kallowed (s : kstate) (c : kcall) : Prop :=
  k_stage s = kindex c /\ (c = KStopped -> k_drained s = true).
Definition knext (s : kstate) (e : event kcall kanswer) : kstate :=
  {| k_stage := S (k_stage s); k_failed := k_failed s || kfails e;
     k_drained := k_drained s || match e with existT KDrained None => true | _ => false end |}.
Definition kstart : kstate := {| k_stage := 0; k_failed := false; k_drained := false |}.
Definition ksees (s : kstate) (c : kcall) (r : kanswer c) : Prop := True.

Definition kdone (err : option error) (s : kstate) : Prop :=
  (k_failed s = false -> err = None /\ k_stage s = 7%nat) /\ (k_failed s = true -> err <> None).

Lemma errors_join_some err e : errors_join [err; Some e] <> None.
Proof. by destruct err. Qed.

Lemma Close_monitored : twp kallowed knext ksees Close kstart kdone.
Proof.
  split; [done|]. intros r0 _. split; [done|]. intros r1 _. split; [done|]. intros r2 _. split; [done|].
  intros [e|] _; cbn.
  { split; [by destruct r1|]. by intros _ ?%errors_join_some. }
  split; [done|]. intros r4 _. split; [done|]. intros [e|] _; cbn.
  { split; [by destruct r1|]. by intros _ ?%errors_join_some. }
  split; [done|]. intros r6 _. by destruct r1.
Qed.

(** ** What [Close] relies on *)

#[local] Abbreviation sreach := (reachable (fun w => w = started secret0 host0) (server_step has_sink)).

(** Nothing that was accepted is lost. *)
Definition accounted (w : server_world) : Prop :=
  len (accepted (srv w)) = len (emitted (srv w)) + len (remoteDiagnostics (srv w)).

Record recorded_kept (s s' : LocalServer) : Prop := {
  rk_accounted : len (accepted s) = len (emitted s) + len (remoteDiagnostics s) ->
    len (accepted s') = len (emitted s') + len (remoteDiagnostics s');
  rk_stopped : remoteStopped s' = remoteStopped s;
  rk_queue : remoteStopped s = true -> remoteDiagnostics s' = remoteDiagnostics s
}.

Lemma record_kept now key r s : recorded_kept s (recordRemoteDiagnostic has_sink now key r s).
Proof.
  unfold recordRemoteDiagnostic. destruct (negb has_sink); [done|]. destruct (remoteStopped s) eqn:Hst; [done|].
  destruct (match remoteDiagnosticLast s !! key with Some last => _ | None => _ end); [done|].
  case_match; [|done]. split; cbn; rewrite ?len_app, ?len_cons, ?len_nil; [lia|done|congruence].
Qed.

Lemma handler_kept i a h s : let '(h', s') := handleWebSocket has_sink i a h s in
  recorded_kept s s' /\ (at_ h = Finished -> h' = h).
Proof.
  unfold handleWebSocket. destruct h as [os con dis p]. cbn [at_]. destruct p; cbv zeta; try (repeat case_goal; by split).
  split; [apply record_kept|done].
Qed.

(** A step of the server: the handlers finished stay, and what was recorded. *)
Record server_kept (w w' : server_world) : Prop := {
  sk_recorded : accounted w -> accounted w';
  sk_stopped : remoteStopped (srv w) = true -> remoteStopped (srv w') = true;
  sk_drained : remoteStopped (srv w) = true -> remoteDiagnostics (srv w) = [] -> remoteDiagnostics (srv w') = [];
  sk_finished : all_finished w -> length (handlers w') = length (handlers w) -> all_finished w'
}.

Lemma server_step_kept w w' : server_step has_sink w w' -> server_kept w w'.
Proof.
  intros Hs. destruct Hs as [w os|w i h a Hi|w host|w secret|w l1 c cs l2 Hw|w now name|w r rest Hr|w]; try by split.
  - split; cbn; try done. intros _ Hl. rewrite length_app in Hl. cbn in Hl. lia.
  - pose proof (handler_kept i a h (srv w)) as Hk. destruct (handleWebSocket has_sink i a h (srv w)) as [h' s'].
    destruct Hk as [[K1 K2 K3] K4]. split; cbn; [done|by rewrite K2|intros Hst; by rewrite K3|].
    intros Hall _. unfold all_finished in *. cbn. rewrite Forall_forall in Hall.
    rewrite K4 by (apply Hall; by eapply list_elem_of_lookup_2). rewrite list_insert_id by done. by apply Forall_forall.
  - destruct (record_kept now (!"asset:" ++ name) {| Level := !"error"; Component := !"server"; DEvent := !"asset_missing";
      DCode := !"client_asset_unavailable"; DPath := name; DGeometry := None |} (srv w)) as [K1 K2 K3].
    unfold recordMissingAsset. split; cbn [srv]; unfold accounted; cbn [srv]; destruct (negb (requiredMirrorAsset name)); try done.
    + by rewrite K2.
    + intros Hst. by rewrite K3.
  - split; cbn; try done.
    + unfold accounted. cbn. rewrite Hr, len_app, !len_cons, len_nil. lia.
    + by rewrite Hr.
Qed.

(** ** The invariant *)

Record knows (s : kstate) (w : closing) : Prop := {
  kn_reach : sreach (cw w);
  kn_accounted : accounted (cw w);
  kn_draining : collects w <> Collecting -> remoteStopped (srv (cw w)) = true;
  kn_drained : collects w = Drained -> remoteDiagnostics (srv (cw w)) = [];
  kn_stops : (stops w <= 1)%nat /\ (stops w = 1%nat -> collects w = Drained);
  kn_shut : k_failed s = false -> (2 <= k_stage s)%nat -> shutDown w = true;
  kn_waited : k_failed s = false -> (3 <= k_stage s)%nat -> handlersDone w = true -> all_finished (cw w);
  kn_finished : k_failed s = false -> (4 <= k_stage s)%nat -> all_finished (cw w);
  kn_stopped : (5 <= k_stage s)%nat -> remoteStopped (srv (cw w)) = true;
  kn_collected : k_drained s = true -> collects w = Drained;
  kn_recorded : (7 <= k_stage s)%nat -> stops w = 1%nat
}.

Lemma close_knows_other s w w' : knows s w -> others w w' -> knows s w'.
Proof.
  intros [K1 K2 K3 K4 [K5 K5'] K6 K7 K8 K9 K10 K11] Ho. destruct Ho as [w w' Hs Hl|w|w|w Hall|w Hst Hc|w Hq Hc|w Hc].
  - destruct (server_step_kept _ _ Hs) as [S1 S2 S3 S4]. split; cbn; try done.
    + by eapply reachable_step.
    + by apply S1.
    + intros Hc. by apply S2, K3.
    + intros Hc. apply S3; [apply K3; by rewrite Hc|by apply K4].
    + intros Hf Hi Hd. apply S4; [by apply K7|apply Hl, K6; [done|lia]].
    + intros Hf Hi. apply S4; [by apply K8|apply Hl, K6; [done|lia]].
    + intros Hi. by apply S2, K9.
  - by split.
  - by split.
  - by split.
  - split; cbn; try done.
    + split; [done|]. intros H1%K5'. congruence.
    + intros H1%K10. congruence.
  - split; cbn; try done. intros _. apply K3. by rewrite Hc.
  - by split.
Qed.

(** A fact of this stage that was known before. *)
Ltac settle :=
  try done; intros; repeat match goal with H : _ || _ = false |- _ => apply orb_false_iff in H as [? ?] end;
  first [ lia
        | match goal with K : k_failed ?s = false -> (_ <= k_stage ?s)%nat -> ?P |- ?P => apply K; [done|lia] end
        | match goal with K : (_ <= k_stage ?s)%nat -> ?P |- ?P => apply K; lia end
        | idtac ].

Lemma close_knows_call s c r w w' : knows s w -> kallowed s c -> kdoes c r w w' -> ksees s c r /\ knows (knext s (ev c r)) w'.
Proof.
  intros [K1 K2 K3 K4 [K5 K5'] K6 K7 K8 K9 K10 K11] [Hi Hdr] Hd. split; [done|].
  assert (Hstop : server_kept (cw w) (stop_remote (cw w)) /\ sreach (stop_remote (cw w))).
  { pose proof (ss_stop has_sink (cw w)) as Hs. split; [by apply server_step_kept|by eapply reachable_step]. }
  destruct Hstop as [[S1 _ _ _] S2].
  destruct c; cbn [kdoes] in Hd; cbn [kindex] in Hi; match type of Hd with _ /\ _ => destruct Hd as [-> Hd] | _ => subst w' end.
  all: try (destruct r as [err|]); split; cbn; rewrite ?Hi; settle.
  all: try match goal with H : _ || _ = true |- _ => apply orb_true_iff in H as [H|H]; [by apply K10|first [done|by apply Hd]] end.
  - apply K7; [done|lia|by apply Hd].
  - apply K7; [done|lia|by apply Hd].
  - split; [done|]. intros _. by apply K10, Hdr.
Qed.

(** ** Finishing *)

Fixpoint rank (p : phase) : nat :=
  match p with
  | Finished => 0 | ReturningClient | ReturningHandshake => 1 | Unregister _ => 2 | Serving _ => 3 | Refused _ => 4
  | Registered _ => 5 | GivenPlace _ => 6 | Authenticated _ => 7 | Authenticating _ => 8 | Upgrading _ => 9
  | Holding => 10 | Arrived => 11
  | Recording _ next => S (rank next)
  end.

Lemma handler_goes_on i a h s : at_ h <> Finished -> (rank (at_ (handleWebSocket has_sink i a h s).1) < rank (at_ h))%nat.
Proof.
  intros Hne. unfold handleWebSocket. destruct h as [os con dis p]. cbn [at_] in *.
  destruct p; cbv zeta; cbn [origins]; repeat case_goal; cbn; try lia; done.
Qed.

Definition ranks (w : server_world) : nat := sum_list_with (fun h => rank (at_ h)) (handlers w).
Definition any_answer : ws_answer := {| wa_ok := false; wa_now := 0 |}.

(** The handlers can all finish, one step after the other. *)
Lemma handlers_finish w : exists w', rtc others w w' /\ all_finished (cw w').
Proof.
  remember (ranks (cw w)) as n eqn:Hn. revert w Hn. induction n as [n IH] using lt_wf_ind. intros w ->.
  destruct (list_find (fun h => rank (at_ h) <> 0%nat) (handlers (cw w))) as [[i h]|] eqn:Hf.
  - apply list_find_Some in Hf as (Hi & Hr & _). pose proof (ss_handler has_sink (cw w) i h any_answer Hi) as Hs.
    pose proof (handler_goes_on i any_answer h (srv (cw w))) as Hlt.
    destruct (handleWebSocket has_sink i any_answer h (srv (cw w))) as [h' s']. cbn in Hlt.
    set (w1 := {| srv := s'; handlers := <[i := h']> (handlers (cw w)); setters := setters (cw w) |}) in *.
    destruct (IH (ranks w1)) with (w := w <| cw := w1 |>) as (w' & Hw & Hall); [|done|].
    { unfold ranks. cbn. apply take_drop_middle in Hi as E. pose proof (lookup_lt_Some _ _ _ Hi) as Hlen.
      rewrite insert_take_drop by done. rewrite <- E at 3. rewrite !sum_list_with_app. cbn.
      enough (rank (at_ h') < rank (at_ h))%nat by lia. apply Hlt. intros Hfin. by rewrite Hfin in Hr. }
    exists w'. split; [|done]. eapply rtc_l; [|exact Hw]. apply ot_server; [done|]. intros _. apply length_insert.
  - exists w. split; [done|]. apply list_find_None in Hf. eapply Forall_impl; [exact Hf|]. cbn.
    intros h Hh. by destruct (at_ h); try (exfalso; apply Hh; cbn; lia).
Qed.

(** The queue of remote diagnostics can be handed on. *)
Lemma queue_emptied w : exists w', rtc others w w' /\ remoteDiagnostics (srv (cw w')) = [] /\ collects w' = collects w.
Proof.
  remember (remoteDiagnostics (srv (cw w))) as q eqn:Hq. revert w Hq. induction q as [|r q IH]; intros w Hq; [by exists w|].
  pose proof (ss_emit has_sink (cw w) r q (eq_sym Hq)) as Hs.
  destruct (IH (w <| cw := {| srv := (srv (cw w)) <| remoteDiagnostics := q |> <| emitted := emitted (srv (cw w)) ++ [r] |>;
    handlers := handlers (cw w); setters := setters (cw w) |} |>)) as (w' & Hw & He & Hc); [done|].
  exists w'. split_and!; [|done|done]. eapply rtc_l; [|exact Hw]. by apply ot_server.
Qed.

Lemma drained w : remoteStopped (srv (cw w)) = true -> exists w', rtc others w w' /\ collects w' = Drained.
Proof.
  intros Hst. assert (Hd : forall v, collects v = Draining -> exists v', rtc others v v' /\ collects v' = Drained).
  { intros v Hv. destruct (queue_emptied v) as (v' & Hr & Hq & Hc). rewrite Hv in Hc. exists (v' <| collects := Drained |>).
    split; [|done]. eapply rtc_r; [exact Hr|]. by apply ot_drained. }
  destruct (collects w) eqn:Hc; [|by apply Hd|by exists w].
  destruct (Hd (w <| collects := Draining |>)) as (w' & Hr & He); [done|]. exists w'. split; [|done].
  eapply rtc_l; [by apply ot_drain|exact Hr].
Qed.

Lemma Close_progress s c w : k_failed s = false -> knows s w -> kallowed s c ->
  exists w1 r w2, rtc others w w1 /\ kdoes c r w1 w2 /\ k_failed (knext s (ev c r)) = false.
Proof.
  intros Hf Hk [Hi _]. destruct c; cbn in *.
  - exists w, tt. eexists. by rewrite Hf.
  - exists w, None. eexists. by rewrite Hf.
  - exists w, tt. eexists. by rewrite Hf.
  - destruct (handlers_finish w) as (w' & Hr & Hall). exists (w' <| handlersDone := true |>), None. eexists. rewrite Hf.
    split_and!; [eapply rtc_r; [exact Hr|by apply ot_waited]|done..].
  - exists w, tt. eexists. by rewrite Hf.
  - destruct (drained w) as (w' & Hr & Hd); [apply (kn_stopped _ _ Hk); lia|]. exists w', None. eexists. by rewrite Hf.
  - exists w, tt. eexists. by rewrite Hf.
Qed.

(** ** The theorem *)

Definition begins (x : closer) : Prop :=
  serving (th_shared x) /\ th_rest x = Close /\ th_past x = [].
#[local] Abbreviation creach := (reachable begins (thread_step kdoes others)).

Lemma failed_after t : k_failed (foldl knext kstart t) = existsb kfails t.
Proof. induction t as [|e t IH] using rev_ind; [done|]. by rewrite foldl_app, existsb_app, <- IH; cbn; rewrite orb_false_r. Qed.

Lemma Close_run x : creach x -> monitored kallowed knext ksees knows kstart kdone x.
Proof.
  apply thread_monitored; [apply close_knows_other|apply close_knows_call|].
  intros [w m t] (-> & Hm & Ht). cbn in Hm, Ht. subst m t. split_and!; [|apply Close_monitored|by intros []].
  split; cbn; try done; try lia. by apply reachable_init.
Qed.

(** C22: closing the server leaves nothing behind, and can finish.  [Close] runs
    beside the handlers, the manager's calls, the collector of remote
    diagnostics and other calls of [Close]; once the HTTP server was shut down
    without an error no request comes.  Then no remote diagnostic that was
    accepted is lost, and "stopped" is recorded at most once; when [Close] has
    returned no error, and ever after, every handler has finished, all places
    are free, no client is registered, every accepted diagnostic was handed on
    and "stopped" was recorded; an error means that a call of it failed or its
    context ended; and as long as that has not happened, [Close] can finish
    without an error. *)
Theorem server_close_completes x : creach x ->
  let w := th_shared x in let s := srv (cw w) in
  len (accepted s) = len (emitted s) + len (remoteDiagnostics s) /\ (stops w <= 1)%nat /\
  (th_rest x = Ret None ->
     shutDown w = true /\ all_finished (cw w) /\ handshakes s = 0 /\ s_clients s = 0 /\ connections s = ∅ /\
     remoteStopped s = true /\ len (accepted s) = len (emitted s) /\ stops w = 1%nat) /\
  (forall err, th_rest x = Ret (Some err) -> existsb kfails (th_past x) = true) /\
  (existsb kfails (th_past x) = false ->
     exists x', rtc (thread_step kdoes others) x x' /\ th_rest x' = Ret None).
Proof.
  intros Hx. cbv zeta. destruct (Close_run x Hx) as (Hk & Hm & _). rewrite <- failed_after.
  set (s := foldl knext kstart (th_past x)) in *. split_and!; [apply Hk|apply Hk|..].
  - intros Hr. rewrite Hr in Hm. destruct Hm as [Hok Hfailed].
    destruct (k_failed s) eqn:Hf; [by destruct (Hfailed eq_refl)|]. destruct (Hok eq_refl) as [_ Hst].
    assert (Hall : all_finished (cw (th_shared x))) by (apply (kn_finished _ _ Hk); [done|lia]).
    assert (Hstops : stops (th_shared x) = 1%nat) by (apply (kn_recorded _ _ Hk); lia).
    destruct (finished_free has_sink secret0 host0 _ (kn_reach _ _ Hk) Hall) as (F1 & F2 & F3).
    split_and!; try done; [by apply (kn_shut _ _ Hk); [|lia]|apply (kn_stopped _ _ Hk); lia|].
    rewrite (kn_accounted _ _ Hk), (kn_drained _ _ Hk), len_nil, Z.add_0_r; [done|by apply (kn_stops _ _ Hk)].
  - intros err Hr. rewrite Hr in Hm. destruct Hm as [Hok _]. destruct (k_failed s); [done|]. by destruct (Hok eq_refl).
  - intros Hf. destruct x as [w m t]. cbn in Hk, Hm.
    destruct (thread_can_finish kallowed knext ksees kdoes others knows close_knows_other close_knows_call
      (fun s => k_failed s = false) Close_progress m s t w Hf Hk Hm) as (x' & a & s' & Hr & Ha & Hq & Hf').
    exists x'. split; [done|]. rewrite Ha. by destruct (proj1 Hq Hf') as [-> _].
Qed.
End Closing.

(** ** A server that is closed while a client is connected *)

Definition demo_closing (w : server_world) : closer :=
  {| th_shared := {| cw := w; cancelled := false; shutDown := false; handlersDone := false; collects := Collecting; stops := 0 |};
     th_rest := Close; th_past := [] |}.
Abbreviation demo_closes := (reachable (begins !"s1" !"a.example") (thread_step kdoes (others true))).

Lemma demo_closing_step w w' : demo_closes (demo_closing w) -> server_step true w w' -> demo_closes (demo_closing w').
Proof.
  intros Hw Hs. eapply reachable_step; [exact Hw|].
  change (demo_closing w') with
    {| th_shared := (th_shared (demo_closing w)) <| cw := w' |>; th_rest := th_rest (demo_closing w);
       th_past := th_past (demo_closing w) |}.
  apply th_other. by apply ot_server.
Qed.
Lemma run_handler_closing n i a : forall w, demo_closes (demo_closing w) -> demo_closes (demo_closing (run_handler n i a w)).
Proof.
  induction n as [|n IH]; intros w Hw; [done|]. cbn [run_handler]. destruct (handlers w !! i) as [h|] eqn:Hi; [|done].
  pose proof (ss_handler true w i h a Hi) as Hs. destruct (handleWebSocket true i a h (srv w)) as [h' s'].
  apply IH. by eapply demo_closing_step.
Qed.

(** One client is served, and a request was turned away. *)
Definition busy_world : server_world :=
  run_handler 4 1 (yes 3) (request [!"https://evil.example"]
    (run_handler 7 0 (yes 2) (request [!"https://a.example"] (started !"s1" !"a.example")))).
Lemma busy_closes : demo_closes (demo_closing busy_world).
Proof.
  apply run_handler_closing. eapply demo_closing_step; [|apply ss_request].
  apply run_handler_closing. eapply demo_closing_step; [|apply ss_request]. by apply reachable_init.
Qed.

Example busy : map at_ (handlers busy_world) =
  [Serving {| cr_secret := !"s1"; cr_version := 1 |}; Finished] /\ s_clients (srv busy_world) = 1 /\
  length (remoteDiagnostics (srv busy_world)) = 1%nat.
Proof. by vm_compute. Qed.

Lemma server_close_completes_witness : exists x, demo_closes x /\ th_rest x = Ret None /\
  all_finished (cw (th_shared x)) /\ connections (srv (cw (th_shared x))) = ∅ /\ stops (th_shared x) = 1%nat.
Proof.
  destruct (server_close_completes true !"s1" !"a.example" _ busy_closes) as (_ & _ & _ & _ & Hfin).
  destruct (Hfin eq_refl) as (x & Hx & Hr). exists x.
  assert (Hreach : demo_closes x) by (eapply reachable_rtc; [exact busy_closes|exact Hx]).
  destruct (server_close_completes true !"s1" !"a.example" x Hreach) as (_ & _ & Hnone & _).
  destruct (Hnone Hr) as (_ & Hall & _ & _ & Hc & _ & _ & Hst). split_and!; done.
Defined.
