(* ===== verification/MirrorTunnel.v ===== *)
(** * The quick tunnel's process (internal/mirror/tunnel.go)

    cloudflared is checked for its version, started, and watched until it
    reports a URL.  A goroutine waits for the process, [StartTunnel] polls the
    output, and [Close] stops the process; their sections and channel
    operations are the steps of [tunnel_step].  URL parsing is a parameter. *)

From S2P Require Import Prelude GoString GoUnicode GoConv GoErrors TmuxQuote MirrorPairing.
Open Scope Z_scope.

Definition maxTunnelDiagnostics : nat := Z.to_nat 65536.      (* 64 << 10 *)

(** ** The version: [\b(\d{4})\.(\d+)\.(\d+)\b] *)

Definition is_word (b : byte) : bool := is_alnum (bz b) || (bz b =? 95).

(** The digits a string starts with, and the rest. *)
Fixpoint span_digits (s : bytes) : bytes * bytes :=
  match s with
  | c :: t => if is_digit c then let '(ds, rest) := span_digits t in (c :: ds, rest) else ([], s)
  | [] => ([], [])
  end.

(** The match at the start of [s], if any: its three groups.  A greedy group of
    digits cannot be shorter, as no digit may follow it. *)
Definition version_here (s : bytes) : option (bytes * bytes * bytes) :=
  let '(year, rest) := span_digits s in
  match rest with
  | c1 :: rest =>
      let '(month, rest) := span_digits rest in
      match rest with
      | c2 :: rest =>
          let '(patch, rest) := span_digits rest in
          if (length year =? 4)%nat && Byte.eqb c1 "."%byte && negb (month ==b []) && Byte.eqb c2 "."%byte &&
             negb (patch ==b []) && negb (match rest with c :: _ => is_word c | [] => false end)
          then Some (year, month, patch) else None
      | [] => None
      end
  | [] => None
  end.

(** The leftmost match; [inside] says that a word character comes before. *)
Fixpoint find_version (inside : bool) (s : bytes) : option (bytes * bytes * bytes) :=
  match (if inside then None else version_here s) with
  | Some m => Some m
  | None => match s with c :: t => find_version (is_word c) t | [] => None end
  end.

Definition version_text (m : bytes * bytes * bytes) : bytes :=
  let '(a, b, c) := m in a ++ !"." ++ b ++ !"." ++ c.

(** The loop over the three parts and the minimum. *)
Fixpoint compare_version (text : bytes) (parts : list (Z * Z)) : result bytes :=
  match parts with
  | [] => Ok text
  | (value, minimum) :: parts =>
      if minimum <? value then Ok text
      else if value <? minimum
      then Err (EText (!"cloudflared " ++ text ++ !" is older than required 2020.5.1"))
      else compare_version text parts
  end.

Definition parseCloudflaredVersion (output : bytes) : result bytes :=
  let unparsed := Err (EText !"cloudflared version could not be parsed") in
  match find_version false output with
  | None => unparsed
  | Some (a, b, c) =>
      match atoi a, atoi b, atoi c with
      | Some x, Some y, Some z => compare_version (version_text (a, b, c)) [(x, 2020); (y, 5); (z, 1)]
      | _, _, _ => unparsed
      end
  end.

(** ** The tail of the output *)

(** [diagnosticTail.Write]. *)
Definition tail_Write (data : bytes) (tail : bytes) : bytes :=
  if (maxTunnelDiagnostics <=? length data)%nat then drop (length data - maxTunnelDiagnostics) data
  else
    let overflow := (length tail + length data - maxTunnelDiagnostics)%nat in
    (if (0 <? overflow)%nat then drop overflow tail else tail) ++ data.

(** ** URLs *)

Section Tunnel.
Variables (url_parse : bytes -> result URL) (url_string : URL -> bytes) (hostname port : URL -> bytes)
  (loopback : bytes -> bool) (startupTimeout : bytes).

Definition trimmed_bytes : bytes := !"|[]()<>" ++ [x22] ++ !"',".

(** A word of the output that is a quick tunnel's origin. *)
Definition quick_origin (field : bytes) : option bytes :=
  let candidate := trim_set trimmed_bytes field in
  if negb (contains !"trycloudflare.com" candidate) then None else
  match url_parse candidate with
  | Err _ => None
  | Ok parsed =>
      if negb (Scheme parsed ==b !"https") || negb (quickTunnelHost (hostname parsed)) ||
         negb (Host parsed ==b hostname parsed) || HasUser parsed || negb (Path parsed ==b []) ||
         negb (RawQuery parsed ==b []) || negb (Fragment parsed ==b [])
      then None else Some (url_string parsed)
  end.

Fixpoint extract_loop (words : list bytes) (found : bytes) : result bytes :=
  match words with
  | [] => if found ==b [] then Err (EText !"cloudflared did not report a valid Quick Tunnel URL") else Ok found
  | field :: words =>
      match quick_origin field with
      | None => extract_loop words found
      | Some origin =>
          if negb (found ==b []) && negb (origin ==b found)
          then Err (EText !"cloudflared reported multiple Quick Tunnel URLs")
          else extract_loop words origin
      end
  end.
Definition extractQuickTunnelURL (output : bytes) : result bytes := extract_loop (fields output) [].

(** [loopback]: the host parses as an IP address that is a loopback address. *)
Definition validateTunnelOrigin (raw : bytes) : option error :=
  match url_parse raw with
  | Err err => Some (wrapf !"parse tunnel origin: " err)
  | Ok parsed =>
      if negb (Scheme parsed ==b !"http") || negb (loopback (hostname parsed)) || (port parsed ==b []) ||
         HasUser parsed || negb (Path parsed ==b []) || negb (RawQuery parsed ==b []) || negb (Fragment parsed ==b [])
      then Some (EText !"tunnel origin must be an HTTP loopback origin with an explicit port") else None
  end.

(** [StartTunnel] up to the start of the process: the path that was looked up,
    the output of [--version], and whether the process could be started. *)
Definition prepare_tunnel (localURL : bytes) (path version started : result bytes) : option error :=
  match validateTunnelOrigin localURL with
  | Some err => Some err
  | None =>
  match path with
  | Err err => Some (wrapf !"cloudflared not found in PATH: " err)
  | Ok _ =>
  match version with
  | Err err => Some (wrapf !"read cloudflared version: " err)
  | Ok out =>
  match parseCloudflaredVersion out with
  | Err err => Some err
  | Ok _ =>
  match started with
  | Err err => Some (wrapf !"start cloudflared Quick Tunnel: " err)
  | Ok _ => None
  end end end end end.

Definition tunnel_command (localURL : bytes) : list bytes :=
  [!"tunnel"; !"--no-autoupdate"; !"--url"; localURL].

(** ** The process and its watchers *)

Definition tunnelWaitError (err : option error) (closing : bool) : option error :=
  if negb closing then err else
  match err with
  | Some e => if errors_as_exit e || errors_is ContextCanceled e then None else err
  | None => None
  end.

(** The goroutine [wait]. *)
Inductive waiter := WWaiting | WSending (err : option error) | WClosing | WFinished.
(** [Close], inside its [Once]. *)
Inductive closer := CIdle | CSignalling | CStopping | CKilled | CDone.
(** [StartTunnel] after the process was started. *)
Inductive starter := SLooking | SBlocked | SClosing | SReturned (r : result bytes).

Record Tunnel := {
  t_process : option (option error);     (* what [Wait] returns, once the process has exited *)
  t_context : option error;              (* [ctx.Err()] *)
  t_tail : bytes;                        (* [diagnostics] *)
  t_writing : bool;                      (* between the two writers of [output] *)
  t_changed : bool;                      (* the token of [outputChanged] *)
  t_waiter : waiter; t_closer : closer; t_starter : starter;
  t_closing : bool; t_waitErr : option error;
  t_waited : bool;                       (* the channel is closed *)
  t_done : list (option error);          (* the values sent on [done] *)
  t_killed : bool;
  t_output : bytes                       (* everything written; the program does not look at it *)
}.
#[export] Instance eta_tunnel : Eta Tunnel := fun t =>
  {| t_process := t_process t; t_context := t_context t; t_tail := t_tail t; t_writing := t_writing t;
     t_changed := t_changed t; t_waiter := t_waiter t;
     t_closer := t_closer t; t_starter := t_starter t; t_closing := t_closing t; t_waitErr := t_waitErr t;
     t_waited := t_waited t; t_done := t_done t; t_killed := t_killed t; t_output := t_output t |}.

Definition process_started : Tunnel :=
  {| t_process := None; t_context := None; t_tail := []; t_writing := false; t_changed := false;
     t_waiter := WWaiting; t_closer := CIdle; t_starter := SLooking; t_closing := false; t_waitErr := None; t_waited := false; t_done := [];
     t_killed := false; t_output := [] |}.

(** [%w: %s] of the wait's error and the output; a nil error prints as Go does. *)
Definition exited_early (t : Tunnel) : error :=
  let before := !"cloudflared exited before reporting a Quick Tunnel URL: " in
  let after := !": " ++ trim_space (t_tail t) in
  match t_waitErr t with
  | Some e => EWrap before e after
  | None => EText (before ++ !"%!w(<nil>)" ++ after)
  end.

Definition started_late (t : Tunnel) : error :=
  match t_context t with
  | Some err => err
  | None => EText (!"cloudflared did not report a Quick Tunnel URL within " ++ startupTimeout ++ !": " ++
                   trim_space (t_tail t))
  end.

(** The process's exit, its output and the contexts' ends are the environment's;
    [Wait] returns only after the output was copied. *)
Inductive tunnel_step : Tunnel -> Tunnel -> Prop :=
| ts_write t data : t_process t = None -> t_writing t = false ->
    tunnel_step t (t <| t_tail := tail_Write data (t_tail t) |> <| t_output := t_output t ++ data |>
                     <| t_writing := true |>)
| ts_notify t : t_writing t = true -> tunnel_step t (t <| t_writing := false |> <| t_changed := true |>)
| ts_exit t err : t_process t = None -> t_writing t = false -> tunnel_step t (t <| t_process := Some err |>)
| ts_context t err : t_context t = None -> tunnel_step t (t <| t_context := Some err |>)
(* wait *)
| ts_wait t err : t_waiter t = WWaiting -> t_process t = Some err ->
    let werr := tunnelWaitError err (t_closing t) in
    tunnel_step t (t <| t_waitErr := werr |> <| t_waiter := if t_closing t then WClosing else WSending werr |>)
| ts_send t err : t_waiter t = WSending err ->
    tunnel_step t (t <| t_done := t_done t ++ [err] |> <| t_waiter := WClosing |>)
| ts_waited t : t_waiter t = WClosing -> tunnel_step t (t <| t_waited := true |> <| t_waiter := WFinished |>)
(* Close *)
| ts_close t : t_closer t = CIdle ->
    t_starter t = SClosing \/ (exists url, t_starter t = SReturned (Ok url)) ->
    tunnel_step t (t <| t_closing := true |> <| t_closer := CSignalling |>)
| ts_signal t : t_closer t = CSignalling -> tunnel_step t (t <| t_closer := CStopping |>)
| ts_stopped t : t_closer t = CStopping \/ t_closer t = CKilled -> t_waited t = true ->
    tunnel_step t (t <| t_closer := CDone |>)
| ts_kill t : t_closer t = CStopping -> tunnel_step t (t <| t_killed := true |> <| t_closer := CKilled |>)
(* StartTunnel *)
| ts_look t : t_starter t = SLooking ->
    tunnel_step t (t <| t_starter := match extractQuickTunnelURL (t_tail t) with
                                     | Ok url => SReturned (Ok url)
                                     | Err _ => SBlocked
                                     end |>)
| ts_changed t : t_starter t = SBlocked -> t_changed t = true ->
    tunnel_step t (t <| t_changed := false |> <| t_starter := SLooking |>)
| ts_early t : t_starter t = SBlocked -> t_waited t = true ->
    tunnel_step t (t <| t_starter := SReturned (Err (exited_early t)) |>)
| ts_timeout t : t_starter t = SBlocked ->                (* the start's or the caller's context ends *)
    tunnel_step t (t <| t_starter := SClosing |>)
| ts_failed t : t_starter t = SClosing -> t_closer t = CDone ->
    tunnel_step t (t <| t_starter := SReturned (Err (started_late t)) |>).
End Tunnel.
