(* ===== verification/MirrorTunnelProps.v ===== *)
(** * The tunnel's process is never lost

    Invariants of [tunnel_step], and that [Close] can always finish. *)

From S2P Require Import Prelude GoString GoUnicode GoConv GoErrors TmuxQuote MirrorPairing MirrorTunnel.
Open Scope Z_scope.

(** ** The tail of the output *)

Lemma tail_Write_lastn data out :
  tail_Write data (lastn maxTunnelDiagnostics out) = lastn maxTunnelDiagnostics (out ++ data).
Proof. apply lastn_write. Qed.

Section Tunnel.
Variables (url_parse : bytes -> result URL) (url_string : URL -> bytes) (hostname : URL -> bytes)
  (startupTimeout : bytes).
#[local] Abbreviation step := (tunnel_step url_parse url_string hostname startupTimeout).
#[local] Abbreviation origin := (quick_origin url_parse url_string hostname).
#[local] Abbreviation extract := (extractQuickTunnelURL url_parse url_string hostname).
#[local] Abbreviation extracting := (extract_loop url_parse url_string hostname).
#[local] Abbreviation treach := (reachable (fun t => t = process_started) step).

(** ** The URL found is the only one there is *)

Lemma extract_loop_ok words : forall found url,
  extracting words found = Ok url ->
  (url = found \/ exists word, word ∈ words /\ origin word = Some url) /\ url <> [] /\
  (found <> [] -> url = found) /\
  forall word o, word ∈ words -> origin word = Some o -> o <> [] -> o = url.
Proof.
  induction words as [|w words IH]; intros found url; cbn.
  - case_bool_decide; [done|]. intros [= <-].
    split_and!; [by left|done|done|]. by intros ?? ?%not_elem_of_nil.
  - intros Hloop.
    assert (exists found', extracting words found' = Ok url /\
              (found' = found /\ origin w = None \/
               origin w = Some found' /\ (found <> [] -> found' = found))) as (found' & Hrest & Hfound').
    { destruct (origin w) as [o|]; [exists o|exists found; by split; [|left]].
      destruct (decide (found = [])) as [->|]; [split; [done|right; by split]|].
      rewrite (bool_decide_false (found = [])) in Hloop by done. case_bool_decide; cbn in Hloop; [|done].
      subst. split; [done|right; by split]. }
    apply IH in Hrest as (Hfrom & Hne & Hsame & Hall). split_and!; [|done| |].
    + destruct Hfrom as [->|(v & Hv & He)]; [|right; exists v; by rewrite elem_of_cons; auto].
      destruct Hfound' as [[-> _]|[Ho _]]; [by left|right; exists w; by rewrite elem_of_cons; auto].
    + intros Hf. destruct Hfound' as [[-> _]|[_ Heq]]; [by apply Hsame|].
      rewrite <- (Heq Hf). apply Hsame. by rewrite (Heq Hf).
    + intros v o [->|Hv]%elem_of_cons He Hne'; [|by eapply Hall].
      destruct Hfound' as [[_ Ho]|[Ho _]]; [congruence|]. rewrite Ho in He. simplify_eq. by symmetry; apply Hsame.
Qed.

(** [url] is the one quick tunnel the text speaks of. *)
Definition only_origin (text url : bytes) : Prop :=
  (exists word, word ∈ fields text /\ origin word = Some url) /\
  forall word o, word ∈ fields text -> origin word = Some o -> o <> [] -> o = url.

Lemma extract_only text url : extract text = Ok url -> only_origin text url.
Proof.
  intros (Hfrom & Hne & _ & Hall)%extract_loop_ok. split; [|done]. by destruct Hfrom as [->|].
Qed.

(** ** The invariant *)

(** The error of the wait and what was sent, once [wait] is past [Wait]. *)
Definition settled (t : Tunnel) (sent : bool) : Prop :=
  exists err, t_process t = Some err /\
    (t_done t = (if sent then [err] else []) /\ t_waitErr t = err \/
     t_done t = [] /\ t_waitErr t = tunnelWaitError err true /\ t_closing t = true /\ sent = true).

Definition waiter_ok (t : Tunnel) : Prop :=
  match t_waiter t with
  | WWaiting => t_waited t = false /\ t_done t = []
  | WSending e => t_waited t = false /\ t_waitErr t = e /\ settled t false
  | WClosing => t_waited t = false /\ settled t true
  | WFinished => t_waited t = true /\ settled t true
  end.

(** What [StartTunnel] has returned, and that nobody else can close before. *)
Definition starter_ok (t : Tunnel) : Prop :=
  match t_starter t with
  | SLooking | SBlocked => t_closer t = CIdle
  | SClosing => True
  | SReturned (Ok url) => exists written, written `prefix_of` t_output t /\
      only_origin (lastn maxTunnelDiagnostics written) url
  | SReturned (Err _) => t_waited t = true
  end.

Record tunnel_ok (t : Tunnel) : Prop := {
  tk_tail : t_tail t = lastn maxTunnelDiagnostics (t_output t);
  tk_waiter : waiter_ok t;
  tk_closing : t_closing t = negb (match t_closer t with CIdle => true | _ => false end);
  tk_closer : t_closer t = CDone -> t_waited t = true;
  tk_writing : t_writing t = true -> t_process t = None;
  tk_starter : starter_ok t
}.

Lemma tunnel_ok_start : tunnel_ok process_started.
Proof. by split. Qed.

Lemma settled_known t sent : settled t sent -> exists err, t_process t = Some err.
Proof. intros (err & Hp & _). by exists err. Qed.

Lemma waited_known t : waiter_ok t -> t_waited t = true -> settled t true.
Proof. unfold waiter_ok. intros Hw Ht. destruct (t_waiter t); destruct Hw; congruence. Qed.

Lemma settled_frame t t' sent :
  t_process t' = t_process t -> t_done t' = t_done t -> t_waitErr t' = t_waitErr t ->
  (t_closing t = true -> t_closing t' = true) -> settled t sent -> settled t' sent.
Proof.
  intros Hp Hd He Hc (err & Hproc & Hs). exists err. rewrite Hp, Hd, He. split; [done|].
  destruct Hs as [|(? & ? & ? & ?)]; [by left|right; auto].
Qed.

Lemma waiter_frame t t' :
  t_process t' = t_process t -> t_done t' = t_done t -> t_waitErr t' = t_waitErr t ->
  (t_closing t = true -> t_closing t' = true) -> t_waiter t' = t_waiter t -> t_waited t' = t_waited t ->
  waiter_ok t -> waiter_ok t'.
Proof.
  intros Hp Hd He Hc Hw Ht Hok. unfold waiter_ok in *. rewrite Hw, Ht, ?Hd, ?He.
  destruct (t_waiter t); destruct_and? Hok; split_and?; try done; by apply (settled_frame t).
Qed.

Lemma waiter_ok_step t t' : tunnel_ok t -> step t t' -> waiter_ok t'.
Proof.
  intros [H1 H2 H3 H4 H5 H6] Hstep.
  destruct Hstep as [|t _|t err Hp _|t err _|t err Hw Hp werr|t err Hw|t Hw|t _ _|t _|t _ _|t _|t _|t _ _|t _ _|t _|t _ _];
    try by apply (waiter_frame t).
  - unfold waiter_ok in *. cbn in *. destruct (t_waiter t); [done|..];
      [destruct H2 as (_ & _ & Hs)|destruct H2 as (_ & Hs)|destruct H2 as (_ & Hs)];
      apply settled_known in Hs as [? Hs]; congruence.
  - unfold waiter_ok in *. rewrite Hw in H2. destruct H2 as [Hf Hd]. cbn. subst werr.
    destruct (t_closing t) eqn:Hc; split_and!; try done; exists err; cbn; split; try done; auto.
  - unfold waiter_ok in *. rewrite Hw in H2. destruct H2 as (Hf & He & err' & Hp & [[Hd He']|(?&?&?&?)]); [|done].
    cbn. split; [done|]. exists err'. cbn. rewrite Hd, He'. split; [done|left]. split; [|done]. cbn. congruence.
  - unfold waiter_ok in *. rewrite Hw in H2. split; [done|]. by apply (settled_frame t), H2.
Qed.

Lemma starter_ok_step t t' : tunnel_ok t -> step t t' -> starter_ok t'.
Proof.
  intros [H1 H2 H3 H4 H5 H6] Hstep. unfold starter_ok in *.
  destruct Hstep as [t data _ _|t _|t err Hp _|t err _|t err Hw Hp werr|t err Hw|t Hw|t Hi Hc|t Hi|t Hi _|t Hi|t Hl|t Hb _|t Hb Hw|t Hb|t Hc Hd];
    cbn; try done.
  - destruct (t_starter t) as [| | |[url|]]; try done. destruct H6 as (written & Hp & He). exists written.
    split; [by apply prefix_app_r|done].
  - by destruct (t_starter t) as [| | |[|]].
  - by destruct Hc as [->|[url Hurl]]; [|rewrite Hurl in *].
  - by destruct (t_starter t) as [| | |[|]]; try congruence.
  - destruct (t_starter t) as [| | |[|]]; try done; destruct Hi; congruence.
  - by destruct (t_starter t) as [| | |[|]]; try congruence.
  - destruct (extract (t_tail t)) as [url|] eqn:He.
    + exists (t_output t). split; [done|]. rewrite <- H1. by apply extract_only.
    + by rewrite Hl in H6.
  - by rewrite Hb in H6.
  - by apply H4.
Qed.

Lemma tunnel_ok_step t t' : tunnel_ok t -> step t t' -> tunnel_ok t'.
Proof.
  intros Hok Hstep. pose proof (waiter_ok_step _ _ Hok Hstep) as Hw. pose proof (starter_ok_step _ _ Hok Hstep) as Hs.
  destruct Hok as [H1 H2 H3 H4 H5 H6]. split; try done; destruct Hstep; cbn; try done.
  - rewrite H1. apply tail_Write_lastn.
  - by rewrite H3, H.
  - rewrite H3. by destruct H as [-> | ->].
  - by rewrite H3, H.
  - congruence.
Qed.

Lemma tunnel_reaches_ok t : treach t -> tunnel_ok t.
Proof.
  apply reachable_invariant; [intros ? ->; apply tunnel_ok_start|].
  intros ? ? _. apply tunnel_ok_step.
Qed.

(** ** Close comes to its end *)

Lemma rtc_ok t t' : tunnel_ok t -> rtc step t t' -> tunnel_ok t'.
Proof. intros Hok Hsteps. induction Hsteps; [done|]. eauto using tunnel_ok_step. Qed.

(** The process exits once its last output is copied. *)
Lemma process_exits t : tunnel_ok t ->
  exists t' err, rtc step t t' /\ t_process t' = Some err /\ t_closer t' = t_closer t.
Proof.
  intros Hok. destruct (t_process t) as [err|] eqn:Hp; [by exists t, err|].
  destruct (t_writing t) eqn:Hw.
  - eexists _, None.
    split; [eapply rtc_l; [by apply ts_notify|by apply rtc_once, ts_exit]|done].
  - eexists _, None. split; [by apply rtc_once, ts_exit|done].
Qed.

(** One step first. *)
Lemma step_then t u (P : Tunnel -> Prop) :
  step t u -> (exists t', rtc step u t' /\ P t') -> exists t', rtc step t t' /\ P t'.
Proof. intros Hstep (t' & Hs & Ht). exists t'. split; [by eapply rtc_l|done]. Qed.

Lemma waiter_finishes t err : t_process t = Some err -> tunnel_ok t ->
  exists t', rtc step t t' /\ t_waited t' = true /\ t_closer t' = t_closer t.
Proof.
  intros Hp Hok.
  assert (forall u c, t_waiter u = WClosing -> t_closer u = c ->
            exists t', rtc step u t' /\ t_waited t' = true /\ t_closer t' = c) as Hclosing.
  { intros u c Hu Hc. eexists. split; [by apply rtc_once, ts_waited|done]. }
  assert (forall u e c, t_waiter u = WSending e -> t_closer u = c ->
            exists t', rtc step u t' /\ t_waited t' = true /\ t_closer t' = c) as Hsending.
  { intros u e c Hu Hc. eapply step_then; [by apply ts_send|]. by apply Hclosing. }
  pose proof (tk_waiter _ Hok) as Hw. unfold waiter_ok in Hw.
  destruct (t_waiter t) as [|e| |] eqn:He; [|by eapply Hsending|by apply Hclosing|by exists t; destruct Hw].
  eapply step_then; [by eapply ts_wait|]. cbv zeta. destruct (t_closing t).
  - by apply Hclosing.
  - by eapply Hsending.
Qed.

Lemma close_finishes t : tunnel_ok t -> t_closer t <> CIdle ->
  exists t', rtc step t t' /\ t_closer t' = CDone.
Proof.
  intros Hok Hc. destruct (process_exits t Hok) as (t1 & err & Hs1 & Hp & Hc1).
  destruct (waiter_finishes t1 err Hp (rtc_ok _ _ Hok Hs1)) as (t2 & Hs2 & Hw & Hc2).
  assert (forall u, t_closer u = CStopping \/ t_closer u = CKilled -> t_waited u = true ->
            exists t', rtc step u t' /\ t_closer t' = CDone) as Hstop.
  { intros u Hu Hwu. eexists. split; [by apply rtc_once, ts_stopped|done]. }
  assert (exists t', rtc step t2 t' /\ t_closer t' = CDone) as (t' & Hs & Ht).
  { destruct (t_closer t2) eqn:H2; [congruence| |by apply Hstop; auto|by apply Hstop; auto|by exists t2].
    eapply step_then; [by apply ts_signal|]. apply Hstop; [by left|done]. }
  exists t'. split; [|done]. by etrans; [|etrans].
Qed.

(** C20: the tunnel's process is never lost.  In every state that the wait, the
    output, [StartTunnel] and [Close] can bring about: the diagnostics are the
    last 64 KiB of the output; at most one value was sent on the channel of
    [Done], the process's own exit error; when [Close] is done or [StartTunnel]
    has failed, the process has exited and was waited for; the URL of a
    successful start is the only tunnel origin in what were the last 64 KiB of
    the output at some time; and a [Close] that has begun can come to its end. *)
Theorem tunnel_never_orphaned t (Hreach : treach t) :
  t_tail t = lastn maxTunnelDiagnostics (t_output t) /\
  (t_done t = [] \/ exists err, t_process t = Some err /\ t_done t = [err]) /\
  (t_closer t = CDone \/ (exists err, t_starter t = SReturned (Err err)) ->
     exists err, t_process t = Some err /\
       (t_waitErr t = err \/ t_closing t = true /\ t_waitErr t = tunnelWaitError err true)) /\
  (forall url, t_starter t = SReturned (Ok url) ->
     exists written, written `prefix_of` t_output t /\ only_origin (lastn maxTunnelDiagnostics written) url) /\
  (t_closer t <> CIdle -> exists t', rtc step t t' /\ t_closer t' = CDone).
Proof.
  apply tunnel_reaches_ok in Hreach as Hok. pose proof Hok as [H1 H2 H3 H4 H5 H6]. split_and!; [done| | | |].
  - unfold waiter_ok in H2. destruct (t_waiter t); [by left; destruct H2|destruct H2 as (_ & _ & Hs)|destruct H2 as (_ & Hs)..];
      destruct Hs as (err' & Hp & [[-> _]|(-> & _)]); auto; right; by exists err'.
  - intros Hend. assert (t_waited t = true) as Hwaited.
    { destruct Hend as [|[err He]]; [by apply H4|]. unfold starter_ok in H6. by rewrite He in H6. }
    destruct (waited_known t H2 Hwaited) as (err & Hp & [[_ He]|(_ & He & Hc & _)]); exists err; auto.
  - intros url Hu. unfold starter_ok in H6. by rewrite Hu in H6.
  - by apply close_finishes.
Qed.
End Tunnel.

(** ** A run: the URL is reported, then the process is interrupted *)

Definition demo_parse (raw : bytes) : result URL :=
  if raw ==b !"https://quick-demo.trycloudflare.com"
  then Ok {| Scheme := !"https"; Host := !"quick-demo.trycloudflare.com"; HasUser := false; Path := [];
             RawQuery := []; Fragment := []; ForceQuery := false |}
  else Err (EText !"parse").
Definition demo_string (u : URL) : bytes := Scheme u ++ !"://" ++ Host u.
Definition demo_output : bytes := !"INF | https://quick-demo.trycloudflare.com | ".

#[local] Abbreviation dstep := (tunnel_step demo_parse demo_string Host !"20s").

#[local] Abbreviation drun := (reachable (fun t => t = process_started) dstep).

(** The URL was reported and returned; [Close] has asked the process to end. *)
Lemma demo_run : exists t, drun t /\ t_closer t = CStopping /\
  t_starter t = SReturned (Ok !"https://quick-demo.trycloudflare.com") /\ t_output t = demo_output.
Proof.
  eexists. split.
  - eapply reachable_step; [|apply ts_signal].
    + eapply reachable_step; [|apply ts_close].
      * eapply reachable_step; [|apply ts_look].
        -- eapply reachable_step; [by apply reachable_init|by apply (ts_write _ _ _ _ _ demo_output)].
        -- done.
      * done.
      * right. by eexists.
    + done.
  - done.
Qed.

(** The URL is the tunnel's, and this [Close] can come to its end. *)
Lemma tunnel_never_orphaned_witness : exists t t', drun t /\ t_closer t = CStopping /\
  (exists written, written `prefix_of` demo_output /\
     only_origin demo_parse demo_string Host (lastn maxTunnelDiagnostics written) !"https://quick-demo.trycloudflare.com") /\
  rtc dstep t t' /\ t_closer t' = CDone.
Proof.
  destruct demo_run as (t & Hreach & Hc & Hs & Ho).
  destruct (tunnel_never_orphaned demo_parse demo_string Host !"20s" t Hreach) as (_ & _ & _ & Hurl & Hend).
  destruct Hend as (t' & Hsteps & Hdone); [by rewrite Hc|].
  exists t, t'. split_and!; try done. rewrite <- Ho. by apply Hurl.
Defined.

(** ** The version gate and the origin that is checked before *)

Example versions :
  map parseCloudflaredVersion [!"cloudflared version 2024.11.1 (built)"; !"2020.5.1"; !"cloudflared 2020.5.0"; !"v2024.1.1"; !"2021.1.x"]
  = [Ok !"2024.11.1"; Ok !"2020.5.1"; Err (EText !"cloudflared 2020.5.0 is older than required 2020.5.1");
     Err (EText !"cloudflared version could not be parsed"); Err (EText !"cloudflared version could not be parsed")].
Proof. vm_compute. reflexivity. Qed.
