(* ===== verification/ShareService.v ===== *)
(** * The share service (internal/share/service.go)

    [Run] takes a lease, makes the helper session, the mirror and the control
    server, publishes the record, and watches until something ends the share;
    its deferred calls undo what was done.  It is a program whose calls are
    those of the components; the operations of [serviceHandler] are a [Handler]
    of the control server. *)

From S2P Require Import Prelude Program GoString GoUnicode GoErrors GoPath GoOS Target InstanceName Store.
From S2P Require Import MirrorManager Control.
Open Scope Z_scope.

Definition completedArtifactRetention : Z := 32.

(** ** The handler *)

(** The interface [Mirror], as far as the handler uses it. *)
Class Mirror (M : Type) := {
  mirror_Snapshot : M -> Snapshot;
  mirror_ClientCount : M -> Z;
  mirror_Rotate : M -> option error * M
}.

Definition mirrorStateName (state : MirrorManager.State) : bytes :=
  match state with
  | StateStarting => !"starting"
  | StateReady => !"ready"
  | StateFailed => !"failed"
  | StateStopped => !"stopped"
  end.

Definition snapshotWarnings (snapshot : Snapshot) : bytes :=
  let warnings := (if negb (SnDiagnosticsWarning snapshot ==b []) then [SnDiagnosticsWarning snapshot] else []) ++
                  (if negb (SnCleanupWarning snapshot ==b []) then [SnCleanupWarning snapshot] else []) in
  join !"; " warnings.

(** [sh_world] is the file system the store works on. *)
Record serviceHandler (M : Type) := {
  sh_record : Record_; sh_store : Store; sh_mirror : M; sh_world : GoOS.world;
  sh_shutdown : bool; sh_canceled : bool
}.
Arguments sh_record {M}. Arguments sh_store {M}. Arguments sh_mirror {M}. Arguments sh_world {M}.
Arguments sh_shutdown {M}. Arguments sh_canceled {M}.
#[export] Instance eta_handler M : Eta (serviceHandler M) := fun h =>
  {| sh_record := sh_record h; sh_store := sh_store h; sh_mirror := sh_mirror h; sh_world := sh_world h;
     sh_shutdown := sh_shutdown h; sh_canceled := sh_canceled h |}.

Section Handler.
Context `{UnicodeTables} `{RecordCodec} {M : Type} `{Mirror M} (o : oracle).

Definition status_of (record : Record_) (m : M) : Status :=
  let snapshot := mirror_Snapshot m in
  {| StID := ID record; StName := Name record; Control.State := mirrorStateName (SnState snapshot);
     PairingURL := SnPairingURL snapshot; QR := SnQR snapshot; StDirectory := RecDirectory record;
     Clients := mirror_ClientCount m; StStartedAt := StartedAt record; StTarget := RecTarget record;
     Warning := snapshotWarnings snapshot |}.

Definition handler_Status (h : serviceHandler M) : Status := status_of (sh_record h) (sh_mirror h).

Definition handler_Rename (name : bytes) (h : serviceHandler M) : result Status * serviceHandler M :=
  let '(renamed, w) := RenameIfPID o (sh_store h) (ID (sh_record h)) (PID (sh_record h)) name (sh_world h) in
  let h := h <| sh_world := w |> in
  match renamed with
  | Err err => (Err err, h)
  | Ok false => (Err (EText !"wrap instance ownership changed"), h)
  | Ok true => let h := h <| sh_record := with_name (sh_record h) name |> in (Ok (handler_Status h), h)
  end.

Definition handler_Rotate (h : serviceHandler M) : result Status * serviceHandler M :=
  if negb (SnState (mirror_Snapshot (sh_mirror h)) ==b StateReady) then (Err (ESentinel ErrNotReady), h)
  else let '(err, m) := mirror_Rotate (sh_mirror h) in
       let h := h <| sh_mirror := m |> in
       match err with Some err => (Err err, h) | None => (Ok (handler_Status h), h) end.

Definition handler_Shutdown (h : serviceHandler M) : result () * serviceHandler M :=
  (Ok (), h <| sh_shutdown := true |> <| sh_canceled := true |>).

Definition service_handler : Handler (serviceHandler M) :=
  {| h_Status := handler_Status; h_Rename := handler_Rename; h_Rotate := handler_Rotate;
     h_Shutdown := handler_Shutdown |}.

(** The operations step by step: a rename holds the handler's own mutex [mu], a
    rotation and a shutdown let a status see what they have done so far. *)
Inductive service_at := ABegins (request : Request) | ARotating | ACanceling | AStatus | AReturns (r : result Status).
Definition service_next (at_ : service_at * serviceHandler M) : option (service_at * serviceHandler M) :=
  let '(l, h) := at_ in
  match l with
  | ABegins request =>
      Some (if Action request ==b ActionRename then
              let '(r, h) := handler_Rename (ReqName request) h in (AReturns r, h)
            else if Action request ==b ActionRotate then
              (if negb (SnState (mirror_Snapshot (sh_mirror h)) ==b StateReady)
               then AReturns (Err (ESentinel ErrNotReady)) else ARotating, h)
            else (ACanceling, h <| sh_shutdown := true |>))
  | ARotating =>
      let '(err, m) := mirror_Rotate (sh_mirror h) in
      Some (match err with Some err => AReturns (Err err) | None => AStatus end, h <| sh_mirror := m |>)
  | ACanceling => Some (AStatus, h <| sh_canceled := true |>)
  | AStatus => Some (AReturns (Ok (handler_Status h)), h)
  | AReturns _ => None
  end.
End Handler.

(** ** The calls of [Run] *)

Inductive wait_event := WaitCanceled (err : error) | WaitStopped (err : option error) | WaitTick.
Inductive round_event :=
| RunDone (err : error) | ControlDone (err : option error) | MirrorEvent (snapshot : option Snapshot)
| EventsClosed | Tick.

Inductive call :=
| CAcquireLease (s : Store) (id : bytes)
| CCreateHelper (t : Target) (id : bytes)
| CNewMirror (r : Record_)
| CMirrorStart
| CGoServe (path id : bytes)          (* the goroutine that serves the control socket *)
| CLstat (path : bytes)
| CWait                               (* the select of [waitForControl] *)
| CPublish (s : Store) (r : Record_)  (* [Store.Create] *)
| CStatus
| CReady (st : Status)
| CSelect (events : bool)             (* the select of the loop; whether [events] is not nil *)
| CShutdownRequested
| CValidate
| CCancelRun
| CAwaitControl                       (* receive from [controlDone], or time out *)
| CMirrorShutdown
| CHelperClose
| CPrune (s : Store) (retain : Z)
| CLeaseClose
| CRemoveIfPID (s : Store) (id : bytes) (pid : Z).

(** What a call returns; an [option error] where only the error matters. *)
Definition answer (c : call) : Type :=
  match c with
  | CAcquireLease _ _ | CCreateHelper _ _ | CNewMirror _ | CMirrorStart | CPublish _ _ | CReady _ | CValidate
  | CMirrorShutdown | CHelperClose | CPrune _ _ | CLeaseClose | CRemoveIfPID _ _ _ => option error
  | CGoServe _ _ | CCancelRun => unit
  | CLstat _ => result Info
  | CWait => wait_event
  | CStatus => Status
  | CSelect _ => round_event
  | CShutdownRequested => bool
  | CAwaitControl => option (option error)
  end.
Abbreviation sprog := (prog call answer).

(** ** [Run] *)

Section Run.
Context `{UnicodeTables}.

Definition with_pid (r : Record_) (pid : Z) : Record_ :=
  {| Version := Version r; ID := ID r; Name := Name r; PID := pid; ControlSocket := ControlSocket r;
     StartedAt := StartedAt r; RecDirectory := RecDirectory r; RecTarget := RecTarget r |}.

Record Options := { opt_record : Record_; opt_store : Store; opt_ready : bool (* [Ready] is not nil *) }.

(** The variables the deferred calls share. *)
Record progress := { retErr : option error; cleanupErr : option error; published : bool }.
Definition returns (published : bool) (err : option error) : progress :=
  {| retErr := err; cleanupErr := None; published := published |}.
Definition joinCleanupError (err : option error) (p : progress) : progress :=
  {| retErr := errors_join [retErr p; err]; cleanupErr := errors_join [cleanupErr p; err]; published := published p |}.
Definition joinRetErr (err : option error) (p : progress) : progress :=
  {| retErr := errors_join [retErr p; err]; cleanupErr := cleanupErr p; published := published p |}.

Definition closing (c : sprog (option error)) (p : progress) : sprog progress :=
  err ← c; mret (joinCleanupError err p).

(** [waitForControl]; [None]: still waiting after [fuel] rounds. *)
Fixpoint waitForControl (fuel : nat) (path : bytes) : sprog (option (option error)) :=
  match fuel with
  | O => mret None
  | S fuel =>
      info ← ask (CLstat path);
      if match info with Ok i => is_socket i | Err _ => false end then mret (Some None) else
      e ← ask CWait;
      match e with
      | WaitCanceled err => mret (Some (Some err))
      | WaitStopped None => mret (Some (Some (EText !"wrap control server stopped before readiness")))
      | WaitStopped (Some err) => mret (Some (Some (wrapf !"start Wrap control server: " err)))
      | WaitTick => waitForControl fuel path
      end
  end.

(** The loop of [Run]; [None]: still running after [fuel] rounds. *)
Fixpoint watch (fuel : nat) (events : bool) : sprog (option (option error)) :=
  match fuel with
  | O => mret None
  | S fuel =>
      e ← ask (CSelect events);
      match e with
      | RunDone err =>
          requested ← ask CShutdownRequested;
          mret (Some (if requested : bool then None else Some err))
      | ControlDone err =>
          requested ← ask CShutdownRequested;
          mret (Some (if requested && match err with None => true | Some _ => false end then None else
                      match err with
                      | None => Some (EText !"wrap control server stopped")
                      | Some err => Some (wrapf !"wrap control server: " err)
                      end))
      | EventsClosed => watch fuel false
      | MirrorEvent (Some snapshot) =>
          if SnState snapshot ==b StateFailed
          then mret (Some (Some (EText (if SnErr snapshot ==b [] then !"mirror failed" else SnErr snapshot))))
          else watch fuel events
      | MirrorEvent None => watch fuel events
      | Tick =>
          err ← ask CValidate;
          match err with
          | Some err => mret (Some (Some (wrapf !"validate Wrap target: " err)))
          | None => watch fuel events
          end
      end
  end.

Definition ended (published : bool) (r : option (option error)) : option progress :=
  match r with Some err => Some (returns published err) | None => None end.

Section Body.
Variables (fuel : nat) (options : Options) (record : Record_).

(** With the control server's goroutine: until the control socket is there,
    publication, readiness, the loop. *)
Definition serve : sprog (option progress) :=
  w ← waitForControl fuel (ControlSocket record);
  match w with
  | None => mret None
  | Some (Some err) => mret (Some (returns false (Some err)))
  | Some None =>
      err ← ask (CPublish (opt_store options) record);
      match (err : option error) with
      | Some err => mret (Some (returns false (Some (wrapf !"publish Wrap instance: " err))))
      | None =>
          err ← (if opt_ready options then st ← ask CStatus; ask (CReady st) else mret None);
          match (err : option error) with
          | Some err => mret (Some (returns true (Some (wrapf !"report Wrap readiness: " err))))
          | None => r ← watch fuel true; mret (ended true r)
          end
      end
  end.

(** The deferred wait for the control server. *)
Definition stop_control (p : progress) : sprog progress :=
  _ ← ask CCancelRun;
  e ← ask CAwaitControl;
  mret match e with
       | Some (Some err) => if errors_is ContextCanceled err then p else joinCleanupError (Some err) p
       | Some None => p
       | None => joinCleanupError (Some (EText !"control server did not stop")) p
       end.

Definition with_control : sprog (option progress) :=
  deferring
    (deferring (_ ← ask (CGoServe (ControlSocket record) (ID record)); serve) stop_control)
    (fun p => _ ← ask CCancelRun; mret p).

Definition fail_with (err : error) : sprog (option progress) := mret (Some (returns false (Some err))).

Definition with_mirror : sprog (option progress) :=
  err ← ask (CNewMirror record);
  match (err : option error) with
  | Some err => fail_with (wrapf !"create Wrap mirror: " err)
  | None =>
      deferring
        (err ← ask CMirrorStart;
         match (err : option error) with
         | Some err => fail_with (wrapf !"start Wrap mirror: " err)
         | None => with_control
         end)
        (closing (ask CMirrorShutdown))
  end.

Definition with_helper : sprog (option progress) :=
  err ← ask (CCreateHelper (RecTarget record) (ID record));
  match (err : option error) with
  | Some err => fail_with (wrapf !"create Wrap tmux helper: " err)
  | None => deferring with_mirror (closing (ask CHelperClose))
  end.

(** The first deferred function, which is the last to run. *)
Definition remove_record (p : progress) : sprog progress :=
  if negb (published p) || negb (cleanupErr p ==b None) then mret p else
  err ← ask (CRemoveIfPID (opt_store options) (ID record) (PID record));
  mret (joinRetErr err p).

Definition prune (p : progress) : sprog progress :=
  err ← ask (CPrune (opt_store options) completedArtifactRetention);
  mret (joinRetErr err p).

Definition with_lease : sprog (option progress) :=
  deferring (deferring (deferring with_helper prune) (closing (ask CLeaseClose))) remove_record.
End Body.

(** [ctx]: the context is not nil; [pid]: [os.Getpid]. *)
Definition Run (fuel : nat) (ctx : bool) (options : Options) (pid : Z) : sprog (option progress) :=
  if negb ctx then fail_with (EText !"share context is required") else
  let record := with_pid (opt_record options) pid in
  match Record_Validate record with
  | Some err => fail_with (wrapf !"validate Wrap instance: " err)
  | None =>
  if StateRoot (opt_store options) ==b [] then fail_with (EText !"wrap instance store is required") else
  match ForRecord (opt_store options) record with
  | Err err => fail_with (wrapf !"resolve Wrap worker runtime: " err)
  | Ok workerStore =>
      err ← ask (CAcquireLease workerStore (ID record));
      match (err : option error) with
      | Some err => fail_with (wrapf !"acquire Wrap worker lease: " err)
      | None => with_lease fuel options record
      end
  end
  end.
End Run.
