(* ===== verification/ShareServiceProps.v ===== *)
(** * The share service undoes what it did

    Whatever its calls answer, a finished [Run] has undone its acquisitions in
    reverse order, and removed the record only when nothing was left behind. *)

From S2P Require Import Prelude Program GoString GoUnicode GoErrors GoPath GoOS Target InstanceName Store PlainCodec.
From S2P Require Import MirrorManager Control ShareService.
Open Scope Z_scope.

(** ** Acquisitions, endings and failures in a trace *)

(** [RStarted]: the mirror was started; shutting it down undoes that too. *)
Inductive resource := RLease | RHelper | RMirror | RStarted | RControl.
Inductive ending := CancelRun | AwaitControl | ShutMirror | CloseHelper | PruneArtifacts | CloseLease.

#[local] Abbreviation sevent := (event call answer).

Definition acquired (e : sevent) : option resource :=
  let 'existT c r := e in
  match c return answer c -> option resource with
  | CAcquireLease _ _ => fun err => match err with None => Some RLease | Some _ => None end
  | CCreateHelper _ _ => fun err => match err with None => Some RHelper | Some _ => None end
  | CNewMirror _ => fun err => match err with None => Some RMirror | Some _ => None end
  | CMirrorStart => fun err => match err with None => Some RStarted | Some _ => None end
  | CGoServe _ _ => fun _ => Some RControl
  | _ => fun _ => None
  end r.

Definition ending_of (e : sevent) : option ending :=
  match projT1 e with
  | CCancelRun => Some CancelRun
  | CAwaitControl => Some AwaitControl
  | CMirrorShutdown => Some ShutMirror
  | CHelperClose => Some CloseHelper
  | CPrune _ _ => Some PruneArtifacts
  | CLeaseClose => Some CloseLease
  | _ => None
  end.

Definition undo (x : resource) : list ending :=
  match x with
  | RLease => [PruneArtifacts; CloseLease]
  | RHelper => [CloseHelper]
  | RMirror => [ShutMirror]
  | RStarted => []
  | RControl => [CancelRun; AwaitControl; CancelRun]
  end.
(** In reverse order of acquisition. *)
Definition undo_all (xs : list resource) : list ending := flat_map undo (reverse xs).

(** What went wrong in giving a resource back: the control server's own
    cancellation is expected. *)
Definition close_failure (e : sevent) : option error :=
  let 'existT c r := e in
  match c return answer c -> option error with
  | CMirrorShutdown | CHelperClose | CLeaseClose => fun err => err
  | CAwaitControl => fun e =>
      match e with
      | Some (Some err) => if errors_is ContextCanceled err then None else Some err
      | Some None => None
      | None => Some (EText !"control server did not stop")
      end
  | _ => fun _ => None
  end r.
(** With the failures that do not keep the record. *)
Definition failure (e : sevent) : option error :=
  let 'existT c r := e in
  match c return answer c -> option error with
  | CPrune _ _ | CRemoveIfPID _ _ _ => fun err => err
  | c => fun r => close_failure (ev c r)
  end r.

(** What went wrong in doing things, when a shutdown was [requested] or not: a
    call that fails, the control server that ends, the mirror that fails.  The
    end of the context, and of the control server without an error, are what a
    requested shutdown comes to. *)
Definition body_failure (requested : bool) (e : sevent) : option error :=
  let 'existT c r := e in
  match c return answer c -> option error with
  | CAcquireLease _ _ | CCreateHelper _ _ | CNewMirror _ | CMirrorStart | CPublish _ _ | CReady _ | CValidate =>
      fun err => err
  | CWait => fun e =>
      match e with
      | WaitCanceled err | WaitStopped (Some err) => Some err
      | WaitStopped None => Some (EText !"wrap control server stopped before readiness")
      | WaitTick => None
      end
  | CSelect _ => fun e =>
      match e with
      | RunDone err => if requested then None else Some err
      | ControlDone (Some err) => Some err
      | ControlDone None => if requested then None else Some (EText !"wrap control server stopped")
      | MirrorEvent (Some snapshot) =>
          if SnState snapshot ==b StateFailed
          then Some (EText (if SnErr snapshot ==b [] then !"mirror failed" else SnErr snapshot)) else None
      | MirrorEvent None | EventsClosed | Tick => None
      end
  | _ => fun _ => None
  end r.
Definition requests (e : sevent) : bool :=
  let 'existT c r := e in
  match c return answer c -> bool with CShutdownRequested => fun requested => requested | _ => fun _ => false end r.

(** [err] tells all that went wrong in [t]. *)
Definition told (err : option error) (t : list sevent) : Prop :=
  Forall (fun e => forall err', body_failure (existsb requests t) e = Some err' -> reported err' err) t.

Lemma body_failure_mono b b' e err : body_failure (b || b') e = Some err ->
  body_failure b e = Some err /\ body_failure b' e = Some err.
Proof. destruct e as [[] r]; cbn; try done. destruct r as [|[]|[]| |], b, b'; done. Qed.

Lemma told_app err t1 t2 : told err t1 -> told err t2 -> told err (t1 ++ t2).
Proof.
  unfold told. rewrite existsb_app. intros H1 H2. apply Forall_app.
  split; eapply Forall_impl; [exact H1| |exact H2|]; cbn; intros e He err' [? ?]%body_failure_mono; auto.
Qed.

Lemma told_one err e : (forall err', body_failure false e = Some err' -> reported err' err) -> told err [e].
Proof.
  intros He. apply Forall_singleton. cbn. intros err' Hf. apply He.
  destruct (requests e); [by apply (body_failure_mono true false)|done].
Qed.

Definition tells (err : option error) (e : sevent) : Prop :=
  forall err', body_failure false e = Some err' -> reported err' err.

Lemma told_all err t : Forall (tells err) t -> told err t.
Proof. induction 1; [by apply Forall_nil|]. by apply (told_app err [x]); [apply told_one|]. Qed.

Lemma told_cons err e t : (forall err', body_failure false e = Some err' -> reported err' err) -> told err t ->
  told err (e :: t).
Proof. intros He Ht. apply (told_app err [e]); [by apply told_one|done]. Qed.

Lemma told_keeps err err' t : (forall e, reported e err -> reported e err') -> told err t -> told err' t.
Proof. intros Hk Ht. eapply Forall_impl; [exact Ht|]. cbn. auto. Qed.

Lemma told_nothing err t : told None t -> told err t.
Proof. apply told_keeps. by intros e (? & [=] & _). Qed.

Lemma join_two_none a b : errors_join [a; b] = None <-> a = None /\ b = None.
Proof. rewrite errors_join_None, !Forall_cons. by intuition. Qed.

Lemma undo_all_cons x xs : undo_all (x :: xs) = undo_all xs ++ undo x.
Proof. unfold undo_all. by rewrite reverse_cons, flat_map_app; cbn; rewrite app_nil_r. Qed.

Definition is_publish (e : sevent) : bool := match projT1 e with CPublish _ _ => true | _ => false end.
Definition publishes (e : sevent) : bool :=
  let 'existT c r := e in
  match c return answer c -> bool with
  | CPublish _ _ => fun err => match err with None => true | Some _ => false end
  | _ => fun _ => false
  end r.
Definition socket_seen (path : bytes) (t : list sevent) : Prop :=
  exists i, ev (CLstat path) (Ok i) ∈ t /\ is_socket i = true.

(** ** Layers

    A finished part of [Run]: [t1] took [res], the first of [chain], and [t2]
    gave it back; the record is published when all of [chain] is held. *)

Section Layers.
Context `{UnicodeTables}.
Variables (fuel : nat) (options : Options) (record : Record_).

Record layer (chain res : list resource) (t1 t2 : list sevent) (p : progress) : Prop := {
  l_chain : res `prefix_of` chain;
  l_acquired : omap acquired t1 = res;
  l_before : Forall (fun e => ending_of e = None /\ failure e = None) t1;
  l_after : map ending_of t2 = map Some (undo_all res);
  l_clean : cleanupErr p = None <-> omap close_failure t2 = [];
  l_reported : Forall (fun e => forall err, failure e = Some err -> reported err (retErr p)) t2;
  l_told : told (retErr p) t1;
  l_nil : retErr p = None -> ev CShutdownRequested true ∈ t1;
  l_published : published p = existsb publishes t1;
  l_order : forall a e b, t1 = a ++ e :: b -> is_publish e = true ->
    projT1 e = CPublish (opt_store options) record /\ omap acquired a = chain /\ socket_seen (ControlSocket record) a
}.
Definition layered (chain : list resource) (t : list sevent) (p : progress) : Prop :=
  exists res t1 t2, t = t1 ++ t2 /\ layer chain res t1 t2 p.

(** What the deferred call that gives [x] back does. *)
Record closes (x : resource) (t : list sevent) (p p' : progress) : Prop := {
  c_ending : map ending_of t = map Some (undo x);
  c_clean : cleanupErr p' = None <-> cleanupErr p = None /\ omap close_failure t = [];
  c_keeps : forall err, reported err (retErr p) -> reported err (retErr p');
  c_reported : Forall (fun e => forall err, failure e = Some err -> reported err (retErr p')) t;
  c_nil : retErr p' = None -> retErr p = None;
  c_published : published p' = published p
}.

(** An event that takes and gives nothing. *)
Definition inner (e : sevent) : Prop :=
  acquired e = None /\ ending_of e = None /\ failure e = None /\ is_publish e = false.

Lemma split_publish e t1 a e' b : is_publish e = false -> is_publish e' = true ->
  e :: t1 = a ++ e' :: b -> exists a', a = e :: a' /\ t1 = a' ++ e' :: b.
Proof. intros He He' Ht. destruct a as [|x a']; simplify_eq/=; [congruence|]. by exists a'. Qed.

Lemma not_publish e : is_publish e = false -> publishes e = false.
Proof. destruct e as [[] r]; cbn; done. Qed.

Lemma layer_take e x t1 t2 t3 chain res p p' : acquired e = Some x -> closes x t3 p p' ->
  layer chain res t1 t2 p -> layer (x :: chain) (x :: res) (e :: t1) (t2 ++ t3) p'.
Proof.
  intros He [C1 C2 C3 C4 C5 C6] [L0 L1 L2 L3 L4 L5 LT L6 L7 L8].
  assert (ending_of e = None /\ failure e = None /\ is_publish e = false /\ body_failure false e = None)
    as (Hend & Hfail & Hpub & Hbody).
  { destruct e as [[] r]; cbn in He; try done; by destruct r. }
  split.
  - by apply prefix_cons.
  - cbn. by rewrite He, L1.
  - by constructor.
  - by rewrite map_app, L3, C1, undo_all_cons, map_app.
  - rewrite C2, L4, omap_app. split; [by intros [-> ->]|by apply app_nil].
  - apply Forall_app. split; [|done]. eapply Forall_impl; [exact L5|]. cbn. auto.
  - apply told_cons; [by rewrite Hbody|]. by eapply told_keeps.
  - intros Hn. right. auto.
  - cbn. by rewrite C6, L7, (not_publish e Hpub).
  - intros a e' b Ht Hp. destruct (split_publish _ _ _ _ _ Hpub Hp Ht) as (a' & -> & Ht').
    destruct (L8 a' e' b Ht' Hp) as (? & Ha & i & Hi & Hs). split_and!; [done|by cbn; rewrite He, Ha|].
    exists i. split; [by right|done].
Qed.

Lemma layer_inner e t1 t2 chain res p : inner e -> tells (retErr p) e -> layer chain res t1 t2 p ->
  layer chain res (e :: t1) t2 p.
Proof.
  intros (He & Hend & Hfail & Hpub) Htell [L0 L1 L2 L3 L4 L5 LT L6 L7 L8]. split; try done.
  - cbn. by rewrite He.
  - by constructor.
  - by apply told_cons.
  - intros Hn. right. auto.
  - cbn. by rewrite (not_publish e Hpub).
  - intros a e' b Ht Hp. destruct (split_publish _ _ _ _ _ Hpub Hp Ht) as (a' & -> & Ht').
    destruct (L8 a' e' b Ht' Hp) as (? & Ha & i & Hi & Hs). split_and!; [done|by cbn; rewrite He|].
    exists i. split; [by right|done].
Qed.

Lemma layered_inner e chain t p : inner e -> tells (retErr p) e -> layered chain t p -> layered chain (e :: t) p.
Proof. intros He Htell (res & t1 & t2 & -> & Hl). exists res, (e :: t1), t2. split; [done|by apply layer_inner]. Qed.

Lemma layered_fail chain err : layered chain [] (returns false (Some err)).
Proof.
  exists [], [], []. split; [done|]. split; try done; [apply prefix_nil|by apply Forall_nil|by intros [] ???].
Qed.

(** A call that fails ends its part with its error. *)
Lemma layered_failed chain e before err after : inner e -> body_failure false e = Some err ->
  layered chain [e] (returns false (Some (EWrap before err after))).
Proof.
  intros He Hf. apply layered_inner; [done| |apply layered_fail]. intros err'. rewrite Hf. intros [= ->].
  apply reported_wrap.
Qed.

Lemma layered_take e x chain t t3 p p' : acquired e = Some x -> closes x t3 p p' -> layered chain t p ->
  layered (x :: chain) (e :: t ++ t3) p'.
Proof.
  intros He Hc (res & t1 & t2 & -> & Hl). exists (x :: res), (e :: t1), (t2 ++ t3).
  split; [by rewrite <- app_assoc|by eapply layer_take].
Qed.

Lemma inner_facts t : Forall inner t ->
  omap acquired t = [] /\ Forall (fun e => ending_of e = None /\ failure e = None) t /\
  existsb publishes t = false /\ forall e, e ∈ t -> is_publish e = false.
Proof.
  induction 1 as [|e t (Ha & He & Hf & Hp) Ht (IH1 & IH2 & IH3 & IH4)]; [by split_and!; try intros ? ?%not_elem_of_nil|].
  split_and!; cbn; [by rewrite Ha|by constructor|by rewrite (not_publish e Hp)|].
  intros e' [->|]%elem_of_cons; auto.
Qed.

Lemma split_at_publish w e t a e' b : (forall x, x ∈ w -> is_publish x = false) ->
  (forall x, x ∈ t -> is_publish x = false) -> is_publish e' = true ->
  w ++ e :: t = a ++ e' :: b -> a = w /\ e' = e.
Proof.
  intros Hw Ht He'. revert a. induction w as [|x w IH]; intros a Heq; destruct a as [|y a]; simplify_eq/=.
  - done.
  - assert (is_publish e' = false); [apply Ht|congruence]. apply elem_of_app. right. by left.
  - assert (is_publish e' = false); [apply Hw; by left|congruence].
  - destruct (IH (fun x Hx => Hw x ltac:(by right)) a) as [-> ->]; done.
Qed.

(** The published part: the socket was there before. *)
Lemma layered_publish w x t err : Forall inner w -> socket_seen (ControlSocket record) w -> Forall inner t ->
  (forall err', x = Some err' -> reported err' err) -> Forall (tells None) w -> told err t ->
  (err = None -> ev CShutdownRequested true ∈ t) ->
  layered [] (w ++ ev (CPublish (opt_store options) record) x :: t)
    (returns (match x with None => true | Some _ => false end) err).
Proof.
  intros Hw Hs Ht Hx Hw' Ht' Hn. apply inner_facts in Hw as (W1 & W2 & W3 & W4). apply inner_facts in Ht as (T1 & T2 & T3 & T4).
  exists [], (w ++ ev (CPublish (opt_store options) record) x :: t), []. split; [by rewrite app_nil_r|].
  split; cbn; try done.
  - rewrite omap_app, W1. done.
  - apply Forall_app. split; [done|]. by constructor.
  - apply told_app; [by apply told_nothing, told_all|]. by apply told_cons.
  - intros He. rewrite elem_of_app, elem_of_cons. auto.
  - rewrite existsb_app, W3. cbn. rewrite T3. by destruct x.
  - intros a e b Heq Hp. destruct (split_at_publish _ _ _ _ _ _ W4 T4 Hp Heq) as [-> ->]. by split_and!.
Qed.

(** ** The waits and the loop *)

Ltac inner := repeat (apply Forall_cons; split; [by split_and!|]); try done.


Ltac one_tells := unfold tells; cbn; intros ? [= <-]; eauto using reported_self, reported_wrap.

Lemma wait_round f path r t1 info :
  (forall t, runs (waitForControl f path) t (Some r) -> Forall inner t /\ Forall (tells r) t /\ (r = None -> socket_seen path t)) ->
  runs (e ← ask CWait;
        match e with
        | WaitCanceled err => mret (Some (Some err))
        | WaitStopped None => mret (Some (Some (EText !"wrap control server stopped before readiness")))
        | WaitStopped (Some err) => mret (Some (Some (wrapf !"start Wrap control server: " err)))
        | WaitTick => waitForControl f path
        end) t1 (Some r) ->
  Forall inner (ev (CLstat path) info :: t1) /\ Forall (tells r) (ev (CLstat path) info :: t1) /\
    (r = None -> socket_seen path (ev (CLstat path) info :: t1)).
Proof.
  intros IH Hw. unask Hw e t.
  destruct e as [err|[err|]|]; [unret Hw; split_and!; [by inner|apply Forall_cons; split; [done|]; apply Forall_singleton; one_tells|done]..|].
  destruct (IH t Hw) as (Ht & Htold & Hs). split_and!; [by inner|by do 2 (apply Forall_cons; split; [done|])|].
  intros Hr. destruct (Hs Hr) as (i & Hi & ?). exists i. split; [by do 2 right|done].
Qed.

Lemma wait_spec f path r : forall t, runs (waitForControl f path) t (Some r) ->
  Forall inner t /\ Forall (tells r) t /\ (r = None -> socket_seen path t).
Proof.
  induction f as [|f IH]; intros t; [by intros [_ [=]]|]. cbn [waitForControl].
  intros Hw. unask Hw info t1. destruct info as [i|e]; [destruct (is_socket i) eqn:Hi|].
  - unret Hw. split_and!; [by inner|by apply Forall_singleton|]. intros _. exists i. by split; [left|].
  - by eapply wait_round.
  - by eapply wait_round.
Qed.

(** The end of the loop, after the answer to whether a shutdown was asked for. *)
Lemma told_asked events e requested r :
  (forall err, body_failure requested (ev (CSelect events) e) = Some err -> reported err r) ->
  told r [ev (CSelect events) e; ev CShutdownRequested requested].
Proof.
  intros He. repeat constructor; cbn; [|done]. rewrite orb_false_r. exact He.
Qed.

Lemma watch_spec f : forall events t r, runs (watch f events) t (Some r) ->
  Forall inner t /\ told r t /\ (r = None -> ev CShutdownRequested true ∈ t).
Proof.
  induction f as [|f IH]; intros events t r; [by intros [_ [=]]|]. cbn [watch].
  intros Hw. unask Hw e t1.
  assert (forall b t', body_failure false (ev (CSelect events) e) = None -> runs (watch f b) t' (Some r) -> t1 = t' ->
            Forall inner (ev (CSelect events) e :: t1) /\ told r (ev (CSelect events) e :: t1) /\
            (r = None -> ev CShutdownRequested true ∈ ev (CSelect events) e :: t1)) as Hagain.
  { intros b t' Hf Ht' ->. destruct (IH b t' r Ht') as (Hi & Ht & Hr).
    split_and!; [by inner|apply told_cons; [by rewrite Hf|done]|]. intros Hn. right. auto. }
  destruct e as [err|err|[snapshot|]| |].
  - unask Hw requested t2. unret Hw. split_and!; [by inner| |].
    + apply told_asked. cbn. destruct requested; intros ? [= <-]; eauto using reported_self.
    + destruct requested; [|done]. intros _. right. left.
  - unask Hw requested t2. unret Hw. split_and!; [by inner| |].
    + apply told_asked. destruct err, requested; cbn; intros ? [= <-]; eauto using reported_self, reported_wrap.
    + destruct requested; [|by destruct err]. intros _. right. left.
  - case_match eqn:Hs; [unret Hw; split_and!; [by inner| |done]|eapply Hagain; [|done..]; cbn; by rewrite Hs].
    apply told_one. cbn. rewrite Hs. intros ? [= <-]. apply reported_self.
  - by eapply Hagain.
  - by eapply Hagain.
  - unask Hw verr t2. destruct verr as [verr|].
    + unret Hw. split_and!; [by inner|apply told_cons; [done|apply told_one; one_tells]|done].
    + destruct (IH events t2 r Hw) as (Hi & Ht & Hr). split_and!; [by inner|by do 2 (apply told_cons; [done|])|].
      intros Hn. do 2 right. auto.
Qed.

Lemma ready_spec t err : runs (if opt_ready options then st ← ask CStatus; ask (CReady st) else mret None) t err ->
  Forall inner t /\ forall before after, told (match err with Some e => Some (EWrap before e after) | None => None end) t.
Proof.
  destruct (opt_ready options); [|by intros [-> ->]; split; [|intros; apply Forall_nil]].
  intros (st & t1 & -> & (e & t2 & -> & [-> ->]))%runs_ask. split; [by inner|]. intros before after.
  apply told_cons; [done|]. apply told_one. cbn. intros ? ->. apply reported_wrap.
Qed.

Lemma layered_inners chain t t' p : Forall inner t -> Forall (tells (retErr p)) t -> layered chain t' p -> layered chain (t ++ t') p.
Proof. induction 1; [done|]. intros [? ?]%Forall_cons Hl. apply layered_inner; auto. Qed.

Lemma serve_layered t p : runs (serve fuel options record) t (Some p) -> layered [] t p.
Proof.
  intros (w & t1 & r & -> & Hw & Hs)%runs_bind. destruct r as [r|]; [|by apply runs_ret in Hs as [_ [=]]].
  apply wait_spec in Hw as (Hin & Htold & Hsock). destruct r as [err|].
  - unret Hs. apply layered_inners; [done..|]. apply layered_fail.
  - unask Hs err t2. specialize (Hsock eq_refl).
    destruct err as [err|].
    { unret Hs. apply (layered_publish w (Some err) [] (Some _)); try done; [|by apply Forall_nil].
      intros ? [= <-]. apply reported_wrap. }
    apply runs_bind in Hs as (t3 & t4 & err & -> & Hr & Hs). apply ready_spec in Hr as [H3 Htold3].
    destruct err as [err|].
    + unret Hs. rewrite app_nil_r. apply (layered_publish w None t3 (Some _)); try done. apply Htold3.
    + apply runs_bind in Hs as (t5 & t6 & r & -> & Hr' & Hs). destruct r as [r|]; [|by apply runs_ret in Hs as [_ [=]]].
      unret Hs. apply watch_spec in Hr' as (Hi & Ht & Hn). rewrite app_nil_r.
      apply (layered_publish w None); try done.
      * by apply Forall_app.
      * apply told_app; [|done]. by apply told_nothing, (Htold3 [] []).
      * intros ->. apply elem_of_app. auto.
Qed.

(** ** The deferred calls *)

Lemma closes_join x e err p : map ending_of [e] = map Some (undo x) -> close_failure e = err -> failure e = err ->
  closes x [e] p (joinCleanupError err p).
Proof.
  intros He Hc Hf. split; cbn [retErr cleanupErr published joinCleanupError]; try done.
  - rewrite join_two_none. cbn. rewrite Hc. by destruct err; intuition.
  - intros err'. apply joined_left.
  - apply Forall_singleton. rewrite Hf. intros ? ->. apply joined_right.
  - by intros [? _]%join_two_none.
Qed.

Lemma closes_control p t p' : runs (stop_control p) t p' -> closes RControl (t ++ [ev CCancelRun ()]) p p'.
Proof.
  intros Hs. unask Hs u t1. unask Hs e t2. apply runs_ret in Hs as [-> ->].
  assert (Hsame : close_failure (ev CAwaitControl e) = None ->
    closes RControl ([ev CCancelRun u; ev CAwaitControl e] ++ [ev CCancelRun ()]) p p).
  { intros He. split; cbn [app map omap list_omap close_failure failure]; try done.
    - cbn in He |- *. rewrite He. by intuition.
    - repeat constructor; intros err Hf; cbn in Hf, He; [done|congruence|done]. }
  assert (Hjoin : forall err, close_failure (ev CAwaitControl e) = Some err ->
    closes RControl ([ev CCancelRun u; ev CAwaitControl e] ++ [ev CCancelRun ()]) p (joinCleanupError (Some err) p)).
  { intros err He. split; try done.
    - cbn in He |- *. rewrite He, join_two_none. by intuition.
    - intros err'. apply joined_left.
    - repeat constructor; intros err' Hf; cbn in Hf, He; [done| |done].
      assert (err' = err) as -> by congruence. apply joined_right.
    - by intros [? _]%join_two_none. }
  destruct e as [[err|]|]; [|by apply Hsame|by apply Hjoin].
  case_match eqn:Hc; [apply Hsame|apply Hjoin]; cbn; by rewrite Hc.
Qed.

Lemma closes_lease p p1 t1 p2 t2 : runs (prune options p) t1 p1 -> runs (closing (ask CLeaseClose) p1) t2 p2 ->
  closes RLease (t1 ++ t2) p p2.
Proof.
  intros Hp Hl. unask Hp e1 t3. apply runs_ret in Hp as [-> ->]. unask Hl e2 t4. apply runs_ret in Hl as [-> ->].
  split; cbn [retErr cleanupErr published joinCleanupError joinRetErr]; try done.
  - rewrite join_two_none. cbn. by destruct e2; intuition.
  - intros err Hr. by do 2 apply joined_left.
  - repeat constructor; intros err; cbn; intros ->.
    + apply joined_left, joined_right.
    + apply joined_right.
  - by intros [[? _]%join_two_none _]%join_two_none.
Qed.

(** ** The parts of [Run] *)

Lemma control_layered t p : runs (with_control fuel options record) t (Some p) -> layered [RControl] t p.
Proof.
  intros (t1 & t2 & p1 & -> & (t3 & t4 & p2 & -> & Hs & Hc)%runs_deferring & Hd)%runs_deferring.
  unask Hs u t5. unask Hd u' t6. apply runs_ret in Hd as [-> ->].
  cbn. rewrite <- app_assoc. destruct u'. eapply (layered_take _ RControl); [done| |by apply serve_layered].
  by apply closes_control.
Qed.

Lemma mirror_layered t p : runs (with_mirror fuel options record) t (Some p) -> layered [RMirror; RStarted; RControl] t p.
Proof.
  intros Hm. unask Hm err t1. destruct err as [err|]; [unret Hm; by apply layered_failed|].
  apply runs_deferring in Hm as (t2 & t3 & p1 & -> & Hs & Hc).
  unask Hc err t4. apply runs_ret in Hc as [-> ->].
  eapply (layered_take _ RMirror); [done|by apply closes_join|].
  unask Hs serr t5. destruct serr as [serr|]; [unret Hs; by apply layered_failed|].
  rewrite <- (app_nil_r t5). eapply (layered_take _ RStarted); [done| |by apply control_layered].
  split; try done. by intuition.
Qed.

Lemma helper_layered t p : runs (with_helper fuel options record) t (Some p) -> layered [RHelper; RMirror; RStarted; RControl] t p.
Proof.
  intros Hm. unask Hm err t1. destruct err as [err|]; [unret Hm; by apply layered_failed|].
  apply runs_deferring in Hm as (t2 & t3 & p1 & -> & Hs & Hc).
  unask Hc err t4. apply runs_ret in Hc as [-> ->].
  eapply (layered_take _ RHelper); [done|by apply closes_join|]. by apply mirror_layered.
Qed.
End Layers.

Definition everything : list resource := [RLease; RHelper; RMirror; RStarted; RControl].

(** The deferred removal of the record. *)
Definition removal (options : Options) (pid : Z) (t : list sevent) (p p' : progress) : Prop :=
  if published p && (cleanupErr p ==b None)
  then exists err, t = [ev (CRemoveIfPID (opt_store options) (ID (opt_record options)) pid) err] /\ p' = joinRetErr err p
  else t = [] /\ p' = p.

Lemma run_layered `{UnicodeTables} fuel ctx options pid t p : runs (Run fuel ctx options pid) t (Some p) ->
  exists t' t3 p', t = t' ++ t3 /\ layered options (with_pid (opt_record options) pid) everything t' p' /\
    removal options pid t3 p' p.
Proof.
  assert (forall t err, runs (fail_with err) t (Some p) ->
    exists t' t3 p', t = t' ++ t3 /\ layered options (with_pid (opt_record options) pid) everything t' p' /\
      removal options pid t3 p' p) as Hfail.
  { intros t' err Ht. unret Ht. exists [], [], (returns false (Some err)). split_and!; [done|apply layered_fail|done]. }
  unfold Run. intros Hrun. destruct ctx; cbn [negb] in Hrun; [|by eapply Hfail].
  destruct (Record_Validate _); [by eapply Hfail|]. case_bool_decide; [by eapply Hfail|].
  destruct (ForRecord _ _) as [ws|]; [|by eapply Hfail]. unask Hrun err t1. destruct err as [err|].
  - unret Hrun. exists [ev (CAcquireLease ws (ID (with_pid (opt_record options) pid))) (Some err)], [],
      (returns false (Some (wrapf !"acquire Wrap worker lease: " err))).
    split_and!; [done|by apply layered_failed|done].
  - apply runs_deferring in Hrun as (t2 & t3 & p1 & -> & Hl & Hd).
    apply runs_deferring in Hl as (t4 & t5 & p2 & -> & Hp & Hl).
    apply runs_deferring in Hp as (t6 & t7 & p3 & -> & Hh & Hp).
    exists (ev (CAcquireLease ws (ID (with_pid (opt_record options) pid))) None :: t6 ++ (t7 ++ t5)), t3, p1.
    split_and!; [by rewrite !app_assoc| |].
    + eapply (layered_take _ _ _ RLease); [done|by eapply closes_lease|by eapply helper_layered].
    + unfold ShareService.remove_record in Hd. unfold removal.
      destruct (published p1), (cleanupErr p1 ==b None); cbn [negb orb andb] in Hd |- *;
        [unask Hd err t8; apply runs_ret in Hd as [-> ->]; by exists err|by apply runs_ret in Hd..].
Qed.

(** C3: the share service undoes what it did.  Whatever the calls answer, a
    [Run] that returns first did things ([t1]) and then undid exactly what it
    had acquired, in reverse order ([t2]), and removed its record if and only if
    it had been published and everything was given back without an error
    ([t3]).  Every failure is part of the error it returns: of the calls that do
    things (the lease, the helper, the mirror and its start, the wait for the
    control server, the publication, the readiness, the target's validation),
    of what ends the loop (the control server's error, the mirror's failure,
    and, unless a shutdown was requested, the end of the context or of the
    control server), and of the calls that undo them.  It returns no error only
    when a shutdown was requested; and the record is published only while the
    lease, the helper, the started mirror and the control server are held and the
    control socket has been seen. *)
Theorem run_undoes_in_reverse `{UnicodeTables} fuel ctx options pid t p
    (Hrun : runs (Run fuel ctx options pid) t (Some p)) :
  exists t1 t2 t3, t = t1 ++ t2 ++ t3 /\
    Forall (fun e => ending_of e = None /\ failure e = None) t1 /\
    map ending_of t2 = map Some (undo_all (omap acquired t1)) /\ omap acquired t1 `prefix_of` everything /\
    (if existsb publishes t1 && bool_decide (omap close_failure t2 = [])
     then exists err, t3 = [ev (CRemoveIfPID (opt_store options) (ID (opt_record options)) pid) err] else t3 = []) /\
    Forall (fun e => forall err, failure e = Some err -> reported err (retErr p)) t /\
    told (retErr p) t1 /\ (retErr p = None -> ev CShutdownRequested true ∈ t1) /\
    (forall a e b, t1 = a ++ e :: b -> is_publish e = true ->
       projT1 e = CPublish (opt_store options) (with_pid (opt_record options) pid) /\
       omap acquired a = everything /\ socket_seen (ControlSocket (opt_record options)) a).
Proof.
  apply run_layered in Hrun as (t' & t3 & p' & -> & (res & t1 & t2 & -> & [L0 L1 L2 L3 L4 L5 LT L6 L7 L8]) & Hr).
  exists t1, t2, t3. rewrite L1, L3, <- app_assoc.
  assert (removed : bool_decide (omap close_failure t2 = []) = (cleanupErr p' ==b None)).
  { apply bool_decide_ext. by rewrite L4. }
  rewrite removed, <- L7. unfold removal in Hr. 
  assert (Hkeep : forall err, reported err (retErr p') -> reported err (retErr p)).
  { intros err He. destruct (published p' && _); [|by destruct Hr as [_ ->]].
    destruct Hr as (e & _ & ->). by apply joined_left. }
  split_and!; try done.
  - destruct (published p' && _); [|by destruct Hr]. destruct Hr as (e & -> & _). by exists e.
  - rewrite !Forall_app. split_and!.
    + eapply Forall_impl; [exact L2|]. intros e [_ Hf] err. congruence.
    + eapply Forall_impl; [exact L5|]. cbn. auto.
    + destruct (published p' && _); [|by destruct Hr as [-> _]]. destruct Hr as (e & -> & ->).
      apply Forall_singleton. cbn. intros err ->. apply joined_right.
  - by eapply told_keeps.
  - intros Hn. apply L6. destruct (published p' && _); [|by destruct Hr as [_ <-]].
    destruct Hr as (e & _ & ->). by apply join_two_none in Hn as [? _].
Qed.

(** ** A share that is stopped on request *)

Definition socket_info : Info := {| i_kind := KSocket; i_ino := 1; i_perm := 0x180; i_mtime := 0; i_size := 0 |}.
Definition demo_options : Options :=
  {| opt_record := demo_record !"abc123" !"one" !"@1"; opt_store := demo_store; opt_ready := true |}.
Definition demo_status : Status :=
  {| StID := !"abc123"; StName := !"one"; Control.State := !"ready"; PairingURL := !"url"; QR := []; StDirectory := !"/src";
     Clients := 0; StStartedAt := 1; StTarget := demo_target !"@1"; Warning := [] |}.

(** Everything works, but for what closing the helper answers. *)
Definition demo_answers (helper : option error) (c : call) : answer c :=
  match c return answer c with
  | CLstat _ => Ok socket_info
  | CWait => WaitTick
  | CSelect _ => RunDone (ESentinel ContextCanceled)
  | CShutdownRequested => true
  | CAwaitControl => Some (Some (ESentinel ContextCanceled))
  | CStatus => demo_status
  | CHelperClose => helper
  | CGoServe _ _ | CCancelRun => ()
  | _ => None
  end.
Definition demo_share (helper : option error) : list sevent * option progress :=
  Program.exec (fun _ => demo_answers helper) [] (Run 2 true demo_options 7).

Definition helper_stuck : error := EText !"helper stuck".

Example clean_share : snd (demo_share None) =
  Some {| retErr := None; cleanupErr := None; published := true |} /\
  last (fst (demo_share None)) = Some (ev (CRemoveIfPID demo_store !"abc123" 7) None).
Proof. by vm_compute. Qed.

Lemma run_undoes_in_reverse_witness : exists t p, demo_share (Some helper_stuck) = (t, Some p) /\
  reported helper_stuck (retErr p) /\ last (map (@projT1 _ _) t) = Some CLeaseClose.
Proof.
  destruct (demo_share (Some helper_stuck)) as [t [p|]] eqn:Hd; [|by vm_compute in Hd].
  exists t, p. split; [done|].
  assert (runs (Run 2 true demo_options 7) t (Some p)) as Hrun.
  { pose proof (exec_runs (fun _ => demo_answers (Some helper_stuck)) (Run 2 true demo_options 7) []) as Hr.
    unfold demo_share in Hd. rewrite Hd in Hr. exact Hr. }
  destruct (run_undoes_in_reverse 2 true demo_options 7 t p Hrun) as (_ & _ & _ & _ & _ & _ & _ & _ & Hf & _).
  assert (t = fst (demo_share (Some helper_stuck))) as Ht by by rewrite Hd.
  split; [|rewrite Ht; by vm_compute].
  rewrite Forall_forall in Hf. apply (Hf (ev CHelperClose (Some helper_stuck))); [|done].
  rewrite Ht. vm_compute. by repeat constructor.
Defined.
