(* ===== verification/ShareHandlerProps.v ===== *)
(** * The served record is the stored record

    Connections of the control socket act on the service's handler while other
    processes work on the store: what the handler says about its record and
    what the store holds never come apart, but for a name whose change was cut
    short. *)

From S2P Require Import Prelude GoString GoUnicode GoErrors GoPath GoOS Target InstanceName Store StoreProps.
From S2P Require Import PlainCodec StoreInvariant StoreResolve MirrorManager Control PlainControl ShareService.
Open Scope Z_scope.

Section Handler.
Context `{UnicodeTables} `{RecordCodec} `{ControlCodec} {M : Type} `{Mirror M} (sha256 : bytes -> bytes) (s : Store).
Hypothesis Hroot : clean_abs (StateRoot s).

#[local] Abbreviation handler := (serviceHandler M).
#[local] Abbreviation consistent := (consistent sha256 s).
#[local] Abbreviation stored := (stored s).
#[local] Abbreviation serve o h input := (handle (service_handler o) (ID (sh_record h)) input h).

(** A connection that is handled, or another process's work on other records. *)
Inductive share_step : handler -> handler -> Prop :=
| step_connection h o input reply stops h' : reads_ok o -> serve o h input = (reply, stops, h') -> share_step h h'
| step_others h w : consistent w ->
    (forall r, stored w r -> ID r = ID (sh_record h) -> stored (sh_world h) r) ->
    share_step h (h <| sh_world := w |>).

(** The record was published: it is stored and so are records of others. *)
Definition published_handler (h : handler) : Prop :=
  sh_store h = s /\ consistent (sh_world h) /\ stored (sh_world h) (sh_record h).

(** Only the name of a stored record with the share's identifier may differ. *)
Record served (h : handler) : Prop := {
  sv_store : sh_store h = s;
  sv_consistent : consistent (sh_world h);
  sv_named : forall r, stored (sh_world h) r -> ID r = ID (sh_record h) -> exists n, r = with_name (sh_record h) n
}.

Lemma with_name_self r : with_name r (Name r) = r.
Proof. by destruct r. Qed.

Lemma published_served h : published_handler h -> served h.
Proof.
  intros (Hs & Hc & Hr). split; [done..|]. intros r Hr' Hid. exists (Name (sh_record h)).
  rewrite with_name_self. by eapply stored_unique.
Qed.

Lemma rename_ok o name h r h' : reads_ok o -> served h -> handler_Rename o name h = (r, h') ->
  served h' /\ (forall r0, stored (sh_world h) r0 -> ID r0 <> ID (sh_record h) -> stored (sh_world h') r0) /\
  sh_mirror h' = sh_mirror h /\
  match r with
  | Ok st => sh_record h' = with_name (sh_record h) name /\ stored (sh_world h') (sh_record h') /\ st = handler_Status h'
  | Err _ => sh_record h' = sh_record h
  end.
Proof.
  intros Ho [Hs Hc Hn] Hh. unfold handler_Rename in Hh. rewrite Hs in Hh.
  pose proof (rename_spec sha256 s Hroot o Ho (ID (sh_record h)) (PID (sh_record h)) name (sh_world h) Hc)
    as ([Hc' Hfrom] & Hok & Hothers).
  destruct (RenameIfPID _ _ _ _ _ _) as [renamed w]. cbn [fst snd] in *.
  assert (Hnames : forall r0, stored w r0 -> ID r0 = ID (sh_record h) -> exists n, r0 = with_name (sh_record h) n).
  { intros r0 [Hr0|(cur & Hcur & Hid & _ & ->)]%Hfrom Hid0; [by apply Hn|].
    destruct (Hn cur Hcur Hid) as [n ->]. by exists name. }
  destruct renamed as [[|]|err]; simplify_eq; cbn.
  - split_and!; [by split|done|done|done| |done].
    destruct (Hok eq_refl) as (r0 & (cur & Hcur & Hid & _ & ->) & Hr0). by destruct (Hn cur Hcur Hid) as [n ->].
  - split_and!; [by split|done..].
  - split_and!; [by split|done..].
Qed.

(** ** The operations as steps of the control server *)

(** Where the steps of a request lead, undisturbed. *)
Definition on_the_way (o : oracle) (request : Request) (h : handler) (at_ : service_at * handler) : Prop :=
  let '(l, h') := at_ in
  let call := locked_call (service_handler o) request h in
  match l with
  | ABegins request' => request' = request /\ h' = h
  | ARotating => Action request = ActionRotate /\ h' = h /\ SnState (mirror_Snapshot (sh_mirror h)) = StateReady
  | ACanceling => (Action request <> ActionRename) /\ (Action request <> ActionRotate) /\ h' = h <| sh_shutdown := true |>
  | AStatus => call = (Ok (handler_Status h'), h')
  | AReturns r => call = (r, h')
  end.

Lemma service_next_way o request h a b : on_the_way o request h a -> service_next o a = Some b -> on_the_way o request h b.
Proof.
  destruct a as [[request'| | | |r] h1]; cbn [on_the_way service_next].
  - intros [-> ->] [= <-]. unfold locked_call. cbn [service_handler h_Rename h_Rotate h_Shutdown h_Status].
    case_bool_decide as Hr.
    { destruct (handler_Rename o _ h) as [r h2] eqn:E. unfold on_the_way, locked_call.
      cbn [service_handler h_Rename]. by rewrite bool_decide_true. }
    case_bool_decide as Hro; [|by split_and!].
    case_bool_decide as Hst; cbn [negb]; [by split_and!|].
    unfold on_the_way, locked_call. cbn [service_handler h_Rotate]. rewrite bool_decide_false, bool_decide_true by done.
    unfold handler_Rotate. by rewrite bool_decide_false.
  - intros (Ha & -> & Hst). destruct (mirror_Rotate (sh_mirror h)) as [err m] eqn:Hm. intros [= <-].
    assert (Hcall : locked_call (service_handler o) request h = (match err with Some e => Err e
      | None => Ok (handler_Status (h <| sh_mirror := m |>)) end, h <| sh_mirror := m |>)).
    { unfold locked_call. cbn [service_handler h_Rotate]. rewrite Ha, (bool_decide_false (ActionRotate = ActionRename)), bool_decide_true by done.
      unfold handler_Rotate. rewrite Hst, bool_decide_true by done. cbn [negb]. rewrite Hm. by destruct err. }
    by destruct err; cbn [on_the_way]; rewrite Hcall.
  - intros (Ha & Hb & ->) [= <-]. cbn [on_the_way]. unfold locked_call. by rewrite !bool_decide_false.
  - intros Hc [= <-]. exact Hc.
  - done.
Qed.

(** The service's operations for [serve_is_serial]. *)
Lemma service_law o request h l h' r : Action request <> ActionStatus ->
  rtc (fun a b => service_next o a = Some b) (ABegins request, h) (l, h') ->
  (match l with AReturns r => Some r | _ => None end) = Some r -> locked_call (service_handler o) request h = (r, h').
Proof.
  intros _ Hrtc Hret. assert (Hway : on_the_way o request h (l, h')).
  { clear Hret. remember (ABegins request, h) as a eqn:Ea. assert (Ha : on_the_way o request h a) by (by subst a).
    clear Ea. revert Ha. induction Hrtc as [|a b c Hs _ IH]; intros Ha; [done|]. apply IH. by eapply service_next_way. }
  destruct l; try done. by injection Hret as <-.
Qed.
Definition service_stepped (o : oracle) : Stepped (service_handler o) :=
  {| Local := service_at; op_begins := ABegins; op_step := fun a b => service_next o a = Some b;
     op_returns := fun l => match l with AReturns r => Some r | _ => None end; op_law := service_law o |}.

(** ** Connections *)

(** What a request does to the handler and to the reply. *)
Definition served_reply (request : Request) (h h' : handler) (reply : option response) (stops : bool) : Prop :=
  if Action request ==b ActionRename then
    stops = false /\ sh_mirror h' = sh_mirror h /\
    ((exists st, reply = Some (status_reply st) /\ st = handler_Status h' /\ StName st = ReqName request /\
        sh_record h' = with_name (sh_record h) (ReqName request) /\ stored (sh_world h') (sh_record h')) \/
     (exists err, reply = Some (operation_reply (Err err)) /\ sh_record h' = sh_record h))
  else
    sh_record h' = sh_record h /\ sh_world h' = sh_world h /\
    (stops = true -> sh_shutdown h' = true /\ sh_canceled h' = true) /\
    (Action request = ActionRotate -> SnState (mirror_Snapshot (sh_mirror h)) <> StateReady ->
       reply = Some (error_reply CodeNotReady (sentinel_text ErrNotReady)) /\ h' = h).

Lemma served_same h h' : sh_store h' = sh_store h -> sh_world h' = sh_world h -> sh_record h' = sh_record h ->
  served h -> served h'.
Proof. intros E1 E2 E3 [S1 S2 S3]. split; rewrite ?E1, ?E2, ?E3; done. Qed.

Lemma handler_rotate_ok h r h' : handler_Rotate h = (r, h') ->
  sh_store h' = sh_store h /\ sh_world h' = sh_world h /\ sh_record h' = sh_record h /\
  (SnState (mirror_Snapshot (sh_mirror h)) <> StateReady -> r = Err (ESentinel ErrNotReady) /\ h' = h).
Proof.
  unfold handler_Rotate. case_bool_decide; cbn [negb].
  - destruct (mirror_Rotate (sh_mirror h)) as [[err|] m]; intros; by simplify_eq.
  - intros. by simplify_eq.
Qed.

Lemma operate_ok o request h reply stops h' : reads_ok o -> served h ->
  operate (service_handler o) request h = (reply, stops, h') ->
  served h' /\ ID (sh_record h') = ID (sh_record h) /\ served_reply request h h' reply stops /\
  (forall r0, stored (sh_world h) r0 -> ID r0 <> ID (sh_record h) -> stored (sh_world h') r0).
Proof.
  intros Ho Hserved. unfold operate, served_reply. cbn [service_handler h_Status h_Rename h_Rotate h_Shutdown].
  destruct (decide (Action request = ActionRename)) as [Hr|Hr].
  - rewrite Hr, (bool_decide_false (ActionRename = ActionStatus)), bool_decide_true by done.
    destruct (handler_Rename o _ h) as [r h1] eqn:Hh. intros [= <- <- <-].
    destruct (rename_ok _ _ _ _ _ Ho Hserved Hh) as (Hs & Hothers & Hm & Hres).
    destruct r as [st|err]; [destruct Hres as (E & Hst & ->)|rename Hres into E];
      (split_and!; [done|by rewrite E|done|done| |done]).
    + left. eexists. split_and!; [done..| |done|done]. cbn. by rewrite E.
    + right. by exists err.
  - rewrite (bool_decide_false (Action request = ActionRename)) by done. intros Hop.
    assert (Hframe : sh_store h' = sh_store h -> sh_world h' = sh_world h -> sh_record h' = sh_record h ->
      (stops = true -> sh_shutdown h' = true /\ sh_canceled h' = true) ->
      (Action request = ActionRotate -> SnState (mirror_Snapshot (sh_mirror h)) <> StateReady ->
         reply = Some (error_reply CodeNotReady (sentinel_text ErrNotReady)) /\ h' = h) ->
      served h' /\ ID (sh_record h') = ID (sh_record h) /\
      (sh_record h' = sh_record h /\ sh_world h' = sh_world h /\
       (stops = true -> sh_shutdown h' = true /\ sh_canceled h' = true) /\
       (Action request = ActionRotate -> SnState (mirror_Snapshot (sh_mirror h)) <> StateReady ->
          reply = Some (error_reply CodeNotReady (sentinel_text ErrNotReady)) /\ h' = h)) /\
      forall r0, stored (sh_world h) r0 -> ID r0 <> ID (sh_record h) -> stored (sh_world h') r0).
    { intros E1 E2 E3 ??. split_and!; try done; [by eapply served_same|by rewrite E3|by rewrite E2]. }
    revert Hop. case_bool_decide as Ha; [intros; simplify_eq; apply Hframe; rewrite ?Ha; done|].
    case_bool_decide as Hrot.
    + destruct (handler_Rotate h) as [r h1] eqn:Hh. intros [= <- <- <-].
      apply handler_rotate_ok in Hh as (E1 & E2 & E3 & Hn). apply Hframe; try done.
      intros _ Hns. by destruct (Hn Hns) as [-> ->].
    + unfold handler_Shutdown. case_bool_decide; intros; simplify_eq; by apply Hframe.
Qed.

Lemma serve_ok o input h reply stops h' : reads_ok o -> served h -> serve o h input = (reply, stops, h') ->
  served h' /\ ID (sh_record h') = ID (sh_record h).
Proof.
  intros Ho Hs. unfold handle. destruct (readRequest input) as [request|err]; [|intros; by simplify_eq].
  case_match; [intros; by simplify_eq|]. intros Hop. by destruct (operate_ok _ _ _ _ _ _ Ho Hs Hop) as (? & ? & _).
Qed.

Lemma reachable_served h : reachable published_handler share_step h -> served h.
Proof.
  apply reachable_invariant; [apply published_served|].
  intros h1 h2 _ Hs Hstep. destruct Hstep as [h0 o input reply stops h0' Ho Hh|h0 w Hc Hw].
  - by destruct (serve_ok _ _ _ _ _ _ Ho Hs Hh).
  - destruct Hs as [S1 S2 S3]. split; [done..|]. cbn. intros r Hr Hid. by apply S3; [apply Hw|].
Qed.

(** C5: the served record is the stored record, up to its name.  From a
    published share, after any connections, whatever they deliver and whichever
    calls fail but those that read a record, and any work of others that keeps
    the records distinct and this share's record: records keep distinct
    selectors, a stored record of this share differs from the served one at most
    in its name, and the next request does what its reply says.  A rename that is
    answered with a status has the new name stored and served.  One that is
    answered with an error leaves the served record alone, though the stored one
    may already have the new name, when the directory could not be synced after
    the file was replaced.  Every other request leaves the record and the store
    alone, a rotation of a mirror that is not ready is refused, only a shutdown
    stops the server, and records of others stay. *)
Theorem served_name_is_stored h o input request reply stops h' (Hreach : reachable published_handler share_step h)
    (Ho : reads_ok o) (Hreq : readRequest input = Ok request) (Hid : InstanceID request = ID (sh_record h))
    (Hserve : serve o h input = (reply, stops, h')) :
  consistent (sh_world h') /\
  (forall r, stored (sh_world h') r -> ID r = ID (sh_record h) -> exists n, r = with_name (sh_record h') n) /\
  served_reply request h h' reply stops /\
  (forall r0, stored (sh_world h) r0 -> ID r0 <> ID (sh_record h) -> stored (sh_world h') r0).
Proof.
  apply reachable_served in Hreach. unfold handle in Hserve. rewrite Hreq, Hid, bool_decide_true in Hserve by done.
  destruct (operate_ok _ _ _ _ _ _ Ho Hreach Hserve) as ([S1 S2 S3] & E & Hr & Hothers).
  split_and!; try done. by rewrite <- E.
Qed.
End Handler.

(** ** A rename over the control socket *)

Definition still_mirror (state : MirrorManager.State) : Snapshot :=
  {| SnState := state; SnPublicURL := []; SnPairingURL := []; SnQR := []; SnErr := []; SnDiagnosticsWarning := [];
     SnCleanupWarning := [] |}.
#[local] Instance demo_mirror : Mirror MirrorManager.State :=
  {| mirror_Snapshot := still_mirror; mirror_ClientCount _ := 0; mirror_Rotate m := (None, m) |}.
Definition demo_service : serviceHandler MirrorManager.State :=
  {| sh_record := demo_a; sh_store := demo_store; sh_mirror := StateReady; sh_world := demo_world;
     sh_shutdown := false; sh_canceled := false |}.
Definition rename_request : Request := {| InstanceID := !"abc123"; Action := ActionRename; ReqName := !"calm" |}.
Definition rename_line : bytes := match encode_request rename_request with Ok line => line | Err _ => [] end.

Lemma served_name_is_stored_witness : exists h',
  handle (service_handler no_faults) !"abc123" rename_line demo_service =
    (Some (status_reply (handler_Status h')), false, h') /\
  Name (sh_record h') = !"calm" /\ stored demo_store (sh_world h') (sh_record h').
Proof.
  assert (Hgiven : bool_decide (is_Some (fst (fst (handle (service_handler no_faults) !"abc123" rename_line
    demo_service)) ≫= rspStatus)) = true) by (vm_compute; reflexivity).
  destruct (handle (service_handler no_faults) !"abc123" rename_line demo_service) as [[reply stops] h'] eqn:Hh.
  destruct (served_name_is_stored id demo_store demo_root demo_service no_faults rename_line rename_request reply stops h')
    as (_ & _ & Hr & _); [|exact no_faults_reads|by vm_compute|done|exact Hh|].
  - apply reachable_init. split_and!; [done|exact demo_world_consistent|exact demo_a_stored].
  - destruct Hr as (-> & _ & [(st & -> & -> & _ & E & Hs)|(err & -> & E)]).
    + exists h'. split_and!; [done|by rewrite E|done].
    + discriminate Hgiven.
Defined.
