(* ===== verification/ShareProcess.v ===== *)
(** * The worker's process (internal/share/process.go)

    [Start] runs the detached worker, hands it its record through a pipe, and
    waits until the worker reports that it is ready; on every failure the
    process is stopped and what it may have left is cleaned up.  The program's
    calls are the pipes, the process, the lease and the socket's file; what the
    worker writes on the readiness pipe is an answer of the environment.  The
    check for a process that was never started is left out of
    [stopStartedProcess], which [Start] calls only afterwards. *)

From S2P Require Import Prelude Program GoString GoUnicode GoErrors GoConv GoPath GoOS Target InstanceName Store.
From S2P Require Import Control ShareService.
Open Scope Z_scope.

Definition MaxLaunchBytes : Z := 65536.          (* 64 << 10 *)
Definition maxReadyBytes : Z := 1048576.         (* 1 << 20 *)
Definition maxStartupStderrBytes : Z := 8192.    (* 8 << 10 *)
Definition recordFD : Z := 3.
Definition readyFD : Z := 4.

(** [boundedTailWriter.Write]. *)
Definition boundedTail_Write (limit : Z) (payload data : bytes) : bytes :=
  if limit <=? 0 then data else
  let limit := Z.to_nat limit in
  if (limit <=? length payload)%nat then drop (length payload - limit) payload
  else
    let overflow := (length data + length payload - limit)%nat in
    (if (0 <? overflow)%nat then drop overflow data else data) ++ payload.

(** [withStartupStderr], given the output. *)
Definition withStartupStderr (err : error) (stderr : bytes) : error :=
  let detail := trim_space stderr in
  if detail ==b [] then err else EWrap [] err (!": " ++ detail).

Definition workerEarlyExitError (waitErr : option error) : error :=
  match waitErr with
  | None => EText !"wrap worker exited before readiness"
  | Some err => wrapf !"wrap worker exited before readiness: " err
  end.

Definition normalizedStopWaitError (err : option error) : option error :=
  match err with
  | Some e => if errors_as_exit e then None else err
  | None => None
  end.

(** ** What goes through the pipes

    The readiness status as one JSON value: what is written reads back, whatever
    comes after it. *)
Class ReadyCodec := {
  encode_ready : Status -> result bytes;
  decode_ready : bytes -> result Status;
  ready_law : forall st, sendable_status st -> exists data, encode_ready st = Ok data /\ decode_ready data = Ok st
}.

Section Pipes.
Context `{UnicodeTables} `{RecordCodec} `{ReadyCodec}.

Definition EncodeLaunch (record : Record_) : result bytes :=
  match Record_Validate record with
  | Some err => Err err
  | None =>
      match encode_record record with
      | Err err => Err (wrapf !"encode worker launch record: " err)
      | Ok output =>
          fail_if MaxLaunchBytes <? len output with EText !"worker launch record is too large";;
          Ok output
      end
  end.

(** [input] is what the reader delivers before its end or an error. *)
Definition ReadLaunch (input : bytes) (readErr : option error) (expectedID expectedControlSocket : bytes) : result Record_ :=
  let data := take (Z.to_nat (MaxLaunchBytes + 1)) input in
  match (if MaxLaunchBytes <? len data then None else readErr) with
  | Some err => Err (wrapf !"read worker launch record: " err)
  | None =>
  fail_if MaxLaunchBytes <? len data with EText !"worker launch record is too large";;
  match decode_first data with
  | Err err => Err (wrapf !"decode worker launch record: " err)
  | Ok (record, rest) =>
      match decode_next rest with
      | Err err =>
          fail_if negb (errors_is IoEOF err) with EText !"worker launch record contains trailing JSON";;
          match Record_Validate record with
          | Some err => Err err
          | None =>
              fail_if negb (ID record ==b expectedID) || negb (ControlSocket record ==b expectedControlSocket)
                with EText !"worker launch identity does not match arguments";;
              Ok record
          end
      | Ok _ => Err (EText !"worker launch record contains trailing JSON")
      end
  end
  end.

Definition incomplete (status : Status) : bool :=
  (StID status ==b []) || (StName status ==b []) || negb (State status ==b !"ready") || (PairingURL status ==b []).

(** [WriteReady]: what is written. *)
Definition WriteReady (status : Status) : result bytes :=
  fail_if incomplete status with EText !"worker readiness status is incomplete";;
  match encode_ready status with
  | Err err => Err (wrapf !"write worker readiness: " err)
  | Ok data => Ok data
  end.

Definition readReady (input : bytes) (readErr : option error) : result Status :=
  match decode_ready (take (Z.to_nat (maxReadyBytes + 1)) input) with
  | Err err => Err (wrapf !"read worker readiness: " (default err readErr))
  | Ok status =>
      fail_if incomplete status with EText !"worker returned incomplete readiness status";;
      Ok status
  end.
End Pipes.

(** ** The calls *)

Inductive pfile := RecordRead | RecordWrite | ReadyRead | ReadyWrite.
#[export] Instance pfile_eq_dec : EqDecision pfile.
Proof. solve_decision. Defined.

Inductive start_event :=
| StartupDone (err : error)                                   (* [startupCtx] has ended *)
| ReadyDone (input : bytes) (readErr : option error)          (* what came through the readiness pipe *)
| WorkerExited (waitErr : option error).

Inductive pcall :=
| PPipe (r w : pfile)
| PStart (args : list bytes)
| PClose (f : pfile)
| PWrite (payload : bytes)            (* on the record pipe *)
| PSelect
| PPoll                               (* [completedWorkerWait] *)
| PStderr
| PSignal                             (* SIGTERM *)
| PAwait                              (* receive from [waitDone], or a timer *)
| PKillGroup (pid : Z)
| PKill
| PAcquireLease (s : Store) (id : bytes)
| PCleanupHelper (t : Target) (id : bytes)
| PLstat (path : bytes)
| PRemove (path : bytes)
| PLeaseClose.

Definition panswer (c : pcall) : Type :=
  match c with
  | PPipe _ _ | PClose _ | PWrite _ | PSignal | PKillGroup _ | PKill | PAcquireLease _ _ | PCleanupHelper _ _
  | PRemove _ | PLeaseClose => option error
  | PStart _ => result Z
  | PSelect => start_event
  | PPoll | PAwait => option (option error)
  | PStderr => bytes
  | PLstat _ => result Info
  end.
Abbreviation pprog := (prog pcall panswer).

(** ** Cleaning up after the worker *)

Definition removeStartedControlSocket (record : Record_) : pprog (option error) :=
  let path := path_clean (ControlSocket record) in
  if negb (path_base path ==b (ID record ++ !".sock"))
  then mret (Some (EText !"started Wrap control socket is not derived from its instance ID")) else
  info ← ask (PLstat path);
  match (info : result Info) with
  | Err err => mret (if is_not_exist err then None
                     else Some (wrapf !"inspect started Wrap control socket: " err))
  | Ok info =>
      if negb (is_socket info) || is_symlink info
      then mret (Some (EText !"started Wrap control socket path is not a socket")) else
      err ← ask (PRemove path);
      mret match (err : option error) with
           | Some err => if is_not_exist err then None else Some (wrapf !"remove started Wrap control socket: " err)
           | None => None
           end
  end.

Definition cleanupStartedArtifacts (record : Record_) : pprog (option error) :=
  helperErr ← ask (PCleanupHelper (RecTarget record) (ID record));
  socketErr ← removeStartedControlSocket record;
  mret (errors_join [helperErr; socketErr]).

Definition cleanupReapedWorkerArtifacts (record : Record_) : pprog (option error) :=
  match ForRecord {| StateRoot := []; RuntimeRoot := [] |} record with
  | Err err => mret (Some err)
  | Ok store =>
      err ← ask (PAcquireLease store (ID record));
      match (err : option error) with
      | Some err => mret (Some (wrapf !"lock reaped Wrap worker cleanup: " err))
      | None =>
          cleaned ← cleanupStartedArtifacts record;
          closed ← ask PLeaseClose;
          mret (errors_join [cleaned; closed])
      end
  end.

(** An error that does not matter. *)
Definition unless (expected : error -> bool) (err : option error) : option error :=
  match err with
  | Some e => if expected e then None else err
  | None => None
  end.

Definition stopStartedProcess (pid : Z) (record : Record_) : pprog (option error) :=
  signalErr ← ask PSignal;
  let signalErr := unless (errors_is OsErrProcessDone) signalErr in
  waited ← ask PAwait;
  match (waited : option (option error)) with
  | Some waitErr =>
      cleanupErr ← cleanupReapedWorkerArtifacts record;
      mret (errors_join [signalErr; normalizedStopWaitError waitErr; cleanupErr])
  | None =>
      groupKillErr ← ask (PKillGroup pid);
      processKillErr ← ask PKill;
      waited ← ask PAwait;
      cleanupErr ← (match (waited : option (option error)) with
                    | Some _ => cleanupReapedWorkerArtifacts record
                    | None => mret None
                    end);
      let waitErr := match waited with
                     | Some waitErr => waitErr
                     | None => Some (EText !"detached Wrap worker did not exit after forced stop")
                     end in
      mret (errors_join [signalErr; unless (errors_is_sys ESRCH) groupKillErr;
                         unless (errors_is OsErrProcessDone) processKillErr; normalizedStopWaitError waitErr; cleanupErr])
  end.

(** ** [Start] *)

(** [errors.Join] of an error and others that may be nil. *)
Definition join_error (err : error) (errs : list (option error)) : error := EJoin (err :: omap id errs).

Section Start.
Context `{UnicodeTables} `{RecordCodec} `{ReadyCodec}.

Definition worker_args (executable : bytes) (record : Record_) : list bytes :=
  [executable; !"_serve"; !"--instance"; ID record; !"--control"; ControlSocket record;
   !"--record-fd"; itoa recordFD; !"--ready-fd"; itoa readyFD].

(** Stop the process, then fail. *)
Definition fail_stopped (err : error) (pid : Z) (record : Record_) : pprog error :=
  stopErr ← stopStartedProcess pid record; mret (join_error err [stopErr]).

Definition with_stderr (failure : pprog error) : pprog (result Status) :=
  failure ← failure; stderr ← ask PStderr; mret (Err (withStartupStderr failure stderr)).

Definition fail_exited (waitErr : option error) (record : Record_) : pprog error :=
  cleanupErr ← cleanupReapedWorkerArtifacts record; mret (join_error (workerEarlyExitError waitErr) [cleanupErr]).

Definition await_ready (pid : Z) (record : Record_) : pprog (result Status) :=
  e ← ask PSelect;
  match (e : start_event) with
  | StartupDone err => err ← fail_stopped err pid record; mret (Err err)
  | ReadyDone input readErr =>
      match readReady input readErr with
      | Err err => with_stderr (fail_stopped (wrapf !"wrap worker failed before readiness: " err) pid record)
      | Ok status =>
          if negb (StID status ==b ID record)
          then with_stderr (fail_stopped (EText !"worker returned mismatched instance ID") pid record) else
          exited ← ask PPoll;
          match (exited : option (option error)) with
          | Some waitErr => with_stderr (fail_exited waitErr record)
          | None => mret (Ok status)
          end
      end
  | WorkerExited waitErr => with_stderr (fail_exited waitErr record)
  end.

Definition launch (executable : bytes) (record : Record_) : pprog (result Status) :=
  started ← ask (PStart (worker_args executable record));
  match (started : result Z) with
  | Err err => mret (Err (wrapf !"start detached Wrap worker: " err))
  | Ok pid =>
      _ ← ask (PClose RecordRead);
      _ ← ask (PClose ReadyWrite);
      let record := with_pid record pid in
      let fail err := err ← fail_stopped err pid record; mret (Err err) in
      match EncodeLaunch record with
      | Err err => fail err
      | Ok payload =>
          err ← ask (PWrite payload);
          match (err : option error) with
          | Some err => fail (wrapf !"send worker launch record: " err)
          | None =>
              err ← ask (PClose RecordWrite);
              match (err : option error) with
              | Some err => fail (wrapf !"close worker launch record: " err)
              | None => await_ready pid record
              end
          end
      end
  end.

(** A pipe that is closed when the body ends; closing twice does no harm. *)
Definition with_pipe (r w : pfile) (before : bytes) (body : pprog (result Status)) : pprog (result Status) :=
  err ← ask (PPipe r w);
  match (err : option error) with
  | Some err => mret (Err (wrapf before err))
  | None => result ← body; _ ← ask (PClose w); _ ← ask (PClose r); mret result
  end.

Definition Start (ctx : bool) (executable : bytes) (record : Record_) : pprog (result Status) :=
  if negb ctx then mret (Err (EText !"worker startup context is required")) else
  if negb (is_abs executable) then mret (Err (EText !"worker executable path must be absolute")) else
  match Record_Validate (with_pid record 1) with
  | Some err => mret (Err (wrapf !"validate worker launch: " err))
  | None =>
      with_pipe RecordRead RecordWrite !"create worker record pipe: "
        (with_pipe ReadyRead ReadyWrite !"create worker readiness pipe: " (launch executable record))
  end.
End Start.
