(* ===== verification/ShareProcessProps.v ===== *)
(** * A worker is ready, or gone and cleaned up after

    A monitor follows [Start]: which calls it may make when, and what is left
    at its end.  The launch record and the readiness status survive their
    pipes. *)

From S2P Require Import Prelude Program GoString GoUnicode GoErrors GoConv GoPath GoOS Target InstanceName Store.
From S2P Require Import PlainCodec Control PlainControl ShareService ShareProcess.
Open Scope Z_scope.

(** ** The tail of stderr *)

Lemma boundedTail_lastn limit payload out : 0 < limit ->
  boundedTail_Write limit payload (lastn (Z.to_nat limit) out) = lastn (Z.to_nat limit) (out ++ payload).
Proof.
  intros Hl. unfold boundedTail_Write. rewrite (proj2 (Z.leb_gt _ _)) by done.
  apply lastn_write.
Qed.

(** ** The monitor *)

(** What is known of the worker's control socket. *)
Inductive path_state :=
| PathUnknown | PathIsSocket | PathIsOther     (* a link, or no socket *)
| PathGone | PathFailed (err : error).         (* could not be looked at, or not removed *)

Record watched := {
  w_pid : option Z;              (* the process that was started *)
  w_exited : bool;               (* its exit was observed *)
  w_signalled : bool;
  w_killed : bool;               (* the group and the process *)
  w_sent : option bytes;         (* the launch record *)
  w_handing : bool;              (* the launch record was written, its pipe is not yet closed *)
  w_lease : bool;
  w_socket : path_state;
  w_denied : bool;               (* the lease could not be had *)
  w_cleaned : bool;              (* the helper was cleaned up *)
  w_open : list pfile;
  w_failures : list error
}.
#[export] Instance eta_watched : Eta watched := fun s =>
  {| w_pid := w_pid s; w_exited := w_exited s; w_signalled := w_signalled s; w_killed := w_killed s;
     w_sent := w_sent s; w_handing := w_handing s; w_lease := w_lease s; w_socket := w_socket s; w_denied := w_denied s;
     w_cleaned := w_cleaned s; w_open := w_open s; w_failures := w_failures s |}.

Definition nothing_started : watched :=
  {| w_pid := None; w_exited := false; w_signalled := false; w_killed := false; w_sent := None;
     w_handing := false; w_lease := false; w_socket := PathUnknown; w_denied := false; w_cleaned := false; w_open := []; w_failures := [] |}.

Definition fails (err : option error) (s : watched) : watched :=
  match err with Some e => s <| w_failures := e :: w_failures s |> | None => s end.

Section Worker.
Context `{UnicodeTables} `{RecordCodec} `{ReadyCodec}.
Variables (executable : bytes) (record : Record_).

(** What [Start] was told that is not a worker's readiness. *)
Definition bad_news (e : start_event) : option error :=
  match e with
  | StartupDone err => Some err
  | WorkerExited waitErr => Some (workerEarlyExitError waitErr)
  | ReadyDone input readErr =>
      match readReady input readErr with
      | Err err => Some err
      | Ok status => if StID status ==b ID record then None else Some (EText !"worker returned mismatched instance ID")
      end
  end.

Definition next (s : watched) (e : event pcall panswer) : watched :=
  let 'existT c r := e in
  match c return panswer c -> watched with
  | PPipe r w => fun err =>
      match err with None => s <| w_open := r :: w :: w_open s |> | Some _ => fails err s end
  | PStart _ => fun started =>
      match started with
      | Ok pid => (fails (err_of (EncodeLaunch (with_pid record pid))) s) <| w_pid := Some pid |>
      | Err err => fails (Some err) s
      end
  | PClose f => fun err =>
      let s := if (f ==b RecordWrite) && w_handing s then (fails err s) <| w_handing := false |> else s in
      s <| w_open := filter (fun f' => f' <> f) (w_open s) |>
  | PWrite payload => fun err =>
      (fails err s) <| w_sent := Some payload |> <| w_handing := match err with None => true | Some _ => false end |>
  | PSelect => fun e =>
      (fails (bad_news e) s) <| w_exited := match e with WorkerExited _ => true | _ => w_exited s end |>
  | PPoll => fun e =>
      match e with
      | Some waitErr => (fails (Some (workerEarlyExitError waitErr)) s) <| w_exited := true |>
      | None => s
      end
  | PAwait => fun e =>
      match e with
      | Some err => (fails (normalizedStopWaitError err) s) <| w_exited := true |>
      | None => s
      end
  | PSignal => fun err => (fails (unless (errors_is OsErrProcessDone) err) s) <| w_signalled := true |>
  | PKillGroup _ => fun err => (fails (unless (errors_is_sys ESRCH) err) s)
  | PKill => fun err => (fails (unless (errors_is OsErrProcessDone) err) s) <| w_killed := true |>
  | PAcquireLease _ _ => fun err =>
      match err with None => s <| w_lease := true |> <| w_socket := PathUnknown |> | Some _ => (fails err s) <| w_denied := true |> end
  | PCleanupHelper _ _ => fun err => (fails err s) <| w_cleaned := true |>
  | PLstat _ => fun info =>
      match info with
      | Ok i => s <| w_socket := if is_socket i && negb (is_symlink i) then PathIsSocket else PathIsOther |>
      | Err err => (fails (unless is_not_exist (Some err)) s)
                     <| w_socket := if is_not_exist err then PathGone else PathFailed err |>
      end
  | PRemove _ => fun err =>
      (fails (unless is_not_exist err) s)
        <| w_socket := match unless is_not_exist err with None => PathGone | Some err => PathFailed err end |>
  | PLeaseClose => fun err => (fails err s) <| w_lease := false |>
  | PStderr => fun _ => s
  end r.

#[local] Abbreviation no_store := {| StateRoot := []; RuntimeRoot := [] |}.
#[local] Abbreviation all_files := [ReadyRead; ReadyWrite; RecordRead; RecordWrite].

(** The calls that may be made. *)
Definition allowed (s : watched) (c : pcall) : Prop :=
  let running := is_Some (w_pid s) /\ w_exited s = false in
  let owner := w_exited s = true /\ w_lease s = true in
  match c with
  | PPipe _ _ => w_pid s = None
  | PStart args => w_pid s = None /\ args = worker_args executable record /\ w_open s = all_files
  | PWrite payload => exists pid, w_pid s = Some pid /\ w_exited s = false /\
      EncodeLaunch (with_pid record pid) = Ok payload
  | PSelect | PPoll | PAwait | PSignal => running
  | PKillGroup pid => w_pid s = Some pid /\ w_exited s = false /\ w_signalled s = true
  | PKill => running /\ w_signalled s = true
  | PAcquireLease store id => w_exited s = true /\ w_lease s = false /\ ForRecord no_store record = Ok store /\ id = ID record
  | PCleanupHelper t id => owner /\ t = RecTarget record /\ id = ID record
  | PLstat path => owner /\ path = path_clean (ControlSocket record)
  | PRemove path => owner /\ w_socket s = PathIsSocket /\ path = path_clean (ControlSocket record) /\
      path_base path = ID record ++ !".sock"
  | PLeaseClose => owner
  | PClose _ | PStderr => True
  end.

#[local] Abbreviation wps := (wp allowed next).

(** What most steps leave alone. *)
Definition core (s : watched) := (w_pid s, w_sent s, w_open s, w_handing s).

(** The failures that came up are in [err]. *)
Definition adds (err : option error) (s s' : watched) : Prop :=
  exists fs, w_failures s' = fs ++ w_failures s /\ Forall (fun e => reported e err) fs.

Lemma adds_none err s s' : w_failures s' = w_failures s -> adds err s s'.
Proof. intros Hs. by exists []. Qed.

Lemma adds_fails err s : adds err s (fails err s).
Proof.
  destruct err as [e|]; [|by apply adds_none]. exists [e]. split; [done|].
  apply Forall_singleton, reported_self.
Qed.

Lemma adds_trans err s s1 s2 : adds err s s1 -> adds err s1 s2 -> adds err s s2.
Proof.
  intros (f1 & E1 & Hf1) (f2 & E2 & Hf2). exists (f2 ++ f1). rewrite E2, E1, app_assoc.
  split; [done|by apply Forall_app].
Qed.

Lemma adds_weaken (a b : option error) s s' : (forall e, reported e a -> reported e b) -> adds a s s' -> adds b s s'.
Proof. intros Hab (fs & E & Hf). exists fs. split; [done|]. by eapply Forall_impl. Qed.

Lemma adds_join a es s s' : a ∈ es -> adds a s s' -> adds (errors_join es) s s'.
Proof. intros Ha. apply adds_weaken. intros e. by apply reported_join. Qed.

Lemma adds_same err s s' t t' : w_failures t = w_failures s -> w_failures t' = w_failures s' -> adds err s s' -> adds err t t'.
Proof. intros E E' (fs & Hf & Hr). exists fs. by rewrite E, E'. Qed.

(** One more failure that is in [err]. *)
Lemma adds_then a err s t t' : adds err s t -> w_failures t' = w_failures (fails a t) ->
  (forall e, reported e a -> reported e err) -> adds err s t'.
Proof.
  intros Hs E Ha. eapply adds_trans; [exact Hs|]. eapply adds_same; [done|exact E|].
  eapply adds_weaken; [exact Ha|apply adds_fails].
Qed.

Lemma adds_wrapped before err s s' : w_failures s' = err :: w_failures s -> adds (Some (wrapf before err)) s s'.
Proof.
  intros E. exists [err]. split; [done|]. apply Forall_singleton. eexists. split; [done|].
  apply within_wrap, within_here.
Qed.

(** ** Cleaning up *)

(** [fails] changes the failures only. *)
Lemma fails_core err s : core (fails err s) = core s.
Proof. by destruct err. Qed.
Lemma fails_flags err s : w_exited (fails err s) = w_exited s /\ w_lease (fails err s) = w_lease s /\
  w_cleaned (fails err s) = w_cleaned s /\ w_socket (fails err s) = w_socket s /\
  w_signalled (fails err s) = w_signalled s /\ w_killed (fails err s) = w_killed s /\ w_denied (fails err s) = w_denied s.
Proof. by destruct err. Qed.

(** The flags of cleaning up, changed from [s] to [s']. *)
Record cleans (err : option error) (s s' : watched) : Prop := {
  cl_core : core s' = core s;
  cl_exited : w_exited s' = w_exited s;
  cl_lease : w_lease s' = w_lease s;
  cl_signalled : w_signalled s' = w_signalled s;
  cl_killed : w_killed s' = w_killed s;
  cl_failures : adds err s s'
}.

Definition not_derived : error := EText !"started Wrap control socket is not derived from its instance ID".
Definition not_a_socket : error := EText !"started Wrap control socket path is not a socket".

(** Nothing is left at the path of the worker's control socket, or what kept it
    there is in the error. *)
Definition socket_done (err : option error) (s : watched) : Prop :=
  match w_socket s with
  | PathGone => True
  | PathFailed e => reported e err
  | PathIsOther => reported not_a_socket err
  | PathUnknown => path_base (path_clean (ControlSocket record)) <> ID record ++ !".sock" /\ reported not_derived err
  | PathIsSocket => False
  end.

Lemma socket_done_weaken a b s : (forall e, reported e a -> reported e b) -> socket_done a s -> socket_done b s.
Proof. intros Hab. unfold socket_done. destruct (w_socket s); auto. by intros [? ?]; auto. Qed.

Lemma socket_spec s pid : w_exited s = true -> w_lease s = true -> w_socket s = PathUnknown ->
  wps (removeStartedControlSocket (with_pid record pid)) s
    (fun err s' => cleans err s s' /\ w_cleaned s' = w_cleaned s /\ socket_done err s').
Proof.
  intros Hx Hl Hu. unfold removeStartedControlSocket, socket_done. case_bool_decide as Hb; cbn [negb].
  2: { split; [|split; [done|rewrite Hu; split; [done|apply reported_self]]]. split; try done. by apply adds_none. }
  cbn. split; [done|]. intros info. destruct info as [i|err].
  - destruct (is_socket i) eqn:Hs, (is_symlink i) eqn:Hy; cbn;
      try (split; [split; try done; by apply adds_none|split; [done|apply reported_self]]).
    split; [done|]. intros err.
    destruct err as [err|]; cbn; [destruct (is_not_exist err)|]; cbn;
      (split; [split; try done; first [by apply adds_none|by apply adds_wrapped]|split; [done|]]); try done.
    apply reported_wrap.
  - cbn. destruct (is_not_exist err); cbn;
      (split; [split; try done; first [by apply adds_none|by apply adds_wrapped]|split; [done|]]); try done.
    apply reported_wrap.
Qed.

Lemma cleans_step err err' s s1 s' : cleans err s1 s' -> (forall e, reported e err -> reported e err') ->
  core s1 = core s -> w_exited s1 = w_exited s -> w_lease s1 = w_lease s -> w_signalled s1 = w_signalled s ->
  w_killed s1 = w_killed s -> adds err' s s1 -> cleans err' s s'.
Proof.
  intros [C1 C2 C3 C4 C5 C6] Hr ??????. split; try congruence.
  eapply adds_trans; [done|]. by eapply adds_weaken.
Qed.

Lemma artifacts_spec s pid : w_exited s = true -> w_lease s = true -> w_socket s = PathUnknown ->
  wps (cleanupStartedArtifacts (with_pid record pid)) s
    (fun err s' => cleans err s s' /\ w_cleaned s' = true /\ socket_done err s').
Proof.
  intros Hx Hl Hu. unfold cleanupStartedArtifacts. cbn. split; [done|]. intros helperErr.
  apply wp_bind. eapply wp_mono; [|apply socket_spec; by destruct helperErr].
  cbn. intros socketErr s' (Hc & Hw & Hd). split_and!; [|rewrite Hw; by destruct helperErr|].
  - eapply cleans_step; [exact Hc|..]; [intros e He; eapply reported_join, He; right; by left|by destruct helperErr..|].
    destruct helperErr as [e|]; [|by apply adds_none].
    exists [e]. split; [done|]. apply Forall_singleton. eapply reported_join, reported_self. by left.
  - eapply socket_done_weaken, Hd. intros e He. eapply reported_join, He. right. by left.
Qed.

(** What the cleaning up of a reaped worker comes to. *)
Definition cleaned_up (err : option error) (s' : watched) : Prop :=
  (w_cleaned s' = true /\ socket_done err s') \/ w_denied s' = true \/
  exists e, ForRecord no_store record = Err e /\ reported e err.

Lemma reaped_spec s pid : w_exited s = true -> w_lease s = false ->
  wps (cleanupReapedWorkerArtifacts (with_pid record pid)) s (fun err s' => cleans err s s' /\ cleaned_up err s').
Proof.
  intros Hx Hl. unfold cleanupReapedWorkerArtifacts.
  change (ForRecord _ (with_pid record pid)) with (ForRecord no_store record).
  destruct (ForRecord no_store record) as [store|e] eqn:Hf.
  - apply wp_ask. split; [done|]. intros [err|].
    + cbn. split; [split; try done; by apply adds_wrapped|by right; left].
    + apply wp_bind. eapply wp_mono; [|by apply artifacts_spec]. intros cleaned s' (Hc & Hw & Hd).
      destruct Hc as [C1 C2 C3 C4 C5 C6]. cbn in *. split; [by rewrite C2|]. intros closed.
      assert (adds (errors_join [cleaned; closed]) s (fails closed s')) as Hadds.
      { eapply adds_trans; [|eapply adds_join; [right; by left|apply adds_fails]].
        eapply adds_join; [by left|]. eapply adds_same, C6; done. }
      assert (socket_done (errors_join [cleaned; closed]) s') as Hd'.
      { eapply socket_done_weaken, Hd. intros e. apply joined_left. }
      destruct closed as [closed|]; (split; [split; cbn; try done|left; split; [done|exact Hd']]).
  - cbn. split; [split; try done; by apply adds_none|]. right. right. exists e. split; [done|]. apply reported_self.
Qed.

(** ** Stopping the process *)

Definition not_stopped : error := EText !"detached Wrap worker did not exit after forced stop".

(** The process has exited and was cleaned up after, or nothing could end it,
    and the error says so. *)
Definition gone (err : option error) (s : watched) : Prop :=
  (w_exited s = true /\ cleaned_up err s) \/
  (w_exited s = false /\ w_killed s = true /\ reported not_stopped err).

Record ends (err : option error) (s s' : watched) : Prop := {
  en_core : core s' = core s;
  en_lease : w_lease s' = false;
  en_failures : adds err s s';
  en_gone : gone err s'
}.

Lemma cleaned_up_weaken a b s : (forall e, reported e a -> reported e b) -> cleaned_up a s -> cleaned_up b s.
Proof.
  intros Hab [[? Hd]|[?|(e & Hf & Hr)]]; [left; split; [done|by eapply socket_done_weaken]|by right; left|].
  right. right. exists e. auto.
Qed.

Lemma ends_weaken a b s s' : (forall e, reported e a -> reported e b) -> ends a s s' -> ends b s s'.
Proof.
  intros Hab [E1 E2 E3 [[Hx Hc]|(Hx & Hk & Hn)]]; split; try done; try (by eapply adds_weaken).
  - left. split; [done|by eapply cleaned_up_weaken].
  - right. auto.
Qed.

(** An exit was observed in [s1], and what is left is the clean-up. *)
Lemma reaped_ends err cleanupErr s s1 : adds err s s1 -> core s1 = core s -> w_exited s1 = true -> w_lease s1 = false ->
  (forall e, reported e cleanupErr -> reported e err) ->
  forall s', cleans cleanupErr s1 s' /\ cleaned_up cleanupErr s' -> ends err s s'.
Proof.
  intros Ha Hcore Hx Hl Hr s' [[C1 C2 C3 C4 C5 C6] Hcl]. split; try congruence.
  - eapply adds_trans; [exact Ha|]. by eapply adds_weaken.
  - left. split; [congruence|]. by eapply cleaned_up_weaken.
Qed.

(** A field that [fails] does not change. *)
Ltac by_fails := cbn; repeat match goal with |- context [fails ?e _] => destruct e; cbn end; done.

Lemma stop_spec s pid : w_pid s = Some pid -> w_exited s = false -> w_lease s = false ->
  wps (stopStartedProcess pid (with_pid record pid)) s (fun err s' => ends err s s').
Proof.
  intros Hp Hx Hl. unfold stopStartedProcess. apply wp_ask. split; [by split|]. intros signalErr. cbv zeta.
  apply wp_ask. split; [split; by_fails|]. set (sig := unless (errors_is OsErrProcessDone) signalErr).
  intros [waitErr|].
  - apply wp_bind. eapply wp_mono; [|apply reaped_spec; by_fails].
    intros cleanupErr s' Hcl. eapply reaped_ends; [..|exact Hcl]; [|by_fails|by_fails|by_fails|].
    + eapply (adds_then (normalizedStopWaitError waitErr)); [|cbn; reflexivity|apply reported_in; right; by left].
      eapply (adds_then sig); [by apply adds_none|cbn; reflexivity|apply reported_in; by left].
    + apply reported_in. right. right. by left.
  - apply wp_ask. split; [split_and!; by_fails|]. intros groupErr. apply wp_ask. split; [split_and!; by_fails|].
    intros killErr. apply wp_ask. split; [split; by_fails|]. intros waited.
    assert (Hsk : forall err, (forall e, reported e sig -> reported e err) ->
      (forall e, reported e (unless (errors_is_sys ESRCH) groupErr) -> reported e err) ->
      (forall e, reported e (unless (errors_is OsErrProcessDone) killErr) -> reported e err) ->
      adds err s (next (next (next (next s (ev PSignal signalErr)) (ev PAwait None)) (ev (PKillGroup pid) groupErr))
                    (ev PKill killErr))).
    { intros err R1 R2 R3. eapply adds_then; [|cbn; reflexivity|exact R3]. eapply adds_then; [|cbn; reflexivity|exact R2].
      eapply adds_then; [by apply adds_none|cbn; reflexivity|exact R1]. }
    destruct waited as [waitErr|].
    + apply wp_bind. eapply wp_mono; [|apply reaped_spec; by_fails].
      intros cleanupErr s' Hcl. eapply reaped_ends; [..|exact Hcl]; [|by_fails|by_fails|by_fails|].
      * eapply (adds_then (normalizedStopWaitError waitErr)); [|cbn; reflexivity|apply reported_in; do 3 right; by left].
        apply Hsk; apply reported_in; [by left|right; by left|do 2 right; by left].
      * apply reported_in. do 4 right. by left.
    + split; [by_fails|by_fails|apply Hsk; apply reported_in; [by left|right; by left|do 2 right; by left]|].
      right. split_and!; [by_fails|by_fails|]. eapply reported_join, reported_self. do 3 right. by left.
Qed.

(** ** The start *)

Definition delivered (status : Status) (s : watched) : Prop :=
  w_exited s = false /\ w_signalled s = false /\ w_failures s = [] /\
  StID status = ID record /\ incomplete status = false /\
  exists pid payload, w_pid s = Some pid /\ w_sent s = Some payload /\ EncodeLaunch (with_pid record pid) = Ok payload.

Definition finished (r : result Status) (s : watched) : Prop :=
  w_lease s = false /\ w_handing s = false /\
  match r with
  | Ok status => delivered status s
  | Err err => (w_pid s = None \/ gone (Some err) s) /\ Forall (fun e => reported e (Some err)) (w_failures s)
  end.

(** A started worker that nothing was done to yet. *)
Definition untouched (pid : Z) (s : watched) : Prop :=
  w_pid s = Some pid /\ w_exited s = false /\ w_lease s = false /\ w_signalled s = false /\ w_handing s = false.

Lemma ends_finished err s s' : w_handing s = false -> Forall (fun e => reported e (Some err)) (w_failures s) ->
  ends (Some err) s s' -> finished (Err err) s'.
Proof.
  intros Hh Hf [E1 E2 (fs & E & Hfs) E4]. split; [done|]. split; [by injection E1 as _ _ _ ->|].
  split; [by right|]. rewrite E. by apply Forall_app.
Qed.

Lemma in_join_error err err2 e : reported e (Some err) \/ reported e err2 -> reported e (Some (join_error err [err2])).
Proof.
  assert (Hj : Some (join_error err [err2]) = errors_join [Some err; err2]) by by destruct err2.
  rewrite Hj. intros [He|He]; (eapply reported_join; [|exact He]); [by left|right; by left].
Qed.

Lemma fail_stopped_spec err pid s : untouched pid s -> Forall (fun e => reported e (Some err)) (w_failures s) ->
  wps (fail_stopped err pid (with_pid record pid)) s (fun e s' => finished (Err e) s').
Proof.
  intros (Hp & Hx & Hl & _ & Hh) Hf. unfold fail_stopped. apply wp_bind. eapply wp_mono; [|by apply stop_spec].
  intros stopErr s' Hends. eapply ends_finished; [exact Hh| |eapply ends_weaken, Hends].
  - eapply Forall_impl; [exact Hf|]. intros e He. apply in_join_error. by left.
  - intros e He. apply in_join_error. by right.
Qed.

Lemma fail_exited_spec waitErr pid s : w_exited s = true -> w_lease s = false -> w_handing s = false ->
  w_failures s = [workerEarlyExitError waitErr] ->
  wps (fail_exited waitErr (with_pid record pid)) s (fun e s' => finished (Err e) s').
Proof.
  intros Hx Hl Hh Hf. unfold fail_exited. apply wp_bind. eapply wp_mono; [|by apply reaped_spec].
  intros cleanupErr s' Hcl. eapply (ends_finished _ s); [done|..].
  - rewrite Hf. apply Forall_singleton, in_join_error. left. apply reported_self.
  - eapply reaped_ends; [..|exact Hcl]; [by apply adds_none|done|done|done|]. intros e He. apply in_join_error. by right.
Qed.

Lemma reported_stderr e err out : reported e (Some err) -> reported e (Some (withStartupStderr err out)).
Proof.
  intros (err' & [= <-] & Hw). eexists. split; [done|]. unfold withStartupStderr. case_bool_decide; [done|].
  by apply within_wrap.
Qed.

Lemma finished_weaken err err' s : (forall e, reported e (Some err) -> reported e (Some err')) ->
  finished (Err err) s -> finished (Err err') s.
Proof.
  intros Hr (Hl & Hh & Hg & Hf). split; [done|]. split; [done|]. split; [|by eapply Forall_impl].
  destruct Hg as [?|[[Hx Hc]|(Hx & Hk & Hn)]]; [by left|right; left|right; right].
  - split; [done|]. by eapply cleaned_up_weaken.
  - split_and!; auto.
Qed.

Lemma with_stderr_spec m s : wps m s (fun e s' => finished (Err e) s') -> wps (with_stderr m) s finished.
Proof.
  intros Hm. unfold with_stderr. apply wp_bind. eapply wp_mono; [|exact Hm]. intros e s' Hf.
  apply wp_ask. split; [done|]. intros out. cbn. eapply finished_weaken, Hf. intros e'. apply reported_stderr.
Qed.

(** After the news that [Start] waited for. *)
Lemma news_untouched pid s e : untouched pid s -> w_failures s = [] -> (forall err, e <> WorkerExited err) ->
  untouched pid (next s (ev PSelect e)) /\ w_failures (next s (ev PSelect e)) = option_list (bad_news e) /\
  w_sent (next s (ev PSelect e)) = w_sent s.
Proof.
  intros (Hp & Hx & Hl & Hs & Hh) Hf Hne.
  assert (Hn : next s (ev PSelect e) = (fails (bad_news e) s) <| w_exited := w_exited s |>) by (destruct e; try done; by edestruct Hne).
  rewrite Hn. destruct (bad_news e); cbn; rewrite ?Hf; by split_and!.
Qed.

Lemma await_spec pid payload s : untouched pid s -> w_failures s = [] -> w_sent s = Some payload ->
  EncodeLaunch (with_pid record pid) = Ok payload -> wps (await_ready pid (with_pid record pid)) s finished.
Proof.
  intros Hu Hf Hsent Hpay. pose proof Hu as (Hp & Hx & Hl & Hsig & Hh). unfold await_ready.
  apply wp_ask. split; [by split; [exists pid|]|]. intros [err|input readErr|waitErr].
  - destruct (news_untouched pid s (StartupDone err) Hu Hf) as (Hu' & Hf' & _); [done|].
    apply wp_bind. eapply wp_mono; [|apply fail_stopped_spec; [exact Hu'|]]; [by intros|].
    rewrite Hf'. apply Forall_singleton, reported_self.
  - destruct (news_untouched pid s (ReadyDone input readErr) Hu Hf) as (Hu' & Hf' & Hs'); [done|].
    cbn [bad_news] in Hf'. revert Hu' Hf' Hs'. set (s1 := next s _). intros Hu' Hf' Hs'.
    destruct (readReady input readErr) as [status|err] eqn:Hr.
    + assert (Hinc : incomplete status = false).
      { unfold readReady in Hr. destruct (decode_ready _) as [st|]; [|done].
        destruct (incomplete st) eqn:Hinc; [done|]. by injection Hr as <-. }
      change (ID (with_pid record pid)) with (ID record). destruct (StID status ==b ID record) eqn:Hid; cbn [negb].
      * apply bool_decide_eq_true in Hid. pose proof Hu' as (Hp' & Hx' & Hl' & Hsig' & Hh').
        apply wp_ask. split; [by split; [exists pid|]|]. intros [waitErr|].
        -- apply with_stderr_spec, fail_exited_spec; try done. change (next s1 _) with ((fails (Some (workerEarlyExitError waitErr)) s1) <| w_exited := true |>). cbn [fails w_failures setter]. by rewrite Hf'.
        -- split; [done|]. split; [done|]. split_and!; try done. exists pid, payload. split_and!; [exact Hp'|exact (eq_trans Hs' Hsent)|exact Hpay].
      * apply with_stderr_spec, fail_stopped_spec; [done|]. rewrite Hf'. apply Forall_singleton, reported_self.
    + apply with_stderr_spec, fail_stopped_spec; [done|]. rewrite Hf'. apply Forall_singleton, reported_wrap.
  - apply with_stderr_spec, fail_exited_spec; try done. cbn. by rewrite Hf.
Qed.

Definition before_start (files : list pfile) (s : watched) : Prop :=
  s = nothing_started <| w_open := files |>.

Lemma launch_spec s : before_start all_files s -> wps (launch executable record) s finished.
Proof.
  intros ->. unfold launch. apply wp_ask. split; [done|]. intros [pid|err].
  2: { split; [done|]. split; [done|]. split; [by left|]. apply Forall_singleton, reported_wrap. }
  apply wp_ask. split; [done|]. intros closed1. apply wp_ask. split; [done|]. intros closed2. cbv zeta.
  assert (Hfail : forall s err, untouched pid s -> Forall (fun e => reported e (Some err)) (w_failures s) ->
    wps (err ← fail_stopped err pid (with_pid record pid); mret (Err err)) s finished).
  { intros s err Hu Hf. apply wp_bind. eapply wp_mono; [|by apply fail_stopped_spec]. by intros. }
  destruct (EncodeLaunch (with_pid record pid)) as [payload|err] eqn:Hpay.
  2: { apply Hfail; cbn [next ev]; rewrite Hpay; cbn; [by split_and!|apply Forall_singleton, reported_self]. }
  set (s1 := next (next (next _ (ev (PStart _) _)) (ev (PClose RecordRead) closed1)) (ev (PClose ReadyWrite) closed2)).
  assert (Hs1 : untouched pid s1 /\ w_failures s1 = []).
  { unfold s1. cbn [next ev]. rewrite Hpay. cbn. by split_and!. }
  clearbody s1. destruct Hs1 as [(Hp & Hx & Hl & Hsig & Hh) Hf].
  apply wp_ask. split; [by exists pid|]. intros [err|].
  - apply Hfail; cbn; [by split_and!|]. rewrite Hf. apply Forall_singleton, reported_wrap.
  - apply wp_ask. split; [done|]. intros [err|]; [apply Hfail|eapply await_spec]; cbn; try done; try (by split_and!).
    rewrite Hf. apply Forall_singleton, reported_wrap.
Qed.

(** A pipe is closed in the end; [P] are the files of other pipes. *)
Lemma with_pipe_spec (P : pfile -> Prop) r w before body files :
  Forall P files ->
  wps body (nothing_started <| w_open := r :: w :: files |>)
    (fun res s' => finished res s' /\ Forall (fun f => f = r \/ f = w \/ P f) (w_open s')) ->
  wps (with_pipe r w before body) (nothing_started <| w_open := files |>)
    (fun res s' => finished res s' /\ Forall P (w_open s')).
Proof.
  intros Hfiles Hbody. unfold with_pipe. apply wp_ask. split; [done|]. intros [err|].
  - split; [|done]. split; [done|]. split; [done|]. split; [by left|]. apply Forall_singleton, reported_wrap.
  - apply wp_bind. eapply wp_mono; [|exact Hbody]. intros res s' [Hf Hopen].
    apply wp_ask. split; [done|]. intros c1. apply wp_ask. split; [done|]. intros c2.
    destruct Hf as (Hl & Hh & Hres). cbn. rewrite Hh, !andb_false_r. cbn. rewrite Hh, !andb_false_r.
    split; [split; [done|]; split; [done|]; by destruct res|]. cbn. rewrite !Forall_forall in *. intros f Hin.
    apply list_elem_of_filter in Hin as [Hr Hin]. apply list_elem_of_filter in Hin as [Hw Hin].
    by destruct (Hopen f Hin) as [?|[?|?]].
Qed.

Lemma start_spec ctx : wps (Start ctx executable record) nothing_started
  (fun r s => finished r s /\ w_open s = []).
Proof.
  assert (Hearly : forall err, finished (Err err) nothing_started /\ w_open nothing_started = []).
  { intros err. split; [|done]. split; [done|]. split; [done|]. by split; [left|]. }
  unfold Start. destruct ctx; cbn [negb]; [|apply Hearly]. destruct (is_abs executable); cbn [negb]; [|apply Hearly].
  destruct (Record_Validate _) as [err|]; [apply Hearly|].
  eapply wp_mono; [|apply (with_pipe_spec (fun _ => False) _ _ _ _ []); [done|]].
  - cbn. intros res s' [Hf Ho]. split; [done|]. by destruct (w_open s') as [|f fs]; [|apply Forall_inv in Ho].
  - eapply wp_mono; [|apply (with_pipe_spec (fun f => f = RecordRead \/ f = RecordWrite \/ False) _ _ _ _ [RecordRead; RecordWrite])].
    + done.
    + rewrite !Forall_cons. auto.
    + eapply wp_mono; [|by apply launch_spec]. intros res s' Hf. split; [done|].
      apply Forall_forall. intros [] _; auto.
Qed.

(** C30: a worker is ready, or gone and cleaned up after.  Under every
    environment [Start] makes only the calls that [allowed] lets it make at that
    moment: the record goes to the one process that was started, a process
    whose exit was seen is never waited for, signalled or killed again, and the
    helper and the socket are removed only after that exit, under the worker's
    lease, the socket's path only if it is this worker's and a socket.  In the
    end no pipe end is open and no lease is held.  A status is returned only
    for a worker that was sent its record whole, reported itself ready under
    that record's identifier and was not seen to exit; an error means that no
    process was started, or that it exited and was cleaned up after: its helper
    was told to end and nothing is left at its socket's path, or the error says
    what kept it there (or the lease or its path was refused); or that it outlived
    a kill.  And every failure on the way is part of the error: of the pipes, the
    start, the encoding, writing and closing of the launch record, the readiness
    (the deadline, an unreadable or foreign status, an early exit), the signals
    and the wait, but for what only says that the process has ended, and the
    clean-up with its lease. *)
Theorem worker_ready_or_gone ctx t r (Hrun : runs (Start ctx executable record) t r) :
  (forall t1 c x t2, t = t1 ++ ev c x :: t2 -> allowed (foldl next nothing_started t1) c) /\
  let s := foldl next nothing_started t in
  w_open s = [] /\ w_lease s = false /\
  match r with
  | Ok status => delivered status s
  | Err err => (w_pid s = None \/ gone (Some err) s) /\ Forall (fun e => reported e (Some err)) (w_failures s)
  end.
Proof.
  destruct (wp_runs _ _ _ _ _ _ _ (start_spec ctx) Hrun) as [[(Hl & _ & Hr) Ho] Hall].
  by split_and!.
Qed.
End Worker.

(** ** The pipes *)

Lemma take_short {A} (n : Z) (l : list A) : Z.of_nat (length l) <= n -> take (Z.to_nat (n + 1)) l = l.
Proof. intros Hn. apply take_ge. lia. Qed.

Section Pipes.
Context `{UnicodeTables} `{RecordCodec} `{ReadyCodec}.

Lemma read_launch_ok input readErr id socket r : ReadLaunch input readErr id socket = Ok r ->
  Record_Validate r = None /\ ID r = id /\ ControlSocket r = socket /\ len input <= MaxLaunchBytes.
Proof.
  unfold ReadLaunch. destruct (Z.ltb_spec MaxLaunchBytes (len (take (Z.to_nat (MaxLaunchBytes + 1)) input))) as [|Hlen];
    [done|].
  destruct readErr; [done|]. destruct (decode_first _) as [[record rest]|]; [|done].
  destruct (decode_next rest) as [|err]; [done|]. destruct (errors_is IoEOF err); cbn [negb]; [|done].
  destruct (Record_Validate record) eqn:Hv; [done|]. repeat case_bool_decide; cbn [negb orb]; try done.
  intros [= <-]. split_and!; try done. unfold len in *. rewrite length_take in Hlen. unfold MaxLaunchBytes in *. lia.
Qed.

(** The launch record and the readiness status survive their pipes: a worker
    reads the record that was sent, or no record at all, and what it reads is
    valid, its own and within the limit; the status it reports is the one
    that [Start] reads. *)
Theorem pipes_roundtrip : 
  (forall r payload, storable r -> EncodeLaunch r = Ok payload ->
     ReadLaunch payload None (ID r) (ControlSocket r) = Ok r) /\
  (forall input readErr id socket r, ReadLaunch input readErr id socket = Ok r ->
     Record_Validate r = None /\ ID r = id /\ ControlSocket r = socket /\ len input <= MaxLaunchBytes) /\
  (forall st data, sendable_status st -> WriteReady st = Ok data -> len data <= maxReadyBytes ->
     readReady data None = Ok st).
Proof.
  split_and!.
  - intros r payload Hs. unfold EncodeLaunch. destruct (Record_Validate r) eqn:Hv; [done|].
    destruct (decode_encode r Hs) as (data & rest & -> & Hd & Hn).
    destruct (Z.ltb_spec MaxLaunchBytes (len data)) as [|Hlen]; [done|]. intros [= <-].
    unfold ReadLaunch. rewrite take_short by done. rewrite (proj2 (Z.ltb_ge _ _)) by done.
    rewrite Hd, Hn. cbn [errors_is]. rewrite bool_decide_true by done. cbn [negb].
    rewrite Hv, !bool_decide_true by done. done.
  - apply read_launch_ok.
  - intros st data Hs. unfold WriteReady. destruct (incomplete st) eqn:Hi; [done|].
    destruct (ready_law st Hs) as (data' & -> & Hd). intros [= ->] Hlen.
    unfold readReady. rewrite take_short by done. by rewrite Hd, Hi.
Qed.
End Pipes.

(** ** A format for readiness, and a start that is refused *)

#[export, refine] Instance plain_ready : ReadyCodec := {|
  encode_ready st := Ok (flat_map put_item (status_items st));
  decode_ready data :=
    match '(fs, _) ← get_items 16 data; items_status fs with
    | Some st => Ok st
    | None => Err (EText !"unexpected end of input")
    end
|}.
Proof.
  intros st Hs. exists (flat_map put_item (status_items st)). split; [done|].
  change 16%nat with (length (status_items st)). rewrite <- (app_nil_r (flat_map _ _)), get_put_items.
  cbn [mbind option_bind]. by rewrite items_status_items.
Defined.

Definition worker_status : Status :=
  {| StID := !"abc123"; StName := !"one"; State := !"ready"; PairingURL := !"url"; QR := []; StDirectory := !"/src";
     Clients := 0; StStartedAt := 1; StTarget := demo_target !"@1"; Warning := [] |}.
Definition ready_data : bytes := match encode_ready worker_status with Ok data => data | Err _ => [] end.

(** The worker answers as [select] says and does not stop on request. *)
Definition stubborn_worker (select : start_event) (c : pcall) : panswer c :=
  match c return panswer c with
  | PStart _ => Ok 99
  | PSelect => select
  | PPoll | PAwait => None
  | PStderr => !"it broke"
  | PLstat _ => Err (ESys !"lstat" [] ENOENT)
  | _ => None
  end.
Definition demo_started (select : start_event) : list (event pcall panswer) * result Status :=
  exec (fun _ => stubborn_worker select) [] (Start true !"/bin/wrap" (demo_record !"abc123" !"one" !"@1")).

Example worker_starts : snd (demo_started (ReadyDone ready_data None)) = Ok worker_status.
Proof. vm_compute. reflexivity. Qed.

(** A worker that does not become ready and cannot be ended: the error says so. *)
Lemma worker_ready_or_gone_witness : exists t err,
  demo_started (StartupDone (ESentinel ContextDeadlineExceeded)) = (t, Err err) /\
  w_open (foldl (next (demo_record !"abc123" !"one" !"@1")) nothing_started t) = [] /\ reported not_stopped (Some err).
Proof.
  set (select := StartupDone (ESentinel ContextDeadlineExceeded)).
  destruct (demo_started select) as [t [st|err]] eqn:Hd; [vm_compute in Hd; discriminate Hd|].
  assert (Ht : t = fst (demo_started select)) by by rewrite Hd.
  pose proof (exec_runs (fun _ => stubborn_worker select) (Start true !"/bin/wrap" (demo_record !"abc123" !"one" !"@1")) [])
    as Hrun.
  change (exec _ _ _) with (demo_started select) in Hrun. rewrite Hd in Hrun.
  destruct (worker_ready_or_gone !"/bin/wrap" (demo_record !"abc123" !"one" !"@1") true t (Err err) Hrun)
    as (_ & Ho & _ & [Hp|[[Hx _]|(_ & _ & Hr)]] & _).
  - exfalso. rewrite Ht in Hp. vm_compute in Hp. discriminate Hp.
  - exfalso. rewrite Ht in Hx. vm_compute in Hx. discriminate Hx.
  - by exists t, err.
Defined.
