(* ===== verification/GoTime.v ===== *)
(** * Times: what package [time] writes

    A time is the number of nanoseconds since Go's zero time, the first of
    January of the year 1, in UTC. *)

From S2P Require Import Prelude GoString GoConv.
Open Scope Z_scope.

(** Year, month and day, [days] days after the first of January of the year 1.
    The count starts at the first of March of the year 0, so that a leap day
    is the last day of its year. *)
Definition civil (days : Z) : Z * Z * Z :=
  let z := days + 306 in
  let doe := z mod 146097 in
  let yoe := (doe - doe / 1460 + doe / 36524 - doe / 146096) / 365 in
  let doy := doe - (365 * yoe + yoe / 4 - yoe / 100) in
  let mp := (5 * doy + 2) / 153 in
  let month := if mp <? 10 then mp + 3 else mp - 9 in
  (yoe + z / 146097 * 400 + (if month <=? 2 then 1 else 0), month, doy - (153 * mp + 2) / 5 + 1).

Definition padded (width : nat) (n : Z) : bytes :=
  rev (map (fun i => digit_byte (n / 10 ^ Z.of_nat i mod 10)) (seq 0 width)).

(** [Format(time.RFC3339)]. *)
Definition rfc3339 (t : Z) : bytes :=
  let seconds := t / 10 ^ 9 in
  let '(y, m, d) := civil (seconds / 86400) in
  let s := seconds mod 86400 in
  padded 4 y ++ !"-" ++ padded 2 m ++ !"-" ++ padded 2 d ++ !"T" ++
  padded 2 (s / 3600) ++ !":" ++ padded 2 (s / 60 mod 60) ++ !":" ++ padded 2 (s mod 60) ++ !"Z".

Example some_times :
  rfc3339 0 = !"0001-01-01T00:00:00Z" /\
  rfc3339 ((719162 * 86400 + 951786123) * 10 ^ 9 + 5) = !"2000-02-29T01:02:03Z" /\
  rfc3339 (62135596800 * 10 ^ 9 + 1735689599 * 10 ^ 9) = !"2024-12-31T23:59:59Z" /\
  rfc3339 (315537897599 * 10 ^ 9) = !"9999-12-31T23:59:59Z".
Proof. vm_compute. done. Qed.
