(* ===== verification/GoShell.v ===== *)
(** * Words of a shell command

    [shellQuote] (cmd/wrap/commands.go) and [shellWord] (internal/doctor/doctor.go)
    write words for a POSIX shell; [sh_words] reads the words of a simple
    command: blanks separate, single quotes take everything, a backslash takes
    the next character, and a character that could mean anything else ends the
    reading. *)

From S2P Require Import Prelude GoString GoUnicode.
Open Scope Z_scope.

Definition shellQuote (value : bytes) : bytes := !"'" ++ replace_byte "'" !"'\''" value ++ !"'".

(** The test of [shellWord] on a character. *)
Definition shell_plain (char : Z) : bool :=
  negb (((char <? 97) || (122 <? char)) && ((char <? 65) || (90 <? char)) &&
        ((char <? 48) || (57 <? char)) && negb ((char =? 46) || (char =? 95) || (char =? 45))).

Definition shellWord (value : bytes) : bytes :=
  if existsb (fun rw => negb (shell_plain (fst rw))) (runes value) then shellQuote value else value.

(** ** Reading *)

Inductive sh_state := Between | InWord (word : bytes) | InQuotes (word : bytes).

Definition sh_literal (b : byte) : bool :=
  shell_plain (bz b) || existsb (Byte.eqb b) !"/+,:@%" || (0x80 <=? bz b).

Fixpoint sh_read (st : sh_state) (s : bytes) : option (list bytes) :=
  match s, st with
  | [], Between => Some []
  | [], InWord w => Some [w]
  | [], InQuotes _ => None
  | b :: s, InQuotes w =>
      if Byte.eqb b "'" then sh_read (InWord w) s else sh_read (InQuotes (w ++ [b])) s
  | b :: s', st =>
      let w := match st with InWord w => w | _ => [] end in
      if Byte.eqb b " " then
        match st with
        | InWord w => ws ← sh_read Between s'; Some (w :: ws)
        | _ => sh_read Between s'
        end
      else if Byte.eqb b "'" then sh_read (InQuotes w) s'
      else if Byte.eqb b x5c then
        match s' with
        | c :: s'' => if Byte.eqb c x0a then None else sh_read (InWord (w ++ [c])) s''
        | [] => None
        end
      else if sh_literal b then sh_read (InWord (w ++ [b])) s'
      else None
  end.
Definition sh_words (s : bytes) : option (list bytes) := sh_read Between s.

(** ** A quoted word is read back *)

Lemma sh_quoted value : forall w rest,
  sh_read (InQuotes w) (replace_byte "'" !"'\''" value ++ !"'" ++ rest) = sh_read (InWord (w ++ value)) rest.
Proof.
  induction value as [|b value IH]; intros w rest; [by rewrite app_nil_r|].
  unfold replace_byte. cbn [flat_map]. fold (replace_byte "'" !"'\''" value).
  destruct (byte_eqb_spec b "'") as [->|Hne].
  - cbn [Byte.eqb]. rewrite <- app_assoc.
    transitivity (sh_read (InQuotes (w ++ ["'"%byte])) (replace_byte "'" !"'\''" value ++ !"'" ++ rest)); [done|].
    rewrite IH. by rewrite <- app_assoc.
  - cbn [app sh_read]. rewrite (proj2 (byte_eqb_false b "'")) by done. rewrite IH. by rewrite <- app_assoc.
Qed.

(** The word that a quoted string adds to, wherever a word may go on. *)
Definition word_of (st : sh_state) : bytes := match st with InWord w => w | _ => [] end.

Lemma sh_quote value st rest : (forall w, st <> InQuotes w) ->
  sh_read st (shellQuote value ++ rest) = sh_read (InWord (word_of st ++ value)) rest.
Proof.
  intros Hst. unfold shellQuote. rewrite <- !app_assoc. destruct st; [..|by edestruct Hst];
    cbn [app sh_read]; apply sh_quoted.
Qed.

Lemma sh_literal_only b : sh_literal b && (Byte.eqb b " " || Byte.eqb b "'" || Byte.eqb b x5c) = false.
Proof. apply negb_true_iff. revert b. all_bytes. Qed.

Lemma sh_plain_word value : Forall (fun b => sh_literal b = true) value ->
  forall st rest, (forall w, st <> InQuotes w) -> value <> [] ->
  sh_read st (value ++ rest) = sh_read (InWord (word_of st ++ value)) rest.
Proof.
  induction 1 as [|b value Hb Hv IH]; intros st rest Hst Hne; [done|].
  pose proof (sh_literal_only b) as Ho. rewrite Hb in Ho. cbn [andb] in Ho.
  apply orb_false_iff in Ho as [[H1 H2]%orb_false_iff H3].
  assert (Hstep : sh_read st ((b :: value) ++ rest) = sh_read (InWord (word_of st ++ [b])) (value ++ rest)).
  { destruct st; [..|by edestruct Hst]; cbn [app sh_read word_of]; by rewrite H1, H2, H3, Hb. }
  rewrite Hstep. destruct value as [|c value]; [done|]. rewrite IH by done. cbn [word_of]. by rewrite <- app_assoc.
Qed.

(** Where a word ends. *)
Definition word_ends (rest : bytes) : Prop := rest = [] \/ exists rest', rest = " "%byte :: rest'.

Lemma sh_word_ends w rest : word_ends rest ->
  sh_read (InWord w) rest = ws ← sh_words rest; Some (w :: ws).
Proof. intros [->|[rest' ->]]; [done|]. unfold sh_words. cbn. by destruct (sh_read Between rest'). Qed.

(** A word written in either way, then the others. *)
Lemma sh_quote_word value rest : word_ends rest ->
  sh_words (shellQuote value ++ rest) = ws ← sh_words rest; Some (value :: ws).
Proof. intros Hr. unfold sh_words at 1. rewrite sh_quote by done. by apply sh_word_ends. Qed.

Lemma shell_plain_bytes value : existsb (fun rw => negb (shell_plain (fst rw))) (runes value) = false ->
  Forall (fun b => shell_plain (bz b) = true) value.
Proof.
  induction value as [|c r s Hc Hr IH] using runes_ind; [done|]. rewrite Hr. cbn [existsb fst].
  intros [Hp%negb_false_iff Hs]%orb_false_iff. apply Forall_app. split; [|by apply IH].
  destruct Hc as [b Hb|s' r Hne Hh Hr']; [by apply Forall_singleton|]. exfalso.
  unfold shell_plain in Hp. guards. lia.
Qed.

Lemma sh_shell_word value rest : value <> [] -> word_ends rest ->
  sh_words (shellWord value ++ rest) = ws ← sh_words rest; Some (value :: ws).
Proof.
  intros Hne Hr. unfold shellWord. destruct (existsb _ _) eqn:Hp; [by apply sh_quote_word|].
  unfold sh_words at 1. rewrite sh_plain_word; [by apply sh_word_ends| |done|done].
  eapply Forall_impl; [by apply shell_plain_bytes|]. cbn. intros b Hb. unfold sh_literal. by rewrite Hb.
Qed.

Lemma sh_space rest : sh_words (" "%byte :: rest) = sh_words rest.
Proof. done. Qed.

(** A word of characters that stand for themselves, then the others. *)
Lemma sh_literal_word value rest : Forall (fun b => sh_literal b = true) value -> value <> [] -> word_ends rest ->
  sh_words (value ++ rest) = ws ← sh_words rest; Some (value :: ws).
Proof. intros Hv Hne Hr. unfold sh_words at 1. rewrite sh_plain_word by done. by apply sh_word_ends. Qed.

Lemma sh_literal_words value rest : Forall (fun b => sh_literal b = true) value -> value <> [] ->
  sh_words (value ++ " "%byte :: rest) = ws ← sh_words rest; Some (value :: ws).
Proof. intros Hv Hne. rewrite sh_literal_word by first [done|right; by eexists]. by rewrite sh_space. Qed.
