(* ===== verification/CommandLine.v ===== *)
(** * The command line (cmd/wrap/main.go, and the worker's flags in commands.go)

    [runArgs] finds the command that the arguments name and calls its function,
    if it has one.  [parseServeArgs] reads the worker's flags with package flag,
    of which string and integer flags are modelled. *)

From S2P Require Import Prelude GoString GoUnicode GoConv GoErrors GoPath.
Open Scope Z_scope.

Section Commands.
Context `{UnicodeTables}.
(** What a command's function does, and returning an error. *)
Variables (M : Type) (fail : error -> M).

Record commandFuncs := {
  fn_start : option (bytes -> M); fn_list : option (bool -> M);
  fn_show : option (bytes -> bool -> M); fn_regen : option (bytes -> bool -> M);
  fn_kill : option (bytes -> bool -> M); fn_doctor : option (bool -> M);
  fn_version : option M; fn_help : option M;
  fn_bootstrap : option (bytes -> M); fn_serve : option (list bytes -> M)
}.

Definition parseOptionalJSON (args : list bytes) : result bool :=
  match args with
  | [] => Ok false
  | [arg] => if arg ==b !"--json" then Ok true else Err (EText !"unexpected arguments")
  | _ => Err (EText !"unexpected arguments")
  end.

Definition parsePrivateName (args : list bytes) : result bytes :=
  let invalid := Err (EText !"invalid internal bootstrap arguments") in
  match args with
  | [] => Ok []
  | [flag; name] => if ((flag ==b !"-n") || (flag ==b !"--name")) && negb (name ==b []) then Ok name else invalid
  | _ => invalid
  end.

Definition callStart (fn : option (bytes -> M)) (name : bytes) : M :=
  match fn with None => fail (EText !"start command is unavailable") | Some fn => fn name end.
Definition callBool (fn : option (bool -> M)) (value : bool) : M :=
  match fn with None => fail (EText !"command is unavailable") | Some fn => fn value end.
Definition callNoArgs (fn : option M) (name : bytes) : M :=
  match fn with None => fail (EText (name ++ !" command is unavailable")) | Some fn => fn end.

(** The commands [show] and [regen]. *)
Definition run_selected (command : bytes) (args : list bytes) (funcs : commandFuncs) : M :=
  match args with
  | selector :: args =>
      if selector ==b [] then fail (EText (!"usage: wrap " ++ command ++ !" INSTANCE [--json]")) else
      match parseOptionalJSON args with
      | Err err => fail (wrapf (!"usage: wrap " ++ command ++ !" INSTANCE [--json]: ") err)
      | Ok json =>
          if command ==b !"show"
          then match fn_show funcs with
               | None => fail (EText !"show command is unavailable")
               | Some show => show selector json
               end
          else match fn_regen funcs with
               | None => fail (EText !"regen command is unavailable")
               | Some regen => regen selector json
               end
      end
  | [] => fail (EText (!"usage: wrap " ++ command ++ !" INSTANCE [--json]"))
  end.

Definition run_kill (args : list bytes) (funcs : commandFuncs) : M :=
  match args with
  | [selector] =>
      if selector ==b [] then fail (EText !"usage: wrap kill INSTANCE|all") else
      match fn_kill funcs with
      | None => fail (EText !"kill command is unavailable")
      | Some kill => if selector ==b !"all" then kill [] true else kill selector false
      end
  | _ => fail (EText !"usage: wrap kill INSTANCE|all")
  end.

Definition run_named (args : list bytes) (funcs : commandFuncs) : M :=
  match args with
  | [name] =>
      if name ==b [] then fail (EText !"-n/--name requires one nonempty name") else callStart (fn_start funcs) name
  | [] => fail (EText !"-n/--name requires one nonempty name")
  | _ => fail (EText !"wrap does not run commands; it shares the current tmux window")
  end.

Definition runArgs (args : list bytes) (funcs : commandFuncs) : M :=
  match args with
  | [] => callStart (fn_start funcs) []
  | command :: args =>
      let named name := command ==b name in
      if named !"-n" || named !"--name" then run_named args funcs
      else if named !"list" then
        match parseOptionalJSON args with
        | Err err => fail (wrapf !"usage: wrap list [--json]: " err)
        | Ok json => callBool (fn_list funcs) json
        end
      else if named !"show" || named !"regen" then run_selected command args funcs
      else if named !"kill" then run_kill args funcs
      else if named !"doctor" then
        match parseOptionalJSON args with
        | Err err => fail (wrapf !"usage: wrap doctor [--json]: " err)
        | Ok json => callBool (fn_doctor funcs) json
        end
      else if named !"version" then
        if negb (args ==b []) then fail (EText !"usage: wrap version")
        else callNoArgs (fn_version funcs) !"version"
      else if named !"help" || named !"-h" || named !"--help" then
        if negb (args ==b []) then fail (EText !"usage: wrap help") else callNoArgs (fn_help funcs) !"help"
      else if named !"_bootstrap" then
        match parsePrivateName args with
        | Err err => fail err
        | Ok name =>
            match fn_bootstrap funcs with
            | None => fail (EText !"bootstrap command is unavailable")
            | Some bootstrap => bootstrap name
            end
        end
      else if named !"_serve" then
        match fn_serve funcs with
        | None => fail (EText !"worker command is unavailable")
        | Some serve => serve args
        end
      else fail (EText (!"unknown command " ++ quote command ++ !"; Wrap does not run commands"))
  end.
End Commands.

(** ** The worker's flags

    [strconv.ParseInt(s, 0, 64)], which an integer flag is read with: the base
    is that of the prefix, and digits may be separated by underscores. *)
Definition lower (b : byte) : Z := Z.lor (bz b) 32.

Definition digit_value (b : byte) : option Z :=
  if is_digit b then Some (bz b - 48)
  else if (97 <=? lower b) && (lower b <=? 122) then Some (lower b - 97 + 10) else None.

(** The digits, underscores skipped; whether there were any. *)
Fixpoint based_digits (base acc : Z) (s : bytes) : option (Z * bool) :=
  match s with
  | [] => Some (acc, false)
  | c :: s =>
      if Byte.eqb c "_" then '(n, _) ← based_digits base acc s; Some (n, true) else
      d ← digit_value c; if base <=? d then None else based_digits base (acc * base + d) s
  end.

Inductive seen := SeenNothing | SeenDigit | SeenUnderscore | SeenOther.
Fixpoint underscores_ok (hex : bool) (last : seen) (s : bytes) : bool :=
  match s with
  | [] => match last with SeenUnderscore => false | _ => true end
  | c :: s =>
      if is_digit c || (hex && (97 <=? lower c) && (lower c <=? 102)) then underscores_ok hex SeenDigit s
      else if Byte.eqb c "_"
      then match last with SeenDigit => underscores_ok hex SeenUnderscore s | _ => false end
      else match last with SeenUnderscore => false | _ => underscores_ok hex SeenOther s end
  end.

(** Base, digits to read, and what [underscoreOK] looks at. *)
Definition number_prefix (s : bytes) : Z * bytes * (bool * seen * bytes) :=
  let plain := (false, SeenNothing, s) in
  match s with
  | c :: t =>
      if negb (Byte.eqb c "0") then (10, s, plain) else
      match t with
      | p :: t' =>
          let prefixed base := ((if 3 <=? len s then base else 8), (if 3 <=? len s then t' else t),
                                (lower p =? 120, SeenDigit, t')) in
          if lower p =? 98 then prefixed 2
          else if lower p =? 111 then prefixed 8
          else if lower p =? 120 then prefixed 16 else (8, t, plain)
      | [] => (8, t, plain)
      end
  | [] => (10, s, plain)
  end.

Definition parse_uint0 (s : bytes) : option Z :=
  if s ==b [] then None else
  let '(base, digits, (hex, last, rest)) := number_prefix s in
  '(n, underscores) ← based_digits base 0 digits;
  if (2 ^ 64 <=? n) || (underscores && negb (underscores_ok hex last rest)) then None else Some n.

Definition parse_int0 (s : bytes) : option Z :=
  let '(neg, digits) :=
    match s with
    | c :: t => if Byte.eqb c "-" then (true, t) else if Byte.eqb c "+" then (false, t) else (false, s)
    | [] => (false, s)
    end in
  n ← parse_uint0 digits;
  if neg then (if 2 ^ 63 <? n then None else Some (- n)) else (if 2 ^ 63 <=? n then None else Some n).

Record serveArgs := { instanceID : bytes; controlSocket : bytes; sv_recordFD : Z; sv_readyFD : Z }.

(** Setting a flag to a value; [None] is an error. *)
Definition set_flag (name value : bytes) (parsed : serveArgs) : option serveArgs :=
  let '(Build_serveArgs i c rec rdy) := parsed in
  if name ==b !"instance" then Some (Build_serveArgs value c rec rdy)
  else if name ==b !"control" then Some (Build_serveArgs i value rec rdy)
  else if name ==b !"record-fd" then n ← parse_int0 value; Some (Build_serveArgs i c n rdy)
  else if name ==b !"ready-fd" then n ← parse_int0 value; Some (Build_serveArgs i c rec n)
  else None.

(** [-name=value]: the name and the value, if there is one. *)
Definition split_flag (s : bytes) : bytes * option bytes :=
  match s with
  | c :: t =>
      match index_byte "=" t with
      | Some i => (c :: take i t, Some (drop (S i) t))
      | None => (s, None)
      end
  | [] => ([], None)
  end.

Definition known_flag (name : bytes) : bool :=
  existsb (fun f => name ==b f) [!"instance"; !"control"; !"record-fd"; !"ready-fd"].

(** [FlagSet.Parse]: the flags set and the arguments left; [fuel] bounds the
    flags, each of which takes an argument. *)
Fixpoint parse_flags (fuel : nat) (args : list bytes) (parsed : serveArgs) : option (serveArgs * list bytes) :=
  match fuel, args with
  | S fuel, s :: rest =>
      match s with
      | m :: (d :: _) as t =>
          if negb (Byte.eqb m "-") then Some (parsed, args) else
          if s ==b !"--" then Some (parsed, rest) else
          let name := if Byte.eqb d "-" then tail t else t in
          match name with
          | c :: _ =>
              if Byte.eqb c "-" || Byte.eqb c "=" then None else
              let '(name, value) := split_flag name in
              if negb (known_flag name) then None else
              match value, rest with
              | Some value, _ => parsed ← set_flag name value parsed; parse_flags fuel rest parsed
              | None, value :: rest => parsed ← set_flag name value parsed; parse_flags fuel rest parsed
              | None, [] => None
              end
          | [] => None
          end
      | _ => Some (parsed, args)
      end
  | _, _ => Some (parsed, args)
  end.

Definition parseServeArgs (args : list bytes) : result serveArgs :=
  let invalid := Err (EText !"invalid internal worker arguments") in
  match parse_flags (S (length args)) args {| instanceID := []; controlSocket := []; sv_recordFD := -1; sv_readyFD := -1 |} with
  | Some (parsed, []) =>
      if (instanceID parsed ==b []) || negb (is_abs (controlSocket parsed)) || negb (sv_recordFD parsed =? 3) ||
         negb (sv_readyFD parsed =? 4)
      then invalid else Ok parsed
  | _ => invalid
  end.

Example worker_flags :
  parseServeArgs [!"--instance"; !"abc"; !"-control=/r/abc.sock"; !"--record-fd"; !"0x3"; !"-ready-fd"; !"4"] =
    Ok {| instanceID := !"abc"; controlSocket := !"/r/abc.sock"; sv_recordFD := 3; sv_readyFD := 4 |} /\
  parse_int0 !"1_000" = Some 1000 /\ parse_int0 !"_1" = None /\ parse_int0 !"0_7" = Some 7 /\ parse_int0 !"-0b11" = Some (-3).
Proof. vm_compute. done. Qed.
