(* ===== verification/CommandLineProps.v ===== *)
(** * The command line means what its usage says

    [line] is the grammar of the usage text and of the internal commands;
    [runArgs] calls the function of the command that the arguments are, and
    refuses everything else whatever the functions are. *)

From S2P Require Import Prelude GoString GoUnicode GoConv GoErrors GoPath CommandLine.
Open Scope Z_scope.

Inductive command :=
| CStart (name : bytes) | CList (json : bool) | CShow (selector : bytes) (json : bool)
| CRegen (selector : bytes) (json : bool) | CKill (selector : bytes) | CKillAll | CDoctor (json : bool)
| CVersion | CHelp | CBootstrap (name : bytes) | CServe (args : list bytes).

Definition json_flag (json : bool) : list bytes := if json then [!"--json"] else [].

(** The arguments that are a command. *)
Inductive line : list bytes -> command -> Prop :=
| line_start : line [] (CStart [])
| line_named flag name : flag ∈ [!"-n"; !"--name"] -> name <> [] -> line [flag; name] (CStart name)
| line_list json : line (!"list" :: json_flag json) (CList json)
| line_show selector json : selector <> [] -> line (!"show" :: selector :: json_flag json) (CShow selector json)
| line_regen selector json : selector <> [] -> line (!"regen" :: selector :: json_flag json) (CRegen selector json)
| line_kill selector : selector <> [] -> selector <> !"all" -> line [!"kill"; selector] (CKill selector)
| line_kill_all : line [!"kill"; !"all"] CKillAll
| line_doctor json : line (!"doctor" :: json_flag json) (CDoctor json)
| line_version : line [!"version"] CVersion
| line_help word : word ∈ [!"help"; !"-h"; !"--help"] -> line [word] CHelp
| line_bootstrap : line [!"_bootstrap"] (CBootstrap [])
| line_bootstrap_named flag name : flag ∈ [!"-n"; !"--name"] -> name <> [] ->
    line [!"_bootstrap"; flag; name] (CBootstrap name)
| line_serve args : line (!"_serve" :: args) (CServe args).

Section Run.
Context `{UnicodeTables}.
Variables (M : Type) (fail : error -> M).
#[local] Abbreviation funcs := (commandFuncs M).
#[local] Abbreviation run := (runArgs M fail).

(** The function of a command, or that it is missing. *)
Definition invoke (c : command) (f : funcs) : M :=
  let missing (name : bytes) := fail (EText (name ++ !"command is unavailable")) in
  match c with
  | CStart name => match fn_start _ f with Some fn => fn name | None => missing !"start " end
  | CList json => match fn_list _ f with Some fn => fn json | None => missing [] end
  | CShow selector json => match fn_show _ f with Some fn => fn selector json | None => missing !"show " end
  | CRegen selector json => match fn_regen _ f with Some fn => fn selector json | None => missing !"regen " end
  | CKill selector => match fn_kill _ f with Some fn => fn selector false | None => missing !"kill " end
  | CKillAll => match fn_kill _ f with Some fn => fn [] true | None => missing !"kill " end
  | CDoctor json => match fn_doctor _ f with Some fn => fn json | None => missing [] end
  | CVersion => match fn_version _ f with Some fn => fn | None => missing !"version " end
  | CHelp => match fn_help _ f with Some fn => fn | None => missing !"help " end
  | CBootstrap name => match fn_bootstrap _ f with Some fn => fn name | None => missing !"bootstrap " end
  | CServe args => match fn_serve _ f with Some fn => fn args | None => missing !"worker " end
  end.

(** The arguments are refused, whatever the functions are. *)
Definition refuses (args : list bytes) : Prop := exists err, forall f, run args f = fail err.

Lemma parse_json args : (exists json, args = json_flag json /\ parseOptionalJSON args = Ok json) \/
  (exists err, parseOptionalJSON args = Err err) /\ forall json, args <> json_flag json.
Proof.
  destruct args as [|arg [|]]; cbn.
  - left. by exists false.
  - case_bool_decide; [left; exists true; by subst|right].
    split; [by eexists|]. intros [] Heq; cbn in Heq; congruence.
  - right. split; [by eexists|]. by intros [].
Qed.

Lemma parse_json_flag json : parseOptionalJSON (json_flag json) = Ok json.
Proof. by destruct json. Qed.

(** Decides which names are equal. *)
Ltac names := repeat match goal with
  | |- context [bool_decide ?P] => first [rewrite (bool_decide_true P) by done|rewrite (bool_decide_false P) by done]
  end; cbn [orb andb negb].

Lemma line_runs args c f : line args c -> run args f = invoke c f.
Proof.
  destruct 1 as [|flag name [->|[->|[]%elem_of_nil]%elem_of_cons]%elem_of_cons Hn|json|selector json Hs|selector json Hs
    |selector Hs Ha| |json| |word [->|[->|[->|[]%elem_of_nil]%elem_of_cons]%elem_of_cons]%elem_of_cons|
    |flag name [->|[->|[]%elem_of_nil]%elem_of_cons]%elem_of_cons Hn|args].
  all: unfold runArgs, run_named, run_selected, run_kill, invoke, callStart, callBool, callNoArgs, parsePrivateName; names;
    rewrite ?parse_json_flag; try (by repeat case_match).
Qed.

Ltac refuse := right; eexists; intros f; unfold runArgs, run_named, run_selected, run_kill; names; reflexivity.

Lemma named_cases flag args : flag ∈ [!"-n"; !"--name"] -> (exists c, line (flag :: args) c) \/ refuses (flag :: args).
Proof.
  intros Hf. destruct args as [|name [|]].
  - apply elem_of_cons in Hf as [->|[->|[]%elem_of_nil]%elem_of_cons]; refuse.
  - destruct (decide (name = [])) as [->|Hn]; [|left; eexists; by apply line_named].
    apply elem_of_cons in Hf as [->|[->|[]%elem_of_nil]%elem_of_cons]; refuse.
  - apply elem_of_cons in Hf as [->|[->|[]%elem_of_nil]%elem_of_cons]; refuse.
Qed.

Lemma selected_cases name args : name = !"show" \/ name = !"regen" ->
  (exists c, line (name :: args) c) \/ refuses (name :: args).
Proof.
  intros Hname. destruct args as [|selector args]; [destruct Hname as [->| ->]; refuse|].
  destruct (decide (selector = [])) as [->|Hs]; [destruct Hname as [->| ->]; refuse|].
  destruct (parse_json args) as [(json & -> & _)|([err He] & _)].
  - left. destruct Hname as [->| ->]; eexists; by constructor.
  - right. destruct Hname as [->| ->]; eexists; intros f; unfold runArgs, run_selected; names; rewrite He; reflexivity.
Qed.

Lemma kill_cases args : (exists c, line (!"kill" :: args) c) \/ refuses (!"kill" :: args).
Proof.
  destruct args as [|selector [|]]; [refuse| |refuse].
  destruct (decide (selector = [])) as [->|Hs]; [refuse|]. left.
  destruct (decide (selector = !"all")) as [->|]; eexists; by constructor.
Qed.

Lemma bootstrap_cases args : (exists c, line (!"_bootstrap" :: args) c) \/ refuses (!"_bootstrap" :: args).
Proof.
  assert (Hrefuse : forall err, parsePrivateName args = Err err -> refuses (!"_bootstrap" :: args)).
  { intros err He. exists err. intros f. unfold runArgs. names. by rewrite He. }
  unfold parsePrivateName in Hrefuse. destruct args as [|flag [|name [|]]]; try (right; by eapply Hrefuse).
  - left. eexists. apply line_bootstrap.
  - destruct (decide (name = [])) as [->|Hn].
    { right. eapply Hrefuse. rewrite (bool_decide_true ([] = [])) by done. by rewrite andb_false_r. }
    destruct (decide (flag = !"-n")) as [->|H1]; [left; eexists; by apply line_bootstrap_named; [left|]|].
    destruct (decide (flag = !"--name")) as [->|H2]; [left; eexists; by apply line_bootstrap_named; [right; left|]|].
    right. eapply Hrefuse. by rewrite !bool_decide_false by done.
Qed.

(** A word alone, or with an optional [--json]. *)
Lemma json_cases name args : name = !"list" \/ name = !"doctor" ->
  (exists c, line (name :: args) c) \/ refuses (name :: args).
Proof.
  intros Hname. destruct (parse_json args) as [(json & -> & _)|([err He] & _)].
  - left. destruct Hname as [->| ->]; eexists; constructor.
  - right. destruct Hname as [->| ->]; eexists; intros f; unfold runArgs; names; rewrite He; reflexivity.
Qed.

Lemma alone_cases name args c : line [name] c -> name ∈ [!"version"; !"help"; !"-h"; !"--help"] ->
  (exists c, line (name :: args) c) \/ refuses (name :: args).
Proof.
  intros Hl Hname. destruct args as [|a args]; [by left; exists c|].
  apply elem_of_cons in Hname as [->|[->|[->|[->|[]%elem_of_nil]%elem_of_cons]%elem_of_cons]%elem_of_cons]; refuse.
Qed.

Lemma line_or_refused args : (exists c, line args c) \/ refuses args.
Proof.
  destruct args as [|name args]; [left; eexists; constructor|].
  destruct (decide (name = !"-n")) as [->|N1]; [by apply named_cases; left|].
  destruct (decide (name = !"--name")) as [->|N2]; [by apply named_cases; right; left|].
  destruct (decide (name = !"list")) as [->|N3]; [by apply json_cases; left|].
  destruct (decide (name = !"show")) as [->|N4]; [by apply selected_cases; left|].
  destruct (decide (name = !"regen")) as [->|N5]; [by apply selected_cases; right|].
  destruct (decide (name = !"kill")) as [->|N6]; [apply kill_cases|].
  destruct (decide (name = !"doctor")) as [->|N7]; [by apply json_cases; right|].
  destruct (decide (name = !"version")) as [->|N8]; [eapply alone_cases; [apply line_version|by left]|].
  destruct (decide (name = !"help")) as [->|N9]; [eapply alone_cases; [by apply line_help; left|right; by left]|].
  destruct (decide (name = !"-h")) as [->|N10]; [eapply alone_cases; [by apply line_help; right; left|do 2 right; by left]|].
  destruct (decide (name = !"--help")) as [->|N11];
    [eapply alone_cases; [by apply line_help; do 2 right; left|do 3 right; by left]|].
  destruct (decide (name = !"_bootstrap")) as [->|N12]; [apply bootstrap_cases|].
  destruct (decide (name = !"_serve")) as [->|N13]; [left; eexists; apply line_serve|].
  right. eexists. intros f. unfold runArgs. names. reflexivity.
Qed.

End Run.

(** Functions that tell which command was called. *)
Definition telling : commandFuncs (option command) :=
  {| fn_start := Some (fun name => Some (CStart name)); fn_list := Some (fun json => Some (CList json));
     fn_show := Some (fun s json => Some (CShow s json)); fn_regen := Some (fun s json => Some (CRegen s json));
     fn_kill := Some (fun s (all : bool) => Some (if all then CKillAll else CKill s));
     fn_doctor := Some (fun json => Some (CDoctor json)); fn_version := Some (Some CVersion); fn_help := Some (Some CHelp);
     fn_bootstrap := Some (fun name => Some (CBootstrap name)); fn_serve := Some (fun args => Some (CServe args)) |}.

Lemma line_told `{UnicodeTables} args c : line args c -> runArgs _ (fun _ => None) args telling = Some c.
Proof. intros Hl. rewrite (line_runs _ _ _ _ _ Hl). by destruct c. Qed.

(** C7: the command line means what its usage says.  Arguments that are a line
    of the grammar call the function of that command with its operands, or
    report that it is missing; they are a line of one command only; and all
    other arguments are refused with one error, whatever the functions are. *)
Theorem command_line_exact `{UnicodeTables} {M} (fail : error -> M) args :
  (forall c, line args c -> forall f, runArgs M fail args f = invoke M fail c f) /\
  (forall c c', line args c -> line args c' -> c = c') /\
  ((forall c, ~ line args c) -> refuses M fail args).
Proof.
  split_and!.
  - intros c Hc f. by apply line_runs.
  - intros c c' H1%line_told H2%line_told. congruence.
  - intros Hno. destruct (line_or_refused M fail args) as [[c Hc]|]; [by edestruct Hno|done].
Qed.
