(* ===== verification/Application.v ===== *)
(** * What the commands call (cmd/wrap/commands.go, internal/doctor/doctor.go)

    The commands are programs whose calls are the functions in [application]
    and [doctor.Options], the instance store, the clean-up of a stale worker
    and the output; the answers are the environment's.  Contexts appear as
    the errors they cause. *)

From S2P Require Import Prelude Program GoString GoUnicode GoErrors GoOS Target InstanceName Store Control ShareProcess.
Open Scope Z_scope.

(** ** The doctor's report *)

Record Dependency := { DepName : bytes; DepPath : bytes; DepVersion : bytes; DepOK : bool; DepError : bytes }.
#[export] Instance eta_dependency : Eta Dependency := fun d =>
  {| DepName := DepName d; DepPath := DepPath d; DepVersion := DepVersion d; DepOK := DepOK d; DepError := DepError d |}.

Record StateReport := {
  RepStateRoot : bytes; RepRuntimeRoot : bytes; SafePermissions : bool; Live : Z; Stale : Z; Unreachable : Z;
  Malformed : list bytes; RepError : bytes
}.
#[export] Instance eta_state_report : Eta StateReport := fun r =>
  {| RepStateRoot := RepStateRoot r; RepRuntimeRoot := RepRuntimeRoot r; SafePermissions := SafePermissions r;
     Live := Live r; Stale := Stale r; Unreachable := Unreachable r; Malformed := Malformed r; RepError := RepError r |}.

Record LegacyServer := { LegName : bytes; LegSession : bytes; ListCommand : bytes; AttachCommand : bytes }.

Record Report := {
  Platform : bytes; RepTmux : Dependency; RepCloudflared : Dependency; RepState : StateReport;
  RepLegacy : list LegacyServer
}.

(** ** Output *)

Record listItem := {
  ItID : bytes; ItName : bytes; ItState : bytes; ItDirectory : bytes; ItClients : Z; ItStartedAt : Z; ItTarget : Target
}.

(** What is written as JSON. *)
Inductive document := DStatus (status : Status) | DList (items : list listItem) | DReport (version : bytes) (report : Report).

Inductive stream := Out | ErrOut.

(** ** The calls *)

Inductive acall :=
| AGetenv (key : bytes)
| AGetwd
| AEvalSymlinks (path : bytes)
| AExecutable
| ALookPath (name : bytes)
| ARunCommand (path : bytes) (args : list bytes)
| ANow
| ARandom (n : Z)
| AResolveTarget | AResolveShell | AResolveCommand
| ACreateSession (dir command : bytes)
| AStartWorker (executable : bytes) (record : Record_)
| ACall (socket : bytes) (request : Request)
| AContextErr
| AReplaceProcess (path : bytes) (args : list bytes)
| APrint (to : stream) (text : bytes)
| ATable (text : bytes)                        (* to the tab writer *)
| AFlushTable
| AJson (value : document)
| ALstat (path : bytes)
| ARemove (path : bytes)
| ACleanupHelper (t : Target) (id : bytes)
| AReadAll (s : Store)
| AInspect (s : Store)
| AResolve (s : Store) (selector : bytes)
| ARemoveIfPID (s : Store) (id : bytes) (pid : Z)
| AAcquireLease (s : Store) (id : bytes)
| ALeaseClose
| ALeaseHeld (s : Store) (id : bytes)
| ARounds                                      (* how often a wait sleeps before its deadline *)
| ASleep
| AReadLaunch                                  (* all of the launch pipe *)
| AShareRun (record : Record_) (s : Store) (diagnostics : bytes)
| AWriteReady (payload : bytes)
| AOpenNull | ADupStderr | ACloseNull
| AClose (f : pfile).

Definition aanswer (c : acall) : Type :=
  match c with
  | AGetenv _ => bytes
  | AGetwd | AEvalSymlinks _ | AExecutable | ALookPath _ | ARunCommand _ _ | ARandom _ | AResolveShell | AResolveCommand
    => result bytes
  | ANow => Z
  | AResolveTarget => result Target
  | AStartWorker _ _ | ACall _ _ => result Status
  | ALstat _ => result Info
  | AReadAll _ | AInspect _ => result (list Record_ * list RecordError)
  | AResolve _ _ => result Record_
  | ARemoveIfPID _ _ _ | ALeaseHeld _ _ => result bool
  | ACreateSession _ _ | AContextErr | AReplaceProcess _ _ | APrint _ _ | ATable _ | AFlushTable | AJson _ | ARemove _
  | ACleanupHelper _ _ | AAcquireLease _ _ | ALeaseClose | AShareRun _ _ _ | AWriteReady _
  | AOpenNull | ADupStderr | ACloseNull | AClose _ => option error
  | ARounds => nat
  | ASleep => unit
  | AReadLaunch => bytes * option error
  end.
Abbreviation aprog := (prog acall aanswer).

(** ** Early returns

    A function that returns a value or an error, or only an error, goes on
    when a call of it succeeds; [wrapped] is [fmt.Errorf] around its error. *)
Class Failing (R : Type) := failed : error -> R.
#[export] Instance failing_result {A} : Failing (result A) := Err.
#[export] Instance failing_error : Failing (option error) := Some.

Definition try {A R} `{Failing R} (m : aprog (result A)) (k : A -> aprog R) : aprog R :=
  r ← m; match r with Ok a => k a | Err err => mret (failed err) end.
Definition check {R} `{Failing R} (m : aprog (option error)) (k : aprog R) : aprog R :=
  r ← m; match r with None => k | Some err => mret (failed err) end.
Definition wrapped {A} (before : bytes) (m : aprog (result A)) : aprog (result A) :=
  r ← m; mret match r with Ok a => Ok a | Err err => Err (wrapf before err) end.
Definition wrapped_error (before : bytes) (m : aprog (option error)) : aprog (option error) :=
  r ← m; mret (wrapf before <$> (r : option error)).
Lemma runs_try {A R} `{Failing R} (m : aprog (result A)) (k : A -> aprog R) t b :
  runs (try m k) t b <-> exists t1 t2 r, t = t1 ++ t2 /\ runs m t1 r /\
    match r with Ok a => runs (k a) t2 b | Err err => t2 = [] /\ b = failed err end.
Proof. unfold try. rewrite runs_bind. split; intros (t1 & t2 & r & -> & Hm & Hk); exists t1, t2, r; by destruct r. Qed.

Lemma runs_check {R} `{Failing R} (m : aprog (option error)) (k : aprog R) t b :
  runs (check m k) t b <-> exists t1 t2 r, t = t1 ++ t2 /\ runs m t1 r /\
    match r with None => runs k t2 b | Some err => t2 = [] /\ b = failed err end.
Proof. unfold check. rewrite runs_bind. split; intros (t1 & t2 & r & -> & Hm & Hk); exists t1, t2, r; by destruct r. Qed.

Lemma runs_wrapped {A} before (m : aprog (result A)) t b :
  runs (wrapped before m) t b <-> exists r, runs m t r /\ b = match r with Ok a => Ok a | Err err => Err (wrapf before err) end.
Proof.
  unfold wrapped. rewrite runs_bind. split.
  - intros (t1 & t2 & r & -> & Hm & [-> ->]). exists r. by rewrite app_nil_r.
  - intros (r & Hm & ->). exists t, [], r. by rewrite app_nil_r.
Qed.

Lemma try_ok {A R} `{Failing R} (a : A) (k : A -> aprog R) : try (mret (Ok a)) k = k a.
Proof. done. Qed.

Notation "x ←? m ; k" := (try m (fun x => k)) (at level 20, m at level 100, k at level 200) : go_scope.
Notation "' x ←? m ; k" := (try m (fun x => k)) (at level 20, x pattern, m at level 100, k at level 200) : go_scope.
Notation "m ?; k" := (check m k) (at level 60, right associativity) : go_scope.

(** What is said to the user, with its error. *)
Definition say (to : stream) (text : bytes) : aprog (option error) := ask (APrint to text).

Definition status_request (id : bytes) : Request := {| InstanceID := id; Action := ActionStatus; ReqName := [] |}.

(** [%v] of a record error. *)
Definition problem_text (p : RecordError) : bytes := re_path p ++ !": " ++ error_text (re_err p).
