(* ===== verification/Doctor.v ===== *)
(** * The doctor (internal/doctor/doctor.go) *)

From S2P Require Import Prelude Program GoString GoUnicode GoErrors GoPath GoOS GoShell TmuxSessions Target InstanceName.
From S2P Require Import Store Control MirrorTunnel Application.
Open Scope Z_scope.

Section Doctor.
Context `{UnicodeTables}.

Definition checkDependency (name : bytes) (args : list bytes) (parse : bytes -> result bytes) : aprog Dependency :=
  let dependency := {| DepName := name; DepPath := []; DepVersion := []; DepOK := false; DepError := [] |} in
  path ← ask (ALookPath name);
  match (path : result bytes) with
  | Err _ => mret (dependency <| DepError := name ++ !" not found on PATH" |>)
  | Ok path =>
      let dependency := dependency <| DepPath := path |> in
      output ← ask (ARunCommand path args);
      match (output : result bytes) with
      | Err _ => mret (dependency <| DepError := !"could not read " ++ name ++ !" version" |>)
      | Ok output =>
          mret match parse output with
               | Err err => dependency <| DepError := error_text err |>
               | Ok version => dependency <| DepVersion := version |> <| DepOK := true |>
               end
      end
  end.

Definition checkTmux : aprog Dependency := checkDependency !"tmux" [!"-V"] CheckVersionOutput.
Definition checkCloudflared : aprog Dependency :=
  checkDependency !"cloudflared" [!"--version"] parseCloudflaredVersion.

Definition CheckDependencies : aprog (Dependency * Dependency) :=
  tmux ← checkTmux; cloudflared ← checkCloudflared; mret (tmux, cloudflared).

(** ** The state *)

(** A directory that nobody else can use. *)
Definition private_dir (info : result Info) : bool :=
  match info with
  | Err err => is_not_exist err
  | Ok i => is_dir i && negb (is_symlink i) && (i_perm i =? 0x1C0 (* 0o700 *))
  end.

Fixpoint checkPermissions (paths : list bytes) (safe : bool) : aprog bool :=
  match paths with
  | [] => mret safe
  | path :: paths =>
      if path ==b [] then checkPermissions paths false else
      info ← ask (ALstat path);
      checkPermissions paths (safe && private_dir info)
  end.

(** The records one after the other; a context that ended ends the loop. *)
Fixpoint checkRecords (store : Store) (records : list Record_) (report : StateReport) : aprog StateReport :=
  match records with
  | [] => mret report
  | record :: records =>
      status ← ask (ACall (ControlSocket record) (status_request (ID record)));
      if match (status : result Status) with Ok status => StID status ==b ID record | Err _ => false end
      then checkRecords store records (report <| Live := Live report + 1 |>) else
      ended ← ask AContextErr;
      match (ended : option error) with
      | Some err => mret (report <| RepError := !"state inspection canceled: " ++ error_text err |>)
      | None =>
          match ForRecord store record with
          | Err err => checkRecords store records (report <| RepError := error_text err |>)
          | Ok recordStore =>
              held ← ask (ALeaseHeld recordStore (ID record));
              checkRecords store records
                match (held : result bool) with
                | Err err => report <| RepError := error_text err |>
                | Ok true => report <| Unreachable := Unreachable report + 1 |>
                | Ok false => report <| Stale := Stale report + 1 |>
                end
          end
      end
  end.

Definition checkState (store : Store) : aprog StateReport :=
  safe ← checkPermissions [StateRoot store; InstancesDir store; RuntimeRoot store] true;
  let report := {| RepStateRoot := StateRoot store; RepRuntimeRoot := RuntimeRoot store; SafePermissions := safe;
                   Live := 0; Stale := 0; Unreachable := 0; Malformed := []; RepError := [] |} in
  inspected ← ask (AInspect store);
  match (inspected : result (list Record_ * list RecordError)) with
  | Err err => mret (report <| RepError := error_text err |>)
  | Ok (records, problems) => checkRecords store records (report <| Malformed := map re_path problems |>)
  end.

(** ** Servers of earlier versions *)

Definition output_lines (output : bytes) : list bytes := map (trim_suffix [x0d]) (split_byte x0a output).

(** The first line that is not blank. *)
Definition first_session (output : bytes) : bytes :=
  default [] (list_find (fun line => negb (trim_space line ==b [])) (output_lines output)
              ≫= fun found => Some (snd found)).

Fixpoint checkLegacy (tmuxPath : bytes) (names : list bytes) : aprog (list LegacyServer) :=
  match names with
  | [] => mret []
  | name :: names =>
      output ← ask (ARunCommand tmuxPath [!"-L"; name; !"list-sessions"; !"-F"; !"#{session_name}"]);
      let session := match (output : result bytes) with Ok output => first_session output | Err _ => [] end in
      rest ← checkLegacy tmuxPath names;
      mret (if session ==b [] then rest else
            {| LegName := name; LegSession := session; ListCommand := !"tmux -L " ++ name ++ !" list-sessions";
               AttachCommand := !"tmux -L " ++ name ++ !" attach-session -t " ++ shellWord session |} :: rest)
  end.

Definition Check (platform : bytes) (store : Store) : aprog Report :=
  tmux ← checkTmux;
  cloudflared ← checkCloudflared;
  state ← checkState store;
  legacy ← (if DepPath tmux ==b [] then mret [] else checkLegacy (DepPath tmux) [!"wrap"; !"wrap-ui"]);
  mret {| Platform := platform; RepTmux := tmux; RepCloudflared := cloudflared; RepState := state; RepLegacy := legacy |}.
End Doctor.
