(* ===== verification/Commands.v ===== *)
(** * The commands (cmd/wrap/commands.go)

    Each method of [application] is a program over the calls of
    [Application].  What contexts and signals cause are the errors of the
    calls they are passed to; nil functions are not modelled. *)

From S2P Require Import Prelude Program GoString GoUnicode GoConv GoErrors GoPath GoOS GoTime GoShell Target Helper InstanceName.
From S2P Require Import Store Control ShareService ShareProcess CommandLine Application Doctor.
Open Scope Z_scope.

Definition newline : bytes := [x0a].
Definition line_of (words : list bytes) : bytes := join !" " words ++ newline.   (* [Fprintln] *)

Definition usage : bytes := join newline
  [!"Wrap shares one tmux window through an encrypted browser terminal."; []; !"Usage:"; !"  wrap [-n NAME]";
   !"  wrap list [--json]"; !"  wrap show INSTANCE [--json]"; !"  wrap regen INSTANCE [--json]";
   !"  wrap kill INSTANCE|all"; !"  wrap doctor [--json]"; !"  wrap version"].

(** ** The environment *)

Definition storeFromEnvironment (getenv : bytes -> bytes) (userHome : result bytes) : result Store :=
  let stateBase := getenv !"XDG_STATE_HOME" in
  let? stateBase := (if negb (stateBase ==b []) then Ok stateBase else
                     match userHome with
                     | Ok home => Ok (path_join [home; !".local"; !"state"])
                     | Err err => Err (wrapf !"resolve home directory: " err)
                     end) in
  fail_if negb (is_abs stateBase) with EText !"XDG_STATE_HOME must be absolute";;
  let stateRoot := path_join [stateBase; !"wrap"] in
  let runtimeBase := getenv !"XDG_RUNTIME_DIR" in
  if runtimeBase ==b [] then Ok {| StateRoot := stateRoot; RuntimeRoot := path_join [stateRoot; !"runtime"] |} else
  fail_if negb (is_abs runtimeBase) with EText !"XDG_RUNTIME_DIR must be absolute";;
  Ok {| StateRoot := stateRoot; RuntimeRoot := path_join [runtimeBase; !"wrap"] |}.

Definition newInstanceID : aprog (result bytes) :=
  value ←? wrapped !"generate Wrap instance ID: " (ask (ARandom 16)); mret (Ok (hex_encode value)).

(** ** What people read *)

Section Text.
Context `{UnicodeTables}.

Definition safeHumanLabel (value : bytes) : bytes := quote_to_graphic value.
Definition safeHumanText (value : bytes) : bytes :=
  let quoted := quote_to_graphic value in
  if 2 <=? len quoted then drop 1 (take (length quoted - 1) quoted) else quoted.

Definition writeStatus (status : Status) (jsonOutput : bool) : aprog (option error) :=
  if jsonOutput then ask (AJson (DStatus status)) else
  say Out (!"Wrap " ++ StName status ++ !" (" ++ StID status ++ !")" ++ newline ++ PairingURL status ++ newline) ?;
  (if Warning status ==b [] then mret None else
   say Out (line_of [!"Warning:"; safeHumanText (Warning status)])) ?;
  (if QR status ==b [] then mret None else say Out (QR status)).

Definition item_row (item : listItem) : bytes :=
  let shortID := if 10 <? len (ItID item) then take 10 (ItID item) else ItID item in
  join [x09] [safeHumanText (ItName item); shortID; safeHumanText (ItState item); itoa (ItClients item);
              safeHumanText (ItDirectory item);
              safeHumanText (SocketPath (ItTarget item)) ++ !" " ++ safeHumanText (WindowID (ItTarget item));
              rfc3339 (ItStartedAt item)] ++ newline.

Definition item_of (status : Status) : listItem :=
  {| ItID := StID status; ItName := StName status; ItState := State status; ItDirectory := StDirectory status;
     ItClients := Clients status; ItStartedAt := StStartedAt status; ItTarget := StTarget status |}.

Definition dependency_text (item : Dependency) : bytes :=
  (if DepOK item then DepName item ++ !": " ++ safeHumanText (DepPath item) ++ !" (" ++ safeHumanText (DepVersion item) ++ !")"
   else DepName item ++ !": " ++ safeHumanText (DepError item)) ++ newline.

Definition legacy_text (legacy : LegacyServer) : bytes :=
  !"legacy " ++ safeHumanText (LegName legacy) ++ !": " ++ safeHumanText (ListCommand legacy) ++ newline ++
  !"  recover: " ++ safeHumanText (AttachCommand legacy) ++ newline.

(** The pieces the doctor prints one after the other. *)
Definition report_text (version : bytes) (report : Report) : list bytes :=
  let state := RepState report in
  [!"Wrap " ++ version ++ !" (" ++ Platform report ++ !")" ++ newline] ++
  map dependency_text [RepTmux report; RepCloudflared report] ++
  [!"instances: " ++ itoa (Live state) ++ !" live, " ++ itoa (Stale state) ++ !" stale, " ++ itoa (Unreachable state) ++
   !" unreachable, " ++ itoa (len (Malformed state)) ++ !" malformed" ++ newline] ++
  (if RepError state ==b [] then [] else [line_of [!"state:"; safeHumanText (RepError state)]]) ++
  (if SafePermissions state then [] else [!"state permissions: unsafe" ++ newline]) ++
  map legacy_text (RepLegacy report).

Fixpoint say_all (texts : list bytes) : aprog (option error) :=
  match texts with
  | [] => mret None
  | text :: texts => say Out text ?; say_all texts
  end.
End Text.

(** ** Records whose worker does not answer *)

(** The record and the status its worker answered, or why there is none. *)
Record inspectedRecord := { in_record : Record_; in_status : result Status }.

Definition action_request (id action name : bytes) : Request := {| InstanceID := id; Action := action; ReqName := name |}.

Section Records.
Context `{UnicodeTables}.
Variable store : Store.

Definition cleanupStaleControlSocket (runtimeRoot : bytes) (record : Record_) : aprog (option error) :=
  let path := path_clean (ControlSocket record) in
  if negb (path_dir path ==b path_clean runtimeRoot) || negb (path_base path ==b (ID record ++ !".sock"))
  then mret (Some (EText !"control socket is outside the owned runtime path")) else
  info ← ask (ALstat path);
  match (info : result Info) with
  | Err err => mret (if is_not_exist err then None else Some err)
  | Ok info =>
      if negb (is_socket info) || is_symlink info
      then mret (Some (EText !"control socket path is not a socket")) else ask (ARemove path)
  end.

Definition cleanupStaleArtifacts (record : Record_) : aprog (option error) :=
  recordStore ←? mret (ForRecord store record);
  helperErr ← ask (ACleanupHelper (RecTarget record) (ID record));
  controlErr ← cleanupStaleControlSocket (RuntimeRoot recordStore) record;
  mret (errors_join [helperErr; controlErr]).

(** What [inspectRecords] does with a record whose worker did not answer:
    [None] is a record that was removed. *)
Definition remove_dead (record : Record_) (callErr : error) : aprog (result (option inspectedRecord)) :=
  let named (before after : bytes) := before ++ quote (Name record) ++ after in
  let unreachable := Some {| in_record := record; in_status := Err callErr |} in
  recordStore ←? wrapped (named !"resolve worker runtime for Wrap " !": ") (mret (ForRecord store record));
  leaseErr ← ask (AAcquireLease recordStore (ID record));
  match (leaseErr : option error) with
  | Some err => mret (if errors_is ErrLeaseHeld err then Ok unreachable
                      else Err (wrapf (named !"inspect worker lease for Wrap " !": ") err))
  | None =>
      cleanupErr ← cleanupStaleArtifacts record;
      match (cleanupErr : option error) with
      | Some err =>
          closeErr ← ask ALeaseClose;
          mret (Err (join_error (wrapf (named !"clean stale Wrap " !": ") err) [closeErr]))
      | None =>
          removed ← ask (ARemoveIfPID store (ID record) (PID record));
          match (removed : result bool) with
          | Err err =>
              _ ← ask ALeaseClose;
              mret (Err (wrapf (named !"delete stale Wrap record " !": ") err))
          | Ok true =>
              writeErr ← say ErrOut (!"wrap: removed stale instance record " ++ safeHumanLabel (Name record) ++
                                     !" (" ++ ID record ++ !")" ++ newline);
              match (writeErr : option error) with
              | Some err =>
                  closeErr ← ask ALeaseClose;
                  mret (Err (join_error (wrapf !"write stale instance warning: " err) [closeErr]))
              | None => wrapped_error (named !"release stale Wrap " !" lease: ") (ask ALeaseClose) ?; mret (Ok None)
              end
          | Ok false => wrapped_error (named !"release Wrap " !" lease: ") (ask ALeaseClose) ?; mret (Ok unreachable)
          end
      end
  end.

Definition inspect_record (removeDead : bool) (record : Record_) : aprog (result (option inspectedRecord)) :=
  answer ← ask (ACall (ControlSocket record) (status_request (ID record)));
  let dead callErr :=
    if removeDead then remove_dead record callErr
    else mret (Ok (Some {| in_record := record; in_status := Err callErr |})) in
  match (answer : result Status) with
  | Ok status =>
      if StID status ==b ID record then mret (Ok (Some {| in_record := record; in_status := Ok status |}))
      else dead (EText !"control socket returned a different instance ID")
  | Err err => dead err
  end.

Fixpoint inspect_each (removeDead : bool) (records : list Record_) : aprog (result (list inspectedRecord)) :=
  match records with
  | [] => mret (Ok [])
  | record :: records =>
      item ←? inspect_record removeDead record;
      rest ←? inspect_each removeDead records;
      mret (Ok match item with Some item => item :: rest | None => rest end)
  end.

(** The problems are of no use to the callers when there is an error. *)
Definition inspectRecords (removeDead : bool) : aprog (result (list inspectedRecord * list RecordError)) :=
  '(records, problems) ←? ask (AReadAll store);
  inspected ←? inspect_each removeDead records;
  mret (Ok (inspected, problems)).

(** The warnings about records that could not be read. *)
Fixpoint warn_malformed (problems : list RecordError) : aprog (option error) :=
  match problems with
  | [] => mret None
  | problem :: problems =>
      wrapped_error !"write malformed record warning: "
        (say ErrOut (line_of [!"wrap: malformed instance record:"; safeHumanText (problem_text problem)])) ?;
      warn_malformed problems
  end.

(** ** list *)

Fixpoint list_items (inspected : list inspectedRecord) : aprog (result (list listItem)) :=
  match inspected with
  | [] => mret (Ok [])
  | item :: inspected =>
      match in_status item with
      | Err err =>
          wrapped_error !"write unreachable instance warning: "
            (say ErrOut (!"wrap: " ++ safeHumanLabel (Name (in_record item)) ++ !" is unreachable: " ++
                         safeHumanText (error_text err) ++ newline)) ?;
          list_items inspected
      | Ok status => rest ←? list_items inspected; mret (Ok (item_of status :: rest))
      end
  end.

Fixpoint table_rows (items : list listItem) : aprog (option error) :=
  match items with
  | [] => ask AFlushTable
  | item :: items => ask (ATable (item_row item)) ?; table_rows items
  end.

Definition table_header : bytes :=
  join [x09] [!"NAME"; !"ID"; !"STATE"; !"CLIENTS"; !"DIRECTORY"; !"TARGET"; !"STARTED"] ++ newline.

Definition list_ (jsonOutput : bool) : aprog (option error) :=
  '(inspected, problems) ←? inspectRecords true;
  warn_malformed problems ?;
  items ←? list_items inspected;
  if jsonOutput then ask (AJson (DList items))
  else if items is [] then say Out (line_of [!"No running Wraps."])
  else ask (ATable table_header) ?; table_rows items.

(** ** show and regen *)

Definition show_selected (action selector : bytes) (jsonOutput : bool) : aprog (option error) :=
  record ←? ask (AResolve store selector);
  status ←? ask (ACall (ControlSocket record) (action_request (ID record) action []));
  writeStatus status jsonOutput.
Definition show : bytes -> bool -> aprog (option error) := show_selected ActionStatus.
Definition regen : bytes -> bool -> aprog (option error) := show_selected ActionRotate.

(** ** kill *)

(** One look at the worker: it is over, or something failed, or [again]. *)
Definition wait_round (recordStore : Store) (id : bytes) (again : aprog (option error)) : aprog (option error) :=
  resolved ← ask (AResolve store id);
  match (resolved : result Record_) with
  | Ok _ => again
  | Err err =>
      if errors_is ErrNotFound err then
        held ←? ask (ALeaseHeld recordStore id);
        if held then again else mret None
      else mret (Some err)
  end.

(** [rounds] is how often the loop sleeps before the deadline has passed. *)
Fixpoint wait_rounds (rounds : nat) (recordStore : Store) (id : bytes) : aprog (option error) :=
  wait_round recordStore id
    match rounds with
    | O => mret (Some (EText !"worker did not finish shutdown"))
    | S rounds => _ ← ask ASleep; wait_rounds rounds recordStore id
    end.

Definition waitForStopped (record : Record_) : aprog (option error) :=
  recordStore ←? mret (ForRecord store record);
  rounds ← ask ARounds;
  wait_rounds rounds recordStore (ID record).

Definition killed_text (kind : bytes) (record : Record_) : bytes :=
  !"Killed " ++ kind ++ !"Wrap " ++ safeHumanLabel (Name record) ++ !". The tmux window is still running." ++ newline.

(** The worker did not answer the request to stop. *)
Definition kill_stale (record : Record_) (err : error) : aprog (option error) :=
  match ForRecord store record with
  | Err storeErr => mret (Some (EJoin [err; storeErr]))
  | Ok recordStore =>
      leaseErr ← ask (AAcquireLease recordStore (ID record));
      match (leaseErr : option error) with
      | Some leaseErr => mret (Some (if errors_is ErrLeaseHeld leaseErr then err else EJoin [err; leaseErr]))
      | None =>
          cleanupErr ← cleanupStaleArtifacts record;
          match (cleanupErr : option error) with
          | Some cleanupErr =>
              closeErr ← ask ALeaseClose;
              mret (errors_join [Some err; Some (wrapf (!"clean stale Wrap " ++ quote (Name record) ++ !": ") cleanupErr); closeErr])
          | None =>
              removed ← ask (ARemoveIfPID store (ID record) (PID record));
              closeErr ← ask ALeaseClose;
              match (removed : result bool), (closeErr : option error) with
              | Ok true, None => say Out (killed_text !"stale " record)
              | Ok false, None => mret (Some err)
              | removed, closeErr => mret (errors_join [Some err; err_of removed; closeErr])
              end
          end
      end
  end.

Definition killRecord (record : Record_) : aprog (option error) :=
  answer ← ask (ACall (ControlSocket record) (action_request (ID record) ActionShutdown []));
  match (answer : result Status) with
  | Err err => kill_stale record err
  | Ok _ => waitForStopped record ?; say Out (killed_text [] record)
  end.

Fixpoint kill_each (records : list Record_) (killErr : option error) : aprog (option error) :=
  match records with
  | [] => mret killErr
  | record :: records =>
      err ← killRecord record;
      kill_each records match (err : option error) with
                        | Some err => errors_join [killErr; Some (wrapf (!"kill Wrap " ++ safeHumanLabel (Name record) ++ !": ") err)]
                        | None => killErr
                        end
  end.

(** A record error as an error: it does not unwrap. *)
Definition problem_error (p : RecordError) : error := EText (problem_text p).

Definition killAll : aprog (option error) :=
  '(records, problems) ←? ask (AReadAll store);
  if (length records =? 0)%nat && (length problems =? 0)%nat then say Out (line_of [!"No running Wraps."]) else
  kill_each records
    (foldl (fun killErr problem => errors_join [killErr; Some (wrapf !"read Wrap instance record: " (problem_error problem))])
       None problems).

Definition kill (selector : bytes) (all : bool) : aprog (option error) :=
  if all then killAll else
  record ←? ask (AResolve store selector);
  killRecord record.
End Records.

(** ** Starting *)

Definition checkStartDependencies `{UnicodeTables} : aprog (option error) :=
  dependencies ← CheckDependencies;
  mret match find (fun d => negb (DepOK d)) [fst dependencies; snd dependencies] with
       | Some d => Some (EText (!"starting Wrap requires " ++ DepName d ++ !": " ++ DepError d))
       | None => None
       end.

Definition start_command (executable name : bytes) : bytes :=
  shellQuote executable ++ !" _bootstrap" ++ (if name ==b [] then [] else !" --name " ++ shellQuote name).

Section Start.
Context `{UnicodeTables} (sha256 : bytes -> bytes).
Variable store : Store.

Definition new_record (id name : bytes) (startedAt : Z) (t : Target) : Record_ :=
  {| Version := RecordVersion; ID := id; Name := name; PID := 1;
     ControlSocket := path_join [RuntimeRoot store; id ++ !".sock"]; StartedAt := startedAt;
     RecDirectory := Directory t; RecTarget := t |}.

(** A window that is shared already: its status, renamed if that was asked. *)
Definition reuse (requestedName : bytes) (records : list Record_) (item : inspectedRecord) : aprog (result Status) :=
  let record := in_record item in
  match in_status item with
  | Err err => mret (Err (wrapf (!"existing Wrap " ++ quote (Name record) ++ !" is unreachable: ") err))
  | Ok status =>
      if negb (requestedName ==b []) && negb (requestedName ==b Name record) then
        if existsb (fun other => negb (ID other ==b ID record) && (Name other ==b requestedName)) records
        then mret (Err (EText (!"instance name " ++ quote requestedName ++ !" already exists"))) else
        status ←? wrapped (!"rename Wrap " ++ quote (Name record) ++ !": ")
          (ask (ACall (ControlSocket record) (action_request (ID record) ActionRename requestedName)));
        writeStatus status false ?; mret (Ok status)
      else writeStatus status false ?; mret (Ok status)
  end.

Definition start_new (requestedName : bytes) (t : Target) (records : list Record_) : aprog (result Status) :=
  checkStartDependencies ?;
  name ←? mret (default (Err (EText [])) (ChooseName requestedName t records));  (* a name is always found *)
  id ←? newInstanceID;
  executable ←? wrapped !"resolve Wrap executable: " (ask AExecutable);
  now ← ask ANow;
  status ←? ask (AStartWorker executable (new_record id name now t));
  writeStatus status false ?; mret (Ok status).

Definition startInside (requestedName : bytes) : aprog (result Status) :=
  t ←? wrapped !"resolve current tmux window: " (ask AResolveTarget);
  '(inspected, problems) ←? inspectRecords store true;
  warn_malformed problems ?;
  let records := map in_record inspected in
  match find (fun item => Target_Key sha256 (RecTarget (in_record item)) ==b Target_Key sha256 t) inspected with
  | Some item => reuse requestedName records item
  | None => start_new requestedName t records
  end.

Definition start (name : bytes) : aprog (option error) :=
  match (if name ==b [] then None else
         match ValidateName name with
         | Some err => Some err
         | None => if name ==b !"all"
                   then Some (EText (!"name " ++ [x22] ++ !"all" ++ [x22] ++ !" is reserved for wrap kill all")) else None
         end) with
  | Some err => mret (Some err)
  | None =>
      tmux ← ask (AGetenv !"TMUX");
      if negb (tmux ==b []) then r ← startInside name; mret (err_of r) else
      checkStartDependencies ?;
      cwd ←? wrapped !"get current directory: " (ask AGetwd);
      physical ←? wrapped !"resolve physical current directory: " (ask (AEvalSymlinks cwd));
      executable ←? wrapped !"resolve Wrap executable: " (ask AExecutable);
      ask (ACreateSession physical (start_command executable name))
  end.

(** ** The command that a new session runs *)

Definition rollbackStarted (id : bytes) : aprog (option error) :=
  resolved ← ask (AResolve store id);
  match (resolved : result Record_) with
  | Err err => mret (if errors_is ErrNotFound err then None
                     else Some (wrapf !"resolve started Wrap for rollback: " err))
  | Ok record =>
      _ ←? wrapped !"stop started Wrap after shell failure: "
        (ask (ACall (ControlSocket record) (action_request (ID record) ActionShutdown [])));
      wrapped_error !"wait for started Wrap rollback: " (waitForStopped store record)
  end.

Definition shell_args (shell defaultCommand : bytes) : list bytes :=
  if defaultCommand ==b [] then [!"-" ++ path_base shell] else [shell; !"-c"; defaultCommand].

Definition bootstrap (name : bytes) : aprog (option error) :=
  tmux ← ask (AGetenv !"TMUX");
  if tmux ==b [] then mret (Some (EText !"internal bootstrap must run inside tmux")) else
  shell ←? wrapped !"resolve tmux default shell: " (ask AResolveShell);
  defaultCommand ←? wrapped !"resolve tmux default command: " (ask AResolveCommand);
  started ← startInside name;
  _ ← (match started with
       | Err err => say ErrOut (line_of [!"wrap:"; safeHumanText (error_text err)])
       | Ok _ => mret None
       end);
  execErr ← ask (AReplaceProcess shell (shell_args shell defaultCommand));
  match (execErr : option error) with
  | None => mret None
  | Some execErr =>
      rollbackErr ← (match started with
                     | Ok status => if StID status ==b [] then mret None else rollbackStarted (StID status)
                     | Err _ => mret None
                     end);
      mret (errors_join [err_of started; Some (wrapf !"start tmux default shell: " execErr); rollbackErr])
  end.
End Start.

(** ** The worker *)

Definition redirectWorkerStderr : aprog (option error) :=
  wrapped_error !"open stderr sink: " (ask AOpenNull) ?;
  err ← wrapped_error !"replace stderr: " (ask ADupStderr);
  _ ← ask ACloseNull;
  mret err.

(** What [share.Run] calls when the worker is ready. *)
Definition reportWorkerReady `{ReadyCodec} (status : Status) : aprog (option error) :=
  payload ←? mret (WriteReady status);
  wrapped_error !"redirect worker stderr: " redirectWorkerStderr ?;
  wrapped_error !"write worker readiness: " (ask (AWriteReady payload)) ?;
  ask (AClose ReadyWrite).

(** The descriptors are 3 and 4, so that the files are not nil. *)
Definition serve `{UnicodeTables} `{RecordCodec} (store : Store) (args : list bytes) : aprog (option error) :=
  parsed ←? mret (parseServeArgs args);
  launched ← ask AReadLaunch;
  let '(input, readErr) := (launched : bytes * option error) in
  err ← (record ←? mret (ReadLaunch input readErr (instanceID parsed) (controlSocket parsed));
         ask (AShareRun record store (path_join [DiagnosticsDir store; ID record ++ !".jsonl"])));
  _ ← ask (AClose ReadyWrite);
  _ ← ask (AClose RecordRead);
  mret err.

(** ** doctor, version and help *)

Definition doctorContext `{UnicodeTables} (platform version : bytes) (store : Store) (jsonOutput : bool) : aprog (option error) :=
  report ← Check platform store;
  (if jsonOutput then ask (AJson (DReport version report)) else say_all (report_text version report)) ?;
  mret (if RepError (RepState report) ==b [] then None else Some (EText !"state inspection incomplete")).

(** The version that [print_version] shows: the one set when linking, else that
    of the module's build information, if there is one. *)
Definition init (version : bytes) (build_info : option bytes) : bytes :=
  if negb (version ==b !"dev") then version else
  match build_info with
  | Some v => if negb (v ==b []) && negb (v ==b !"(devel)") then v else version
  | None => version
  end.

Section Dispatch.
Context `{UnicodeTables} `{RecordCodec} (sha256 : bytes -> bytes).
Variables (platform version : bytes).
#[local] Abbreviation command_funcs := (commandFuncs (aprog (option error))).

Definition print_version : aprog (option error) := say Out (line_of [!"wrap"; version]).
Definition print_help : aprog (option error) := say Out (line_of [usage]).

Definition funcs (store : Store) : command_funcs :=
  {| fn_start := Some (start sha256 store); fn_list := Some (list_ store); fn_show := Some (show store);
     fn_regen := Some (regen store); fn_kill := Some (kill store); fn_doctor := Some (doctorContext platform version store);
     fn_version := Some print_version; fn_help := Some print_help;
     fn_bootstrap := Some (bootstrap sha256 store); fn_serve := Some (serve store) |}.

Definition failing_funcs (err : error) : command_funcs :=
  let fail := mret (Some err) in
  {| fn_start := Some (fun _ => fail); fn_list := Some (fun _ => fail); fn_show := Some (fun _ _ => fail);
     fn_regen := Some (fun _ _ => fail); fn_kill := Some (fun _ _ => fail); fn_doctor := Some (fun _ => fail);
     fn_version := Some fail; fn_help := Some fail; fn_bootstrap := Some (fun _ => fail); fn_serve := Some (fun _ => fail) |}.

(** [store] is what [storeFromEnvironment] returns. *)
Definition commandFuncsForArgs (args : list bytes) (store : result Store) : command_funcs :=
  let created := match store with Ok store => funcs store | Err err => failing_funcs err end in
  match args with
  | arg :: _ =>
      if arg ==b !"version" then Build_commandFuncs _ None None None None None None (Some print_version) None None None
      else if (arg ==b !"help") || (arg ==b !"-h") || (arg ==b !"--help")
      then Build_commandFuncs _ None None None None None None None (Some print_help) None None
      else created
  | [] => created
  end.

(** The program: what it prints of an error, and its exit status. *)
Definition main (args : list bytes) (store : result Store) : aprog Z :=
  err ← runArgs _ (fun err => mret (Some err)) args (commandFuncsForArgs args store);
  match (err : option error) with
  | None => mret 0
  | Some err => _ ← say ErrOut (line_of [!"wrap:"; safeHumanText (error_text err)]); mret 1
  end.
End Dispatch.
