(* ===== verification/CommandTextProps.v ===== *)
(** * What is shown to people cannot disturb their terminal

    Values from records, sockets and other programs are shown through
    [strconv.QuoteToGraphic]: only graphic characters are printed, and the
    value can be read back from them ([unquote_body]). *)

From S2P Require Import Prelude Program GoString GoUnicode GoUtf8 GoConv GoErrors GoPath GoTime Target Control ShareService.
From S2P Require Import Application Commands.
Open Scope Z_scope.

(** ** Reading a quoted string *)

Definition hex_value (b : byte) : Z := if bz b <? 58 then bz b - 48 else bz b - 87.
Definition hex_number (s : bytes) : Z := foldl (fun n b => 16 * n + hex_value b) 0 s.

(** The characters that a letter after a backslash stands for. *)
Definition letter_escape (c : byte) : option byte :=
  snd <$> find (fun p => Byte.eqb (fst p) c)
    [("a"%byte, x07); ("b"%byte, x08); ("f"%byte, x0c); ("n"%byte, x0a); ("r"%byte, x0d); ("t"%byte, x09);
     ("v"%byte, x0b); (x22, x22); (x5c, x5c)].

Fixpoint unquote_body (s : bytes) : option bytes :=
  match s with
  | [] => Some []
  | c :: t =>
      if negb (Byte.eqb c x5c) then rest ← unquote_body t; Some (c :: rest) else
      match t with
      | [] => None
      | e :: t =>
          match letter_escape e with
          | Some b => rest ← unquote_body t; Some (b :: rest)
          | None =>
              match t with
              | h1 :: h2 :: t =>
                  if Byte.eqb e "x" then rest ← unquote_body t; Some (zb (hex_number [h1; h2]) :: rest) else
                  match t with
                  | h3 :: h4 :: t =>
                      if Byte.eqb e "u"
                      then rest ← unquote_body t; Some (encode_rune (hex_number [h1; h2; h3; h4]) ++ rest) else
                      match t with
                      | h5 :: h6 :: h7 :: h8 :: t =>
                          if Byte.eqb e "U"
                          then rest ← unquote_body t; Some (encode_rune (hex_number [h1; h2; h3; h4; h5; h6; h7; h8]) ++ rest)
                          else None
                      | _ => None
                      end
                  | _ => None
                  end
              | _ => None
              end
          end
      end
  end.

Lemma hex_digit_value d : 0 <= d < 16 -> hex_value (hex_digit d) = d /\ 32 <= bz (hex_digit d) <= 126.
Proof.
  intros Hd. unfold hex_value, hex_digit. destruct (Z.ltb_spec d 10); rewrite bz_zb_small by lia;
    match goal with |- context [?a <? 58] => destruct (Z.ltb_spec a 58) end; lia.
Qed.

Lemma hex_pad_number n r : hex_number (hex_pad n r) = r mod 16 ^ Z.of_nat n.
Proof.
  unfold hex_number. enough (H : forall acc, foldl (fun n b => 16 * n + hex_value b) acc (hex_pad n r) =
    acc * 16 ^ Z.of_nat n + r mod 16 ^ Z.of_nat n) by (rewrite H; lia).
  unfold hex_pad. induction n as [|n IH]; intros acc.
  - cbn. rewrite Z.mod_1_r. lia.
  - rewrite seq_S, map_app, rev_app_distr. cbn [map rev app foldl]. rewrite IH.
    rewrite (proj1 (hex_digit_value _ (Z.mod_pos_bound _ 16 ltac:(lia)))).
    cbn [Nat.add]. rewrite Nat2Z.inj_succ, Z.pow_succ_r, (Z.mul_comm 16 (_ ^ _)), (Z.rem_mul_r r) by lia. ring.
Qed.

Lemma hex_pad_graphic n r : Forall (fun b => 32 <= bz b <= 126) (hex_pad n r).
Proof.
  unfold hex_pad. apply Forall_rev, Forall_map, Forall_forall. intros i _.
  apply (hex_digit_value (r / 16 ^ Z.of_nat i mod 16)), Z.mod_pos_bound. lia.
Qed.

(** ** One character *)

Section Shown.
Context `{UnicodeTables}.

(** A character that is printed. *)
Definition graphic (r : Z) : Prop := scalar r /\ u_graphic r = true.

(** What is printed for a part of the value: graphic characters that are read
    as it, whatever follows. *)
Definition shows (value text : bytes) : Prop :=
  (exists rs, text = encode_runes rs /\ Forall graphic rs) /\
  forall rest, unquote_body (text ++ rest) = rest ← unquote_body rest; Some (value ++ rest).

Lemma ascii_graphic text : Forall (fun b => 32 <= bz b <= 126) text -> exists rs, text = encode_runes rs /\ Forall graphic rs.
Proof.
  induction 1 as [|b text Hb _ (rs & -> & Hrs)]; [by exists []|].
  exists (bz b :: rs). split.
  - change (b :: encode_runes rs = encode_rune (bz b) ++ encode_runes rs). unfold encode_rune.
    rewrite (proj2 (Z.leb_le _ _)), (proj2 (Z.ltb_lt _ _)) by lia. by rewrite zb_bz.
  - constructor; [|done]. split; [unfold scalar; lia|]. rewrite u_graphic_ascii by lia.
    by rewrite (proj2 (Z.leb_le 32 _)), (proj2 (Z.leb_le _ 126)) by lia.
Qed.

Lemma plain_read text rest : Forall (fun b => b <> x5c) text ->
  unquote_body (text ++ rest) = rest ← unquote_body rest; Some (text ++ rest).
Proof.
  induction 1 as [|b text Hb _ IH]; cbn [app unquote_body].
  - by destruct (unquote_body rest).
  - rewrite (proj2 (byte_eqb_false _ _)) by done. cbn [negb]. rewrite IH. by destruct (unquote_body rest).
Qed.

Lemma shows_plain r : graphic r -> r <> 92 -> shows (encode_rune r) (encode_rune r).
Proof.
  intros Hg Hr. split.
  - exists [r]. split; [cbn; by rewrite app_nil_r|by constructor].
  - intros rest. apply plain_read. destruct Hg as [Hs _]. apply Forall_forall. intros b Hb ->.
    pose proof (encode_encoded r Hs) as He. revert Hb He. generalize (encode_rune r). intros c Hb He. apply Hr.
    destruct He as [b Hb'|b0 b1 H0 H1|b0 b1 b2 H0 H1 H2|b0 b1 b2 b3 H0 H1 H2 H3];
      unfold lead2, lead3, lead4, is_cont in *; rewrite ?elem_of_cons, elem_of_nil in Hb; guards.
    1: by destruct Hb as [<-|[]].
    all: exfalso; repeat match goal with H : second_ok _ _ = true |- _ => apply second_ok_bounds in H end.
    all: repeat destruct Hb as [<-|Hb]; cbn in *; lia || done.
Qed.

Lemma shows_escape e b : letter_escape e = Some b -> 32 <= bz e <= 126 -> shows [b] [x5c; e].
Proof.
  intros He Hb. split.
  - apply ascii_graphic. repeat constructor; [by vm_compute|by vm_compute|lia|lia].
  - intros rest. cbn [app unquote_body]. rewrite byte_eqb_refl. cbn [negb]. by rewrite He.
Qed.

Lemma hex_byte_pad b : hex_byte b = hex_pad 2 (bz b).
Proof.
  unfold hex_byte, hex_pad. cbn. pose proof (bz_range b). rewrite Z.div_1_r.
  by rewrite (Z.mod_small (bz b / 16)) by (Z.to_euclidean_division_equations; lia).
Qed.

Lemma escaped_graphic prefix n r : Forall (fun b => 32 <= bz b <= 126) prefix ->
  exists rs, prefix ++ hex_pad n r = encode_runes rs /\ Forall graphic rs.
Proof. intros Hp. apply ascii_graphic, Forall_app. split; [done|apply hex_pad_graphic]. Qed.

Lemma shows_byte b : shows [b] (!"\x" ++ hex_pad 2 (bz b)).
Proof.
  split; [apply escaped_graphic; by repeat constructor|]. intros rest.
  transitivity (rest ← unquote_body rest; Some (zb (hex_number (hex_pad 2 (bz b))) :: rest)); [done|].
  rewrite hex_pad_number, Z.mod_small by apply bz_range. by rewrite zb_bz.
Qed.

Lemma shows_rune16 r : scalar r -> r < 0x10000 -> shows (encode_rune r) (!"\u" ++ hex_pad 4 r).
Proof.
  intros Hs Hr. split; [apply escaped_graphic; by repeat constructor|]. intros rest.
  transitivity (rest ← unquote_body rest; Some (encode_rune (hex_number (hex_pad 4 r)) ++ rest)); [done|].
  destruct Hs. rewrite hex_pad_number, Z.mod_small by (cbn; lia). done.
Qed.

Lemma shows_rune32 r : scalar r -> shows (encode_rune r) (!"\U" ++ hex_pad 8 r).
Proof.
  intros Hs. split; [apply escaped_graphic; by repeat constructor|]. intros rest.
  transitivity (rest ← unquote_body rest; Some (encode_rune (hex_number (hex_pad 8 r)) ++ rest)); [done|].
  destruct Hs. rewrite hex_pad_number, Z.mod_small by (cbn; lia). done.
Qed.

(** Every character is shown as one piece. *)
Lemma shows_rune r : scalar r -> shows (encode_rune r) (quote_rune u_graphic r).
Proof.
  intros Hs. pose proof Hs as [Hr _]. unfold quote_rune.
  destruct (Z.eqb_spec r 34) as [->|]; [by apply shows_escape|].
  destruct (Z.eqb_spec r 92) as [->|]; [by apply shows_escape|]. cbn [orb].
  destruct (u_graphic r) eqn:Hg; [by apply shows_plain|].
  do 7 match goal with |- context [r =? ?k] =>
    destruct (Z.eqb_spec r k) as [->|]; [by apply shows_escape|] end.
  destruct ((r <? 32) || (r =? 127)) eqn:Hc.
  - assert (Hb : encode_rune r = [zb r] /\ r = bz (zb r)).
    { unfold encode_rune. rewrite bz_zb_small by lia.
      rewrite (proj2 (Z.leb_le 0 r)), (proj2 (Z.ltb_lt r _)) by lia. done. }
    destruct Hb as [-> Hb]. rewrite Hb at 2. apply shows_byte.
  - assert ((0x10FFFF <? r) || ((0xD800 <=? r) && (r <=? 0xDFFF)) = false) as -> by (unfold scalar in Hs; lia).
    destruct (Z.ltb_spec r 0x10000); [by apply shows_rune16|by apply shows_rune32].
Qed.

Lemma shows_app a b ta tb : shows a ta -> shows b tb -> shows (a ++ b) (ta ++ tb).
Proof.
  intros [(ra & -> & Ga) Ra] [(rb & -> & Gb) Rb]. split.
  - exists (ra ++ rb). rewrite encode_runes_app. split; [done|by apply Forall_app].
  - intros rest. rewrite <- app_assoc, Ra, Rb. destruct (unquote_body rest); [cbn|done]. by rewrite app_assoc.
Qed.

Lemma shows_body s : shows s (quote_body u_graphic s (runes s)).
Proof.
  remember (length s) as n eqn:Hn. revert s Hn. induction n as [n IH] using lt_wf_ind. intros s ->.
  destruct (runes_step s) as [->|[(c & r & s' & -> & Hc & ->)|(b & s' & -> & ->)]].
  - split; [by exists []|]. intros rest. cbn. by destruct (unquote_body rest).
  - cbn [quote_body]. rewrite drop_app_length.
    assert (Hnb : (r =? rune_error) && (length c =? 1)%nat = false).
    { destruct Hc; try by rewrite andb_false_r. apply andb_false_iff. left. unfold rune_error. lia. }
    rewrite Hnb. apply shows_app.
    + rewrite (encode_unique r c Hc). apply shows_rune. by eapply encoded_scalar.
    + eapply IH; [|done]. rewrite length_app. pose proof (encoded_nonempty _ _ Hc). lia.
  - cbn [quote_body drop]. change ((rune_error =? rune_error) && (1 =? 1)%nat) with true. cbn [head default].
    rewrite hex_byte_pad. apply (shows_app [b] s'); [apply shows_byte|]. eapply IH; [|done]. cbn. lia.
Qed.

Lemma safeHumanText_body s : safeHumanText s = quote_body u_graphic s (runes s).
Proof.
  unfold safeHumanText, quote_to_graphic, quote_with. set (body := quote_body _ _ _).
  rewrite !len_app, !len_cons, len_nil. pose proof (len_nonneg body).
  rewrite (proj2 (Z.leb_le _ _)) by lia. rewrite !length_app. cbn [length app].
  replace (1 + (length body + 1) - 1)%nat with (S (length body)) by lia. cbn [take drop]. by rewrite take_app_length.
Qed.

(** ** No control characters *)

Definition control (r : Z) : Prop := r < 32 \/ 127 <= r < 160.
Definition visible (text : bytes) : Prop :=
  exists rs, text = encode_runes rs /\ Forall (fun r => scalar r /\ u_graphic r = true /\ ~ control r) rs.

Lemma graphic_visible r : graphic r -> scalar r /\ u_graphic r = true /\ ~ control r.
Proof.
  intros [Hs Hg]. split_and!; [done..|]. intros Hc. destruct (Z.ltb_spec r 0x80) as [Hlt|Hge].
  - destruct Hs. rewrite u_graphic_ascii in Hg by lia. guards. unfold control in Hc. lia.
  - unfold control in Hc. by rewrite u_graphic_c1 in Hg by lia.
Qed.

Lemma shows_visible value text : shows value text -> visible text.
Proof. intros [(rs & -> & Hrs) _]. exists rs. split; [done|]. eapply Forall_impl; [exact Hrs|apply graphic_visible]. Qed.

Lemma visible_app a b : visible a -> visible b -> visible (a ++ b).
Proof.
  intros (ra & -> & Ga) (rb & -> & Gb). exists (ra ++ rb). rewrite encode_runes_app. split; [done|by apply Forall_app].
Qed.

Lemma ascii_visible text : Forall (fun b => 32 <= bz b <= 126) text -> visible text.
Proof.
  intros (rs & -> & Hrs)%ascii_graphic. exists rs. split; [done|]. eapply Forall_impl; [exact Hrs|apply graphic_visible].
Qed.

Lemma visible_bytes text : visible text -> Forall (fun b => 32 <= bz b) text.
Proof.
  intros (rs & -> & Hrs). induction Hrs as [|r rs (Hs & _ & Hc) _ IH]; [done|].
  apply Forall_app. split; [|done]. unfold control in Hc. destruct (encode_encoded r Hs);
    unfold lead2, lead3, lead4, is_cont in *; guards;
    repeat match goal with H : second_ok _ _ = true |- _ => apply second_ok_bounds in H end;
    repeat constructor; lia.
Qed.

Lemma safeHumanText_shows s : shows s (safeHumanText s).
Proof. rewrite safeHumanText_body. apply shows_body. Qed.

Lemma safeHumanText_visible s : visible (safeHumanText s).
Proof. by eapply shows_visible, safeHumanText_shows. Qed.

Lemma digit_shown n : 32 <= bz (digit_byte (n mod 10)) <= 126.
Proof. rewrite bz_digit_byte; pose proof (Z.mod_pos_bound n 10); lia. Qed.

Lemma dec_acc_shown fuel : forall n acc, Forall (fun b => 32 <= bz b <= 126) acc ->
  Forall (fun b => 32 <= bz b <= 126) (dec_acc fuel n acc).
Proof.
  induction fuel as [|fuel IH]; intros n acc Hacc; [done|]. cbn [dec_acc].
  case_match; [|apply IH]; (constructor; [apply digit_shown|done]).
Qed.

Lemma itoa_visible n : visible (itoa n).
Proof.
  apply ascii_visible. unfold itoa, format_uint. case_match; [|by apply dec_acc_shown].
  apply Forall_app. split; [by repeat constructor|by apply dec_acc_shown].
Qed.

Lemma literal_shown s : forallb (fun b => (32 <=? bz b) && (bz b <=? 126)) s = true -> Forall (fun b => 32 <= bz b <= 126) s.
Proof. intros Hs. apply Forall_forall. intros b Hb%list_elem_of_In. rewrite forallb_forall in Hs. specialize (Hs b Hb). lia. Qed.

Lemma padded_shown width n : Forall (fun b => 32 <= bz b <= 126) (padded width n).
Proof. apply Forall_rev, Forall_map, Forall_forall. intros i _. apply digit_shown. Qed.

Lemma rfc3339_visible t : visible (rfc3339 t).
Proof.
  apply ascii_visible. unfold rfc3339. destruct (civil _) as [[y m] d].
  rewrite !Forall_app. split_and!; first [apply padded_shown|by apply literal_shown].
Qed.

Lemma visible_no_tab text : visible text -> (x09 ∉ text) /\ x0a ∉ text.
Proof.
  intros Hb%visible_bytes. rewrite Forall_forall in Hb.
  split; intros Hin%Hb; revert Hin; change (bz x09) with 9; change (bz x0a) with 10; lia.
Qed.

(** ** A row of the table *)

Definition row_fields (item : listItem) : list bytes :=
  [safeHumanText (ItName item); take 10 (ItID item); safeHumanText (ItState item); itoa (ItClients item);
   safeHumanText (ItDirectory item);
   safeHumanText (SocketPath (ItTarget item)) ++ !" " ++ safeHumanText (WindowID (ItTarget item));
   rfc3339 (ItStartedAt item)].

Lemma item_row_fields item : item_row item = join [x09] (row_fields item) ++ newline.
Proof.
  unfold item_row, row_fields. destruct (Z.ltb_spec 10 (len (ItID item))); [done|].
  rewrite take_ge; [done|]. unfold len in *. lia.
Qed.

Lemma row_fields_visible item : Forall (fun b => 32 <= bz b <= 126) (ItID item) -> Forall visible (row_fields item).
Proof.
  intros Hid. unfold row_fields.
  repeat match goal with |- Forall _ (_ :: _) => constructor | |- Forall _ [] => constructor end;
    auto using safeHumanText_visible, itoa_visible, rfc3339_visible.
  - by apply ascii_visible, Forall_take.
  - repeat apply visible_app; auto using safeHumanText_visible. by apply ascii_visible, literal_shown.
Qed.

Lemma join_not_in (b : byte) sep ws : b ∉ sep -> Forall (fun w => b ∉ w) ws -> b ∉ join sep ws.
Proof.
  intros Hsep. induction 1 as [|w ws Hw Hws IH]; [apply not_elem_of_nil|]. cbn [join].
  destruct ws; [done|]. rewrite !elem_of_app. by intros [|[|]].
Qed.

(** C24: what [safeHumanText] and [safeHumanLabel] show cannot disturb a
    terminal and hides nothing.  A value is shown as graphic characters none of
    which is a control character, and it can be read back from what
    [safeHumanText] shows, so that different values look different.  A row of the
    list is one line of exactly seven fields separated by tabs, whatever the name
    and the paths in it are, when its identifier, the one text that is printed as
    it is, is printable ASCII. *)
Theorem shown_text_is_plain :
  (forall value, visible (safeHumanText value) /\ visible (safeHumanLabel value)) /\
  (forall value, unquote_body (safeHumanText value) = Some value) /\
  (forall item, Forall (fun b => 32 <= bz b <= 126) (ItID item) ->
     Forall visible (row_fields item) /\
     item_row item = join [x09] (row_fields item) ++ newline /\ (x0a ∉ join [x09] (row_fields item)) /\
     split_byte x09 (join [x09] (row_fields item)) = row_fields item /\
     (unquote_body <$> row_fields item !! 0%nat) = Some (Some (ItName item)) /\
     (unquote_body <$> row_fields item !! 4%nat) = Some (Some (ItDirectory item))).
Proof.
  assert (Hback : forall value, unquote_body (safeHumanText value) = Some value).
  { intros value. destruct (safeHumanText_shows value) as [_ Hr]. specialize (Hr []). rewrite app_nil_r in Hr. cbn in Hr. by rewrite app_nil_r in Hr. }
  split_and!; [|exact Hback|].
  - intros value. split; [apply safeHumanText_visible|]. unfold safeHumanLabel, quote_to_graphic, quote_with.
    repeat apply visible_app; try (by apply ascii_visible, literal_shown).
    eapply shows_visible, shows_body.
  - intros item Hid. pose proof (row_fields_visible item Hid) as Hv. split_and!.
    + done.
    + apply item_row_fields.
    + apply join_not_in; [by intros Hin%list_elem_of_singleton|]. eapply Forall_impl; [exact Hv|apply visible_no_tab].
    + apply split_join; [done|]. eapply Forall_impl; [exact Hv|apply visible_no_tab].
    + cbn. by rewrite Hback.
    + cbn. by rewrite Hback.
Qed.
End Shown.

(** A directory with an escape sequence and a tab in its name. *)
Definition odd_item : listItem :=
  let dir := !"/home/a" ++ [x1b] ++ !"[2J" ++ [x09; xff] in
  {| ItID := !"0123456789abcdef0123456789abcdef"; ItName := !"web"; ItState := !"ready"; ItDirectory := dir; ItClients := 2;
     ItStartedAt := 63871286400 * 10 ^ 9;
     ItTarget := {| SocketPath := !"/tmp/tmux-0/default"; Generation := !"g"; SessionID := !"$1"; WindowID := !"@1";
                    SessionName := !"s"; WindowName := !"w"; Directory := dir |} |}.

Lemma shown_text_is_plain_witness :
  item_row (H := latin1_tables) odd_item =
    join [x09] [!"web"; !"0123456789"; !"ready"; !"2"; !"/home/a\x1b[2J\t\xff"; !"/tmp/tmux-0/default @1"; !"2025-01-01T00:00:00Z"] ++ newline /\
  split_byte x09 (join [x09] (row_fields (H := latin1_tables) odd_item)) = row_fields (H := latin1_tables) odd_item.
Proof.
  split; [by vm_compute|].
  destruct (shown_text_is_plain (H := latin1_tables)) as (_ & _ & Hrow).
  apply (Hrow odd_item). apply literal_shown. by vm_compute.
Defined.
