(* ===== verification/CommandProps.v ===== *)
(** * What the commands may do to others' things

    A monitor follows a run of a command: it knows the records that were read
    from the store, the worker that did not answer last, and the lease that is
    held with what was cleaned up under it. *)

From S2P Require Import Prelude Program GoString GoUnicode GoErrors GoPath GoOS Target InstanceName Store Control.
From S2P Require Import PlainCodec ShareProcess CommandLine CommandLineProps Application Doctor Commands.
Open Scope Z_scope.

(** ** Stepping through a command *)

Section Steps.
Context {S : Type} (allowed : S -> acall -> Prop) (next : S -> event acall aanswer -> S).
#[local] Abbreviation wps := (wp allowed next).

Lemma wp_ask_last c s Q : wps (ask c) s Q <-> allowed s c /\ forall r, Q r (next s (ev c r)).
Proof. done. Qed.

Lemma wp_ret {A} (a : A) s (Q : A -> S -> Prop) : wps (mret a) s Q <-> Q a s.
Proof. done. Qed.

Lemma wp_try {A R} `{Failing R} (m : aprog (result A)) (k : A -> aprog R) s Q :
  wps (try m k) s Q <-> wps m s (fun r s => match r with Ok a => wps (k a) s Q | Err err => Q (failed err) s end).
Proof. unfold try. rewrite wp_bind. split; apply wp_mono; by intros []. Qed.

Lemma wp_check {R} `{Failing R} (m : aprog (option error)) (k : aprog R) s Q :
  wps (check m k) s Q <-> wps m s (fun r s => match r with None => wps k s Q | Some err => Q (failed err) s end).
Proof. unfold check. rewrite wp_bind. split; apply wp_mono; by intros []. Qed.

Lemma wp_wrapped {A} before (m : aprog (result A)) s Q :
  wps (wrapped before m) s Q <->
  wps m s (fun r => Q match r with Ok a => Ok a | Err err => Err (wrapf before err) end).
Proof. unfold wrapped. by rewrite wp_bind. Qed.

Lemma wp_wrapped_error before (m : aprog (option error)) s Q :
  wps (wrapped_error before m) s Q <-> wps m s (fun r => Q (wrapf before <$> r)).
Proof. unfold wrapped_error. by rewrite wp_bind. Qed.
End Steps.

(** One step of a program that is under a monitor; [call] names the answer. *)
Ltac step :=
  lazymatch goal with
  | |- wp _ _ (try _ _) _ _ => apply wp_try
  | |- wp _ _ (check _ _) _ _ => apply wp_check
  | |- wp _ _ (wrapped _ _) _ _ => apply wp_wrapped
  | |- wp _ _ (wrapped_error _ _) _ _ => apply wp_wrapped_error
  | |- wp _ _ (mret _) _ _ => apply wp_ret; cbv beta iota
  | |- wp _ _ (say _ _) _ _ => unfold say
  | |- wp _ _ (ask _) _ _ => fail
  | |- wp _ _ (ask _ ≫= _) _ _ => fail
  | |- wp _ _ (mbind _ _) _ _ => apply wp_bind
  | |- wp _ _ (match ?x with _ => _ end) _ _ => destruct x eqn:?
  | |- match ?x with _ => _ end => destruct x eqn:?
  end.
Tactic Notation "call" ident(x) := repeat step; 
  lazymatch goal with
  | |- wp _ _ (ask _) _ _ => apply wp_ask_last
  | |- wp _ _ (ask _ ≫= _) _ _ => apply wp_ask
  end; split; [try done|intros x; cbv beta].

(** ** The monitor *)

(** How a worker was seen to be over: its record was removed from a store; or a
    store had no such record, and then a lease was not held in a store. *)
Inductive over := Removed (s : Store) (id : bytes) (pid : Z) | Stopped (absent lease : Store) (id : bytes).

Record managed := {
  g_known : list Record_;                (* read from the store *)
  g_silent : option (bytes * bytes);     (* socket and identifier, when the last call had no good answer *)
  g_lease : option (Store * bytes);
  g_helper : option (Target * bytes);    (* cleaned up under this lease *)
  g_socket : option bytes;               (* seen to be a socket, not a link *)
  g_gone : option bytes;                 (* the path under which nothing is left *)
  g_asked : list bytes;                  (* asked to shut down *)
  g_absent : option (Store * bytes);     (* the selector that named no record last *)
  g_said : list (bytes * Request * Status);   (* what was answered at a socket *)
  g_over : list over
}.
#[export] Instance eta_managed : Eta managed := fun s =>
  {| g_known := g_known s; g_silent := g_silent s; g_lease := g_lease s; g_helper := g_helper s; g_socket := g_socket s;
     g_gone := g_gone s; g_asked := g_asked s; g_absent := g_absent s; g_said := g_said s;
     g_over := g_over s |}.

Definition nothing_known : managed :=
  {| g_known := []; g_silent := None; g_lease := None; g_helper := None; g_socket := None; g_gone := None;
     g_asked := []; g_absent := None; g_said := []; g_over := [] |}.

Definition answers (req : Request) (r : result Status) : bool :=
  match r with
  | Ok status => negb (Action req ==b ActionStatus) || (StID status ==b InstanceID req)
  | Err _ => false
  end.

Definition next (s : managed) (e : event acall aanswer) : managed :=
  let 'existT c r := e in
  match c return aanswer c -> managed with
  | AReadAll _ => fun r => match r with Ok (records, _) => s <| g_known := records ++ g_known s |> | Err _ => s end
  | AResolve s' selector => fun r =>
      match r with
      | Ok record => s <| g_known := record :: g_known s |> <| g_absent := None |>
      | Err err => s <| g_absent := if errors_is ErrNotFound err then Some (s', selector) else None |>
      end
  | ACall socket req => fun r =>
      let s := if Action req ==b ActionShutdown then s <| g_asked := InstanceID req :: g_asked s |> else s in
      let s := s <| g_said := match r with Ok status => (socket, req, status) :: g_said s | Err _ => g_said s end |> in
      s <| g_silent := if answers req r then None else Some (socket, InstanceID req) |>
  | AAcquireLease s' id => fun r =>
      match r with
      | None => s <| g_lease := Some (s', id) |> <| g_helper := None |> <| g_socket := None |> <| g_gone := None |>
      | Some _ => s
      end
  | ALeaseClose => fun _ => s <| g_lease := None |>
  | ACleanupHelper t id => fun r => match r with None => s <| g_helper := Some (t, id) |> | Some _ => s end
  | ALstat path => fun r =>
      match r with
      | Ok i => s <| g_socket := if is_socket i && negb (is_symlink i) then Some path else None |>
      | Err err => s <| g_socket := None |> <| g_gone := if is_not_exist err then Some path else g_gone s |>
      end
  | ARemove path => fun r => match r with None => s <| g_gone := Some path |> | Some _ => s end
  | ARemoveIfPID s' id pid => fun r => match r with Ok true => s <| g_over := Removed s' id pid :: g_over s |> | _ => s end
  | ALeaseHeld s' id => fun r =>
      match r, g_absent s with
      | Ok false, Some (absent, selector) =>
          if selector ==b id then s <| g_over := Stopped absent s' id :: g_over s |> else s
      | _, _ => s
      end
  | _ => fun _ => s
  end r.

Section Monitor.
Context `{UnicodeTables} `{RecordCodec}.
Variable store : Store.

(** The lease of a known record whose worker did not answer is held. *)
Definition owns (s : managed) (record : Record_) (recordStore : Store) : Prop :=
  record ∈ g_known s /\ g_silent s = Some (ControlSocket record, ID record) /\
  ForRecord store record = Ok recordStore /\ g_lease s = Some (recordStore, ID record).

(** The worker of [record] is over: the store's record of this process was
    removed, or the store had no record of this identifier and then nobody held
    the lease in the record's own runtime directory. *)
Definition is_over (s : managed) (record : Record_) : Prop :=
  Removed store (ID record) (PID record) ∈ g_over s \/
  exists recordStore, ForRecord store record = Ok recordStore /\ Stopped store recordStore (ID record) ∈ g_over s.

Lemma is_over_later s s' record : g_over s ⊆ g_over s' -> is_over s record -> is_over s' record.
Proof. intros Hsub [Hr|(r & Hr & Hs)]; [left|right; exists r; split; [done|]]; by apply Hsub. Qed.

(** The calls that may be made. *)
Definition allowed (s : managed) (c : acall) : Prop :=
  match c with
  | ACall socket req => Action req = ActionStatus \/
      exists record, record ∈ g_known s /\ socket = ControlSocket record /\ InstanceID req = ID record
  | AAcquireLease s' id => g_lease s = None /\
      exists record, record ∈ g_known s /\ g_silent s = Some (ControlSocket record, ID record) /\
        ForRecord store record = Ok s' /\ id = ID record
  | ACleanupHelper t id => exists record s', owns s record s' /\ t = RecTarget record /\ id = ID record
  | ARemove path => exists record s', owns s record s' /\ path = path_clean (ControlSocket record) /\
      path_dir path = path_clean (RuntimeRoot s') /\ path_base path = ID record ++ !".sock" /\ g_socket s = Some path
  | ARemoveIfPID s' id pid => s' = store /\
      exists record r', owns s record r' /\ id = ID record /\ pid = PID record /\
        g_helper s = Some (RecTarget record, id) /\ g_gone s = Some (path_clean (ControlSocket record))
  | ALeaseClose => is_Some (g_lease s)
  | AStartWorker _ _ | ACreateSession _ _ | AReplaceProcess _ _ | AShareRun _ _ _ => g_lease s = None
  | _ => True
  end.
#[local] Abbreviation wps := (wp allowed next).

(** Nothing is held, and what was learnt before is still known. *)
Record later (s s' : managed) : Prop := {
  lt_lease : g_lease s' = None;
  lt_known : g_known s ⊆ g_known s';
  lt_asked : g_asked s ⊆ g_asked s';
  lt_said : g_said s ⊆ g_said s';
  lt_over : g_over s ⊆ g_over s'
}.

Lemma later_trans s s1 s2 : later s s1 -> later s1 s2 -> later s s2.
Proof. intros [] []. split; [done|set_solver..]. Qed.

Lemma later_refl s : g_lease s = None -> later s s.
Proof. intros Hl. by split. Qed.

(** ** Cleaning up under the lease *)

Record keeps (s s' : managed) : Prop := {
  kp_known : g_known s' = g_known s;
  kp_silent : g_silent s' = g_silent s;
  kp_lease : g_lease s' = g_lease s;
  kp_asked : g_asked s' = g_asked s;
  kp_said : g_said s' = g_said s;
  kp_over : g_over s ⊆ g_over s'
}.

Lemma keeps_owns s s' record r : keeps s s' -> owns s record r -> owns s' record r.
Proof. intros [K1 K2 K3 _ _ _] (H1 & H2 & H3 & H4). unfold owns. by rewrite K1, K2, K3. Qed.

Lemma kept_trans s s1 s2 : keeps s s1 -> keeps s1 s2 -> keeps s s2.
Proof. intros [] []. split; try congruence. set_solver. Qed.

Lemma keeps_removed s id pid removed : keeps s (next s (ev (ARemoveIfPID store id pid) removed)).
Proof. destruct removed as [[]|]; split; try done. cbn. set_solver. Qed.

(** The lease is given back. *)
Lemma released s s' t r id closeErr : keeps (next s (ev (AAcquireLease r id) None)) t ->
  s' = next t (ev ALeaseClose closeErr) -> later s s'.
Proof. intros [K1 _ _ K2 K3 K4] ->. split; [done|cbn; by rewrite K1|cbn; by rewrite K2|cbn; by rewrite K3|exact K4]. Qed.

Lemma later_next s c r : g_lease s = None -> (forall s' id, c <> AAcquireLease s' id) -> later s (next s (ev c r)).
Proof.
  intros Hl Hc. destruct c; try (by edestruct Hc); try by apply later_refl.
  all: cbn [aanswer] in r; cbn [next ev]; repeat case_match; (split; [done|cbn; set_solver..]).
Qed.

Lemma socket_gone_spec record r s : owns s record r ->
  wps (cleanupStaleControlSocket (RuntimeRoot r) record) s (fun err s' =>
    keeps s s' /\ g_helper s' = g_helper s /\ (err = None -> g_gone s' = Some (path_clean (ControlSocket record)))).
Proof.
  intros Ho. unfold cleanupStaleControlSocket.
  case_bool_decide as Hd; [|by split].
  case_bool_decide as Hb; [|by split]. cbn [negb orb].
  call a. destruct a as [i|err].
  - destruct (is_socket i) eqn:Hs, (is_symlink i) eqn:Hl; cbn [negb orb]; try by cbn; rewrite Hs, ?Hl.
    call b; [|by destruct b; cbn; rewrite Hs, Hl].
    exists record, r. split_and!; [|done..|by cbn; rewrite Hs, Hl].
    unfold next. cbn. by rewrite Hs, Hl.
  - step. cbn. destruct (is_not_exist err) eqn:He; by split_and!; [|done|].
Qed.

Lemma stale_artifacts_spec record r s : owns s record r ->
  wps (cleanupStaleArtifacts store record) s (fun err s' => keeps s s' /\
    (err = None -> g_helper s' = Some (RecTarget record, ID record) /\
                   g_gone s' = Some (path_clean (ControlSocket record)))).
Proof.
  intros Ho. unfold cleanupStaleArtifacts. rewrite (proj1 (proj2 (proj2 Ho))). call a.
  { by exists record, r. }
  step. eapply wp_mono; [|apply socket_gone_spec; by destruct a].
  intros controlErr s' (K & Hh & Hg). step. split; [destruct K, a; by split|].
  intros Hj%errors_join_None. apply Forall_cons in Hj as [-> [Hc _]%Forall_cons]. by rewrite Hh, Hg.
Qed.


(** ** A worker that did not answer *)

(** The last call had no good answer from the worker of [record]. *)
Definition silent (s : managed) (record : Record_) : Prop :=
  g_lease s = None /\ record ∈ g_known s /\ g_silent s = Some (ControlSocket record, ID record).

Lemma silent_owns s record r : silent s record -> ForRecord store record = Ok r ->
  owns (next s (ev (AAcquireLease r (ID record)) None)) record r.
Proof. by intros (Hl & Hk & Hs) Hr. Qed.

(** An inspected item is about its record, and its status was answered there;
    a record without an item is over. *)
Definition item_ok (s : managed) (record : Record_) (item : inspectedRecord) : Prop :=
  in_record item = record /\ match in_status item with
                             | Ok status => (ControlSocket record, status_request (ID record), status) ∈ g_said s /\
                                            StID status = ID record
                             | Err _ => True
                             end.
Definition kept (record : Record_) (s : managed) (res : result (option inspectedRecord)) (s' : managed) : Prop :=
  later s s' /\ match res with
                | Ok (Some item) => item_ok s' record item
                | Ok None => is_over s' record
                | Err _ => True
                end.

Lemma remove_dead_spec record err s : silent s record ->
  wps (remove_dead store record err) s (kept record s).
Proof.
  intros Hsil. pose proof Hsil as (Hl & Hk & Hs). unfold remove_dead.
  destruct (ForRecord store record) as [r|e] eqn:Hr; [|by repeat step; (split; [apply later_refl|])].
  call leaseErr; [split; [done|by exists record]|]. destruct leaseErr as [e|]; [by step; destruct (errors_is _ e); (split; [apply later_refl|])|].
  pose proof (silent_owns s record r Hsil Hr) as Ho. step. eapply wp_mono; [|by eapply stale_artifacts_spec].
  intros cleanupErr s1 [K Hclean]. pose proof (keeps_owns _ _ _ _ K Ho) as Ho1.
  destruct cleanupErr as [e|].
  { call closeErr; [by eexists; apply Ho1|]. split; [by eapply released|done]. }
  destruct Hclean as [Hh Hg]; [done|].
  call removed; [split; [done|by exists record, r]|].
  pose proof (kept_trans _ _ _ K (keeps_removed s1 (ID record) (PID record) removed)) as K2.
  pose proof (keeps_owns _ _ _ _ K2 Ho) as Ho2.
  destruct removed as [[]|e].
  - call writeErr. destruct writeErr as [e|].
    + call closeErr; [by eexists; apply Ho2|]. split; [by eapply released|done].
    + call closeErr; [by eexists; apply Ho2|]. destruct closeErr; (split; [by eapply released|first [done|by left; left]]).
  - call closeErr; [by eexists; apply Ho2|]. destruct closeErr; (split; [by eapply released|done]).
  - call closeErr; [by eexists; apply Ho2|]. split; [by eapply released|done].
Qed.

Lemma inspect_record_spec removeDead record s : g_lease s = None -> record ∈ g_known s ->
  wps (inspect_record store removeDead record) s (kept record s).
Proof.
  intros Hl Hk. unfold inspect_record. call answer; [by left|]. cbv zeta.
  set (s1 := next s _). assert (Hl1 : later s s1) by by apply later_next.
  assert (Hdead : forall err, g_silent s1 = Some (ControlSocket record, ID record) ->
    wps (if removeDead then remove_dead store record err
         else mret (Ok (Some {| in_record := record; in_status := Err err |}))) s1 (kept record s)).
  { intros err Hs. destruct removeDead; [|by step; split].
    eapply wp_mono; [|by apply remove_dead_spec]. intros res s2 [Hl2 Hres]. split; [exact (later_trans _ _ _ Hl1 Hl2)|exact Hres]. }
  destruct answer as [status|err]; [|by apply Hdead].
  case_bool_decide as Hid; [step; split; [done|]; split; [done|]; split; [by left|done]|]. apply Hdead.
  subst s1. cbn. by rewrite (bool_decide_false _ Hid).
Qed.

Definition known (s : managed) (records : list Record_) : Prop := Forall (fun r => r ∈ g_known s) records.

Lemma known_later s s' records : later s s' -> known s records -> known s' records.
Proof. intros [_ Hk _ _ _] Hr. eapply Forall_impl; [exact Hr|]. cbn. set_solver. Qed.

(** The items that are left of [records]. *)
Definition items_ok (s : managed) (records : list Record_) (items : list inspectedRecord) : Prop :=
  Forall (fun item => exists record, record ∈ records /\ item_ok s record item) items /\
  Forall (fun record => record ∈ map in_record items \/ is_over s record) records /\
  (length items <= length records)%nat.

Lemma item_ok_later s s' record item : later s s' -> item_ok s record item -> item_ok s' record item.
Proof. intros [_ _ _ Hs _] [Hi Ho]. split; [done|]. destruct (in_status item); [|done]. destruct Ho. split; [by apply Hs|done]. Qed.

Lemma items_ok_cons s s' record records item items : later s s' ->
  match item with Some item => item_ok s record item | None => is_over s record end -> items_ok s' records items ->
  items_ok s' (record :: records) match item with Some item => item :: items | None => items end.
Proof.
  intros Hl Hi (H1 & H2 & H3).
  assert (H1' : Forall (fun item => exists r, r ∈ record :: records /\ item_ok s' r item) items).
  { eapply Forall_impl; [exact H1|]. intros it (r & Hr & Ho). exists r. split; [by right|done]. }
  destruct item as [item|]; (split_and!; [..|cbn; lia]).
  - constructor; [|done]. exists record. split; [by left|]. by eapply item_ok_later.
  - constructor; [left; destruct Hi as [<- _]; by left|]. eapply Forall_impl; [exact H2|].
    intros r [Hr|Hr]; [left; by right|by right].
  - done.
  - constructor; [right; destruct Hl as [_ _ _ _ Ho]; by eapply is_over_later|done].
Qed.

Lemma inspect_each_spec removeDead records : forall s, g_lease s = None -> known s records ->
  wps (inspect_each store removeDead records) s (fun res s' => later s s' /\
    match res with Ok items => items_ok s' records items | Err _ => True end).
Proof.
  induction records as [|record records IH]; intros s Hl Hk; cbn [inspect_each].
  { step. split; [by apply later_refl|by split_and!]. }
  apply Forall_cons in Hk as [Hr Hk]. step. eapply wp_mono; [|by apply inspect_record_spec].
  intros item s1 [Hl1 Hitem]. destruct item as [item|err]; [|done].
  step. eapply wp_mono; [|apply IH; [apply Hl1|by eapply known_later]].
  intros rest s2 [Hl2 Hrest]. pose proof (later_trans _ _ _ Hl1 Hl2). destruct rest as [rest|err]; [|done].
  step. split; [done|]. apply (items_ok_cons s1); [done|by destruct item|done].
Qed.

Lemma inspectRecords_spec removeDead s : g_lease s = None ->
  wps (inspectRecords store removeDead) s (fun res s' => later s s' /\
    match res with
    | Ok (items, _) => exists records, known s' records /\ items_ok s' records items
    | Err _ => True
    end).
Proof.
  intros Hl. unfold inspectRecords. call read. destruct read as [[records problems]|err]; [|by split; [apply later_refl|]].
  cbv beta iota. step. set (s1 := next s _). assert (Hl1 : later s s1) by (split; [done|cbn; set_solver|done..]).
  assert (Hk : known s1 records) by (apply Forall_forall; cbn; set_solver).
  eapply wp_mono; [|by apply inspect_each_spec]. intros items s2 [Hl2 Hitems].
  pose proof (later_trans _ _ _ Hl1 Hl2). destruct items as [items|err]; [|done]. step. split; [done|].
  exists records. split; [apply (known_later s1); done|done].
Qed.

(** ** Programs that are harmless without a lease *)

Definition harmless {A} (m : aprog A) : Prop := forall s, g_lease s = None -> wps m s (fun _ s' => later s s').

(** A call that may always be made. *)
Definition plain (c : acall) : bool :=
  match c with
  | AAcquireLease _ _ | ACleanupHelper _ _ | ARemove _ | ARemoveIfPID _ _ _ | ALeaseClose => false
  | ACall _ req => Action req ==b ActionStatus
  | _ => true
  end.

Lemma harmless_ret {A} (a : A) : harmless (mret a).
Proof. intros s Hl. by apply later_refl. Qed.

Lemma harmless_ask c : plain c = true -> harmless (ask c).
Proof.
  intros Hp s Hl. apply wp_ask_last. split.
  - destruct c; try done. left. by apply bool_decide_eq_true in Hp.
  - intros r. apply later_next; [done|]. by intros s' id ->.
Qed.

Lemma harmless_bind {A B} (m : aprog A) (f : A -> aprog B) : harmless m -> (forall a, harmless (f a)) -> harmless (m ≫= f).
Proof.
  intros Hm Hf s Hl. apply wp_bind. eapply wp_mono; [|by apply Hm]. intros a s1 H1.
  eapply wp_mono; [|apply Hf, H1]. intros b s2 H2. exact (later_trans _ _ _ H1 H2).
Qed.

Lemma harmless_try {A R} `{Failing R} (m : aprog (result A)) (k : A -> aprog R) :
  harmless m -> (forall a, harmless (k a)) -> harmless (try m k).
Proof. intros Hm Hk. apply harmless_bind; [done|]. intros []; [apply Hk|apply harmless_ret]. Qed.

Lemma harmless_check {R} `{Failing R} (m : aprog (option error)) (k : aprog R) : harmless m -> harmless k -> harmless (check m k).
Proof. intros Hm Hk. apply harmless_bind; [done|]. intros []; [apply harmless_ret|apply Hk]. Qed.

Lemma harmless_wrapped {A} before (m : aprog (result A)) : harmless m -> harmless (wrapped before m).
Proof. intros Hm. apply harmless_bind; [done|]. intros. apply harmless_ret. Qed.

Lemma harmless_wrapped_error before (m : aprog (option error)) : harmless m -> harmless (wrapped_error before m).
Proof. intros Hm. apply harmless_bind; [done|]. intros. apply harmless_ret. Qed.
End Monitor.

Create HintDb harmless.
#[export] Hint Resolve harmless_ret harmless_bind harmless_try harmless_check harmless_wrapped harmless_wrapped_error : harmless.
#[export] Hint Extern 1 (harmless _ (ask _)) => apply harmless_ask; reflexivity : harmless.
#[export] Hint Extern 2 (harmless _ _) =>
  match goal with |- harmless _ (match ?x with _ => _ end) => destruct x end : harmless.
#[export] Hint Extern 1 (harmless _ (say _ _)) => apply harmless_ask; reflexivity : harmless.

Section Harmless.
Context `{UnicodeTables} `{RecordCodec}.
Variable store : Store.
#[local] Abbreviation harmless := (harmless store).

Lemma say_all_harmless texts : harmless (say_all texts).
Proof. induction texts; cbn [say_all]; auto with harmless. Qed.

Lemma writeStatus_harmless status json : harmless (writeStatus status json).
Proof. unfold writeStatus. auto 10 with harmless. Qed.

Lemma warn_harmless problems : harmless (warn_malformed problems).
Proof. induction problems; cbn [warn_malformed]; auto with harmless. Qed.

Lemma items_harmless items : harmless (list_items items).
Proof. induction items as [|item items IH]; cbn [list_items]; auto 10 with harmless. Qed.

Lemma rows_harmless items : harmless (table_rows items).
Proof. induction items; cbn [table_rows]; auto with harmless. Qed.

Lemma dependency_harmless name args parse : harmless (checkDependency name args parse).
Proof. unfold checkDependency. auto 15 with harmless. Qed.
#[local] Hint Resolve say_all_harmless writeStatus_harmless warn_harmless items_harmless rows_harmless dependency_harmless : harmless.

Lemma start_dependencies_harmless : harmless checkStartDependencies.
Proof. unfold checkStartDependencies, CheckDependencies, checkTmux, checkCloudflared. auto 10 with harmless. Qed.

Lemma permissions_harmless paths : forall safe, harmless (checkPermissions paths safe).
Proof. induction paths as [|path paths IH]; intros safe; cbn [checkPermissions]; auto 10 with harmless. Qed.

Lemma check_records_harmless records : forall report, harmless (checkRecords store records report).
Proof. induction records as [|record records IH]; intros report; cbn [checkRecords]; auto 20 with harmless. Qed.

Lemma legacy_harmless path names : harmless (checkLegacy path names).
Proof. induction names as [|name names IH]; cbn [checkLegacy]; auto 10 with harmless. Qed.
#[local] Hint Resolve start_dependencies_harmless permissions_harmless check_records_harmless legacy_harmless : harmless.

Lemma doctor_harmless platform version json : harmless (doctorContext platform version store json).
Proof. unfold doctorContext, Check, checkTmux, checkCloudflared, checkState. auto 30 with harmless. Qed.

Lemma inspect_harmless removeDead : harmless (inspectRecords store removeDead).
Proof. intros s Hl. eapply wp_mono; [|by apply inspectRecords_spec]. by intros res s' [H1 _]. Qed.
#[local] Hint Resolve inspect_harmless : harmless.

Lemma list_harmless json : harmless (list_ store json).
Proof. unfold list_. auto 30 with harmless. Qed.

Lemma serve_harmless args : harmless (serve store args).
Proof. unfold serve. auto 30 with harmless. Qed.

Lemma new_harmless name t records : harmless (start_new store name t records).
Proof. unfold start_new, newInstanceID. auto 30 with harmless. Qed.
#[local] Hint Resolve list_harmless serve_harmless new_harmless doctor_harmless : harmless.

(** ** Commands that tell workers what to do *)

Definition keeps_lease {A} (m : aprog A) (s : managed) : Prop := wp (allowed store) next m s (fun _ s' => later s s').

(** A harmless rest after a step that led from [s] to [s1]. *)
Lemma harmless_after {A} (m : aprog A) s s1 : harmless m -> later s s1 -> wp (allowed store) next m s1 (fun _ s' => later s s').
Proof. intros Hm H1. eapply wp_mono; [|apply Hm, H1]. intros a s' H2. exact (later_trans _ _ _ H1 H2). Qed.

(** An order to the worker of a known record. *)
Lemma order_spec record action name s : g_lease s = None -> record ∈ g_known s -> action <> ActionStatus ->
  wp (allowed store) next (ask (ACall (ControlSocket record) (action_request (ID record) action name))) s (fun res s' =>
    later s s' /\ (action = ActionShutdown -> ID record ∈ g_asked s') /\
    match res with
    | Ok status => (ControlSocket record, action_request (ID record) action name, status) ∈ g_said s'
    | Err _ => silent s' record
    end).
Proof.
  intros Hl Hk Ha. call res; [right; by exists record|]. split; [by apply later_next|].
  assert (Hsil : forall e : error, res = Err e -> silent (next s (ev (ACall (ControlSocket record) (action_request (ID record) action name)) res)) record).
  { intros e ->. unfold silent. cbn. by case_bool_decide. }
  split; [|destruct res; [cbn; case_bool_decide; by left|by eapply Hsil]]. intros ->. cbn. by left.
Qed.

(** Looking up a record makes it known. *)
Lemma resolve_spec selector s : g_lease s = None ->
  wp (allowed store) next (ask (AResolve store selector)) s (fun res s' => later s s' /\
    match res with Ok record => record ∈ g_known s' | Err _ => True end).
Proof. intros Hl. call res. split; [by apply later_next|]. destruct res; [by left|done]. Qed.

Lemma selected_harmless action selector json : action <> ActionStatus -> harmless (show_selected store action selector json).
Proof.
  intros Ha s Hl. unfold show_selected. step. eapply wp_mono; [|by apply resolve_spec].
  intros res s1 [H1 Hk]. destruct res as [record|]; [|done]. step. eapply wp_mono; [|by apply order_spec; [apply H1|..]].
  intros status s2 (H2 & _). pose proof (later_trans _ _ _ H1 H2) as H3. destruct status as [status|]; [|done].
  by apply harmless_after; [auto with harmless|].
Qed.

Lemma show_harmless selector json : harmless (show store selector json).
Proof. unfold show, show_selected. auto 10 with harmless. Qed.

(** The worker is over. *)
Definition ended (record : Record_) (s : managed) (err : option error) (s' : managed) : Prop :=
  later s s' /\ (err = None -> is_over store s' record).

Lemma wait_round_spec r record again s : g_lease s = None -> ForRecord store record = Ok r ->
  (forall s1, later s s1 -> wp (allowed store) next again s1 (ended record s1)) ->
  wp (allowed store) next (wait_round store r (ID record) again) s (ended record s).
Proof.
  intros Hl Hr Hagain. assert (Hafter : forall s1, later s s1 -> wp (allowed store) next again s1 (ended record s)).
  { intros s1 H1. eapply wp_mono; [|by apply Hagain]. intros err s2 [H2 Ho]. split; [|done].
    exact (later_trans _ _ _ H1 H2). }
  unfold wait_round. call resolved.
  assert (H1 : later s (next s (ev (AResolve store (ID record)) resolved))) by by apply later_next.
  destruct resolved as [found|err]; [by apply Hafter|]. destruct (errors_is ErrNotFound err) eqn:He; [|by step].
  call held. set (s2 := next _ (ev (ALeaseHeld r (ID record)) held)).
  assert (H2 : later s s2) by (eapply later_trans; [exact H1|by apply later_next]).
  destruct held as [[]|e]; [by apply Hafter| |by split].
  step. split; [done|]. intros _. right. exists r. split; [done|]. unfold s2. cbn. rewrite He.
  rewrite bool_decide_true by done. by left.
Qed.

Lemma wait_rounds_spec rounds r record : ForRecord store record = Ok r -> forall s, g_lease s = None ->
  wp (allowed store) next (wait_rounds store rounds r (ID record)) s (ended record s).
Proof.
  intros Hr. induction rounds as [|rounds IH]; intros s Hl; cbn [wait_rounds]; apply wait_round_spec; try done; intros s1 H1.
  - step. split; [apply later_refl, H1|done].
  - call slept. apply IH, H1.
Qed.

Lemma stopped_spec record s : g_lease s = None ->
  wp (allowed store) next (waitForStopped store record) s (ended record s).
Proof.
  intros Hl. unfold waitForStopped. destruct (ForRecord store record) as [r|err] eqn:Hr.
  - call rounds. by apply wait_rounds_spec.
  - repeat step. split; [by apply later_refl|done].
Qed.

(** ** kill *)

Lemma kill_stale_spec record err s : silent s record ->
  wp (allowed store) next (kill_stale store record err) s (ended record s).
Proof.
  intros Hsil. pose proof Hsil as (Hl & Hk & Hs). unfold kill_stale.
  destruct (ForRecord store record) as [r|e] eqn:Hr; [|by step; split; [apply later_refl|]].
  call leaseErr; [split; [done|by exists record]|].
  destruct leaseErr as [e|]; [by step; split; [apply later_refl|destruct (errors_is _ e)]|].
  pose proof (silent_owns store s record r Hsil Hr) as Ho. step. eapply wp_mono; [|by eapply stale_artifacts_spec].
  intros cleanupErr s1 [K Hclean]. pose proof (keeps_owns _ _ _ _ _ K Ho) as Ho1.
  destruct cleanupErr as [e|].
  { call closeErr; [by eexists; apply Ho1|]. split; [by eapply released|by destruct closeErr]. }
  destruct Hclean as [Hh Hg]; [done|].
  call removed; [split; [done|by exists record, r]|].
  pose proof (kept_trans _ _ _ K (keeps_removed store s1 (ID record) (PID record) removed)) as K2.
  pose proof (keeps_owns _ _ _ _ _ K2 Ho) as Ho2.
  call closeErr; [by eexists; apply Ho2|].
  assert (Hrel : later s (next (next s1 (ev (ARemoveIfPID store (ID record) (PID record)) removed)) (ev ALeaseClose closeErr)))
    by by eapply released.
  destruct removed as [[]|e], closeErr as [c|]; try (by split).
  call printed. split; [exact Hrel|]. intros _. left. by left.
Qed.

Lemma killRecord_spec record s : g_lease s = None -> record ∈ g_known s ->
  wp (allowed store) next (killRecord store record) s (fun err s' =>
    ended record s err s' /\ ID record ∈ g_asked s').
Proof.
  intros Hl Hk. unfold killRecord. apply wp_bind. eapply wp_mono; [|apply order_spec; [done..|by vm_compute]].
  intros answer s1 (H1 & Hasked & Hsil). specialize (Hasked eq_refl).
  assert (Hend : forall err s2, ended record s1 err s2 -> ended record s err s2 /\ ID record ∈ g_asked s2).
  { intros err s2 [H2 Ho]. split_and!; [split; [exact (later_trans _ _ _ H1 H2)|done]|]. destruct H2. set_solver. }
  destruct answer as [status|err].
  - step. eapply wp_mono; [|apply stopped_spec, H1]. intros err s2 He. destruct err as [err|]; [by apply Hend|].
    call printed. apply Hend. split; [apply He|]. intros _. by apply He.
  - eapply wp_mono; [|by apply kill_stale_spec]. apply Hend.
Qed.

(** What [kill all] comes to. *)
Record kills (records : list Record_) (killErr : option error) (s : managed) (err : option error) (s' : managed) : Prop := {
  ki_later : later s s';
  ki_asked : Forall (fun r => ID r ∈ g_asked s') records;
  ki_over : err = None -> killErr = None /\ Forall (is_over store s') records;
  ki_reports : forall e, reported e killErr -> reported e err
}.

Lemma kill_each_spec records : forall killErr s, g_lease s = None -> known s records ->
  wp (allowed store) next (kill_each store records killErr) s (kills records killErr s).
Proof.
  induction records as [|record records IH]; intros killErr s Hl Hk; cbn [kill_each].
  { step. split; [by apply later_refl|done|done|done]. }
  apply Forall_cons in Hk as [Hr Hk]. apply wp_bind. eapply wp_mono; [|by apply killRecord_spec].
  intros err s1 [[H1 Ho] Ha]. eapply wp_mono; [|apply IH; [apply H1|by eapply known_later]].
  intros err' s2 [H2 Ha2 Ho2 Hr2]. pose proof H2 as [_ _ Hsub1 _ Hsub2]. split.
  - exact (later_trans _ _ _ H1 H2).
  - constructor; [set_solver|done].
  - intros Hn. destruct (Ho2 Hn) as [Hnone Hall]. destruct err as [e|].
    + apply errors_join_None, Forall_cons in Hnone as [_ [[=] _]%Forall_cons].
    + split; [done|]. constructor; [|done]. by eapply is_over_later, Ho.
  - intros e He. apply Hr2. destruct err; [|done]. eapply reported_join, He. by left.
Qed.

Lemma problems_joined problems : forall killErr, 
  let joined := foldl (fun killErr problem =>
    errors_join [killErr; Some (wrapf !"read Wrap instance record: " (problem_error problem))]) killErr problems in
  (joined = None -> problems = []) /\
  (forall e, reported e killErr -> reported e joined) /\
  forall p, p ∈ problems -> reported (problem_error p) joined.
Proof.
  induction problems as [|p problems IH]; intros killErr; cbn.
  { split_and!; [done..|]. by intros p []%elem_of_nil. }
  destruct (IH (errors_join [killErr; Some (wrapf !"read Wrap instance record: " (problem_error p))])) as (I1 & I2 & I3).
  split_and!.
  - intros Hn. rewrite (I1 Hn) in Hn. cbn in Hn. apply errors_join_None, Forall_cons in Hn as [_ [[=] _]%Forall_cons].
  - intros e He. apply I2. by apply joined_left.
  - intros p' [->|Hp]%elem_of_cons; [|by apply I3]. apply I2. eapply reported_join; [right; by left|].
    eexists. split; [done|]. apply within_wrap, within_here.
Qed.

Lemma killAll_harmless : harmless (killAll store).
Proof.
  intros s Hl. unfold killAll. call read. destruct read as [[records problems]|err]; [|by apply later_refl].
  cbv beta iota. set (s1 := next s _). assert (H1 : later s s1) by by apply later_next.
  destruct (_ && _); [by apply harmless_after; [auto with harmless|]|].
  eapply wp_mono; [|apply kill_each_spec; [apply H1|apply Forall_forall; cbn; set_solver]].
  intros err s2 [H2 _ _ _]. exact (later_trans _ _ _ H1 H2).
Qed.

Lemma kill_harmless selector all : harmless (kill store selector all).
Proof.
  destruct all; [exact killAll_harmless|]. intros s Hl. unfold kill. step. eapply wp_mono; [|by apply resolve_spec].
  intros res s1 [H1 Hk]. destruct res as [record|]; [|done].
  eapply wp_mono; [|by apply killRecord_spec; [apply H1|]].
  intros err s2 [[H2 _] _]. exact (later_trans _ _ _ H1 H2).
Qed.
#[local] Hint Resolve kill_harmless show_harmless : harmless.

(** ** Starting *)

(** What is returned was answered by the worker of [record]: a status of this
    record, or, when another name was requested, the answer to the renaming. *)
Definition answered (record : Record_) (name : bytes) (s : managed) (status : Status) : Prop :=
  exists found, (ControlSocket record, status_request (ID record), found) ∈ g_said s /\ StID found = ID record /\
    if negb (name ==b []) && negb (name ==b Name record)
    then (ControlSocket record, action_request (ID record) ActionRename name, status) ∈ g_said s
    else status = found.
Definition told (record : Record_) (name : bytes) (s : managed) (res : result Status) (s' : managed) : Prop :=
  later s s' /\ match res with Ok status => answered record name s' status | Err _ => True end.

Lemma answered_later record name s s' status : later s s' -> answered record name s status -> answered record name s' status.
Proof.
  intros [_ _ _ Hsub _] (found & Hf & Hid & Hs). exists found. split_and!; [by apply Hsub|done|].
  destruct (_ && _); [by apply Hsub|done].
Qed.

Lemma status_told record name status s s1 : later s s1 -> answered record name s1 status ->
  wp (allowed store) next (writeStatus status false ?; mret (Ok status)) s1 (told record name s).
Proof.
  intros H1 Hs. step. eapply wp_mono; [|apply writeStatus_harmless, H1]. intros err s2 H2.
  pose proof (later_trans _ _ _ H1 H2). destruct err; [done|]. split; [done|]. exact (answered_later _ _ _ _ _ H2 Hs).
Qed.

Lemma reuse_spec name records item s : g_lease s = None -> in_record item ∈ g_known s ->
  item_ok s (in_record item) item -> wp (allowed store) next (reuse name records item) s (told (in_record item) name s).
Proof.
  intros Hl Hk [_ Hsaid]. unfold reuse. destruct (in_status item) as [status|err]; [|by split; [apply later_refl|]].
  destruct Hsaid as [Hsaid Hid]. destruct (negb _ && negb _) eqn:Hn.
  - destruct (existsb _ _); [by split; [apply later_refl|]|]. do 2 step.
    eapply wp_mono; [|apply order_spec; [done|done|by vm_compute]]. intros res s1 (H1 & _ & Hres).
    destruct res as [st|err]; [|done]. apply status_told; [done|]. exists status. rewrite Hn.
    split_and!; [destruct H1 as [_ _ _ Hsub _]; by apply Hsub|done..].
  - apply status_told; [by apply later_refl|]. exists status. by rewrite Hn.
Qed.

Lemma startInside_harmless sha256 name : harmless (startInside sha256 store name).
Proof.
  intros s Hl. unfold startInside. do 2 step. apply wp_ask_last. split; [done|]. intros t.
  set (s0 := next s _). assert (Hz : later s s0) by by apply later_next.
  destruct t as [t|err]; [|done]. step. eapply wp_mono; [|apply inspectRecords_spec, Hz].
  intros res s1 [H1 Hitems]. pose proof (later_trans _ _ _ Hz H1) as H2.
  destruct res as [[items problems]|err]; [|done]. cbv beta iota. step.
  eapply wp_mono; [|apply warn_harmless, H2]. intros warned s2 H3. pose proof (later_trans _ _ _ H2 H3) as H4.
  destruct warned as [err|]; [done|]. destruct (find _ _) as [item|] eqn:Hf; [|by apply harmless_after; [auto with harmless|]].
  apply find_some in Hf as [Hin%list_elem_of_In _].
  destruct Hitems as (records & Hk & Hok & _). rewrite Forall_forall in Hok. destruct (Hok item Hin) as (r & Hr & Hit).
  pose proof Hit as [He _]. subst r. unfold known in Hk. rewrite Forall_forall in Hk.
  eapply wp_mono; [|apply reuse_spec; [apply H4|destruct H3 as [_ Hsub _ _ _]; by apply Hsub, Hk|exact (item_ok_later _ _ _ _ H3 Hit)]].
  intros res s3 [H5 _]. exact (later_trans _ _ _ H4 H5).
Qed.
#[local] Hint Resolve startInside_harmless start_dependencies_harmless : harmless.

Lemma start_harmless sha256 name : harmless (start sha256 store name).
Proof. unfold start. auto 30 with harmless. Qed.

Lemma rollback_harmless id : harmless (rollbackStarted store id).
Proof.
  intros s Hl. unfold rollbackStarted. apply wp_bind. eapply wp_mono; [|by apply resolve_spec].
  intros res s1 [H1 Hk]. destruct res as [record|err]; [|done]. do 2 step.
  eapply wp_mono; [|apply order_spec; [apply H1|done|by vm_compute]]. intros res s2 (H2 & _ & _).
  pose proof (later_trans _ _ _ H1 H2) as H3. destruct res as [st|err]; [|done]. step.
  eapply wp_mono; [|apply stopped_spec, H3]. intros err s3 [H4 _]. exact (later_trans _ _ _ H3 H4).
Qed.
#[local] Hint Resolve rollback_harmless : harmless.

Lemma bootstrap_harmless sha256 name : harmless (bootstrap sha256 store name).
Proof. unfold bootstrap. auto 40 with harmless. Qed.

Lemma regen_harmless selector json : harmless (regen store selector json).
Proof. apply selected_harmless. by vm_compute. Qed.
#[local] Hint Resolve start_harmless bootstrap_harmless regen_harmless list_harmless serve_harmless doctor_harmless : harmless.

Lemma command_harmless sha256 platform version args result_store c : match result_store with Ok store' => store' = store | Err _ => True end ->
  harmless (invoke _ (fun err => mret (Some err)) c (commandFuncsForArgs sha256 platform version args result_store)).
Proof.
  intros Hstore. assert (Hcreated : harmless (invoke _ (fun err => mret (Some err)) c
    match result_store with Ok store => funcs sha256 platform version store | Err err => failing_funcs err end)).
  { destruct result_store as [store'|err]; [subst store'|];
      destruct c; cbn [invoke funcs failing_funcs fn_start fn_list fn_show fn_regen fn_kill fn_doctor fn_version fn_help fn_bootstrap fn_serve];
      unfold print_version, print_help; auto with harmless. }
  unfold commandFuncsForArgs. destruct args as [|arg args]; [exact Hcreated|].
  destruct (arg ==b _); [destruct c; cbn [invoke fn_start fn_list fn_show fn_regen fn_kill fn_doctor fn_version fn_help fn_bootstrap fn_serve];
    unfold print_version; auto with harmless|].
  destruct (_ || _); [|exact Hcreated].
  destruct c; cbn [invoke fn_start fn_list fn_show fn_regen fn_kill fn_doctor fn_version fn_help fn_bootstrap fn_serve];
    unfold print_help; auto with harmless.
Qed.

Lemma main_harmless sha256 platform version args created :
  match created with Ok store' => store' = store | Err _ => True end ->
  harmless (main sha256 platform version args created).
Proof.
  intros Hstore. unfold main. apply harmless_bind; [|auto with harmless].
  destruct (line_or_refused (aprog (option error)) (fun err => mret (Some err)) args) as [[c Hc]|[err Hr]].
  - rewrite (line_runs _ _ _ _ _ Hc). by apply command_harmless.
  - rewrite Hr. auto with harmless.
Qed.
End Harmless.

(** C2: whatever the user types and whatever its calls answer, the program
    touches only what belongs to workers that are dead.  It orders a worker to
    rename, rotate or stop only through the socket of a record it read from the
    store; it takes a lease only for a known record whose worker has just failed
    to answer, one at a time; a helper session, a control socket and a record are
    removed only under that lease, the socket only if it is one, is derived from
    the record's identifier and lies in the worker's directory, the record last,
    after the helper and the socket are gone; and in the end no lease is held,
    nor when a worker, a session or a shell is started. *)
Theorem commands_touch_only_dead_workers `{UnicodeTables} `{RecordCodec} sha256 platform version args store t code :
  runs (main sha256 platform version args (Ok store)) t code ->
  g_lease (foldl next nothing_known t) = None /\
  forall t1 c r t2, t = t1 ++ ev c r :: t2 -> allowed store (foldl next nothing_known t1) c.
Proof.
  intros Hrun. destruct (wp_runs (allowed store) next (main sha256 platform version args (Ok store))
    nothing_known (fun _ s' => later nothing_known s') t code) as [[Hl _ _ _ _] Hall]; [|done|by split].
  by apply main_harmless.
Qed.

(** C4: [kill] says how it went.  Every worker it is about is asked to stop,
    whatever happened to the others; it reports no error only if each of them is
    over (the store had no record of its identifier, and then nobody held its
    lease in the runtime directory of its record; or it did not answer and its
    record was removed from the store); and a record that could not be read is
    reported. *)
Theorem kill_reports_the_end `{UnicodeTables} `{RecordCodec} store selector (all : bool) t err :
  runs (kill store selector all) t err ->
  let s' := foldl next nothing_known t in
  if all then exists read t', t = ev (AReadAll store) read :: t' /\
    match read with
    | Err e => err = Some e
    | Ok (records, problems) =>
        Forall (fun r => ID r ∈ g_asked s') records /\
        (err = None -> problems = [] /\ Forall (is_over store s') records) /\
        Forall (fun p => reported (problem_error p) err) problems
    end
  else exists found t', t = ev (AResolve store selector) found :: t' /\
    match found with
    | Err e => err = Some e
    | Ok record => ID record ∈ g_asked s' /\ (err = None -> is_over store s' record)
    end.
Proof.
  destruct all; cbn [kill]; intros Hrun; unask Hrun found t'; exists found, t'; (split; [done|]); cbn [foldl].
  - destruct found as [[records problems]|e]; [|by destruct Hrun as [-> ->]].
    set (s1 := next nothing_known _). assert (Hk : known s1 records) by (apply Forall_forall; cbn; set_solver).
    destruct (_ && _) eqn:Hempty.
    { apply andb_true_iff in Hempty as [Hr%Nat.eqb_eq Hp%Nat.eqb_eq].
      by apply nil_length_inv in Hr as ->; apply nil_length_inv in Hp as ->. }
    destruct (problems_joined problems None) as (P1 & _ & P3).
    destruct (wp_runs (allowed store) next _ s1 _ t' err (kill_each_spec store records _ s1 eq_refl Hk) Hrun)
      as [[_ Ha Ho Hr] _]. split_and!; [done| |apply Forall_forall; intros p Hp; by apply Hr, P3].
    intros He. destruct (Ho He) as [Hn Hover]. split; [by apply P1|done].
  - destruct found as [record|e]; [|by destruct Hrun as [-> ->]].
    set (s1 := next nothing_known _). assert (Hk : record ∈ g_known s1) by by left.
    destruct (wp_runs (allowed store) next _ s1 _ t' err (killRecord_spec store record s1 eq_refl Hk) Hrun)
      as [[[_ Ho] Ha] _]. done.
Qed.

(** ** A dead worker *)

Definition dead_record : Record_ := demo_record !"abc123" !"one" !"@1".
(** Nobody answers at the socket, nobody holds the lease, and all else succeeds. *)
Definition dead_world (c : acall) : aanswer c :=
  match c return aanswer c with
  | AReadAll _ | AInspect _ => Ok ([dead_record], [])
  | AResolve _ _ => Ok dead_record
  | ALstat _ => Ok {| i_kind := KSocket; i_ino := 5; i_perm := 0; i_mtime := 0; i_size := 0 |}
  | ARemoveIfPID _ _ _ => Ok true
  | ALeaseHeld _ _ => Ok false
  | ACall _ _ | AStartWorker _ _ => Err (EText !"connection refused")
  | AGetenv _ => !"tmux"
  | AGetwd | AEvalSymlinks _ | AExecutable | ALookPath _ | ARunCommand _ _ | ARandom _ | AResolveShell | AResolveCommand
    => Ok []
  | ANow => 1
  | AResolveTarget => Err (EText [])
  | ARounds => 3%nat
  | ASleep => tt
  | AReadLaunch => ([], None)
  | ACreateSession _ _ | AContextErr | AReplaceProcess _ _ | APrint _ _ | ATable _ | AFlushTable | AJson _ | ARemove _
  | ACleanupHelper _ _ | AAcquireLease _ _ | ALeaseClose | AShareRun _ _ _ | AWriteReady _
  | AOpenNull | ADupStderr | ACloseNull | AClose _ => None
  end.

Definition demo_main (args : list bytes) : list (event acall aanswer) * Z :=
  exec (fun _ => dead_world) [] (main (fun s => s) !"linux" !"dev" args (Ok demo_store)).

Lemma commands_touch_only_dead_workers_witness :
  snd (demo_main [!"list"; !"--json"]) = 0 /\ length (fst (demo_main [!"list"; !"--json"])) = 10%nat /\
  g_lease (foldl next nothing_known (fst (demo_main [!"list"; !"--json"]))) = None /\
  g_over (foldl next nothing_known (fst (demo_main [!"list"; !"--json"]))) = [Removed demo_store !"abc123" (PID dead_record)].
Proof.
  split_and!; [by vm_compute|by vm_compute| |by vm_compute].
  apply (commands_touch_only_dead_workers (fun s => s) !"linux" !"dev" [!"list"; !"--json"] demo_store _
    (snd (demo_main [!"list"; !"--json"])) (exec_runs _ _ [])).
Defined.

Definition demo_kill : list (event acall aanswer) * option error :=
  exec (fun _ => dead_world) [] (kill demo_store !"one" false).

Definition found_in (e : event acall aanswer) : option (result Record_) :=
  let 'existT c r := e in
  match c return aanswer c -> option (result Record_) with AResolve _ _ => fun r => Some r | _ => fun _ => None end r.

Lemma kill_reports_the_end_witness :
  snd demo_kill = None /\ !"abc123" ∈ g_asked (foldl next nothing_known (fst demo_kill)) /\
  is_over demo_store (foldl next nothing_known (fst demo_kill)) dead_record.
Proof.
  split; [by vm_compute|].
  destruct (kill_reports_the_end demo_store !"one" false _ (snd demo_kill) (exec_runs (fun _ => dead_world) _ []))
    as (found & t' & Ht & Hf).
  assert (Hfound : found = Ok dead_record).
  { change (fst demo_kill = ev (AResolve demo_store !"one") found :: t') in Ht.
    assert (H1 : head (fst demo_kill) = Some (ev (AResolve demo_store !"one") (Ok dead_record))) by (by vm_compute).
    rewrite Ht in H1. apply (f_equal (fun e => e ≫= found_in)) in H1. cbn in H1. by injection H1. }
  subst found. destruct Hf as [Ha Ho]. split; [exact Ha|]. apply Ho. by vm_compute.
Defined.
