(* ===== verification/ArgumentsProps.v ===== *)
(** * What one process of Wrap tells another arrives

    The command line of a new session is read back by the shell and by
    [runArgs]; the worker's flags by [parseServeArgs]; the launch record and the
    readiness status come through the inherited pipes. *)

From S2P Require Import Prelude Program GoString GoUnicode GoConv GoErrors GoPath GoShell Target Helper InstanceName Store Control.
From S2P Require Import PlainCodec PlainControl ShareService ShareProcess ShareProcessProps CommandLine CommandLineProps Application Commands.
Open Scope Z_scope.

Section Shell.
Context `{UnicodeTables}.

Definition bootstrap_args (name : bytes) : list bytes :=
  !"_bootstrap" :: (if name ==b [] then [] else [!"--name"; name]).

Lemma start_command_words executable name : sh_words (start_command executable name) = Some (executable :: bootstrap_args name).
Proof.
  unfold start_command, bootstrap_args. rewrite sh_quote_word by (right; by eexists).
  assert (Hw : forall w, w = !"_bootstrap" \/ w = !"--name" -> Forall (fun b => sh_literal b = true) w).
  { intros w [-> | ->]; repeat constructor. }
  change (!" _bootstrap" ++ ?rest) with (" "%byte :: !"_bootstrap" ++ rest). rewrite sh_space.
  case_bool_decide as Hn.
  - rewrite sh_literal_word; [done|by apply Hw; left|done|by left].
  - rewrite sh_literal_word; [|by apply Hw; left|done|right; by eexists].
    change (!" --name " ++ ?rest) with (" "%byte :: !"--name" ++ " "%byte :: rest). rewrite sh_space.
    rewrite sh_literal_word; [|by apply Hw; right|done|right; by eexists].
    rewrite sh_space, <- (app_nil_r (shellQuote name)), sh_quote_word by by left. done.
Qed.

Lemma bootstrap_line name : line (bootstrap_args name) (CBootstrap name).
Proof.
  unfold bootstrap_args. case_bool_decide as Hn; [subst; constructor|]. apply line_bootstrap_named; [|done].
  right. by left.
Qed.

Definition serve_args (record : Record_) : list bytes :=
  [!"--instance"; ID record; !"--control"; ControlSocket record; !"--record-fd"; itoa recordFD; !"--ready-fd"; itoa readyFD].

Lemma parse_serve_args record : Record_Validate record = None ->
  parseServeArgs (serve_args record) =
    Ok {| instanceID := ID record; controlSocket := ControlSocket record; sv_recordFD := recordFD; sv_readyFD := readyFD |}.
Proof.
  intros Hv.
  assert (Hid : ID record <> [] /\ is_abs (ControlSocket record) = true).
  { unfold Record_Validate in Hv. repeat case_match; try done; guards. split; [|done].
    intros He. rewrite He in *. done. }
  destruct Hid as [Hid Ha]. unfold parseServeArgs.
  assert (Hp : parse_flags 9 (serve_args record) {| instanceID := []; controlSocket := []; sv_recordFD := -1; sv_readyFD := -1 |} =
    Some ({| instanceID := ID record; controlSocket := ControlSocket record; sv_recordFD := recordFD; sv_readyFD := readyFD |}, []))
    by (vm_compute; reflexivity).
  change (S (length (serve_args record))) with 9%nat. rewrite Hp. cbn [instanceID controlSocket sv_recordFD sv_readyFD].
  rewrite (bool_decide_false _ Hid), Ha. done.
Qed.
End Shell.

Section Pipes.
Context `{UnicodeTables} `{RecordCodec} `{ReadyCodec}.

(** What the worker does with its arguments and what came through the pipe. *)
Lemma serve_runs store record t err : Record_Validate record = None ->
  Program.runs (serve store (serve_args record)) t err ->
  exists input readErr t', t = ev AReadLaunch (input, readErr) :: t' /\
    forall sent, ReadLaunch input readErr (ID record) (ControlSocket record) = Ok sent ->
    exists closed1 closed2, t' = [ev (AShareRun sent store (path_join [DiagnosticsDir store; ID sent ++ !".jsonl"])) err;
                                  ev (AClose ReadyWrite) closed1; ev (AClose RecordRead) closed2].
Proof.
  intros Hv. unfold serve. rewrite parse_serve_args by done. intros Hrun.
  destruct Hrun as ([input readErr] & t' & -> & Hrun). exists input, readErr, t'. split; [done|].
  intros sent Hread. cbn [prog_bind instanceID controlSocket] in Hrun. rewrite Hread in Hrun.
  destruct Hrun as (err' & t1 & -> & closed1 & t2 & -> & closed2 & t3 & -> & -> & ->). by exists closed1, closed2.
Qed.

Lemma not_failed err : None = failed (R := option error) err -> False.
Proof. done. Qed.

(** What the worker writes when it is ready. *)
Lemma report_runs status t : Program.runs (reportWorkerReady status) t None ->
  exists data, WriteReady status = Ok data /\ ev (AWriteReady data) None ∈ t.
Proof.
  unfold reportWorkerReady. destruct (WriteReady status) as [data|e]; [|by intros [? ?%not_failed]].
  rewrite try_ok. intros Hrun. exists data. split; [done|]. unfold check in Hrun. apply runs_bind in Hrun as (t1 & t2 & redirected & -> & _ & Hrun).
  destruct redirected as [e|]; [by destruct Hrun as [? ?%not_failed]|].
  destruct Hrun as (written & t3 & -> & Hrun). destruct written as [e|]; [by destruct Hrun as [? ?%not_failed]|].
  apply elem_of_app. right. by left.
Qed.

(** What [main] does with its arguments when the store could be made. *)
Definition dispatched sha256 platform version store (args : list bytes) : aprog (option error) :=
  runArgs _ (fun err => mret (Some err)) args (commandFuncsForArgs sha256 platform version args (Ok store)).

Lemma dispatch_bootstrap sha256 platform version store name :
  dispatched sha256 platform version store (bootstrap_args name) = bootstrap sha256 store name.
Proof. unfold dispatched. by rewrite (line_runs _ _ _ _ _ (bootstrap_line name)). Qed.

Lemma dispatch_serve sha256 platform version store args :
  dispatched sha256 platform version store (!"_serve" :: args) = serve store args.
Proof. unfold dispatched. by rewrite (line_runs _ _ _ _ _ (line_serve args)). Qed.

(** C13: what one process of Wrap tells another arrives.  The shell reads the
    command of a new session as the executable and arguments, whatever characters
    the name contains, and [main] runs [bootstrap] with that name for them.  For
    the arguments of a worker [main] runs [serve] with the flags, which are read
    back as the identifier, the socket and the two descriptors; if the launch pipe
    delivers what [Start] wrote for the started process (a valid record that JSON
    can carry), the worker serves exactly that record and then closes its
    descriptors.  A status that a worker reports, if JSON can carry it, is the one
    [Start] reads, when it is not longer than what [Start] reads. *)
Theorem processes_pass_arguments sha256 platform version executable :
  (forall name, exists args, sh_words (start_command executable name) = Some (executable :: args) /\
     forall store, dispatched sha256 platform version store args = bootstrap sha256 store name) /\
  (forall record pid payload, Record_Validate record = None -> 0 < pid ->
     storable (with_pid record pid) -> EncodeLaunch (with_pid record pid) = Ok payload ->
     exists args, worker_args executable record = executable :: args /\
       forall store t err, Program.runs (dispatched sha256 platform version store args) t err ->
       exists input readErr t', t = ev AReadLaunch (input, readErr) :: t' /\
         (input = payload -> readErr = None ->
          exists closed1 closed2, t' =
            [ev (AShareRun (with_pid record pid) store (path_join [DiagnosticsDir store; ID record ++ !".jsonl"])) err;
             ev (AClose ReadyWrite) closed1; ev (AClose RecordRead) closed2])) /\
  (forall status t, sendable_status status -> Program.runs (reportWorkerReady status) t None ->
     exists data, ev (AWriteReady data) None ∈ t /\ (len data <= maxReadyBytes -> readReady data None = Ok status)).
Proof.
  destruct pipes_roundtrip as (Hlaunch & _ & Hready). split_and!.
  - intros name. exists (bootstrap_args name). split; [apply start_command_words|]. intros store. apply dispatch_bootstrap.
  - intros record pid payload Hv Hpid Hs Hpay. exists (!"_serve" :: serve_args record). split; [done|].
    intros store t err. rewrite dispatch_serve. intros (input & readErr & t' & -> & Hrun)%serve_runs; [|done].
    exists input, readErr, t'. split; [done|]. intros -> ->. apply (Hrun (with_pid record pid)).
    exact (Hlaunch _ _ Hs Hpay).
  - intros status t Hs (data & Hd & Hin)%report_runs. exists data. split; [done|]. intros Hlen.
    by apply (Hready status).
Qed.
End Pipes.

Definition odd_name : bytes := !"it's $(rm -rf) \ odd".

Lemma processes_pass_arguments_witness :
  start_command !"/opt/my wrap" odd_name = !"'/opt/my wrap' _bootstrap --name 'it'\''s $(rm -rf) \ odd'" /\
  (exists args, sh_words (start_command !"/opt/my wrap" odd_name) = Some (!"/opt/my wrap" :: args) /\
     dispatched (fun s => s) !"linux" !"dev" demo_store args = bootstrap (fun s => s) demo_store odd_name) /\
  exists args, worker_args !"/opt/my wrap" (demo_record !"abc123" !"one" !"@1") = !"/opt/my wrap" :: args.
Proof.
  destruct (processes_pass_arguments (fun s => s) !"linux" !"dev" !"/opt/my wrap") as (Hshell & Hworker & _). split_and!.
  - vm_compute. reflexivity.
  - destruct (Hshell odd_name) as (args & Hw & Hd). exists args. split; [exact Hw|apply Hd].
  - destruct (EncodeLaunch (with_pid (demo_record !"abc123" !"one" !"@1") 99)) as [payload|e] eqn:Hp.
    + destruct (Hworker (demo_record !"abc123" !"one" !"@1") 99 payload) as (args & Ha & _);
        [by vm_compute|lia| |exact Hp|by exists args].
      split_and!; [repeat constructor|done..].
    + exfalso. vm_compute in Hp. discriminate Hp.
Defined.
