(* ===== verification/DoctorProps.v ===== *)
(** * The doctor's report says what it found

    The report is stated in terms of the answers, which do not change while the
    doctor looks, but for those of its context: it may end at any time. *)

From S2P Require Import Prelude Program GoString GoUnicode GoErrors GoPath GoOS GoShell TmuxSessions Target InstanceName.
From S2P Require Import Store Control PlainCodec MirrorTunnel Application Doctor Commands CommandProps.
Open Scope Z_scope.

(** The calls that change nothing. *)
Definition reads (c : acall) : bool :=
  match c with
  | ALookPath _ | ARunCommand _ _ | ALstat _ | AInspect _ | ALeaseHeld _ _ | AContextErr => true
  | ACall _ req => Action req ==b ActionStatus
  | _ => false
  end.

(** What the context answered, each time it was asked. *)
Definition context_answer (e : event acall aanswer) : option (option error) :=
  let 'existT c r := e in
  match c return aanswer c -> option (option error) with AContextErr => fun err => Some err | _ => fun _ => None end r.
Definition context_answers (t : list (event acall aanswer)) : list (option error) := omap context_answer t.

Section Report.
Context `{UnicodeTables} (env : forall c, aanswer c).
Variable store : Store.

(** Every answer but the context's is the one of [env]. *)
Definition steady (t : list (event acall aanswer)) : Prop :=
  Forall (fun e => projT2 e = env (projT1 e) \/ projT1 e = AContextErr) t.

(** Only calls that change nothing, and do not ask the context. *)
Definition looks (c : acall) : bool := reads c && match c with AContextErr => false | _ => true end.
Definition only_looks {A} (m : aprog A) : Prop := wp (fun _ c => looks c = true) (fun s _ => s) m () (fun _ _ => True).

Lemma looks_eval {A} (m : aprog A) t a : only_looks m -> runs m t a -> steady t ->
  a = eval env m /\ context_answers t = [] /\ Forall (fun e => reads (projT1 e) = true) t.
Proof.
  intros Hm Hrun Hs. destruct (wp_runs _ _ _ () _ _ _ Hm Hrun) as [_ Hall].
  assert (Hlooks : Forall (fun e => looks (projT1 e) = true) t).
  { apply Forall_forall. intros [c r] (l1 & l2 & ->)%list_elem_of_split. by apply (Hall l1 c r l2). }
  split_and!.
  - apply (runs_eval env _ _ _ Hrun). apply Forall_forall. intros e He. unfold steady in Hs.
    rewrite Forall_forall in Hs, Hlooks. destruct (Hs e He) as [?|Hc]; [done|]. specialize (Hlooks e He). clear -Hc Hlooks.  destruct e as [c r]. cbn in *. by subst c.
  - clear -Hlooks. unfold context_answers. induction Hlooks as [|[c r] t Hc _ IH]; [done|]. cbn. by destruct c.
  - eapply Forall_impl; [exact Hlooks|]. by intros e [? _]%andb_true_iff.
Qed.

Lemma only_looks_bind {A B} (m : aprog A) (f : A -> aprog B) : only_looks m -> (forall a, only_looks (f a)) -> only_looks (m ≫= f).
Proof. intros Hm Hf. apply wp_bind. eapply wp_mono; [|exact Hm]. intros a [] _. apply Hf. Qed.

Lemma only_looks_dependency name args parse : only_looks (checkDependency name args parse).
Proof. unfold checkDependency, only_looks. call path. destruct path; [|done]. by call output; destruct output. Qed.

Lemma only_looks_permissions paths : forall safe, only_looks (checkPermissions paths safe).
Proof.
  unfold only_looks. induction paths as [|path paths IH]; intros safe; cbn [checkPermissions]; [done|].
  case_bool_decide; [apply IH|]. call info. apply IH.
Qed.

Lemma only_looks_legacy path names : only_looks (checkLegacy path names).
Proof.
  induction names as [|name names IH]; cbn [checkLegacy]; [done|]. apply only_looks_bind; [done|]. intros output.
  by apply only_looks_bind.
Qed.

(** ** Programs *)

(** What is reported of a program that Wrap needs. *)
Definition dependency_found (name : bytes) (args : list bytes) (parse : bytes -> result bytes) (d : Dependency) : Prop :=
  DepName d = name /\
  (DepOK d = true <-> exists path output version, env (ALookPath name) = Ok path /\
     env (ARunCommand path args) = Ok output /\ parse output = Ok version) /\
  (DepOK d = true -> env (ALookPath name) = Ok (DepPath d) /\ exists output,
     env (ARunCommand (DepPath d) args) = Ok output /\ parse output = Ok (DepVersion d)).

Lemma dependency_eval name args parse : dependency_found name args parse (eval env (checkDependency name args parse)).
Proof.
  unfold checkDependency, dependency_found. cbn. destruct (env (ALookPath name)) as [path|] eqn:Hp; cbn.
  2: { split_and!; [done|split; [done|]|done]. intros (path & output & version & [=] & _). }
  destruct (env (ARunCommand path args)) as [output|] eqn:Ho; cbn.
  2: { split_and!; [done|split; [done|]|done]. intros (path' & output & version & [= <-] & He & _). congruence. }
  destruct (parse output) as [version|] eqn:Hv; cbn.
  - split_and!; [done|split; [|done]|]; [intros _; by exists path, output, version|]. intros _. split; [done|]. by exists output.
  - split_and!; [done|split; [done|]|done]. intros (path' & output' & version & [= <-] & He & Hv'). congruence.
Qed.

(** ** The records *)

Inductive standing := SLive | SHeld | SFree | SUnknown (err : error).
Definition standing_of (record : Record_) : standing :=
  if match env (ACall (ControlSocket record) (status_request (ID record))) with
     | Ok status => StID status ==b ID record
     | Err _ => false
     end then SLive
  else match ForRecord store record with
       | Err err => SUnknown err
       | Ok recordStore =>
           match env (ALeaseHeld recordStore (ID record)) with
           | Err err => SUnknown err
           | Ok true => SHeld
           | Ok false => SFree
           end
       end.
Definition is_live (r : Record_) : bool := match standing_of r with SLive => true | _ => false end.
Definition is_held (r : Record_) : bool := match standing_of r with SHeld => true | _ => false end.
Definition is_free (r : Record_) : bool := match standing_of r with SFree => true | _ => false end.
(** The error of the last record whose standing could not be found out. *)
Definition last_error (text : bytes) (records : list Record_) : bytes :=
  foldl (fun text r => match standing_of r with SUnknown err => error_text err | _ => text end) text records.

(** Every record of [records] was looked at, or those of [seen] until the
    context had ended; it was asked before each record whose worker did not
    answer. *)
Definition unanswered (seen : list Record_) : nat := length (filter (fun r => is_live r = false) seen).
Definition looked_at (records seen : list Record_) (asked : list (option error)) (text after : bytes) : Prop :=
  (seen = records /\ asked = replicate (unanswered seen) None /\ after = last_error text seen) \/
  exists record rest err, records = seen ++ record :: rest /\ is_live record = false /\
    asked = replicate (unanswered seen) None ++ [Some err] /\
    after = !"state inspection canceled: " ++ error_text err.

(** What looking at the records makes of a report. *)
Record inspected (records : list Record_) (asked : list (option error)) (report after : StateReport) : Prop := {
  is_counted : exists seen, Live after = Live report + count is_live seen /\
    Unreachable after = Unreachable report + count is_held seen /\ Stale after = Stale report + count is_free seen /\
    looked_at records seen asked (RepError report) (RepError after);
  is_fixed : Malformed after = Malformed report /\ SafePermissions after = SafePermissions report /\
    RepStateRoot after = RepStateRoot report /\ RepRuntimeRoot after = RepRuntimeRoot report
}.

Lemma inspected_nothing report : inspected [] [] report report.
Proof. split; [|done]. exists []. change (count _ []) with 0. split_and!; try lia. by left. Qed.

Lemma is_live_spec record : is_live record =
  match env (ACall (ControlSocket record) (status_request (ID record))) with
  | Ok status => StID status ==b ID record
  | Err _ => false
  end.
Proof.
  unfold is_live, standing_of. destruct (match env (ACall _ _) with Ok _ => _ | Err _ => _ end); [done|].
  destruct (ForRecord store record) as [r|]; [|done]. by destruct (env (ALeaseHeld _ _)) as [[]|].
Qed.

(** One record more. *)
Definition tally (record : Record_) (report : StateReport) : StateReport :=
  match standing_of record with
  | SLive => report <| Live := Live report + 1 |>
  | SHeld => report <| Unreachable := Unreachable report + 1 |>
  | SFree => report <| Stale := Stale report + 1 |>
  | SUnknown err => report <| RepError := error_text err |>
  end.

Lemma inspected_cons record records asked report after :
  inspected records asked (tally record report) after ->
  inspected (record :: records) (if is_live record then asked else None :: asked) report after.
Proof.
  intros [(seen & S1 & S2 & S3 & Hl) F]. split.
  - exists (record :: seen). rewrite !count_cons.
    assert (Hu : unanswered (record :: seen) = if is_live record then unanswered seen else S (unanswered seen)).
    { unfold unanswered. rewrite filter_cons. case_decide as Hd; destruct (is_live record); done. }
    split_and!; [unfold is_live in *|unfold is_held in *|unfold is_free in *|];
      try (unfold tally in *; destruct (standing_of record); cbn in *; lia).
    unfold looked_at in *. rewrite Hu.
    destruct Hl as [(-> & -> & ->)|(r & rest & err & -> & Hr & -> & ->)]; [left|right].
    + split_and!; [done|by destruct (is_live record)|]. unfold last_error, tally. cbn. by destruct (standing_of record).
    + exists r, rest, err. by split_and!; [..|destruct (is_live record)|].
  - unfold tally in F. by destruct (standing_of record).
Qed.

Lemma records_inspected records : forall report t after, runs (checkRecords store records report) t after -> steady t ->
  inspected records (context_answers t) report after /\ Forall (fun e => reads (projT1 e) = true) t.
Proof.
  induction records as [|record records IH]; intros report t after Hrun Hs; cbn [checkRecords] in Hrun.
  { destruct Hrun as [-> ->]. split; [apply inspected_nothing|done]. }
  assert (Hnext : forall asked t', runs (checkRecords store records (tally record report)) t' after -> steady t' ->
    asked = (if is_live record then context_answers t' else None :: context_answers t') ->
    inspected (record :: records) asked report after /\ Forall (fun e => reads (projT1 e) = true) t').
  { intros asked t' Hr Hs' ->. destruct (IH _ _ _ Hr Hs') as [Hi ?]. split; [by apply inspected_cons|done]. }
  unask Hrun status t1. apply Forall_cons in Hs as [[Hstatus|[=]] Hs]. cbn in Hstatus.
  pose proof (is_live_spec record) as Hlive. rewrite <- Hstatus in Hlive. rewrite <- Hlive in Hrun.
  unfold tally, standing_of in Hnext. rewrite <- Hstatus, <- Hlive in Hnext.
  destruct (is_live record) eqn:Hl.
  { destruct (Hnext _ _ Hrun Hs eq_refl) as [Hi Hr]. split; [exact Hi|by constructor]. }
  unask Hrun ended t2. apply Forall_cons in Hs as [_ Hs]. destruct ended as [err|].
  { unret Hrun. split; [|by repeat constructor]. split; [|done]. exists []. change (count _ []) with 0. cbn.
    split_and!; try lia. right. by exists record, records, err. }
  destruct (ForRecord store record) as [r|err].
  - unask Hrun held t3. apply Forall_cons in Hs as [[Hheld|[=]] Hs]. cbn in Hheld. rewrite <- Hheld in Hnext.
    edestruct Hnext as [Hi Hr]; [|exact Hs|reflexivity|split; [exact Hi|by repeat constructor]].
    by destruct held as [[]|].
  - destruct (Hnext _ _ Hrun Hs eq_refl) as [Hi Hr]. split; [exact Hi|by repeat constructor].
Qed.

(** ** Permissions *)

Lemma permissions_eval paths : forall safe, eval env (checkPermissions paths safe) =
  safe && forallb (fun path => negb (path ==b []) && private_dir (env (ALstat path))) paths.
Proof.
  induction paths as [|path paths IH]; intros safe; cbn [checkPermissions forallb]; [by rewrite andb_true_r|].
  case_bool_decide; cbn [negb andb].
  - rewrite IH. cbn. by rewrite andb_false_r.
  - rewrite eval_bind. cbn [ask eval]. rewrite IH. by rewrite andb_assoc.
Qed.

(** ** Servers of earlier versions *)

Definition blank (line : bytes) : Prop := trim_space line = [].

Lemma first_session_spec output :
  (Forall blank (output_lines output) /\ first_session output = []) \/
  (first_session output ∈ output_lines output /\ ~ blank (first_session output) /\ first_session output <> []).
Proof.
  unfold first_session. destruct (list_find _ _) as [[i line]|] eqn:Hf; cbn.
  - right. apply list_find_Some in Hf as (Hi & Hb & _). apply Is_true_true, negb_true_iff, bool_decide_eq_false in Hb.
    split_and!; [by eapply list_elem_of_lookup_2|done|]. intros ->. by apply Hb.
  - left. apply list_find_None in Hf. split; [|done]. eapply Forall_impl; [exact Hf|]. cbn. intros line Hb.
    apply Is_true_false, negb_false_iff, bool_decide_eq_true in Hb. done.
Qed.

Example session_of_crlf : first_session ([x0d; x0a] ++ !" " ++ [x0a] ++ !"main" ++ [x0d; x0a] ++ !"other") = !"main".
Proof. vm_compute. done. Qed.

Definition legacy_command (tmuxPath name : bytes) : acall :=
  ARunCommand tmuxPath [!"-L"; name; !"list-sessions"; !"-F"; !"#{session_name}"].

(** What is reported about a server: its first session, and commands that a
    shell reads as intended. *)
Definition legacy_found (tmuxPath : bytes) (l : LegacyServer) : Prop :=
  exists output, env (legacy_command tmuxPath (LegName l)) = Ok output /\
    LegSession l ∈ output_lines output /\ ~ blank (LegSession l) /\
    sh_words (ListCommand l) = Some [!"tmux"; !"-L"; LegName l; !"list-sessions"] /\
    sh_words (AttachCommand l) = Some [!"tmux"; !"-L"; LegName l; !"attach-session"; !"-t"; LegSession l].

Lemma legacy_words name session : name = !"wrap" \/ name = !"wrap-ui" -> session <> [] ->
  sh_words (!"tmux -L " ++ name ++ !" list-sessions") = Some [!"tmux"; !"-L"; name; !"list-sessions"] /\
  sh_words (!"tmux -L " ++ name ++ !" attach-session -t " ++ shellWord session) =
    Some [!"tmux"; !"-L"; name; !"attach-session"; !"-t"; session].
Proof.
  intros Hname Hs. assert (Hend : sh_words (shellWord session) = Some [session]).
  { rewrite <- (app_nil_r (shellWord session)), sh_shell_word by first [done|by left]. done. }
  assert (Hlit : forall w, forallb sh_literal w = true -> Forall (fun b => sh_literal b = true) w).
  { intros w Hw. apply Forall_forall. intros b Hb%list_elem_of_In. rewrite forallb_forall in Hw. by apply Hw. }
  destruct Hname as [-> | ->]; (split; [by vm_compute|]).
  all: match goal with |- sh_words (_ ++ ?name ++ _) = _ =>
    transitivity (sh_words (!"tmux" ++ " "%byte :: !"-L" ++ " "%byte :: name ++ " "%byte :: !"attach-session" ++
      " "%byte :: !"-t" ++ " "%byte :: shellWord session)); [done|] end.
  all: rewrite !sh_literal_words by first [done|by apply Hlit]; by rewrite Hend.
Qed.

Lemma legacy_eval tmuxPath names : Forall (fun name => name = !"wrap" \/ name = !"wrap-ui") names ->
  let after := eval env (checkLegacy tmuxPath names) in
  Forall (legacy_found tmuxPath) after /\
  (forall name output, name ∈ names -> env (legacy_command tmuxPath name) = Ok output ->
     ~ Forall blank (output_lines output) -> name ∈ map LegName after).
Proof.
  intros Hnames. induction Hnames as [|name names Hname _ [IH1 IH2]]; cbn zeta.
  { split; [done|]. by intros name output []%elem_of_nil. }
  cbn [checkLegacy]. rewrite eval_bind. cbn [ask eval]. rewrite eval_bind. cbn [eval mret prog_ret].
  fold (legacy_command tmuxPath name). destruct (env (legacy_command tmuxPath name)) as [output|err] eqn:Ho.
  - destruct (first_session_spec output) as [[Hb ->]|(Hin & Hb & Hne)].
    + rewrite bool_decide_true by done. split; [done|].
      intros name' output' [->|Hn]%elem_of_cons He Hnb; [congruence|by eapply IH2].
    + rewrite bool_decide_false by done. split.
      * constructor; [|done]. exists output. cbn. destruct (legacy_words name (first_session output) Hname Hne). done.
      * intros name' output' [->|Hn]%elem_of_cons He Hnb; [by left|]. right. by eapply IH2.
  - rewrite bool_decide_true by done. split; [done|].
    intros name' output' [->|Hn]%elem_of_cons He Hnb; [congruence|by eapply IH2].
Qed.

(** ** The report *)

(** What a report of the state says. *)
Record state_found (asked : list (option error)) (state : StateReport) : Prop := {
  sf_roots : RepStateRoot state = StateRoot store /\ RepRuntimeRoot state = RuntimeRoot store;
  sf_permissions : SafePermissions state = true <->
    Forall (fun path => path <> [] /\ private_dir (env (ALstat path)) = true) [StateRoot store; InstancesDir store; RuntimeRoot store];
  sf_records : match env (AInspect store) with
    | Err err => RepError state = error_text err /\ Live state = 0 /\ Stale state = 0 /\ Unreachable state = 0
    | Ok (records, problems) =>
        Malformed state = map re_path problems /\
        exists seen, Live state = count is_live seen /\ Unreachable state = count is_held seen /\
          Stale state = count is_free seen /\ looked_at records seen asked [] (RepError state)
    end
}.

Lemma state_runs t state : runs (checkState store) t state -> steady t ->
  state_found (context_answers t) state /\ Forall (fun e => reads (projT1 e) = true) t.
Proof.
  unfold checkState. intros (t1 & t2 & safe & -> & Hp & Hrun)%runs_bind [Hs1 Hs2]%Forall_app.
  destruct (looks_eval _ _ _ (only_looks_permissions _ _) Hp Hs1) as (Hval & Ha1 & Hr1). rewrite permissions_eval in Hval.
  assert (Hsafe : safe = true <-> Forall (fun path => path <> [] /\ private_dir (env (ALstat path)) = true)
    [StateRoot store; InstancesDir store; RuntimeRoot store]).
  { rewrite Hval, andb_true_l, forallb_forall, Forall_forall. split; intros Hall path Hp'.
    - apply list_elem_of_In, Hall, andb_true_iff in Hp' as [Hne%negb_true_iff%bool_decide_eq_false Hd]. done.
    - apply list_elem_of_In, Hall in Hp' as [Hne Hd]. by rewrite bool_decide_false, Hd. }
  unask Hrun inspection t3. apply Forall_cons in Hs2 as [[Hi|[=]] Hs2]. cbn in Hi.
  assert (Hasked : context_answers (t1 ++ ev (AInspect store) inspection :: t3) = context_answers t3).
  { unfold context_answers in *. rewrite omap_app, Ha1. done. }
  rewrite Hasked. destruct inspection as [[records problems]|err].
  - destruct (records_inspected _ _ _ _ Hrun Hs2) as [[(seen & S1 & S2 & S3 & Hl) (F1 & F2 & F3 & F4)] Hr].
    split; [|apply Forall_app; split; [done|by constructor]].
    split; [by rewrite F3, F4|by rewrite F2|]. rewrite <- Hi. split; [by rewrite F1|]. by exists seen.
  - unret Hrun. split; [|apply Forall_app; split; [done|by constructor]].
    split; [done|exact Hsafe|by rewrite <- Hi].
Qed.

(** What a report says. *)
Record report_found (platform : bytes) (asked : list (option error)) (report : Report) : Prop := {
  rf_platform : Platform report = platform;
  rf_tmux : dependency_found !"tmux" [!"-V"] CheckVersionOutput (RepTmux report);
  rf_cloudflared : dependency_found !"cloudflared" [!"--version"] parseCloudflaredVersion (RepCloudflared report);
  rf_state : state_found asked (RepState report);
  rf_legacy : DepPath (RepTmux report) = [] /\ RepLegacy report = [] \/
    Forall (legacy_found (DepPath (RepTmux report))) (RepLegacy report) /\
    (forall name output, name ∈ [!"wrap"; !"wrap-ui"] -> env (legacy_command (DepPath (RepTmux report)) name) = Ok output ->
       ~ Forall blank (output_lines output) -> name ∈ map LegName (RepLegacy report))
}.

Lemma check_runs platform t report : runs (Check platform store) t report -> steady t ->
  report_found platform (context_answers t) report /\ Forall (fun e => reads (projT1 e) = true) t.
Proof.
  unfold Check. intros (t1 & t' & tmux & -> & H1 & Hrun)%runs_bind [Hs1 Hs]%Forall_app.
  apply runs_bind in Hrun as (t2 & t'' & cloudflared & -> & H2 & Hrun). apply Forall_app in Hs as [Hs2 Hs].
  apply runs_bind in Hrun as (t3 & t4 & state & -> & H3 & Hrun). apply Forall_app in Hs as [Hs3 Hs4].
  apply runs_bind in Hrun as (t5 & t6 & legacy & -> & H4 & Hrun). unret Hrun. rewrite app_nil_r in *.
  assert (Hlegacy : only_looks (if DepPath tmux ==b [] then mret [] else checkLegacy (DepPath tmux) [!"wrap"; !"wrap-ui"])).
  { case_bool_decide; [done|apply only_looks_legacy]. }
  destruct (looks_eval _ _ _ (only_looks_dependency _ _ _) H1 Hs1) as (-> & A1 & R1).
  destruct (looks_eval _ _ _ (only_looks_dependency _ _ _) H2 Hs2) as (-> & A2 & R2).
  destruct (state_runs _ _ H3 Hs3) as [Hstate R3].
  destruct (looks_eval _ _ _ Hlegacy H4 Hs4) as (-> & A4 & R4).
  assert (Hasked : context_answers (t1 ++ t2 ++ t3 ++ t5) = context_answers t3).
  { unfold context_answers in *. rewrite !omap_app, A1, A2, A4. cbn. by rewrite app_nil_r. }
  rewrite Hasked. split; [|by repeat (apply Forall_app; split)].
  split; [done|apply dependency_eval|apply dependency_eval|exact Hstate|]. cbn [RepTmux RepLegacy].
  case_bool_decide; [by left|]. right. apply legacy_eval. constructor; [by left|]. constructor; [by right|done].
Qed.

Lemma say_all_runs texts : forall t, runs (say_all texts) t None -> t = map (fun text => ev (APrint Out text) None) texts.
Proof.
  induction texts as [|text texts IH]; intros t; cbn [say_all]; [by intros [-> _]|].
  intros (r & t' & -> & Hr). destruct r as [err|]; [by destruct Hr as [_ ?]|]. cbn [map]. f_equal. by apply IH.
Qed.

(** C6: the doctor's report says what it found.  While it looks it makes only
    calls that change nothing, and, in terms of the answers: a program is
    reported as usable exactly if it was found, ran and printed an acceptable
    version; the permissions as safe exactly if the three directories are
    private or absent; every record is counted as live, unreachable or stale by
    what its worker and its lease say, and what could not be found out is an
    error; the context is asked anew before each record whose worker did not
    answer, and when it has ended the count stops there, with the records before,
    and says so; the commands for servers of earlier versions are read by a shell
    as they are meant.  No error is returned only if the inspection was complete
    and the whole report was printed.  The answers do not change during the run,
    but for the context's: it may end at any time. *)
Theorem doctor_reports_what_it_found platform version (json : bool) t err :
  runs (doctorContext platform version store json) t err -> steady t ->
  exists t1 report t2, t = t1 ++ t2 /\ Forall (fun e => reads (projT1 e) = true) t1 /\
    report_found platform (context_answers t1) report /\
    (err = None -> RepError (RepState report) = [] /\
       t2 = if json then [ev (AJson (DReport version report)) None]
            else map (fun text => ev (APrint Out text) None) (report_text version report)).
Proof.
  unfold doctorContext. intros (t1 & t2 & report & -> & Hcheck & Hprint)%runs_bind [Ha _]%Forall_app.
  destruct (check_runs _ _ _ Hcheck Ha) as [Hfound Hreads].
  exists t1, report, t2. split_and!; [done|done|done|].
  - intros ->. unfold check in Hprint. apply runs_bind in Hprint as (t3 & t4 & printed & -> & Hp & Hr).
    destruct printed as [e|]; [by destruct Hr as [_ ?]|]. destruct Hr as [-> He].
    case_bool_decide as Hs; [|done]. split; [done|]. rewrite app_nil_r.
    destruct json; [|by apply say_all_runs]. destruct Hp as (r & t' & -> & -> & ->). done.
Qed.
End Report.

(** ** A machine without a running share *)

(** The context ends after it was asked once. *)
Definition two_dead (past : list (event acall aanswer)) (c : acall) : aanswer c :=
  match c return aanswer c with
  | AInspect _ => Ok ([dead_record; demo_record !"def456" !"two" !"@2"; demo_record !"def789" !"three" !"@3"], [])
  | AContextErr => if context_answers past is [] then None else Some (ESentinel ContextCanceled)
  | c => dead_world c
  end.

Example interrupted :
  let report := snd (exec two_dead [] (Check !"linux" demo_store)) in
  Stale (RepState report) = 1 /\ RepError (RepState report) = !"state inspection canceled: context canceled".
Proof. by vm_compute. Qed.

Lemma doctor_reports_what_it_found_witness : exists t err asked report,
  runs (doctorContext !"linux" !"dev" demo_store false) t err /\ err = None /\
  Stale (RepState report) = 1 /\ report_found dead_world demo_store !"linux" asked report.
Proof.
  set (m := doctorContext !"linux" !"dev" demo_store false).
  pose proof (exec_runs (fun _ => dead_world) m []) as Hrun.
  assert (Hs : steady dead_world (fst (exec (fun _ => dead_world) [] m))).
  { eapply Forall_impl; [exact (exec_agrees dead_world m [])|]. by left. }
  destruct (doctor_reports_what_it_found dead_world demo_store !"linux" !"dev" false _ _ Hrun Hs)
    as (t1 & report & t2 & Ht & _ & Hrep & _).
  exists (fst (exec (fun _ => dead_world) [] m)), (snd (exec (fun _ => dead_world) [] m)), (context_answers t1), report.
  split_and!; [exact Hrun|by vm_compute| |exact Hrep].
  destruct (sf_records _ _ _ _ (rf_state _ _ _ _ _ Hrep)) as (_ & seen & _ & _ & -> & Hl).
  destruct Hl as [(-> & _)|(record & rest & err & _ & _ & Ha & _)]; [by vm_compute|exfalso].
  assert (Hin : Some err ∈ context_answers (fst (exec (fun _ => dead_world) [] m))).
  { rewrite Ht. unfold context_answers in *. rewrite omap_app, Ha. apply elem_of_app. left. apply elem_of_app. right. by left. }
  assert (context_answers (fst (exec (fun _ => dead_world) [] m)) = [None]) as Hall by by vm_compute.
  rewrite Hall in Hin. by apply list_elem_of_singleton in Hin.
Defined.
