(* ===== verification/StartProps.v ===== *)
(** * Sharing a window starts one worker, or finds the one it has

    What [startInside] returns, and what holds of a worker it starts. *)

From S2P Require Import Prelude Program GoString GoUnicode GoConv GoErrors GoPath GoOS TmuxQuote Target Helper InstanceName Store Control.
From S2P Require Import PlainCodec ShareProcess CommandLine Application Doctor Commands CommandProps.
Open Scope Z_scope.

(** ** Programs that start no worker *)

Definition starts (c : acall) : option Record_ :=
  match c with AStartWorker _ record => Some record | _ => None end.
(** The records of the workers that were started. *)
Definition started (t : list (event acall aanswer)) : list Record_ := omap (fun e => starts (projT1 e)) t.

Definition starts_none {A} (m : aprog A) : Prop := forall t a, Program.runs m t a -> started t = [].

Lemma none_ret {A} (a : A) : starts_none (mret a).
Proof. by intros t b [-> _]. Qed.

Lemma none_ask c : starts c = None -> starts_none (ask c).
Proof. intros Hc t a (r & t' & -> & -> & _). cbn. by rewrite Hc. Qed.

Lemma started_app t1 t2 : started (t1 ++ t2) = started t1 ++ started t2.
Proof. unfold started. induction t1 as [|e t1 IH]; [done|]. cbn. destruct (starts (projT1 e)); [cbn; by rewrite IH|done]. Qed.

Lemma none_bind {A B} (m : aprog A) (f : A -> aprog B) : starts_none m -> (forall a, starts_none (f a)) -> starts_none (m ≫= f).
Proof.
  intros Hm Hf t b (t1 & t2 & a & -> & H1 & H2)%runs_bind. rewrite started_app, (Hm _ _ H1). by apply (Hf a _ b).
Qed.

Lemma none_try {A R} `{Failing R} (m : aprog (result A)) (k : A -> aprog R) :
  starts_none m -> (forall a, starts_none (k a)) -> starts_none (try m k).
Proof. intros Hm Hk. apply none_bind; [done|]. intros []; [apply Hk|apply none_ret]. Qed.

Lemma none_check {R} `{Failing R} (m : aprog (option error)) (k : aprog R) : starts_none m -> starts_none k -> starts_none (check m k).
Proof. intros Hm Hk. apply none_bind; [done|]. intros []; [apply none_ret|apply Hk]. Qed.

Lemma none_wrapped {A} before (m : aprog (result A)) : starts_none m -> starts_none (wrapped before m).
Proof. intros Hm. apply none_bind; [done|]. intros. apply none_ret. Qed.

Lemma none_wrapped_error before (m : aprog (option error)) : starts_none m -> starts_none (wrapped_error before m).
Proof. intros Hm. apply none_bind; [done|]. intros. apply none_ret. Qed.

Create HintDb starts.
#[export] Hint Resolve none_ret none_bind none_try none_check none_wrapped none_wrapped_error : starts.
#[export] Hint Extern 1 (starts_none (ask ?c)) => exact (none_ask c eq_refl) : starts.
#[export] Hint Extern 1 (starts_none (say ?to ?text)) => exact (none_ask (APrint to text) eq_refl) : starts.
#[export] Hint Extern 2 (starts_none _) =>
  match goal with |- starts_none (match ?x with _ => _ end) => destruct x end : starts.

Section Start.
Context `{UnicodeTables} `{RecordCodec} (sha256 : bytes -> bytes).
Variable store : Store.

Lemma none_inspect_each removeDead records : starts_none (inspect_each store removeDead records).
Proof.
  assert (Hsocket : forall root record, starts_none (cleanupStaleControlSocket root record)).
  { intros. unfold cleanupStaleControlSocket. cbv zeta. auto 20 with starts. }
  assert (Hdead : forall record err, starts_none (remove_dead store record err)).
  { intros. unfold remove_dead, cleanupStaleArtifacts. cbv zeta. auto 80 with starts. }
  induction records as [|record records IH]; cbn [inspect_each]; [auto with starts|].
  unfold inspect_record. cbv zeta. auto 40 with starts.
Qed.

Lemma none_inspect removeDead : starts_none (inspectRecords store removeDead).
Proof. pose proof none_inspect_each. unfold inspectRecords. auto 20 with starts. Qed.

Lemma none_warn problems : starts_none (warn_malformed problems).
Proof. induction problems; cbn [warn_malformed]; auto with starts. Qed.

Lemma none_status status json : starts_none (writeStatus status json).
Proof. unfold writeStatus. auto 20 with starts. Qed.

Lemma none_dependencies : starts_none checkStartDependencies.
Proof.
  unfold checkStartDependencies, CheckDependencies, checkTmux, checkCloudflared, checkDependency. cbv zeta. auto 40 with starts.
Qed.

Lemma none_reuse name records item : starts_none (reuse name records item).
Proof. pose proof none_status. unfold reuse. cbv zeta. auto 30 with starts. Qed.

(** ** A new worker *)

(** A worker was started for the window [t], with a record made of the chosen
    name and of what was read, after tmux and cloudflared were accepted. *)
Record launched (requested : bytes) (t : Target) (records : list Record_) (tr : list (event acall aanswer)) (r : result Status) : Prop := {
  la_record : exists chosen random exe now answer before after,
    ChooseName requested t records = Some (Ok chosen) /\ ev (ARandom 16) (Ok random) ∈ before /\ ev ANow now ∈ before /\
    tr = before ++ ev (AStartWorker exe (new_record store (hex_encode random) chosen now t)) answer :: after /\
    started before = [] /\ started after = [] /\ (forall status, r = Ok status -> answer = Ok status) /\
    exists checked tmux cloudflared, checked `prefix_of` before /\
      Program.runs CheckDependencies checked (tmux, cloudflared) /\ DepOK tmux = true /\ DepOK cloudflared = true
}.

Lemma not_ok {A} (e : error) : failed (R := result A) e = Err e.
Proof. done. Qed.

Lemma dependencies_ok t : Program.runs checkStartDependencies t None ->
  exists tmux cloudflared, Program.runs CheckDependencies t (tmux, cloudflared) /\ DepOK tmux = true /\ DepOK cloudflared = true.
Proof.
  unfold checkStartDependencies. intros (t1 & t2 & [tmux cloudflared] & -> & Hc & [-> Hf])%runs_bind.
  exists tmux, cloudflared. rewrite app_nil_r. split; [done|]. cbn in Hf.
  destruct (DepOK tmux), (DepOK cloudflared); done.
Qed.

Lemma new_runs requested t records tr r : Program.runs (start_new store requested t records) tr r ->
  (started tr = [] /\ exists e, r = Err e) \/ launched requested t records tr r.
Proof.
  unfold start_new. intros (td & t1 & de & -> & Hd & H1)%runs_check. pose proof (none_dependencies _ _ Hd) as Nd.
  destruct de as [e|]; [destruct H1 as [-> ->]; left; rewrite app_nil_r; split; [done|by eexists]|].
  apply dependencies_ok in Hd. apply runs_try in H1 as (t2 & t3 & name & -> & [-> Hname] & H1).
  destruct name as [chosen|e]; [|destruct H1 as [-> ->]; left; rewrite app_nil_r; split; [done|by eexists]].
  assert (Hchosen : ChooseName requested t records = Some (Ok chosen)) by (destruct (ChooseName _ _ _) as [[]|]; cbn in Hname; congruence).
  destruct H1 as (random & t4 & -> & H1). destruct random as [random|e].
  2: { destruct H1 as [-> ->]. left. rewrite started_app, Nd. split; [done|by eexists]. }
  destruct H1 as (exe & t5 & -> & H1). destruct exe as [exe|e].
  2: { destruct H1 as [-> ->]. left. rewrite started_app, Nd. split; [done|by eexists]. }
  destruct H1 as (now & t6 & -> & answer & after & -> & H1). cbn [prog_bind] in H1.
  right. split. exists chosen, random, exe, now, answer,
    (td ++ [ev (ARandom 16) (Ok random); ev AExecutable (Ok exe); ev ANow now]), after.
  destruct Hd as (tmux & cloudflared & Hc & Ht & Hcl). split_and!.
  - done.
  - apply elem_of_app. right. by left.
  - apply elem_of_app. right. do 2 right. by left.
  - by rewrite <- app_assoc.
  - by rewrite started_app, Nd.
  - destruct answer as [status|e]; [|by destruct H1 as [-> _]].
    apply runs_check in H1 as (t7 & t8 & w & -> & Hw & H1). rewrite started_app, (none_status _ _ _ _ Hw).
    by destruct w; destruct H1 as [-> _].
  - intros status ->. destruct answer as [status'|e]; [|by destruct H1].
    apply runs_check in H1 as (t7 & t8 & w & -> & Hw & H1). destruct w as [e|]; [by destruct H1 as [_ ?]|].
    by destruct H1 as [_ [= ->]].
  - exists td, tmux, cloudflared. split_and!; [by apply prefix_app_r|done..].
Qed.

(** ** The record of a new worker *)

Definition complete_target (t : Target) : Prop :=
  is_abs (SocketPath t) = true /\ Generation t <> [] /\ SessionID t <> [] /\ WindowID t <> [] /\ is_abs (Directory t) = true.

Lemma hex_byte_id b : forallb (fun c => is_alnum (bz c)) (hex_byte b) = true.
Proof. revert b. all_bytes. Qed.

Lemma hex_id random : length random = 16%nat -> idPattern (hex_encode random) = true /\ slash ∉ hex_encode random.
Proof.
  intros Hlen.
  assert (Hal : forallb (fun c => is_alnum (bz c)) (hex_encode random) = true).
  { clear Hlen. induction random as [|b random IH]; [done|]. unfold hex_encode. cbn [flat_map].
    rewrite forallb_app, hex_byte_id. exact IH. }
  split.
  - assert (Hl : length (hex_encode random) = 32%nat).
    { unfold hex_encode. do 17 (destruct random as [|? random]; try discriminate Hlen). done. }
    unfold idPattern, instanceIDPattern. destruct (hex_encode random) as [|c rest]; [done|].
    cbn [forallb] in Hal. apply andb_true_iff in Hal as [Hc Hrest]. rewrite Hc.
    assert (forallb is_id_byte rest = true) as ->.
    { apply forallb_forall. intros b Hb. rewrite forallb_forall in Hrest. unfold is_id_byte. by rewrite (Hrest b Hb). }
    cbn [length] in Hl. injection Hl as Hl. unfold len. by rewrite Hl.
  - intros Hin. rewrite forallb_forall in Hal. apply list_elem_of_In, Hal in Hin. done.
Qed.

Lemma sock_name id : slash ∉ id -> id <> [] -> simple_name (id ++ !".sock").
Proof.
  intros Hid Hne. destruct id as [|c id]; [done|]. split_and!; [|done| |].
  - intros [Hin|Hin]%elem_of_app; [done|].
    apply list_elem_of_In in Hin. by repeat destruct Hin as [Hin|Hin].
  - intros Heq. by destruct id.
  - intros Heq. by destruct id as [|? [|]].
Qed.

Lemma new_record_valid random chosen now t : clean_abs (RuntimeRoot store) -> RuntimeRoot store <> !"/" ->
  length random = 16%nat -> ValidateName chosen = None -> now <> 0 -> complete_target t ->
  let record := new_record store (hex_encode random) chosen now t in
  Record_Validate record = None /\ ForRecord store record = Ok store.
Proof.
  intros Hr Hroot Hlen Hv Hnow (T1 & T2 & T3 & T4 & T5). destruct (hex_id random Hlen) as [Hid Hslash].
  assert (Hne : hex_encode random <> []) by (intros He; by rewrite He in Hid).
  pose proof (sock_name _ Hslash Hne) as Hs. pose proof (path_clean_join _ _ Hr Hs) as [Ha Hc]. cbv zeta. split.
  - unfold Record_Validate, new_record.
    cbn [InstanceName.Version ID Name PID ControlSocket StartedAt RecDirectory RecTarget].
    rewrite Z.eqb_refl, Hid, Hv, Ha, T1, T5, (proj2 (Z.eqb_neq _ _) Hnow), !bool_decide_false by done. done.
  - unfold ForRecord. cbn [ControlSocket ID new_record]. rewrite Hc, Ha, path_base_join, path_dir_join by done.
    rewrite !bool_decide_true, bool_decide_false by done. cbn. by destruct store.
Qed.

(** ** The theorem *)

#[local] Abbreviation key t := (Target_Key sha256 t).
#[local] Abbreviation final t := (foldl next nothing_known t).

(** Nothing was started; a status that is returned was answered by the worker
    of a stored record of the same window. *)
Definition found_shared (requested : bytes) (t : list (event acall aanswer)) (r : result Status) : Prop :=
  started t = [] /\ match r with
    | Err _ => True
    | Ok status => exists target record, ev AResolveTarget (Ok target) ∈ t /\ key (RecTarget record) = key target /\
        record ∈ g_known (final t) /\ answered record requested (final t) status
    end.

(** One worker was started, for a window that no living record has. *)
Record started_new (requested : bytes) (t : list (event acall aanswer)) (r : result Status) (target : Target)
    (records : list Record_) (chosen random : bytes) (now : Z) : Prop := {
  sn_target : ev AResolveTarget (Ok target) ∈ t;
  sn_records : exists problems, ev (AReadAll store) (Ok (records, problems)) ∈ t;
  sn_random : ev (ARandom 16) (Ok random) ∈ t;
  sn_now : ev ANow now ∈ t;
  sn_once : exists exe answer before after,
    t = before ++ ev (AStartWorker exe (new_record store (hex_encode random) chosen now target)) answer :: after /\
    started before = [] /\ started after = [] /\ (forall status, r = Ok status -> answer = Ok status);
  sn_checked : exists checked tmux cloudflared, Program.runs CheckDependencies checked (tmux, cloudflared) /\
    DepOK tmux = true /\ DepOK cloudflared = true /\ checked ⊆ t;
  sn_free : Forall (fun record => is_over store (final t) record \/ key (RecTarget record) <> key target) records;
  sn_name : len records < 10 ^ 9 - 5 ->
    ValidateName chosen = None /\ chosen <> !"all" /\ (requested <> [] -> chosen = requested) /\
    Forall (fun record => is_over store (final t) record \/ Name record <> chosen) records
}.

Lemma items_all (P : Record_ -> Prop) s s' records items : later s s' -> items_ok store s records items ->
  Forall P (map in_record items) -> Forall (fun record => is_over store s' record \/ P record) records.
Proof.
  intros [_ _ _ _ Ho] (_ & Hall & _) Hp. rewrite Forall_forall in Hp. eapply Forall_impl; [exact Hall|].
  intros record [Hin|Hover]; [right; by apply Hp|left; by eapply is_over_later].
Qed.

Lemma final_app t1 t2 : final (t1 ++ t2) = foldl next (final t1) t2.
Proof. apply foldl_app. Qed.

(** A part of a run without a lease leads to a later state. *)
Lemma runs_later {A} (m : aprog A) s t a : harmless store m -> g_lease s = None -> Program.runs m t a -> later s (foldl next s t).
Proof. intros Hm Hl Hr. apply (wp_runs _ _ _ _ _ _ _ (Hm s Hl) Hr). Qed.

Lemma items_ok_later s s' records items : later s s' -> items_ok store s records items -> items_ok store s' records items.
Proof.
  intros Hl (H1 & H2 & H3). split_and!; [| |done].
  - eapply Forall_impl; [exact H1|]. intros item (r & Hr & Hit). exists r. split; [done|exact (item_ok_later _ _ _ _ Hl Hit)].
  - eapply Forall_impl; [exact H2|]. intros r [Hr|Hr]; [by left|right]. eapply is_over_later, Hr. apply Hl.
Qed.

(** After the inspection and its warnings. *)
Lemma go_on requested target records items s t r :
  g_lease s = None -> known s records -> items_ok store s records items ->
  Program.runs (match find (fun item => key (RecTarget (in_record item)) ==b key target) items with
                | Some item => reuse requested (map in_record items) item
                | None => start_new store requested target (map in_record items)
                end) t r ->
  let s' := foldl next s t in
  (started t = [] /\ match r with
     | Err _ => True
     | Ok status => exists record, key (RecTarget record) = key target /\ record ∈ g_known s' /\ answered record requested s' status
     end) \/
  (launched requested target (map in_record items) t r /\ later s s' /\
   Forall (fun record => is_over store s' record \/ key (RecTarget record) <> key target) records).
Proof.
  intros Hl Hk Hi Hr. destruct (find _ _) as [item|] eqn:Hf; cbv zeta.
  - left. split; [exact (none_reuse _ _ _ _ _ Hr)|]. apply find_some in Hf as [Hin%list_elem_of_In Hkey%bool_decide_eq_true].
    destruct Hi as (Hok & _). rewrite Forall_forall in Hok. destruct (Hok item Hin) as (record & Hrec & Hit).
    pose proof Hit as [He _]. subst record. unfold known in Hk. rewrite Forall_forall in Hk. pose proof (Hk _ Hrec) as Hkn.
    destruct (wp_runs _ _ _ _ _ _ _ (reuse_spec store requested (map in_record items) item s Hl Hkn Hit) Hr) as [[Hlater Ht] _].
    destruct r as [status|]; [|done]. exists (in_record item). split_and!; [done| |done].
    destruct Hlater as [_ Hsub _ _ _]. by apply Hsub.
  - pose proof (runs_later _ s t r (new_harmless store requested target (map in_record items)) Hl Hr) as Hlater.
    assert (Hno : Forall (fun r => key (RecTarget r) <> key target) (map in_record items)).
    { apply Forall_forall. intros rec (item & -> & Hin%list_elem_of_In)%list_elem_of_fmap.
      by pose proof (find_none _ _ Hf item Hin) as Hk'%bool_decide_eq_false. }
    destruct (new_runs _ _ _ _ _ Hr) as [[Hn [e ->]]|Hla]; [by left|]. right. split_and!; [done..|].
    by eapply items_all.
Qed.

(** The window, the records and what is left of them, before anything is decided. *)
Lemma inspected_first requested t r : Program.runs (startInside sha256 store requested) t r ->
  (started t = [] /\ exists e, r = Err e) \/
  exists target records problems items t1 t2, t = t1 ++ t2 /\ started t1 = [] /\
    ev AResolveTarget (Ok target) ∈ t1 /\ ev (AReadAll store) (Ok (records, problems)) ∈ t1 /\
    g_lease (final t1) = None /\ known (final t1) records /\ items_ok store (final t1) records items /\
    Program.runs (match find (fun item => key (RecTarget (in_record item)) ==b key target) items with
                  | Some item => reuse requested (map in_record items) item
                  | None => start_new store requested target (map in_record items)
                  end) t2 r.
Proof.
  intros Hrun. apply runs_try in Hrun as (t0 & t0' & tgt & -> & Htgt & Hrun).
  apply runs_wrapped in Htgt as (tgt' & (tgt'' & t' & -> & -> & ->) & ->).
  destruct tgt'' as [target|e]; [|by destruct Hrun as [-> ->]; left; eauto].
  apply runs_try in Hrun as (t1 & t2 & res & -> & Hi & Hrun).
  pose proof (none_inspect true _ _ Hi) as Ni.
  destruct res as [[items problems]|e]; [|by destruct Hrun as [-> ->]; left; rewrite app_nil_r; split; [|eauto]].
  apply runs_check in Hrun as (t3 & t4 & warned & -> & Hw & Hrun). pose proof (none_warn _ _ _ Hw) as Nw.
  destruct warned as [e|]; [destruct Hrun as [-> ->]; left; cbn; rewrite app_nil_r, started_app, Ni, Nw; split; [done|eauto]|].
  right. apply runs_try in Hi as (t5 & t5' & read & -> & (read' & t6' & -> & -> & ->) & Hi).
  destruct read' as [[records problems']|e]; [|by destruct Hi].
  apply runs_try in Hi as (t6 & t7 & items' & -> & He & Hi). destruct items' as [items'|]; [|by destruct Hi].
  destruct Hi as [-> [= -> ->]]. rewrite app_nil_r in *.
  set (e1 := ev AResolveTarget (Ok target)) in *. set (e2 := ev (AReadAll store) (Ok (records, problems'))) in *.
  assert (Hk0 : known (final [e1; e2]) records) by (apply Forall_forall; cbn; set_solver).
  destruct (wp_runs _ _ _ _ _ _ _ (inspect_each_spec store true records (final [e1; e2]) eq_refl Hk0) He) as [[Hl1 Hok] _].
  pose proof (runs_later _ _ _ _ (warn_harmless store problems') (lt_lease _ _ Hl1) Hw) as Hl2.
  exists target, records, problems', items', (e1 :: e2 :: t6 ++ t3), t4. split_and!.
  - cbn. by rewrite <- app_assoc.
  - change (started ([e1; e2] ++ t6 ++ t3) = []). rewrite !started_app, (none_inspect_each true records _ _ He), Nw. done.
  - by left.
  - right. by left.
  - change (g_lease (final ([e1; e2] ++ t6 ++ t3)) = None). rewrite final_app, foldl_app. apply Hl2.
  - change (known (final ([e1; e2] ++ t6 ++ t3)) records). rewrite final_app, foldl_app.
    exact (known_later _ _ _ (later_trans _ _ _ Hl1 Hl2) Hk0).
  - change (items_ok store (final ([e1; e2] ++ t6 ++ t3)) records items'). rewrite final_app, foldl_app.
    exact (items_ok_later _ _ _ _ Hl2 Hok).
  - exact Hrun.
Qed.

(** C36: sharing a window starts one worker or finds the one it has.
    [startInside] either starts nothing, and then a status it returns was
    answered by the worker of a stored record of the same window, under that
    record's identifier or to the rename it was just asked for; or it starts
    exactly one worker and returns only that worker's status, after tmux and
    cloudflared were accepted, for a window that no record has whose worker is
    not over.  The identifier is the random bytes.  With fewer than 10^9 - 5
    records, sixteen random bytes, a clock that is not zero, a complete target
    and a clean runtime directory, the name is valid, not reserved, the requested
    one if there was a request, and not the name of a record that is left (it may
    be the identifier of one), and the record that is handed over passes the
    checks of the worker and its paths lead back to the store. *)
Theorem start_shares_a_window_once requested t r : Program.runs (startInside sha256 store requested) t r ->
  found_shared requested t r \/
  exists target records chosen random now, started_new requested t r target records chosen random now /\
    (len records < 10 ^ 9 - 5 -> clean_abs (RuntimeRoot store) -> RuntimeRoot store <> !"/" -> length random = 16%nat ->
     now <> 0 -> complete_target target ->
     let record := new_record store (hex_encode random) chosen now target in
     Record_Validate record = None /\ ForRecord store record = Ok store).
Proof.
  intros [[Hn [e ->]]|(target & records & problems & items & t1 & t2 & -> & N1 & Ht & Hread & Hl & Hk & Hi & Hrun)]%inspected_first;
    [by left|].
  destruct (go_on _ _ _ _ _ _ _ Hl Hk Hi Hrun) as [[N2 Hr]|([Hla] & Hlater & Hfree)].
  { left. split; [by rewrite started_app, N1, N2|]. destruct r as [status|]; [|done].
    destruct Hr as (record & Hkey & Hkn & Hs). exists target, record. rewrite final_app. split_and!; [|done..].
    apply elem_of_app. by left. }
  right. destruct Hla as (chosen & random & exe & now & answer & before & after & Hc & Hrand & Hnow & -> & Nb & Na & Hans & Hdeps).
  exists target, records, chosen, random, now.
  assert (Hin : forall e, e ∈ before -> e ∈ t1 ++ before ++ ev (AStartWorker exe (new_record store (hex_encode random) chosen now target)) answer :: after).
  { intros e He. apply elem_of_app. right. apply elem_of_app. by left. }
  assert (Hname : len records < 10 ^ 9 - 5 -> ValidateName chosen = None /\ chosen <> !"all" /\
    (requested <> [] -> chosen = requested) /\ Forall (fun r => Name r <> chosen) (map in_record items)).
  { intros Hlen. destruct Hi as (_ & _ & Hle).
    destruct (chosen_name_ok requested target (map in_record items) chosen) as (H1 & H2 & H3 & H4); [|done|by split_and!].
    unfold len in *. rewrite length_map. lia. }
  split.
  - split; [apply elem_of_app; by left|exists problems; apply elem_of_app; by left|by apply Hin|by apply Hin| | | |].
    + exists exe, answer, (t1 ++ before), after. rewrite <- app_assoc, started_app, N1, Nb. by split_and!.
    + destruct Hdeps as (checked & tmux & cloudflared & [rest ->] & Hd1 & Hd2 & Hd3). exists checked, tmux, cloudflared.
      split_and!; [done..|]. intros e He. apply Hin, elem_of_app. by left.
    + rewrite final_app. exact Hfree.
    + intros Hlen. destruct (Hname Hlen) as (V1 & V2 & V3 & V4). split_and!; [done..|]. rewrite final_app.
      by eapply items_all.
  - intros Hlen Hroot Hne Hr Hn Hcomplete. apply new_record_valid; try done. by apply Hname.
Qed.
End Start.

(** ** A first share *)

(** Nothing is shared yet, the programs are there, and the worker becomes ready. *)
Definition first_world (c : acall) : aanswer c :=
  match c return aanswer c with
  | AReadAll _ => Ok ([], [])
  | ALookPath name => Ok (!"/bin/" ++ name)
  | ARunCommand path _ => Ok (if path ==b !"/bin/tmux" then !"tmux 3.4" else !"cloudflared version 2025.1.0")
  | ARandom _ => Ok !"0123456789abcdef"
  | AExecutable => Ok !"/bin/wrap"
  | AResolveTarget => Ok (demo_target !"@1")
  | AStartWorker _ record => Ok
      {| StID := ID record; StName := Name record; State := !"ready"; PairingURL := !"url"; QR := []; StDirectory := !"/src";
         Clients := 0; StStartedAt := 1; StTarget := RecTarget record; Warning := [] |}
  | c => dead_world c
  end.
Definition demo_start : list (event acall aanswer) * result Status :=
  exec (fun _ => first_world) [] (startInside (fun s => s) demo_store []).

Lemma start_shares_a_window_once_witness :
  (exists status, snd demo_start = Ok status) /\ length (started (fst demo_start)) = 1%nat /\
  exists record, started (fst demo_start) = [record] /\ Record_Validate record = None.
Proof.
  split_and!; [by eexists; vm_compute|by vm_compute|].
  destruct (start_shares_a_window_once (fun s => s) demo_store [] (fst demo_start) (snd demo_start) (exec_runs _ _ []))
    as [[Hnone _]|(target & records & chosen & random & now & Hnew & Hvalid)].
  { exfalso. vm_compute in Hnone. discriminate Hnone. }
  destruct Hnew as [Ht [problems Hr] Hrand Hnow (exe & answer & before & after & He & Nb & Na & _) _ _ _].
  pose proof (exec_agrees first_world (startInside (fun s => s) demo_store []) []) as Hag.
  unfold agrees in Hag. rewrite Forall_forall in Hag.
  pose proof (Hag _ Ht) as [= ->]. pose proof (Hag _ Hr) as [= -> ->]. pose proof (Hag _ Hrand) as [= ->].
  pose proof (Hag _ Hnow) as Hn. cbn in Hn. subst now.
  exists (new_record demo_store (hex_encode !"0123456789abcdef") chosen 1 (demo_target !"@1")). split.
  - change (started (fst demo_start) = [new_record demo_store (hex_encode !"0123456789abcdef") chosen 1 (demo_target !"@1")]).
    rewrite He, cons_middle, !started_app, Nb, Na. done.
  - apply Hvalid; try done; by vm_compute.
Defined.
